(* ===== verification/_CoqProject ===== *)
-Q . S2P
Prelude.v
Bytes.v
Utf8.v
Float64.v
Rounding.v
GoTime.v
Calendar.v
Kernel.v
TableKernel.v
Sysctl.v
MibCache.v
Registry.v
RegistryRace.v
KernelRegistry.v
Classify.v
Textproto.v
Metrics.v
FullRegistry.v
Poller.v
Server.v
Concurrent.v
Locks.v
Service.v
Subscribe.v
Name2Int.v
Flags.v
Tabwriter.v
Report.v
Json.v
Name2IntMain.v
Client.v
Commands.v
