(* ===== verification/Prelude.v ===== *)
(** * Verification of the sysctl telemetry server

    The program serves macOS kernel metrics over gRPC.  It reads them with
    sysctl(3) through a hand-written binding of libSystem (no cgo), names them
    in a table of 250 entries compiled in, classifies how often each changes,
    polls the ones worth polling into a store, answers requests from the store
    or live, and streams the changes of a set of metrics as deltas.  A client
    and an inspection tool come with it.

    ** The program's parts and the files that model them

    The paths are those of the repository under src/; a definition has the
    name of the Go function it translates ([T_m] for a method [m] of a type [T],
    a [_step] suffix for the body of a loop).

    - [Prelude]: Go errors as data, the three ways a Go call ends ([Ok], [Err],
      [Panic]), the state monad [M S] all effectful code is written in, its
      Hoare triples ([hoare], [hoare_ok]) and their automation ([run_simpl], the
      hint database [go]), machine-integer wrap-around, decimal formatting.
    - [Bytes], [Float64], [GoTime]: what the program uses of encoding/binary,
      of [float64] and of package time (tickers included).  [Rounding]: the error of [float64]
      division and multiplication, and of two printed decimals.  [Calendar]: the
      civil calendar as leap years and month lengths, and readers of printed
      times and durations.  [Utf8],
      [Flags], [Tabwriter], [Json]: what the commands use of unicode/utf8, flag,
      text/tabwriter and encoding/json, the last with a reader of JSON.
    - [Kernel]: the class [Kernel] is the two libSystem calls, on an abstract
      world; the class [SysctlSpec] is what sysctl(3) documents about them.
      [TableKernel] is an instance of both, on which the examples run.
    - [Sysctl]: internal/macosasmsysctl/sysctl.go and structs.go: raw calls,
      [nametomib], the size-then-read protocol [read_two_calls] shared by
      [GetRaw] and [GetRawMIB], the typed getters and structure decoders.
    - [MibCache]: internal/macosasmsysctl/mibcache.go: the cache from names to
      OIDs, sequentially ([Resolve], [Warm], [MIBCache_Get*]) and as goroutines
      interleaved at the lock's critical sections ([resolvers_step]).
    - [Registry]: internal/metrics/registry.go: the table [Known], [ByName]
      with its lazily built index, [ByCategory], [Categories].  [RegistryRace]:
      the same lazy index statement by statement, under concurrency.
    - [KernelRegistry]: internal/metrics/kernelregistry.go: loading, the name
      index, and [ValidateRegistry].
    - [Classify]: internal/metrics/darwin: the generator's two classifiers, the
      text it writes, and the checked-in 24.6.0.textproto as data.  [Textproto]:
      the generator's [main], and a reader of the protobuf text format.
    - [Metrics]: internal/server/server.go, [readMetricLive] with its switch on
      the declared type and the seven computed metrics.
    - [FullRegistry]: server.go, [buildFullRegistry], the listing handlers and
      [minSubscribeInterval].
    - [Poller]: internal/server/poller.go: the store, [newPoller], [tick], and the
      polling goroutine with [stop] as the step relation [loop_step].
    - [Server]: server.go, [New], [Stop], [GetMetrics], [GetMetricsByCategory].
    - [Concurrent]: server.go and poller.go together: requests, subscription
      reads and the goroutine as interleaved steps on one store ([sys_step]),
      a critical section of the store being one step.  [Locks]: the same with
      the store's [sync.RWMutex] as a variable: Lock, RLock, RUnlock, Unlock and
      every access under it are steps ([fine_step]), readers block, the batch is
      written entry by entry; it refines [Concurrent] ([erase],
      [fine_simulates]).
    - [Service]: that system with the channels and the ticker of poller.go and
      the caller of [stop] ([serve_step]), and cmd/server/main.go: [server_main]
      up to [Serve], [main_step] for what happens after.
    - [Subscribe]: server.go, the delta stream, paced by the ticker it creates.
    - [Name2Int], [Report]: cmd/darwin-name2int/main.go: resolution,
      cross-reference with the XNU constants, read validation, the packing of a
      MIB in one integer; the table, CSV and summary reports.  [Name2IntMain]:
      its [main] after the flags, and the JSON output.
    - [Client]: cmd/client/main.go over an abstract transport ([SysctlClient]),
      of which it relies on one law ([delivers]): a unary call ends with an error
      or with a response that a handler of [Server] or [FullRegistry] gave.
    - [Commands]: the flags of the three commands, and each command on an
      argument vector ([client_command], [name2int_command], [server_command]).

    ** How the parts interact

    The state of a running server nests as the Go values do: [CacheSt W] is the
    kernel's world with the MIB cache; [Proc W] adds the package-level name
    index of the registry; [PollSt W] pairs it with the poller's record and
    [ServerSt W] with the server's.  Code that touches one part is lifted with
    [zoom].  [proc_ok] (the cache holds only the kernel's own OIDs, the index is
    absent or complete), [poll_ok] and [server_ok] are the invariants, and every
    operation is shown to preserve them.  The client of a component is verified
    against its class: [Kernel]/[SysctlSpec] for everything that reads, [Host]
    for the clock and the zone database, [MapOrder] for the order in which a Go
    map is iterated, [RegistryFiles] for the embedded files and the textproto
    parser, [ErrorText] for the rendering of errors.

    ** What the theorems show

    - Reads: [GetRaw] returns what the kernel holds or an error, for every
      behaviour of a kernel that changes between the two calls; [nametomib] is
      the kernel's own table; the structure decoders are inverse to the C
      layouts, on exactly the slices of the right width ([Sysctl]); every failed
      read, direct or cached, names the step that failed, with its errno
      ([MibCache]).
    - Cache: a cached getter answers what the uncached one does, on every
      branch; goroutines racing on it all get the kernel's OID, in at most three
      steps a goroutine; [Warm] resolves exactly the known names ([MibCache]).
    - Registry: [ByName] and the categories agree with the table, which
      category lists partition; the index is safe once built and unsafe on a
      concurrent first use ([Registry], [RegistryRace]); [ValidateRegistry]
      reports exactly the discrepancies ([KernelRegistry]); the classifiers are
      monotone on every name and category, six boot flags apart, and the
      checked-in registry is their output ([Classify]); the text the generator writes reads back as that registry,
      and a program that embeds it loads it ([Textproto]).
    - Metrics: [readMetricLive] is total, refines one abstract read and decode,
      never leaves a metric with both or neither of value and error; for counts
      below 2^53 the percentages and ratios show the nearest hundredth of the
      exact quotient, up to the error of one or two roundings; sums of
      connections do not wrap; an uptime is the whole seconds from the boot time
      that was read to the clock reading that follows it, its value exact for
      194 days and then at most one second more, so that its two renderings can
      differ; a printed time is a calendar date that reads back to
      its instant ([Metrics]).
    - Poller: a tick reads exactly what is due and reschedules it; over any run
      of ticks a stored value is at most one TTL old, the ticks whose batch has
      an entry are at least one TTL apart and none that finds it due leaves it
      out, and nothing else is ever written; [stop] terminates, once, with no
      tick after it ([Poller]).
    - Server: [New] always yields a working server, [GetMetrics] never fails and
      prefers the store ([Server]); the served registry and the minimum
      subscription interval ([FullRegistry]).
    - Concurrency: in every interleaving a request's answers are whole versions
      of the store or live reads, from versions that never go back, lock and all;
      a request waits only for a writer that is announced or inside, no one can
      put that writer off, and there is no deadlock ([Locks]: with the name index
      warm, as [New] with a poller leaves it, [New_starts_warm]); the staleness
      bound of the poller still holds; and a handler alone is the sequential
      [GetMetrics] ([Concurrent]).
    - Service: from start-up with the checked-in registry to an answer, every
      request is served from the store, with values less than a TTL older than
      the last tick; a waiting [stop] can always move on, and in every run the
      moves it takes are accounted for: a fixed number, and as many again for
      every tick that Go's [select] prefers to the closed channel ([stopping]);
      no tick runs after it; [main] exits with status 0 only after [stop] ([Service]).
    - Subscribe: deltas are lossless and minimal, errors are reported once, the
      stream ends with the transport's own error; an interval below the floor is
      refused, and otherwise the rounds are that interval apart ([Subscribe]).
    - Tools: the rows, the packing, the validation and the reports of
      darwin-name2int ([Name2Int], [Report]); its JSON reads back as the rows and
      its table is aligned ([Name2IntMain]); [client -all] prints one section per
      category with what the server answered, or fails and prints nothing
      ([Client]); argument vectors are
      parsed back to the flags they spell out ([Commands]).

    A theorem is marked with its claim number (C1 to C40, by importance) in
    its comment; where it has hypotheses, the lemma of the same name with the
    suffix [_witness] applies it to concrete values.

    ** Bounds

    Every loop of the source over a slice or a map is a [foldM] or a [mapM]; the
    retry loop of [validateReads] recurses on its three remaining attempts, the
    code's own bound; the stream of [Subscribe], which runs until the transport
    ends it, recurses on the list of the transport's events (each tick with the
    time the round took, so that the ticker's instants are computed); the polling
    goroutine, which runs until it is stopped, is a step relation; flag parsing
    recurses on the arguments.  Three functions take fuel: [format] the largest
    number of cells of a line, which bounds the columns it opens; the readers
    [parse_value] the length of the text ([json_size_le] shows it is enough
    for every encoded value) and [read_fields] one more than the number of
    tokens, of which each call takes one.  Integers are [Z] within the bounds of
    their Go type, and every operation that can leave them wraps ([i32], [i64],
    [u32], ...).

    ** What is not modelled

    - The kernel, libSystem, prototext (the reader of [Textproto] gives one
      file its meaning; [LoadKernelRegistry] is proved for any parser), the
      listener and gRPC itself: not code of the repository.
    - The syntax of integer and duration flags ([FlagSyntax]), the help text of
      package flag, and the control characters of text/tabwriter that no row
      contains.
    - linkname.go, cgo_import.go and the ARM64 trampolines: linker directives and
      assembly that pass the arguments of the two libSystem calls through.
    - The generated protobuf code, apart from the message structs.
    - The log lines, apart from the counts the poller logs and those of the
      server's [main]; request contexts and the client's deadline, one of the
      errors a call may return.
    - The steps inside one live read: [Concurrent] takes it as one step, and
      [Locks] a handler's as two, the look-up in the name index and the rest.  Its
      shared state is that index, which [Locks] assumes built (the look-up then
      only reads it) and whose unsynchronised first use is in [RegistryRace]; the
      MIB cache, whose own interleavings are in [MibCache]; and the kernel, whose
      world may change at every call in all of the development.

    ** Plan

    To be added, in this order: the MIB cache's steps of one live read interleaved
    with the poller's; the load averages' decimals; the text the client prints. *)

From Stdlib Require Import ZArith Lia.
From Stdlib Require Import Strings.Byte.
From stdpp Require Export base tactics list gmap strings pretty fin_maps.

Local Open Scope Z_scope.

(** ** Go values shared by every component *)

(** A Go [error].  [Errno e] is the package's [Errno] type; [Errorf f args] is
    the value of [fmt.Errorf(f, args...)] (and of the [fmt.Sprintf] calls that
    build an error text), kept as its format and arguments. *)
Inductive goerror :=
  | Errno (e : Z)
  | Errorf (format : string) (args : list fmtarg)
with fmtarg :=
  | AStr (s : string)
  | AInt (z : Z)
  | AMib (m : list Z)
  | AErr (e : goerror).

(** The result of running Go code: a value, an [error] returned to the caller,
    or a run-time panic. *)
Inductive outcome (A : Type) :=
  | Ok (a : A)
  | Err (e : goerror)
  | Panic.
Arguments Ok {A} a.
Arguments Err {A} e.
Arguments Panic {A}.

Definition outcome_map {A B} (f : A → B) (o : outcome A) : outcome B :=
  match o with Ok a => Ok (f a) | Err e => Err e | Panic => Panic end.

Definition outcome_bind {A B} (f : A → outcome B) (o : outcome A) : outcome B :=
  match o with Ok a => f a | Err e => Err e | Panic => Panic end.

(** [outcome_agree o1 o2]: the same value, or an error (whatever its text) on
    both sides, or a panic on both sides. *)
Definition outcome_agree {A} (o1 o2 : outcome A) : Prop :=
  match o1, o2 with
  | Ok a, Ok b => a = b
  | Err _, Err _ => True
  | Panic, Panic => True
  | _, _ => False
  end.

Definition is_ok {A} (o : outcome A) : bool :=
  match o with Ok _ => true | _ => false end.

(** ** The state and error monad of the model

    [M S A] is Go code that runs in state [S] and returns an [A].  [x ← m; k]
    (stdpp's bind) is "on error return the error"; [errcase m h k] is
    [v, err := m; if err != nil { h }; k]. *)
Definition M (S A : Type) : Type := S → outcome A * S.

#[export] Instance M_ret {S} : MRet (M S) := λ A a s, (Ok a, s).
#[export] Instance M_bind {S} : MBind (M S) := λ A B k m s,
  match m s with
  | (Ok a, s') => k a s'
  | (Err e, s') => (Err e, s')
  | (Panic, s') => (Panic, s')
  end.

Section Monad.
Context {S : Type}.

Definition raise {A} (e : goerror) : M S A := λ s, (Err e, s).
Definition panic {A} : M S A := λ s, (Panic, s).
Definition gets {A} (f : S → A) : M S A := λ s, (Ok (f s), s).
Definition modify (f : S → S) : M S unit := λ s, (Ok tt, f s).
Definition of_outcome {A} (o : outcome A) : M S A := λ s, (o, s).

Definition errcase {A B} (m : M S A) (h : goerror → M S B) (k : A → M S B) : M S B :=
  λ s,
    match m s with
    | (Ok a, s') => k a s'
    | (Err e, s') => h e s'
    | (Panic, s') => (Panic, s')
    end.

(** [return nil, fmt.Errorf(..., err)]: rewrite the error of [m]. *)
Definition wrap_err {A} (f : goerror → goerror) (m : M S A) : M S A :=
  errcase m (λ e, raise (f e)) mret.

(** [for _, x := range l { acc = body(acc, x) }]. *)
Fixpoint foldM {A X} (body : A → X → M S A) (acc : A) (l : list X) : M S A :=
  match l with
  | [] => mret acc
  | x :: l' => acc' ← body acc x; foldM body acc' l'
  end.

(** [for i, x := range l { out[i] = f(x) }]. *)
Fixpoint mapM {X A} (f : X → M S A) (l : list X) : M S (list A) :=
  match l with
  | [] => mret []
  | x :: l' => y ← f x; ys ← mapM f l'; mret (y :: ys)
  end.
End Monad.

Notation "'try' x ← m 'catch' e '⇒' h ; k" :=
  (errcase m (λ e, h) (λ x, k))
  (at level 20, x name, m at level 100, e name, h at level 100, k at level 200,
   right associativity,
   format "'try'  x  ←  m  'catch'  e  '⇒'  h ; '/' k").

(** Run code of a component on its part of a larger state. *)
Definition zoom {S T A} (get : S → T) (set : T → S → S) (m : M T A) : M S A :=
  λ s, let '(o, t) := m (get s) in (o, set t s).

(** ** A Hoare logic for [M]

    [hoare P m Q E]: from a state satisfying [P], [m] does not panic; a value
    it returns satisfies [Q] and an error it returns satisfies [E], both
    together with the final state. *)
Definition hoare {S A} (P : S → Prop) (m : M S A)
    (Q : A → S → Prop) (E : goerror → S → Prop) : Prop :=
  ∀ s, P s →
    match m s with
    | (Ok a, s') => Q a s'
    | (Err e, s') => E e s'
    | (Panic, _) => False
    end.

(** [safe m]: [m] never panics; it may return an error. *)
Definition safe {S A} (m : M S A) : Prop := ∀ s, (m s).1 ≠ Panic.

(** No error either: [m] always returns a value. *)
Abbreviation hoare_ok P m Q := (hoare P m Q (λ _ _, False)).

Create HintDb go.
Create Rewrite HintDb go.

Section Hoare.
Context {S : Type}.
Implicit Types P I : S → Prop.

Lemma hoare_ret {A} P (a : A) (Q : A → S → Prop) E :
  (∀ s, P s → Q a s) → hoare P (mret a) Q E.
Proof. intros H s Hs. by apply H. Qed.

Lemma hoare_raise {A} P e (Q : A → S → Prop) (E : goerror → S → Prop) :
  (∀ s, P s → E e s) → hoare P (raise e) Q E.
Proof. intros H s Hs. by apply H. Qed.

Lemma hoare_bind {A B} P (m : M S A) (k : A → M S B) R Q E :
  hoare P m R E → (∀ a, hoare (R a) (k a) Q E) → hoare P (mbind k m) Q E.
Proof.
  intros Hm Hk s Hs. specialize (Hm s Hs). unfold mbind, M_bind.
  destruct (m s) as [[a|e|] s']; [by apply Hk|done|done].
Qed.

Lemma hoare_errcase {A B} P (m : M S A) h (k : A → M S B) R RE Q E :
  hoare P m R RE → (∀ e, hoare (RE e) (h e) Q E) →
  (∀ a, hoare (R a) (k a) Q E) → hoare P (errcase m h k) Q E.
Proof.
  intros Hm Hh Hk s Hs. specialize (Hm s Hs). unfold errcase.
  destruct (m s) as [[a|e|] s']; [by apply Hk|by apply Hh|done].
Qed.

Lemma hoare_conseq {A} P P' (m : M S A) Q Q' (E E' : goerror → S → Prop) :
  hoare P' m Q' E' → (∀ s, P s → P' s) → (∀ a s, Q' a s → Q a s) →
  (∀ e s, E' e s → E e s) → hoare P m Q E.
Proof.
  intros Hm HP HQ HE s Hs. specialize (Hm s (HP s Hs)).
  destruct (m s) as [[a|e|] s']; eauto.
Qed.

Lemma hoare_gets {A} P (f : S → A) (Q : A → S → Prop) E :
  (∀ s, P s → Q (f s) s) → hoare P (gets f) Q E.
Proof. intros H s Hs. by apply H. Qed.

Lemma hoare_modify P (f : S → S) (Q : unit → S → Prop) E :
  (∀ s, P s → Q tt (f s)) → hoare P (modify f) Q E.
Proof. intros H s Hs. by apply H. Qed.

Lemma hoare_of_outcome {A} P (o : outcome A) (Q : A → S → Prop) (E : goerror → S → Prop) :
  (∀ s, P s → match o with Ok a => Q a s | Err e => E e s | Panic => False end) →
  hoare P (of_outcome o) Q E.
Proof. intros H s Hs. specialize (H s Hs). by destruct o. Qed.

(** A loop that fills [out[i] = f(x_i)]: the results correspond one to one,
    in order, to the inputs. *)
Lemma hoare_mapM {X A} (f : X → M S A) (l : list X) I (R : X → A → Prop) E :
  (∀ x, x ∈ l → hoare I (f x) (λ a s, R x a ∧ I s) E) →
  hoare I (mapM f l) (λ ys s, Forall2 R l ys ∧ I s) E.
Proof.
  induction l as [|x l IH]; intros Hf; simpl.
  { apply hoare_ret. eauto. }
  eapply hoare_bind; [apply Hf; left|]. intros a. simpl.
  eapply hoare_bind with (R := λ ys s, (R x a ∧ Forall2 R l ys) ∧ I s).
  { intros s [HR HI]. specialize (IH (λ y Hy, Hf y (list_elem_of_further _ _ _ Hy)) s HI).
    destruct (mapM f l s) as [[ys|e|] s']; naive_solver. }
  intros ys. apply hoare_ret. naive_solver.
Qed.

(** A loop with accumulator: invariant [I] indexed by the elements done. *)
Lemma hoare_foldM {X A} (body : A → X → M S A) (l : list X) (I : list X → A → S → Prop) E acc :
  (∀ done x rest a, l = done ++ x :: rest →
     hoare (I done a) (body a x) (I (done ++ [x])) E) →
  hoare (I [] acc) (foldM body acc l) (I l) E.
Proof.
  intros Hb.
  cut (∀ rest done a, l = done ++ rest →
         hoare (I done a) (foldM body a rest) (I l) E).
  { intros H. by apply H. }
  induction rest as [|x rest IH]; intros done a Hl; simpl.
  { apply hoare_ret. rewrite Hl, app_nil_r. eauto. }
  eapply hoare_bind; [by eapply Hb|]. intros a'.
  apply IH. by rewrite Hl, <- app_assoc.
Qed.

(** The [for] loops of the code, unrolled from the right. *)
Lemma foldM_snoc {X A} (body : A → X → M S A) acc l x s :
  foldM body acc (l ++ [x]) s = (a ← foldM body acc l; body a x) s.
Proof.
  revert acc s. induction l as [|y l IH]; intros acc s; simpl;
    unfold mbind, M_bind, mret, M_ret; simpl.
  - by destruct (body acc x s) as [[]].
  - destruct (body acc y s) as [[a|e|] s']; [|done|done]. apply IH.
Qed.
End Hoare.

Lemma safe_hoare {S A} (m : M S A) :
  safe m → hoare (λ _, True) m (λ _ _, True) (λ _ _, True).
Proof. intros Hm s _. specialize (Hm s). by destruct (m s) as [[]]. Qed.

Lemma hoare_safe {S A} (m : M S A) Q E : hoare (λ _, True) m Q E → safe m.
Proof. intros Hm s. specialize (Hm s I). by destruct (m s) as [[]]. Qed.

Lemma hoare_zoom {S T A} (get : S → T) set (m : M T A) (P : S → Prop) Q E PT QT ET :
  hoare PT m QT ET →
  (∀ s, P s → PT (get s)) →
  (∀ s a t, P s → QT a t → Q a (set t s)) →
  (∀ s e t, P s → ET e t → E e (set t s)) →
  hoare P (zoom get set m) Q E.
Proof.
  intros Hm HP HQ HE s Hs. specialize (Hm (get s) (HP s Hs)). unfold zoom.
  destruct (m (get s)) as [[a|e|] t]; eauto.
Qed.

(** Split a Hoare goal along the monad's structure. *)
Ltac hoare_step :=
  lazymatch goal with
  | |- hoare _ (mret _) _ _ => apply hoare_ret
  | |- hoare _ (raise _) _ _ => apply hoare_raise
  | |- hoare _ (gets _) _ _ => apply hoare_gets
  | |- hoare _ (modify _) _ _ => apply hoare_modify
  | |- hoare _ (mbind _ _) _ _ => eapply hoare_bind
  | |- hoare _ (errcase _ _ _) _ _ => eapply hoare_errcase
  end.

(** Run monadic code on a concrete head: unfold the combinators. *)
Ltac run_simpl :=
  cbv beta iota zeta delta [mbind M_bind mret M_ret errcase wrap_err raise panic
    gets modify of_outcome zoom outcome_map] in *; cbn [fst snd] in *.

(** Prove a closed decidable proposition by evaluating its decision. *)
Ltac by_decide := refine (bool_decide_unpack _ _); vm_compute; exact I.

(** ** Machine integers, as [Z] with their wrap-around *)

Definition u8 (z : Z) : Z := z mod 2 ^ 8.
Definition u32 (z : Z) : Z := z mod 2 ^ 32.
Definition u64 (z : Z) : Z := z mod 2 ^ 64.
Definition i32 (z : Z) : Z := (z + 2 ^ 31) mod 2 ^ 32 - 2 ^ 31.
Definition i64 (z : Z) : Z := (z + 2 ^ 63) mod 2 ^ 64 - 2 ^ 63.

Lemma i32_range z : - 2 ^ 31 ≤ i32 z < 2 ^ 31.
Proof. unfold i32. pose proof (Z.mod_pos_bound (z + 2 ^ 31) (2 ^ 32)). lia. Qed.

Lemma i64_range z : - 2 ^ 63 ≤ i64 z < 2 ^ 63.
Proof. unfold i64. pose proof (Z.mod_pos_bound (z + 2 ^ 63) (2 ^ 64)). lia. Qed.

Lemma i32_id z : - 2 ^ 31 ≤ z < 2 ^ 31 → i32 z = z.
Proof. intros H. unfold i32. rewrite Z.mod_small; lia. Qed.

Lemma i64_id z : - 2 ^ 63 ≤ z < 2 ^ 63 → i64 z = z.
Proof. intros H. unfold i64. rewrite Z.mod_small; lia. Qed.

Lemma u64_id z : 0 ≤ z < 2 ^ 64 → u64 z = z.
Proof. intros H. unfold u64. by rewrite Z.mod_small. Qed.

(** A signed conversion loses nothing: it is undone by the unsigned one. *)
Lemma u32_i32 z : u32 (i32 z) = u32 z.
Proof.
  unfold u32, i32. rewrite Zminus_mod_idemp_l. f_equal. lia.
Qed.

Lemma u64_i64 z : u64 (i64 z) = u64 z.
Proof.
  unfold u64, i64. rewrite Zminus_mod_idemp_l. f_equal. lia.
Qed.

Lemma i32_inj a b : 0 ≤ a < 2 ^ 32 → 0 ≤ b < 2 ^ 32 → i32 a = i32 b → a = b.
Proof.
  intros Ha Hb H. apply (f_equal u32) in H. rewrite !u32_i32 in H.
  unfold u32 in H. by rewrite !Z.mod_small in H.
Qed.

#[export] Hint Resolve i32_range i64_range : go.
#[export] Hint Rewrite u32_i32 u64_i64 : go.

(** ** Strings and bytes *)

#[export] Instance byte_eq_dec : EqDecision byte := Byte.byte_eq_dec.

(** [fmt.Sprintf("%d", z)]. *)
Definition fmt_d (z : Z) : string := pretty z.

Lemma fmt_d_inj a b : fmt_d a = fmt_d b → a = b.
Proof. apply (inj pretty). Qed.

(** [[]byte(name)] and [string(raw)]. *)
Definition bytes_of_string (s : string) : list byte := String.list_byte_of_string s.
Definition string_of_bytes (l : list byte) : string := String.string_of_list_byte l.

Lemma string_of_bytes_of_string s : string_of_bytes (bytes_of_string s) = s.
Proof. apply String.string_of_list_byte_of_string. Qed.

Lemma bytes_of_string_of_bytes l : bytes_of_string (string_of_bytes l) = l.
Proof. apply String.list_byte_of_string_of_list_byte. Qed.

(** [l[lo:hi]] where the code has already checked [0 <= lo <= hi <= len(l)]. *)
Definition slice {A} (l : list A) (lo hi : nat) : list A := take (hi - lo) (drop lo l).

(** ** Lists *)

Lemma Forall2_fmap_eq {A B C} (f : A → C) (g : B → C) l k :
  Forall2 (λ a b, f a = g b) l k → f <$> l = g <$> k.
Proof. induction 1; simpl; [done|by f_equal]. Qed.

Lemma list_filter_all {A} (P : A → Prop) `{∀ x, Decision (P x)} l :
  Forall P l → filter P l = l.
Proof.
  induction 1 as [|x l Hx Hl IH]; [done|].
  rewrite filter_cons_True by done. by rewrite IH.
Qed.

Lemma sum_list_with_insert {A} (f : A → nat) l i x y :
  l !! i = Some x → (sum_list_with f (<[i := y]> l) + f x = sum_list_with f l + f y)%nat.
Proof.
  revert i. induction l as [|z l IH]; intros [|i] Hi; simplify_eq/=; [lia|].
  specialize (IH i Hi). lia.
Qed.

Lemma length_filter_snoc {A} (P : A → Prop) `{∀ x, Decision (P x)} l x :
  Z.of_nat (length (filter P (l ++ [x])))
  = Z.of_nat (length (filter P l)) + (if decide (P x) then 1 else 0).
Proof.
  rewrite filter_app, length_app, filter_cons, filter_nil.
  destruct (decide (P x)); simpl; lia.
Qed.
