(* ===== verification/Bytes.v ===== *)
(** * Little-endian integers in byte slices

    The part of Go's [encoding/binary] and of the machine's memory layout the
    program uses: [binary.LittleEndian.Uint32/Uint64], the [uint32] words of a
    MIB seen as bytes, and their inverses. *)

From Stdlib Require Import ZArith Lia.
From Stdlib Require Import Strings.Byte.
From S2P Require Import Prelude.

Local Open Scope Z_scope.

Definition byte_to_Z (b : byte) : Z := Z.of_N (Byte.to_N b).

Definition byte_of_Z (z : Z) : byte :=
  match Byte.of_N (Z.to_N (u8 z)) with Some b => b | None => "000"%byte end.

(** [b[0] | b[1]<<8 | b[2]<<16 | ...] *)
Fixpoint le_combine (l : list byte) : Z :=
  match l with
  | [] => 0
  | b :: l' => Z.lor (byte_to_Z b) (Z.shiftl (le_combine l') 8)
  end.

(** The [n] low bytes of [z], least significant first. *)
Fixpoint le_split (n : nat) (z : Z) : list byte :=
  match n with
  | O => []
  | S n' => byte_of_Z z :: le_split n' (Z.shiftr z 8)
  end.

(** [binary.LittleEndian.Uint32(b)] and [Uint64(b)] on a slice the code has
    checked to be long enough. *)
Definition LittleEndian_Uint32 (b : list byte) : Z := le_combine (take 4 b).
Definition LittleEndian_Uint64 (b : list byte) : Z := le_combine (take 8 b).

(** A buffer of [uint32]s seen as bytes, and back (arm64 is little-endian). *)
Fixpoint bytes_of_words (ws : list Z) : list byte :=
  match ws with
  | [] => []
  | w :: ws' => le_split 4 w ++ bytes_of_words ws'
  end.

Fixpoint words_of_bytes (n : nat) (l : list byte) : list Z :=
  match n with
  | O => []
  | S n' => le_combine (take 4 l) :: words_of_bytes n' (drop 4 l)
  end.

(** ** Bytes *)

Lemma byte_to_Z_range b : 0 ≤ byte_to_Z b < 2 ^ 8.
Proof.
  unfold byte_to_Z. pose proof (Byte.to_N_bounded b). lia.
Qed.

Lemma byte_to_of_Z z : byte_to_Z (byte_of_Z z) = u8 z.
Proof.
  unfold byte_of_Z, byte_to_Z.
  assert (Hr : 0 ≤ u8 z < 256) by (unfold u8; apply Z.mod_pos_bound; lia).
  destruct (Byte.of_N (Z.to_N (u8 z))) as [b|] eqn:E.
  - apply Byte.to_of_N in E. rewrite E. lia.
  - apply Byte.of_N_None_iff in E. lia.
Qed.

Lemma byte_to_Z_inj a b : byte_to_Z a = byte_to_Z b → a = b.
Proof.
  unfold byte_to_Z. intros H%N2Z.inj.
  pose proof (Byte.of_to_N a). pose proof (Byte.of_to_N b). congruence.
Qed.

Lemma byte_of_to_Z b : byte_of_Z (byte_to_Z b) = b.
Proof.
  apply byte_to_Z_inj. rewrite byte_to_of_Z.
  apply Z.mod_small, byte_to_Z_range.
Qed.

(** ** Combining and splitting *)

(** Low byte and high part do not overlap, so [|] is [+]. *)
Lemma le_combine_cons b l : le_combine (b :: l) = byte_to_Z b + 2 ^ 8 * le_combine l.
Proof.
  cbn [le_combine]. rewrite Z.shiftl_mul_pow2 by lia.
  set (h := byte_to_Z b). set (t := le_combine l * 2 ^ 8).
  assert (Hland : Z.land h t = 0).
  { apply Z.bits_inj'. intros i Hi. rewrite Z.land_spec, Z.bits_0.
    destruct (decide (i < 8)).
    - unfold t. by rewrite Z.mul_pow2_bits_low, andb_false_r.
    - pose proof (byte_to_Z_range b) as Hb. fold h in Hb.
      rewrite <- (Z.mod_small h (2 ^ 8)) by done.
      by rewrite Z.mod_pow2_bits_high by lia. }
  pose proof (Z.add_lor_land h t). lia.
Qed.

Lemma le_combine_range l : 0 ≤ le_combine l < 2 ^ (8 * Z.of_nat (length l)).
Proof.
  induction l as [|b l IH]; [done|].
  rewrite le_combine_cons. pose proof (byte_to_Z_range b).
  replace (2 ^ (8 * Z.of_nat (length (b :: l)))) with (2 ^ 8 * 2 ^ (8 * Z.of_nat (length l))).
  - revert IH. generalize (2 ^ (8 * Z.of_nat (length l))). intros P. lia.
  - rewrite <- Z.pow_add_r by lia. f_equal. simpl. lia.
Qed.

Lemma length_le_split n z : length (le_split n z) = n.
Proof. revert z. induction n; intros; simpl; auto. Qed.

Lemma le_split_combine l : le_split (length l) (le_combine l) = l.
Proof.
  induction l as [|b l IH]; [done|]. cbn [length le_split].
  rewrite le_combine_cons. pose proof (byte_to_Z_range b).
  rewrite (Z.add_comm (byte_to_Z b)), (Z.mul_comm (2 ^ 8)). f_equal.
  - apply byte_to_Z_inj. rewrite byte_to_of_Z. unfold u8.
    rewrite Z.add_comm, Z.mod_add by lia. by apply Z.mod_small.
  - rewrite Z.shiftr_div_pow2, Z.div_add_l, Z.div_small by lia.
    by rewrite Z.add_0_r.
Qed.

Lemma le_combine_split n z : le_combine (le_split n z) = z mod 2 ^ (8 * Z.of_nat n).
Proof.
  revert z. induction n as [|n IH]; intros z.
  { simpl. by rewrite Z.mod_1_r. }
  cbn [le_split]. rewrite le_combine_cons, IH, byte_to_of_Z.
  rewrite Z.shiftr_div_pow2 by lia. unfold u8.
  replace (2 ^ (8 * Z.of_nat (S n))) with (2 ^ 8 * 2 ^ (8 * Z.of_nat n)).
  2: { rewrite <- Z.pow_add_r by lia. f_equal. lia. }
  rewrite Z.rem_mul_r by lia. done.
Qed.

Lemma le_combine_split_id n z : 0 ≤ z < 2 ^ (8 * Z.of_nat n) → le_combine (le_split n z) = z.
Proof. intros H. rewrite le_combine_split. by apply Z.mod_small. Qed.

Lemma LittleEndian_Uint32_range l : 0 ≤ LittleEndian_Uint32 l < 2 ^ 32.
Proof.
  unfold LittleEndian_Uint32. pose proof (le_combine_range (take 4 l)) as H.
  rewrite length_take in H.
  assert (2 ^ (8 * Z.of_nat (4 `min` length l)) ≤ 2 ^ 32) by (apply Z.pow_le_mono_r; lia). lia.
Qed.

Lemma LittleEndian_Uint64_range l : 0 ≤ LittleEndian_Uint64 l < 2 ^ 64.
Proof.
  unfold LittleEndian_Uint64. pose proof (le_combine_range (take 8 l)) as H.
  rewrite length_take in H.
  assert (2 ^ (8 * Z.of_nat (8 `min` length l)) ≤ 2 ^ 64) by (apply Z.pow_le_mono_r; lia). lia.
Qed.

(** ** Words *)

Definition word32 (z : Z) : Prop := 0 ≤ z < 2 ^ 32.

#[export] Instance word32_dec z : Decision (word32 z).
Proof. unfold word32. apply _. Defined.

Lemma length_bytes_of_words ws : length (bytes_of_words ws) = (4 * length ws)%nat.
Proof.
  induction ws as [|w ws IH]; [done|]. cbn [bytes_of_words].
  rewrite length_app, length_le_split, IH. simpl. lia.
Qed.

Lemma words_of_bytes_of_words ws l :
  Forall word32 ws → words_of_bytes (length ws) (bytes_of_words ws ++ l) = ws.
Proof.
  intros H. induction H as [|w ws Hw Hws IH]; [done|].
  cbn [length words_of_bytes bytes_of_words].
  rewrite <- app_assoc.
  rewrite take_app_length' by done.
  rewrite drop_app_length' by done.
  f_equal; [by apply le_combine_split_id|]. apply IH.
Qed.

Lemma words_of_bytes_range n l : Forall word32 (words_of_bytes n l).
Proof.
  revert l. induction n as [|n IH]; intros l; simpl; constructor; [|done].
  apply LittleEndian_Uint32_range.
Qed.

Lemma length_words_of_bytes n l : length (words_of_bytes n l) = n.
Proof. revert l. induction n; intros; simpl; auto. Qed.

#[export] Hint Resolve LittleEndian_Uint32_range LittleEndian_Uint64_range : go.
#[export] Hint Rewrite length_le_split length_bytes_of_words length_words_of_bytes : go.

(** Fields of a fixed-layout struct written one after the other: the [i]-th
    slice is the [i]-th field. *)
Lemma slice_app_here {A} (k l m : list A) lo hi :
  lo = length k → hi = (lo + length l)%nat → slice (k ++ l ++ m) lo hi = l.
Proof.
  intros -> ->. unfold slice. rewrite drop_app_length.
  replace (length k + length l - length k)%nat with (length l) by lia.
  by rewrite take_app_length.
Qed.
