(* ===== verification/Utf8.v ===== *)
(** * UTF-8 text (unicode/utf8, and the padding of [fmt])

    Go strings are bytes; the encoders and the formatted columns of the tools
    count and copy code points.  A byte that is not part of a valid encoding
    counts as one code point. *)

From Stdlib Require Import ZArith Lia.
From Stdlib Require Import Strings.Byte.
From S2P Require Import Prelude Bytes.

Local Open Scope Z_scope.

Create HintDb text.

(** ** Code points *)

(** How many continuation bytes follow [b], and the range of the first one
    (utf8.DecodeRune): overlong forms, surrogates and values beyond U+10FFFF are
    not valid. *)
Definition accept (b : byte) : option (nat * Z * Z) :=
  let c := byte_to_Z b in
  if decide (c < 194) then None
  else if decide (c ≤ 223) then Some (1%nat, 128, 191)
  else if decide (c = 224) then Some (2%nat, 160, 191)
  else if decide (c = 237) then Some (2%nat, 128, 159)
  else if decide (c ≤ 239) then Some (2%nat, 128, 191)
  else if decide (c = 240) then Some (3%nat, 144, 191)
  else if decide (c ≤ 243) then Some (3%nat, 128, 191)
  else if decide (c = 244) then Some (3%nat, 128, 143)
  else None.

Definition within (lo hi : Z) (b : byte) : bool :=
  bool_decide (lo ≤ byte_to_Z b) && bool_decide (byte_to_Z b ≤ hi).
Definition continuation (b : byte) : bool := within 128 191 b.
Definition is_ascii (b : byte) : Prop := byte_to_Z b < 128.

(** A code point's bytes, or a byte that starts none. *)
Inductive segment :=
  | Rune (bs : list byte)
  | BadByte (b : byte).

Fixpoint segments (l : list byte) : list segment :=
  match l with
  | [] => []
  | b :: l1 =>
      if decide (is_ascii b) then Rune [b] :: segments l1
      else
        match accept b, l1 with
        | Some (1%nat, lo, hi), c1 :: l2 =>
            if within lo hi c1 then Rune [b; c1] :: segments l2
            else BadByte b :: segments l1
        | Some (2%nat, lo, hi), c1 :: c2 :: l3 =>
            if within lo hi c1 && continuation c2 then Rune [b; c1; c2] :: segments l3
            else BadByte b :: segments l1
        | Some (3%nat, lo, hi), c1 :: c2 :: c3 :: l4 =>
            if within lo hi c1 && continuation c2 && continuation c3
            then Rune [b; c1; c2; c3] :: segments l4
            else BadByte b :: segments l1
        | _, _ => BadByte b :: segments l1
        end
  end.

Definition seg_raw (s : segment) : list byte :=
  match s with Rune bs => bs | BadByte b => [b] end.

(** U+FFFD, the replacement character. *)
Definition replacement : list byte := [xef; xbf; xbd].

Definition seg_clean (s : segment) : list byte :=
  match s with Rune bs => bs | BadByte _ => replacement end.

(** The text with every invalid byte replaced. *)
Definition to_valid (l : list byte) : list byte := concat (seg_clean <$> segments l).

Definition is_rune (s : segment) : Prop := match s with Rune _ => True | BadByte _ => False end.
Definition valid_utf8 (l : list byte) : Prop := Forall is_rune (segments l).

(** [utf8.RuneCountInString]: an invalid byte counts as one. *)
Definition rune_count (s : string) : nat := length (segments (bytes_of_string s)).

Fixpoint spaces (n : nat) : string :=
  match n with O => EmptyString | S n' => " " +:+ spaces n' end.

(** [%-<n>s]. *)
Definition pad_right (n : nat) (s : string) : string := s +:+ spaces (n - rune_count s).

(** ** The code points put back together *)

(** A segment made by [segments]. *)
Definition seg_ok (s : segment) : Prop :=
  match s with
  | Rune bs => (∃ b, bs = [b] ∧ is_ascii b) ∨ (2 ≤ length bs)%nat ∧ Forall (λ b, ¬ is_ascii b) bs
  | BadByte _ => True
  end.

Lemma accept_high b n lo hi : accept b = Some (n, lo, hi) → 128 ≤ lo.
Proof. unfold accept. intros H. repeat case_decide; simplify_eq; lia. Qed.

Lemma within_high lo hi b : 128 ≤ lo → within lo hi b = true → ¬ is_ascii b.
Proof.
  unfold within, is_ascii. intros Hlo H. apply andb_true_iff in H as [H _].
  apply bool_decide_eq_true in H. lia.
Qed.

(** The cut, one segment at a time. *)
Lemma segments_step b l :
  ∃ s r, segments (b :: l) = s :: segments r ∧ seg_ok s ∧ b :: l = seg_raw s ++ r ∧
    (length r ≤ length l)%nat.
Proof.
  cbn [segments]. destruct (decide (is_ascii b)) as [Ha|Ha].
  { exists (Rune [b]), l. split_and!; [done|left; by exists b|done|lia]. }
  assert (Hbad : ∃ s r, BadByte b :: segments l = s :: segments r ∧ seg_ok s ∧
            b :: l = seg_raw s ++ r ∧ (length r ≤ length l)%nat).
  { exists (BadByte b), l. split_and!; [done|done|done|lia]. }
  destruct (accept b) as [[[n lo] hi]|] eqn:E; [|exact Hbad].
  pose proof (accept_high _ _ _ _ E) as Hlo.
  destruct n as [|[|[|[|n]]]]; [exact Hbad| | | |exact Hbad].
  - destruct l as [|c1 l]; [exact Hbad|].
    destruct (within lo hi c1) eqn:E1; [|exact Hbad].
    exists (Rune [b; c1]), l. split_and!; [done| |done|simpl; lia].
    right. split; [simpl; lia|]. repeat constructor; [done|by eapply within_high].
  - destruct l as [|c1 [|c2 l]]; [exact Hbad..|].
    destruct (within lo hi c1 && continuation c2) eqn:E1; [|exact Hbad].
    apply andb_true_iff in E1 as [E1 E2].
    exists (Rune [b; c1; c2]), l. split_and!; [done| |done|simpl; lia].
    right. split; [simpl; lia|].
    repeat constructor; [done|by eapply within_high|by eapply (within_high 128)].
  - destruct l as [|c1 [|c2 [|c3 l]]]; [exact Hbad..|].
    destruct (within lo hi c1 && continuation c2 && continuation c3) eqn:E1; [|exact Hbad].
    apply andb_true_iff in E1 as [[E1 E2]%andb_true_iff E3].
    exists (Rune [b; c1; c2; c3]), l. split_and!; [done| |done|simpl; lia].
    right. split; [simpl; lia|].
    repeat constructor; [done|by eapply within_high|by eapply (within_high 128)..].
Qed.

Lemma segments_spec l :
  Forall seg_ok (segments l) ∧ concat (seg_raw <$> segments l) = l.
Proof.
  induction l as [l IH] using (induction_ltof1 _ (@length byte)). unfold ltof in IH.
  destruct l as [|b l]; [done|].
  destruct (segments_step b l) as (s & r & -> & Hs & Hbl & Hr).
  destruct (IH r) as [H1' H2']; [simpl; lia|].
  split; [by constructor|]. rewrite fmap_cons. cbn [concat]. by rewrite H2'.
Qed.

(** Valid text has nothing to replace. *)
Lemma to_valid_id l : valid_utf8 l → to_valid l = l.
Proof.
  intros Hv. rewrite <- (proj2 (segments_spec l)) at 2. unfold to_valid. f_equal.
  apply list_fmap_ext. intros i s Hi. pose proof (Forall_lookup_1 _ _ _ _ Hv Hi) as Hs.
  by destruct s.
Qed.

Lemma ascii_valid l : Forall is_ascii l → valid_utf8 l.
Proof.
  unfold valid_utf8. induction 1 as [|b l Hb _ IH]; [constructor|].
  cbn [segments]. rewrite decide_True by done. by constructor.
Qed.

(** ** Counting code points *)

Lemma append_assoc (s t u : string) : s +:+ (t +:+ u) = (s +:+ t) +:+ u.
Proof.
  induction s as [|c s IH]; [done|].
  change (String c (s +:+ (t +:+ u)) = String c ((s +:+ t) +:+ u)). by rewrite IH.
Qed.

Lemma bytes_of_string_cons c s :
  bytes_of_string (String c s) = Ascii.byte_of_ascii c :: bytes_of_string s.
Proof. reflexivity. Qed.

Lemma bytes_of_string_app s t : bytes_of_string (s +:+ t) = bytes_of_string s ++ bytes_of_string t.
Proof.
  induction s as [|c s IH]; [done|].
  change (String c s +:+ t) with (String c (s +:+ t)).
  rewrite !bytes_of_string_cons, IH. done.
Qed.

(** A byte below 128 starts a new code point, whatever comes before it. *)
Lemma segments_app_ascii a x b :
  is_ascii x → segments (a ++ x :: b) = segments a ++ segments (x :: b).
Proof.
  intros Hx. assert (Hc : ∀ lo hi, 128 ≤ lo → within lo hi x = false).
  { intros lo hi Hlo. destruct (within lo hi x) eqn:E; [|done]. by apply (within_high lo hi) in E. }
  assert (Hk : continuation x = false) by by apply (Hc 128).
  induction a as [a IH] using (induction_ltof1 _ (@length byte)). unfold ltof in IH.
  destruct a as [|y a]; [done|]. cbn [app]. set (X := x :: b) in *.
  assert (Hs : ∀ a', (length a' ≤ length a)%nat → segments (a' ++ X) = segments a' ++ segments X).
  { intros a' Ha'. apply IH. simpl. lia. }
  clear IH. cbn [segments]. destruct (decide (is_ascii y)); [by rewrite Hs|].
  assert (Hbad : BadByte y :: segments (a ++ X) = (BadByte y :: segments a) ++ segments X)
    by by rewrite Hs.
  destruct (accept y) as [[[nb lo] hi]|] eqn:E; [|exact Hbad].
  pose proof (Hc lo hi (accept_high _ _ _ _ E)) as Hlo.
  destruct nb as [|[|[|[|nb]]]]; [exact Hbad| | | |exact Hbad]; unfold X in *.
  - destruct a as [|c1 a]; cbn [app] in *; [by rewrite Hlo|].
    destruct (within lo hi c1); [|exact Hbad]. rewrite Hs by (simpl; lia). done.
  - destruct a as [|c1 [|c2 a]]; cbn [app] in *.
    + destruct b; [done|]. by rewrite Hlo.
    + rewrite Hk, andb_false_r. exact Hbad.
    + destruct (within lo hi c1 && continuation c2); [|exact Hbad].
      rewrite Hs by (simpl; lia). done.
  - destruct a as [|c1 [|c2 [|c3 a]]]; cbn [app] in *.
    + destruct b as [|? [|]]; [done..|]. by rewrite Hlo.
    + destruct b; [exact Hbad|]. rewrite Hk, andb_false_r. exact Hbad.
    + rewrite Hk, andb_false_r. exact Hbad.
    + destruct (within lo hi c1 && continuation c2 && continuation c3); [|exact Hbad].
      rewrite Hs by (simpl; lia). done.
Qed.

Lemma rune_count_spaces s n t :
  (0 < n)%nat → rune_count (s +:+ spaces n +:+ t) = (rune_count s + n + rune_count t)%nat.
Proof.
  unfold rune_count. intros Hn. rewrite !bytes_of_string_app.
  assert (Hsp : ∀ m u, length (segments (bytes_of_string (spaces m) ++ u)) = (m + length (segments u))%nat).
  { clear. intros m u. induction m as [|m IH]; [done|].
    change (bytes_of_string (spaces (S m))) with (x20 :: bytes_of_string (spaces m)).
    cbn [app segments]. rewrite decide_True by by_decide. cbn [length]. by rewrite IH. }
  destruct n as [|n]; [lia|]. specialize (Hsp (S n) (bytes_of_string t)).
  change (bytes_of_string (spaces (S n))) with (x20 :: bytes_of_string (spaces n)) in *.
  cbn [app] in *. rewrite segments_app_ascii, length_app, Hsp by by_decide. lia.
Qed.

(** ** Printable ASCII *)

Definition printable (s : string) : Prop :=
  Forall (λ b, 32 ≤ byte_to_Z b < 127) (bytes_of_string s).

#[export] Instance printable_dec s : Decision (printable s).
Proof. unfold printable. apply _. Defined.

Lemma printable_app s t : printable s → printable t → printable (s +:+ t).
Proof. unfold printable. rewrite bytes_of_string_app, Forall_app. done. Qed.

Lemma printable_concat sep l :
  printable sep → Forall printable l → printable (String.concat sep l).
Proof.
  intros Hsep. induction 1 as [|s l Hs Hall IH]; [constructor|]. destruct l as [|t l]; [done|].
  change (String.concat sep (s :: t :: l)) with (s +:+ (sep +:+ String.concat sep (t :: l))).
  by repeat apply printable_app.
Qed.

Lemma printable_fmt_d z : printable (fmt_d z).
Proof.
  assert (Hgo : ∀ x s, printable s → printable (pretty_N_go x s)).
  { intros x. induction (N.lt_wf_0 x) as [x _ IH]; intros s Hs.
    destruct (decide (x = 0%N)) as [->|Hx]; [by rewrite pretty_N_go_0|].
    rewrite pretty_N_go_step by lia. apply IH; [apply N.div_lt; lia|].
    unfold printable in *. rewrite bytes_of_string_cons. constructor; [|done].
    unfold pretty_N_char. by repeat case_match; subst. }
  assert (Hn : ∀ n : N, printable (pretty n)).
  { intros n. unfold pretty, pretty_N. destruct (decide _); [by_decide|]. apply Hgo. by_decide. }
  unfold fmt_d, pretty, pretty_Z. destruct z as [|p|p]; [by_decide|apply Hn|].
  apply printable_app; [by_decide|apply Hn].
Qed.

#[export] Hint Resolve printable_app printable_concat printable_fmt_d : text.

(** Printable text is valid UTF-8. *)
Lemma printable_valid s : printable s → to_valid (bytes_of_string s) = bytes_of_string s.
Proof.
  intros Hs. apply to_valid_id, ascii_valid. eapply Forall_impl; [exact Hs|].
  intros b Hb; cbv beta in Hb. unfold is_ascii. lia.
Qed.

(** ** Decimal numbers read back *)

Definition is_digit (b : byte) : Prop := 48 ≤ byte_to_Z b ≤ 57.
#[export] Instance is_digit_dec b : Decision (is_digit b).
Proof. unfold is_digit. apply _. Defined.

Fixpoint read_digits (acc : Z) (l : list byte) : Z * list byte :=
  match l with
  | b :: l' => if decide (is_digit b) then read_digits (acc * 10 + (byte_to_Z b - 48)) l' else (acc, l)
  | [] => (acc, [])
  end.

(** What can follow a number. *)
Definition no_digit (l : list byte) : Prop :=
  match l with b :: _ => ¬ is_digit b | [] => True end.

Lemma digit_char n :
  (n < 10)%N → byte_to_Z (Ascii.byte_of_ascii (pretty_N_char n)) = 48 + Z.of_N n.
Proof. intros Hn. do 10 (destruct n as [|n] using N.peano_ind; [reflexivity|clear IHn; try lia]). Qed.

Lemma read_digits_cons acc n l :
  (n < 10)%N →
  read_digits acc (Ascii.byte_of_ascii (pretty_N_char n) :: l) = read_digits (acc * 10 + Z.of_N n) l.
Proof.
  intros Hn. cbn [read_digits]. pose proof (digit_char n Hn) as Hc.
  rewrite decide_True by (unfold is_digit; lia). f_equal. lia.
Qed.

Lemma read_digits_go x s r :
  read_digits 0 (bytes_of_string (pretty_N_go x s) ++ r)
  = read_digits (Z.of_N x) (bytes_of_string s ++ r).
Proof.
  revert s. induction (N.lt_wf_0 x) as [x _ IH]; intros s.
  destruct (decide (x = 0%N)) as [->|Hx]; [by rewrite pretty_N_go_0|].
  rewrite pretty_N_go_step by lia. rewrite IH by (apply N.div_lt; lia).
  rewrite bytes_of_string_cons. cbn [app]. rewrite read_digits_cons by (apply N.mod_lt; lia).
  f_equal. pose proof (N.div_mod x 10 ltac:(lia)). lia.
Qed.

Lemma pretty_go_head x s :
  (0 < x)%N → ∃ b l, bytes_of_string (pretty_N_go x s) = b :: l ∧ is_digit b.
Proof.
  revert s. induction (N.lt_wf_0 x) as [x _ IH]; intros s Hx.
  rewrite pretty_N_go_step by lia. destruct (N.eq_0_gt_0_cases (x `div` 10)) as [Hd|Hd].
  2: { apply IH; [apply N.div_lt; lia|done]. }
  rewrite Hd, pretty_N_go_0, bytes_of_string_cons.
  do 2 eexists. split; [reflexivity|].
  assert (Hm : (x mod 10 < 10)%N) by (apply N.mod_lt; lia).
  pose proof (digit_char _ Hm) as Hc. unfold is_digit. rewrite Hc.
  clear - Hm. generalize dependent (x mod 10)%N. lia.
Qed.

Lemma read_digits_stop acc r : no_digit r → read_digits acc r = (acc, r).
Proof. destruct r as [|b r]; [done|]. intros Hb. cbn [read_digits]. by rewrite decide_False. Qed.

(** A natural number in decimal: it starts with a digit and reads back. *)
Lemma pretty_read (n : N) r :
  no_digit r →
  (∃ b l, bytes_of_string (pretty n) = b :: l ∧ is_digit b) ∧
  read_digits 0 (bytes_of_string (pretty n) ++ r) = (Z.of_N n, r).
Proof.
  intros Hr. unfold pretty, pretty_N. destruct (decide (n = 0%N)) as [->|Hn].
  { split; [by exists x30, []|]. exact (read_digits_stop 0 r Hr). }
  split; [apply pretty_go_head; lia|]. rewrite read_digits_go. by apply read_digits_stop.
Qed.
