(* ===== verification/Float64.v ===== *)
(** * IEEE-754 [float64] arithmetic and the ["%.2f"] verb

    Go's [float64] is binary64 with round-to-nearest-even: the standard
    library's [SpecFloat] at precision 53 and exponent bound 1024.  The server
    uses conversion from integers, division, multiplication, addition,
    truncation to [int64] and [fmt.Sprintf("%.2f", x)]. *)

From Stdlib Require Import ZArith Lia.
From Stdlib Require Import Floats.SpecFloat.
From S2P Require Import Prelude.

Local Open Scope Z_scope.

Definition float64 := spec_float.

(** [float64(z)], [x / y], [x * y], [x + y]. *)
Definition f64_of_Z (z : Z) : float64 := binary_normalize 53 1024 z 0 false.
Definition f64_div (x y : float64) : float64 := SFdiv 53 1024 x y.
Definition f64_mul (x y : float64) : float64 := SFmul 53 1024 x y.
Definition f64_add (x y : float64) : float64 := SFadd 53 1024 x y.

(** [int64(x)] for an [x] in the range of [int64]: truncation toward zero. *)
Definition f64_trunc (x : float64) : Z :=
  match x with
  | S754_finite s m e =>
      let n := if decide (0 ≤ e) then Zpos m * 2 ^ e else Zpos m / 2 ^ (- e) in
      if s then - n else n
  | _ => 0
  end.

(** [num / den] rounded to the nearest integer, ties to even. *)
Definition round_half_even (num den : Z) : Z :=
  let q := num / den in
  let r := num mod den in
  match Z.compare (2 * r) den with
  | Lt => q
  | Gt => q + 1
  | Eq => if Z.even q then q else q + 1
  end.

(** The hundredths of a finite value [m * 2^e], rounded as [strconv] does on
    the exact decimal expansion. *)
Definition hundredths (m : positive) (e : Z) : Z :=
  if decide (0 ≤ e) then Zpos m * 100 * 2 ^ e
  else round_half_even (Zpos m * 100) (2 ^ (- e)).

(** Two decimal digits. *)
Definition fmt_02 (z : Z) : string :=
  if decide (z < 10) then "0" +:+ fmt_d z else fmt_d z.

Definition fmt_hundredths (n : Z) : string :=
  fmt_d (n / 100) +:+ "." +:+ fmt_02 (n mod 100).

(** [fmt.Sprintf("%.2f", x)]. *)
Definition fmt_2f (x : float64) : string :=
  match x with
  | S754_zero s => if s then "-0.00" else "0.00"
  | S754_infinity s => if s then "-Inf" else "+Inf"
  | S754_nan => "NaN"
  | S754_finite s m e =>
      if s then "-" +:+ fmt_hundredths (hundredths m e) else fmt_hundredths (hundredths m e)
  end.

(** ** Rounding *)

Lemma round_half_even_bound num den :
  0 < den → 2 * Z.abs (num - round_half_even num den * den) ≤ den.
Proof.
  intros Hd. unfold round_half_even.
  pose proof (Z.div_mod num den ltac:(lia)) as E.
  pose proof (Z.mod_pos_bound num den Hd).
  destruct (Z.compare_spec (2 * (num mod den)) den); [destruct (Z.even _)|..]; nia.
Qed.

Lemma round_half_even_exact q den : 0 < den → round_half_even (q * den) den = q.
Proof.
  intros Hd. unfold round_half_even. rewrite Z.div_mul, Z.mod_mul by lia.
  destruct (Z.compare_spec (2 * 0) den); [lia|done|lia].
Qed.

Lemma fmt_02_examples :
  fmt_02 0 = "00" ∧ fmt_02 7 = "07" ∧ fmt_02 10 = "10" ∧ fmt_02 99 = "99".
Proof. vm_compute. done. Qed.

(** Go agrees on these: 1/3, 2/3 and 1 as percentages, a load average of 1.375
    (an exact tie at two decimals rounds to even), 2.125 likewise. *)
Example fmt_2f_third : fmt_2f (f64_mul (f64_div (f64_of_Z 1) (f64_of_Z 3)) (f64_of_Z 100)) = "33.33".
Proof. vm_compute. done. Qed.
Example fmt_2f_tie_up : fmt_2f (f64_div (f64_of_Z 2816) (f64_of_Z 2048)) = "1.38".
Proof. vm_compute. done. Qed.
Example fmt_2f_tie_even : fmt_2f (f64_div (f64_of_Z 17) (f64_of_Z 8)) = "2.12".
Proof. vm_compute. done. Qed.
Example fmt_2f_neg : fmt_2f (f64_div (f64_of_Z (-1)) (f64_of_Z 1000)) = "-0.00".
Proof. vm_compute. done. Qed.
