(* ===== verification/Rounding.v ===== *)
(** * What [float64] rounding does

    [SpecFloat] computes with shifted mantissas and sticky bits; here its
    rounding is shown to be [round_half_even] of the exact quotient or
    product, and division and multiplication of positive numbers to have a
    relative error of at most 2^-53. *)

From Stdlib Require Import ZArith Lia.
From Stdlib Require Import Floats.SpecFloat.
From S2P Require Import Prelude Float64.

Local Open Scope Z_scope.

(** ** Shifting *)

(** [mrs] stands for the exact value [num / den]: its integer part and where
    the rest lies. *)
Definition stands_for (mrs : shr_record) (num den : Z) : Prop :=
  shr_m mrs = num / den ∧
  loc_of_shr_record mrs =
    if decide (num mod den = 0) then loc_Exact else loc_Inexact (Z.compare (2 * (num mod den)) den).

Lemma shr_1_stands_for mrs num den :
  0 ≤ num → 0 < den → stands_for mrs num den → stands_for (shr_1 mrs) num (2 * den).
Proof.
  intros Hn Hd [Hm Hl]. destruct mrs as [m r s]. cbn [shr_m] in Hm.
  pose proof (Z.div_mod num den ltac:(lia)) as E. pose proof (Z.mod_pos_bound num den Hd) as Hr.
  assert (Hm0 : 0 ≤ m) by (subst m; by apply Z.div_pos).
  assert (Hdiv : ∀ q b, 0 ≤ b < 2 → m = 2 * q + b →
    num / (2 * den) = q ∧ num mod (2 * den) = b * den + num mod den).
  { intros q b Hb Hq. split.
    - symmetry. apply (Z.div_unique _ _ q (b * den + num mod den)); nia.
    - symmetry. apply (Z.mod_unique _ _ q (b * den + num mod den)); nia. }
  assert (Hcase : ∀ q b r', 0 ≤ b < 2 → m = 2 * q + b → (r' = if decide (b = 1) then true else false) →
    stands_for (Build_shr_record q r' (orb r s)) num (2 * den)).
  { intros q b r' Hb Hq ->. destruct (Hdiv q b Hb Hq) as [Hq' Hm']. split; [by rewrite Hq'|].
    rewrite Hm'. destruct r, s; cbn [loc_of_shr_record orb] in *;
      repeat match goal with
      | H : context [decide ?P] |- _ => destruct (decide P)
      | |- context [decide ?P] => destruct (decide P)
      end; try congruence; try lia;
      try (f_equal; symmetry; apply Z.compare_lt_iff || apply Z.compare_gt_iff
           || apply Z.compare_eq_iff; lia);
      injection Hl as Hl; symmetry in Hl;
      first [apply Z.compare_eq_iff in Hl|apply Z.compare_lt_iff in Hl|apply Z.compare_gt_iff in Hl];
      f_equal; symmetry;
      first [apply Z.compare_eq_iff; lia|apply Z.compare_lt_iff; lia|apply Z.compare_gt_iff; lia]. }
  destruct m as [|p|p]; [..|lia].
  - apply (Hcase 0 0); [lia..|done].
  - destruct p as [p|p|]; [apply (Hcase (Zpos p) 1)|apply (Hcase (Zpos p) 0)|apply (Hcase 0 1)];
      try lia; done.
Qed.

Lemma iter_shr_1_stands_for p mrs num den :
  0 ≤ num → 0 < den → stands_for mrs num den →
  stands_for (SpecFloat.iter_pos shr_1 p mrs) num (den * 2 ^ Zpos p).
Proof.
  intros Hn. revert mrs den. induction p as [p IH|p IH|]; intros mrs den Hd Hs; cbn [SpecFloat.iter_pos].
  - replace (den * 2 ^ Zpos p~1) with (2 * den * 2 ^ Zpos p * 2 ^ Zpos p).
    + apply IH; [nia|]. apply IH; [lia|]. by apply shr_1_stands_for.
    + rewrite (Pos2Z.inj_xI p), Z.pow_add_r, (Z.mul_comm 2 (Zpos p)), Z.pow_mul_r by lia.
      change (2 ^ 1) with 2. rewrite Z.pow_2_r. lia.
  - replace (den * 2 ^ Zpos p~0) with (den * 2 ^ Zpos p * 2 ^ Zpos p).
    + apply IH; [nia|]. by apply IH.
    + rewrite (Pos2Z.inj_xO p), (Z.mul_comm 2 (Zpos p)), Z.pow_mul_r by lia.
      rewrite Z.pow_2_r. lia.
  - change (2 ^ 1) with 2. rewrite Z.mul_comm. by apply shr_1_stands_for.
Qed.

(** A shift by [n] places divides by [2^n]. *)
Lemma shr_stands_for mrs e n num den :
  0 ≤ num → 0 < den → 0 ≤ n → stands_for mrs num den →
  stands_for (shr mrs e n).1 num (den * 2 ^ n) ∧ (shr mrs e n).2 = e + n.
Proof.
  intros Hn Hd H0 Hs. destruct n as [|p|p]; [..|lia]; cbn [shr fst snd].
  - rewrite Z.pow_0_r, Z.mul_1_r. split; [exact Hs|lia].
  - split; [by apply iter_shr_1_stands_for|done].
Qed.

Lemma stands_for_record m l num den :
  m = num / den →
  l = (if decide (num mod den = 0) then loc_Exact else loc_Inexact (Z.compare (2 * (num mod den)) den)) →
  stands_for (shr_record_of_loc m l) num den.
Proof.
  intros -> ->. split; [by destruct (decide _); [|destruct (Z.compare _ _)]|].
  by destruct (decide _); [|destruct (Z.compare _ _)].
Qed.

(** What stands for a value rounds to its nearest integer, ties to even. *)
Lemma round_stands_for mrs num den :
  0 < den → stands_for mrs num den →
  round_nearest_even (shr_m mrs) (loc_of_shr_record mrs) = round_half_even num den.
Proof.
  intros Hd [-> ->]. unfold round_half_even. destruct (decide _) as [->|Hr]; cbn [round_nearest_even].
  - replace (2 * 0) with 0 by lia. by rewrite (proj2 (Z.compare_lt_iff 0 den) Hd).
  - by destruct (Z.compare _ _).
Qed.

(** ** Numbers of digits *)

Lemma Zdigits2_bounds m : 0 < m → 2 ^ (Zdigits2 m - 1) ≤ m < 2 ^ Zdigits2 m.
Proof.
  intros Hm. destruct m as [|p|p]; [lia| |lia]. clear Hm. cbn [Zdigits2].
  induction p as [p IH|p IH|]; cbn [digits2_pos]; [| |done].
  - rewrite Pos2Z.inj_succ. replace (Z.succ (Zpos (digits2_pos p)) - 1)
      with (Z.succ (Zpos (digits2_pos p) - 1)) by lia.
    rewrite !Z.pow_succ_r by lia. lia.
  - rewrite Pos2Z.inj_succ. replace (Z.succ (Zpos (digits2_pos p)) - 1)
      with (Z.succ (Zpos (digits2_pos p) - 1)) by lia.
    rewrite !Z.pow_succ_r by lia. lia.
Qed.

Lemma Zdigits2_unique m d : 0 < m → 2 ^ (d - 1) ≤ m < 2 ^ d → Zdigits2 m = d.
Proof.
  intros Hm Hd. pose proof (Zdigits2_bounds m Hm) as Hb.
  assert (H0 : 0 < Zdigits2 m) by (by destruct m).
  destruct (Z.lt_trichotomy (Zdigits2 m) d) as [Hlt|[?|Hlt]]; [|done|]; exfalso.
  - assert (2 ^ Zdigits2 m ≤ 2 ^ (d - 1)) by (apply Z.pow_le_mono_r; lia). lia.
  - assert (2 ^ d ≤ 2 ^ (Zdigits2 m - 1)); [|lia].
    destruct (decide (0 ≤ d)); [apply Z.pow_le_mono_r; lia|]. rewrite (Z.pow_neg_r 2 d) by lia.
    apply Z.pow_nonneg. lia.
Qed.

(** ** Rounding a mantissa *)

Abbreviation fexp64 := (fexp 53 1024).
Abbreviation round_aux64 := (binary_round_aux 53 1024).

(** The exact value [num / den * 2^e], of 53 digits or more before the binary
    point, in the range of normal numbers: the result is the multiple of
    [2^k] nearest to it, and is a mantissa of 53 digits. *)
Definition rounds_to (num den e : Z) (x : float64) : Prop :=
  ∃ m e' k, x = S754_finite false m e' ∧ 0 ≤ k ∧
    2 ^ 52 ≤ Zpos m < 2 ^ 53 ∧ 2 ^ 52 * 2 ^ k * den ≤ num ∧
    2 * Z.abs (num - Zpos m * 2 ^ (e' - e) * den) ≤ 2 ^ k * den ∧
    k ≤ e' - e ≤ k + 1 ∧ num < 2 ^ 53 * 2 ^ k * den.

Lemma round_half_even_range num den lo hi :
  0 < den → lo * den ≤ num → num ≤ hi * den → lo ≤ round_half_even num den ≤ hi.
Proof.
  intros Hd Hlo Hhi. pose proof (Z.div_mod num den ltac:(lia)) as E.
  pose proof (Z.mod_pos_bound num den Hd) as Hr. unfold round_half_even.
  destruct (Z.compare_spec (2 * (num mod den)) den); [destruct (Z.even _)|..]; nia.
Qed.

(** The digits are counted again after rounding, for the one case in which
    they have become 54. *)
Lemma renormalise M e :
  2 ^ 52 ≤ M ≤ 2 ^ 53 → - 1074 ≤ e ≤ 900 →
  ∃ m e', (let '(mrs, e'') := shr_fexp 53 1024 M e loc_Exact in
           match shr_m mrs with
           | Z0 => S754_zero false
           | Zpos m => if Z.leb e'' (1024 - 53) then S754_finite false m e'' else S754_infinity false
           | _ => S754_nan
           end) = S754_finite false m e' ∧
    2 ^ 52 ≤ Zpos m < 2 ^ 53 ∧ e ≤ e' ≤ e + 1 ∧ Zpos m * 2 ^ (e' - e) = M.
Proof.
  intros HM He. unfold shr_fexp.
  assert (Hst : stands_for (shr_record_of_loc M loc_Exact) M 1).
  { apply stands_for_record; [by rewrite Z.div_1_r|]. by rewrite Z.mod_1_r. }
  assert (Hn : ∀ n d, 0 ≤ n → Zdigits2 M = d → fexp64 (d + e) - e = n →
    M = 2 ^ n * (M / 2 ^ n) → 2 ^ 52 ≤ M / 2 ^ n < 2 ^ 53 → n ≤ 1 →
    ∃ m e', (let '(mrs, e'') := shr (shr_record_of_loc M loc_Exact) e
                                  (fexp64 (Zdigits2 M + e) - e) in
           match shr_m mrs with
           | Z0 => S754_zero false
           | Zpos m => if Z.leb e'' (1024 - 53) then S754_finite false m e'' else S754_infinity false
           | _ => S754_nan
           end) = S754_finite false m e' ∧
      2 ^ 52 ≤ Zpos m < 2 ^ 53 ∧ e ≤ e' ≤ e + 1 ∧ Zpos m * 2 ^ (e' - e) = M).
  { intros n d H0 -> Hk Hdiv Hm Hn1. rewrite Hk.
    destruct (shr_stands_for _ e n M 1 ltac:(lia) ltac:(lia) H0 Hst) as [[Hsm _] He'].
    destruct (shr _ e n) as [mrs e'']. cbn [fst snd] in Hsm, He'. subst e''.
    rewrite Z.mul_1_l in Hsm. rewrite Hsm.
    destruct (M / 2 ^ n) as [|p|p] eqn:Ep; [lia| |lia].
    rewrite (proj2 (Z.leb_le _ _)) by lia. exists p, (e + n).
    split; [done|]. split; [lia|]. split; [lia|].
    replace (e + n - e) with n by lia. lia. }
  destruct (decide (M = 2 ^ 53)) as [->|Hne].
  - apply (Hn 1 54); [lia|reflexivity|unfold fexp, emin; lia|reflexivity|vm_compute; done|lia].
  - apply (Hn 0 53); [lia|apply Zdigits2_unique; lia|unfold fexp, emin; lia| | |lia];
      rewrite Z.pow_0_r, Z.div_1_r; lia.
Qed.

Lemma round_aux_rounds num den e m l :
  0 < den → 0 < num → m = num / den →
  l = (if decide (num mod den = 0) then loc_Exact else loc_Inexact (Z.compare (2 * (num mod den)) den)) →
  53 ≤ Zdigits2 m → - 1021 ≤ Zdigits2 m + e ≤ 900 →
  rounds_to num den e (round_aux64 false m e l).
Proof.
  intros Hd Hn Hm Hl Hdig He. set (k := Zdigits2 m - 53).
  assert (Hm0 : 0 < m) by (destruct m; [done|lia|]; exfalso; pose proof (Z.div_pos num den); lia).
  pose proof (Zdigits2_bounds m Hm0) as Hb.
  assert (Hk : 0 < 2 ^ k) by (apply Z.pow_pos_nonneg; unfold k; lia).
  assert (Hlo : 2 ^ 52 * 2 ^ k * den ≤ num).
  { rewrite <- Z.pow_add_r by (unfold k; lia). replace (52 + k) with (Zdigits2 m - 1) by (unfold k; lia).
    pose proof (Z.mul_div_le num den Hd). nia. }
  assert (Hhi : num < 2 ^ 53 * 2 ^ k * den).
  { rewrite <- Z.pow_add_r by (unfold k; lia). replace (53 + k) with (Zdigits2 m) by (unfold k; lia).
    pose proof (Z.mul_succ_div_gt num den Hd). nia. }
  unfold binary_round_aux, shr_fexp at 1.
  replace (fexp64 (Zdigits2 m + e) - e) with k by (unfold k, fexp, emin; lia).
  pose proof (stands_for_record m l num den Hm Hl) as Hst.
  destruct (shr_stands_for _ e k num den ltac:(lia) Hd ltac:(unfold k; lia) Hst) as [Hs He'].
  destruct (shr _ e k) as [mrs e']. cbn [fst snd] in Hs, He'. subst e'.
  rewrite (round_stands_for _ num (den * 2 ^ k)) by (done || nia).
  set (M := round_half_even num (den * 2 ^ k)).
  assert (HM : 2 ^ 52 ≤ M ≤ 2 ^ 53) by (apply round_half_even_range; nia).
  destruct (renormalise M (e + k) HM ltac:(unfold k; lia)) as (m' & e'' & Hx & Hm' & He'' & HMe).
  exists m', e'', k. split; [exact Hx|]. split; [unfold k; lia|]. split; [exact Hm'|].
  split; [exact Hlo|]. split; [|split; [lia|exact Hhi]].
  replace (Zpos m' * 2 ^ (e'' - e) * den) with (M * (den * 2 ^ k)).
  - rewrite (Z.mul_comm (2 ^ k) den). apply round_half_even_bound. nia.
  - rewrite <- HMe. replace (e'' - e) with (e'' - (e + k) + k) by lia.
    rewrite Z.pow_add_r by (unfold k; lia). lia.
Qed.

(** ** The operations on positive numbers *)

Lemma new_location_at den r :
  0 < den → 0 ≤ r < den →
  new_location den r = if decide (r = 0) then loc_Exact else loc_Inexact (Z.compare (2 * r) den).
Proof.
  intros Hd Hr. unfold new_location, new_location_even, new_location_odd.
  destruct (Z.even den) eqn:E; cbv beta; (destruct (Z.eqb_spec r 0) as [->|Hne];
    [by rewrite decide_True by done|rewrite decide_False by done; f_equal]).
  assert (Hodd : Z.odd den = true) by (by rewrite <- Z.negb_even, E).
  apply Z.odd_spec in Hodd as [q ->].
  destruct (Z.compare_spec (2 * r + 1) (2 * q + 1)), (Z.compare_spec (2 * r) (2 * q + 1)); lia || done.
Qed.

(** A normal positive number, with a small exponent. *)
Definition normal (lo hi : Z) (x : float64) (m : positive) (e : Z) : Prop :=
  x = S754_finite false m e ∧ 2 ^ 52 ≤ Zpos m < 2 ^ 53 ∧ lo ≤ e ≤ hi.

Lemma normal_digits m : 2 ^ 52 ≤ Zpos m < 2 ^ 53 → Zdigits2 (Zpos m) = 53.
Proof. intros Hm. by apply Zdigits2_unique. Qed.

(** Rounding has a relative error of at most 2^-53. *)
Lemma rounds_to_error num den e x :
  0 < den → rounds_to num den e x →
  ∃ m e', x = S754_finite false m e' ∧ 2 ^ 52 ≤ Zpos m < 2 ^ 53 ∧ e ≤ e' ∧
    2 ^ 53 * Z.abs (num - Zpos m * 2 ^ (e' - e) * den) ≤ num.
Proof.
  intros Hd (m & e' & k & -> & Hk & Hm & Hlo & Herr & He & _). exists m, e'.
  split; [done|]. split; [done|]. split; [lia|]. nia.
Qed.

(** Integers below 2^53 are exact. *)
Lemma f64_of_Z_exact x :
  0 < x < 2 ^ 53 → ∃ m e, normal (-52) 0 (f64_of_Z x) m e ∧ Zpos m = x * 2 ^ (- e).
Proof.
  intros Hx. destruct x as [|p|p]; [lia| |lia]. unfold f64_of_Z, binary_normalize, binary_round.
  pose proof (Zdigits2_bounds (Zpos p) ltac:(lia)) as Hb. cbn [Zdigits2] in Hb.
  set (d := Zpos (digits2_pos p)) in *.
  assert (Hd : 1 ≤ d ≤ 53).
  { split; [lia|]. destruct (decide (d ≤ 53)); [done|].
    pose proof (Z.pow_le_mono_r 2 53 (d - 1) ltac:(lia) ltac:(lia)). lia. }
  replace (fexp64 (d + 0)) with (d - 53) by (unfold fexp, emin; lia).
  assert (Hal : ∃ m, shl_align p 0 (d - 53) = (m, d - 53) ∧ Zpos m = Zpos p * 2 ^ (53 - d)).
  { unfold shl_align. destruct (d - 53 - 0) as [|q|q] eqn:E; [|lia|].
    - exists p. replace d with 53 by lia. split; [done|]. change (2 ^ (53 - 53)) with 1. lia.
    - eexists. split; [reflexivity|]. replace (53 - d) with (Zpos q) by lia.
      clear. induction q as [|q IH] using Pos.peano_ind; [cbn; lia|].
      rewrite Pos.iter_succ, Pos2Z.inj_succ, Z.pow_succ_r by lia.
      rewrite (Pos2Z.inj_xO (Pos.iter _ _ _)), IH. lia. }
  destruct Hal as (m & -> & Hm).
  assert (Hmr : 2 ^ 52 ≤ Zpos m < 2 ^ 53).
  { rewrite Hm. replace (2 ^ 52) with (2 ^ (d - 1) * 2 ^ (53 - d)).
    - replace (2 ^ 53) with (2 ^ d * 2 ^ (53 - d)).
      + assert (0 < 2 ^ (53 - d)) by (apply Z.pow_pos_nonneg; lia). nia.
      + rewrite <- Z.pow_add_r by lia. by replace (d + (53 - d)) with 53 by lia.
    - rewrite <- Z.pow_add_r by lia. by replace (d - 1 + (53 - d)) with 52 by lia. }
  destruct (rounds_to_error (Zpos m) 1 (d - 53) (round_aux64 false (Zpos m) (d - 53) loc_Exact))
    as (m' & e' & Hx' & Hm' & He' & Herr); [lia| |].
  { apply round_aux_rounds; [lia|lia|by rewrite Z.div_1_r|by rewrite Z.mod_1_r|..];
      rewrite normal_digits by done; lia. }
  assert (Heq : Zpos m = Zpos m' * 2 ^ (e' - (d - 53))) by lia.
  assert (e' = d - 53) as ->.
  { destruct (decide (e' = d - 53)) as [|Hne]; [done|exfalso].
    pose proof (Z.pow_le_mono_r 2 1 (e' - (d - 53)) ltac:(lia) ltac:(lia)). nia. }
  rewrite Z.sub_diag, Z.mul_1_r in Heq. injection Heq as ->.
  exists m', (d - 53). split; [split; [exact Hx'|split; [exact Hm'|lia]]|].
  rewrite Hm. f_equal. f_equal. lia.
Qed.

Lemma f64_div_rounds m1 e1 m2 e2 :
  2 ^ 52 ≤ Zpos m1 < 2 ^ 53 → 2 ^ 52 ≤ Zpos m2 < 2 ^ 53 → - 900 ≤ e1 - e2 ≤ 800 →
  rounds_to (Zpos m1 * 2 ^ 53) (Zpos m2) (e1 - e2 - 53)
    (f64_div (S754_finite false m1 e1) (S754_finite false m2 e2)).
Proof.
  intros H1 H2 He. unfold f64_div, SFdiv, SFdiv_core_binary.
  rewrite !normal_digits by done.
  replace (Z.min (fexp64 (53 + e1 - (53 + e2))) (e1 - e2)) with (e1 - e2 - 53)
    by (unfold fexp, emin; lia).
  replace (e1 - e2 - (e1 - e2 - 53)) with 53 by lia. cbn [xorb].
  rewrite Z.shiftl_mul_pow2 by lia.
  set (num := Zpos m1 * 2 ^ 53). pose proof (Z.div_mod num (Zpos m2) ltac:(lia)) as Hdm.
  unfold Z.div, Z.modulo in *. pose proof (Z.mod_pos_bound num (Zpos m2) ltac:(lia)) as Hr.
  unfold Z.modulo in Hr. destruct (Z.div_eucl num (Zpos m2)) as [q r] eqn:E.
  assert (Hq : 2 ^ 52 ≤ q < 2 ^ 54) by (unfold num in *; nia).
  pose proof (Zdigits2_bounds q ltac:(lia)) as Hd.
  assert (Hd53 : 53 ≤ Zdigits2 q ≤ 54).
  { destruct (decide (2 ^ 53 ≤ q)).
    - rewrite (Zdigits2_unique q 54); lia.
    - rewrite (Zdigits2_unique q 53); lia. }
  apply round_aux_rounds; [lia|unfold num; lia|by unfold Z.div; rewrite E| |lia|lia].
  unfold Z.modulo. rewrite E. by apply new_location_at.
Qed.

Lemma f64_mul_rounds m1 e1 m2 e2 :
  2 ^ 52 ≤ Zpos m1 < 2 ^ 53 → 2 ^ 52 ≤ Zpos m2 < 2 ^ 53 → - 900 ≤ e1 + e2 ≤ 700 →
  rounds_to (Zpos m1 * Zpos m2) 1 (e1 + e2)
    (f64_mul (S754_finite false m1 e1) (S754_finite false m2 e2)).
Proof.
  intros H1 H2 He. unfold f64_mul, SFmul. cbn [xorb]. rewrite Pos2Z.inj_mul.
  assert (Hd : 105 ≤ Zdigits2 (Zpos m1 * Zpos m2) ≤ 106).
  { destruct (decide (2 ^ 105 ≤ Zpos m1 * Zpos m2)).
    - rewrite (Zdigits2_unique _ 106); nia.
    - rewrite (Zdigits2_unique _ 105); nia. }
  apply round_aux_rounds; [lia|lia|by rewrite Z.div_1_r|by rewrite Z.mod_1_r|lia|lia].
Qed.

(** ** Values

    The value of a positive number as an integer multiple of 2^-1100. *)
Definition unit_exp : Z := 1100.
Definition scaled (m : positive) (e : Z) : Z := Zpos m * 2 ^ (unit_exp + e).
Definition one : Z := 2 ^ unit_exp.

Lemma one_pos : 0 < one.
Proof. by apply Z.pow_pos_nonneg. Qed.

Lemma div_scaled m1 e1 m2 e2 :
  2 ^ 52 ≤ Zpos m1 < 2 ^ 53 → 2 ^ 52 ≤ Zpos m2 < 2 ^ 53 → - 200 ≤ e1 ≤ 200 → - 200 ≤ e2 ≤ 200 →
  ∃ m e, f64_div (S754_finite false m1 e1) (S754_finite false m2 e2) = S754_finite false m e ∧
    2 ^ 52 ≤ Zpos m < 2 ^ 53 ∧ e1 - e2 - 53 ≤ e ≤ e1 - e2 + 2 ∧
    2 ^ 53 * Z.abs (scaled m1 e1 * one - scaled m e * scaled m2 e2) ≤ scaled m1 e1 * one.
Proof.
  intros H1 H2 He1 He2.
  pose proof (f64_div_rounds m1 e1 m2 e2 H1 H2 ltac:(lia)) as Hr.
  destruct (rounds_to_error _ (Zpos m2) _ _ ltac:(lia) Hr) as (m & e & Hx & Hm & He & Herr).
  exists m, e. split; [exact Hx|]. split; [exact Hm|]. split.
  { split; [lia|]. destruct (decide (e ≤ e1 - e2 + 2)) as [|Hne]; [done|exfalso].
    pose proof (Z.pow_le_mono_r 2 55 (e - (e1 - e2 - 53)) ltac:(lia) ltac:(lia)). nia. }
  unfold scaled, one, unit_exp in *. set (E := e1 - e2 - 53) in *.
  replace (Zpos m1 * 2 ^ (1100 + e1) * 2 ^ 1100)
    with (Zpos m1 * 2 ^ 53 * (2 ^ (1100 + E) * 2 ^ (1100 + e2))).
  - replace (Zpos m * 2 ^ (1100 + e) * (Zpos m2 * 2 ^ (1100 + e2)))
      with (Zpos m * 2 ^ (e - E) * Zpos m2 * (2 ^ (1100 + E) * 2 ^ (1100 + e2))).
    + assert (Hp : 0 < 2 ^ (1100 + E) * 2 ^ (1100 + e2))
        by (apply Z.mul_pos_pos; apply Z.pow_pos_nonneg; lia).
      rewrite <- Z.mul_sub_distr_r, Z.abs_mul, (Z.abs_eq (_ * _)) by lia. nia.
    + replace (1100 + e) with (e - E + (1100 + E)) by lia.
      rewrite (Z.pow_add_r 2 (e - E)) by lia. ring.
  - rewrite <- !Z.mul_assoc. f_equal. rewrite <- !Z.pow_add_r by lia. f_equal. lia.
Qed.

Lemma mul_scaled m1 e1 m2 e2 :
  2 ^ 52 ≤ Zpos m1 < 2 ^ 53 → 2 ^ 52 ≤ Zpos m2 < 2 ^ 53 → - 200 ≤ e1 ≤ 200 → - 200 ≤ e2 ≤ 200 →
  ∃ m e, f64_mul (S754_finite false m1 e1) (S754_finite false m2 e2) = S754_finite false m e ∧
    2 ^ 52 ≤ Zpos m < 2 ^ 53 ∧ e1 + e2 ≤ e ∧
    2 ^ 53 * Z.abs (scaled m1 e1 * scaled m2 e2 - scaled m e * one) ≤ scaled m1 e1 * scaled m2 e2.
Proof.
  intros H1 H2 He1 He2.
  pose proof (f64_mul_rounds m1 e1 m2 e2 H1 H2 ltac:(lia)) as Hr.
  destruct (rounds_to_error _ 1 _ _ ltac:(lia) Hr) as (m & e & Hx & Hm & He & Herr).
  exists m, e. split; [exact Hx|]. split; [exact Hm|]. split; [lia|].
  rewrite Z.mul_1_r in Herr. unfold scaled, one, unit_exp in *. set (E := e1 + e2) in *.
  replace (Zpos m1 * 2 ^ (1100 + e1) * (Zpos m2 * 2 ^ (1100 + e2)))
    with (Zpos m1 * Zpos m2 * (2 ^ (1100 + e1) * 2 ^ (1100 + e2))) by ring.
  replace (Zpos m * 2 ^ (1100 + e) * 2 ^ 1100)
    with (Zpos m * 2 ^ (e - E) * (2 ^ (1100 + e1) * 2 ^ (1100 + e2))).
  - assert (Hp : 0 < 2 ^ (1100 + e1) * 2 ^ (1100 + e2))
      by (apply Z.mul_pos_pos; apply Z.pow_pos_nonneg; lia).
    rewrite <- Z.mul_sub_distr_r, Z.abs_mul, (Z.abs_eq (2 ^ (1100 + e1) * _)) by lia. nia.
  - rewrite <- !Z.mul_assoc. f_equal. rewrite <- !Z.pow_add_r by lia. f_equal. lia.
Qed.

(** Two decimals of a number below 2^53 are within half a hundredth of it. *)
Lemma hundredths_scaled m e :
  - 1000 ≤ e ≤ 0 → 2 * Z.abs (100 * scaled m e - hundredths m e * one) ≤ one ∧ 0 ≤ hundredths m e.
Proof.
  intros He. unfold hundredths, scaled, one, unit_exp. destruct (decide (0 ≤ e)) as [H0|Hneg].
  - assert (e = 0) as -> by lia. rewrite Z.add_0_r, Z.pow_0_r. lia.
  - set (u := 2 ^ (- e)). assert (Hu : 0 < u) by (apply Z.pow_pos_nonneg; lia).
    pose proof (round_half_even_bound (Zpos m * 100) u Hu) as Hb.
    pose proof (round_half_even_range (Zpos m * 100) u 0 (Zpos m * 100) Hu ltac:(lia) ltac:(nia)) as Hr.
    assert (Hone : 2 ^ 1100 = u * 2 ^ (1100 + e)).
    { unfold u. rewrite <- Z.pow_add_r by lia. f_equal. lia. }
    rewrite Hone. assert (Hp : 0 < 2 ^ (1100 + e)) by (apply Z.pow_pos_nonneg; lia).
    set (w := 2 ^ (1100 + e)) in *. set (h := round_half_even _ u) in *.
    replace (100 * (Zpos m * w) - h * (u * w)) with ((Zpos m * 100 - h * u) * w) by ring.
    split; [|lia]. rewrite Z.abs_mul, (Z.abs_eq w) by lia. clear - Hb Hp. nia.
Qed.

(** A mantissa of 53 digits is small only with a negative exponent. *)
Lemma scaled_small m e b :
  2 ^ 52 ≤ Zpos m → 0 ≤ b → - 1000 ≤ e → scaled m e < 2 ^ 52 * 2 ^ b * one → e < b.
Proof.
  intros Hm Hb He Hs. destruct (decide (e < b)) as [|Hne]; [done|exfalso].
  unfold scaled, one, unit_exp in Hs. rewrite (Z.pow_add_r 2 1100 e) in Hs by lia.
  pose proof (Z.pow_le_mono_r 2 b e ltac:(lia) ltac:(lia)) as Hp.
  assert (0 < 2 ^ b) by (apply Z.pow_pos_nonneg; lia).
  assert (0 < 2 ^ 1100) by (apply Z.pow_pos_nonneg; lia).
  set (B := 2 ^ 1100) in *. set (p := 2 ^ b) in *. set (q := 2 ^ e) in *. clearbody B p q.
  assert (2 ^ 52 * p ≤ Zpos m * q) by nia. nia.
Qed.

Lemma f64_of_Z_scaled x :
  0 < x < 2 ^ 53 →
  ∃ m e, f64_of_Z x = S754_finite false m e ∧ 2 ^ 52 ≤ Zpos m < 2 ^ 53 ∧ - 52 ≤ e ≤ 0 ∧
    scaled m e = x * one.
Proof.
  intros Hx. destruct (f64_of_Z_exact x Hx) as (m & e & (Hf & Hm & He) & Hv).
  exists m, e. split; [exact Hf|]. split; [exact Hm|]. split; [exact He|].
  unfold scaled, one, unit_exp. rewrite Hv, <- Z.mul_assoc, <- Z.pow_add_r by lia.
  f_equal. f_equal. lia.
Qed.

(** A quotient of integers, as a scaled value. *)
Lemma quotient_scaled x y :
  0 < x < 2 ^ 53 → 0 < y < 2 ^ 53 →
  ∃ m e, f64_div (f64_of_Z x) (f64_of_Z y) = S754_finite false m e ∧
    2 ^ 52 ≤ Zpos m < 2 ^ 53 ∧ - 105 ≤ e ≤ 54 ∧
    2 ^ 53 * Z.abs (x * one - scaled m e * y) ≤ x * one.
Proof.
  intros Hx Hy.
  destruct (f64_of_Z_scaled x Hx) as (m1 & e1 & -> & Hm1 & He1 & Hv1).
  destruct (f64_of_Z_scaled y Hy) as (m2 & e2 & -> & Hm2 & He2 & Hv2).
  destruct (div_scaled m1 e1 m2 e2 Hm1 Hm2 ltac:(lia) ltac:(lia)) as (m & e & Hf & Hm & He & Herr).
  exists m, e. split; [exact Hf|]. split; [exact Hm|]. split; [lia|].
  rewrite Hv1, Hv2 in Herr. pose proof one_pos as Hone. set (B := one) in *. clearbody B.
  replace (x * B * B - scaled m e * (y * B)) with ((x * B - scaled m e * y) * B) in Herr by ring.
  rewrite Z.abs_mul, (Z.abs_eq B) in Herr by lia. clear - Herr Hone. nia.
Qed.

(** ["%.2f"] of a quotient of integers: the nearest hundredth, to a relative
    2^-53. *)
Lemma ratio_hundredths x y :
  0 < x < 2 ^ 53 → 0 < y < 2 ^ 53 →
  ∃ h, fmt_2f (f64_div (f64_of_Z x) (f64_of_Z y)) = fmt_hundredths h ∧ 0 ≤ h ∧
    2 ^ 54 * Z.abs (100 * x - h * y) ≤ 2 ^ 53 * y + 200 * x.
Proof.
  intros Hx Hy. destruct (quotient_scaled x y Hx Hy) as (m & e & -> & Hm & He & Herr).
  pose proof one_pos as Hone.
  assert (Hle : e < 1).
  { apply (scaled_small m e 1); [lia|lia|lia|]. set (B := one) in *. clearbody B. nia. }
  destruct (hundredths_scaled m e ltac:(lia)) as [Hh Hh0].
  exists (hundredths m e). split; [done|]. split; [exact Hh0|].
  set (B := one) in *. set (v := scaled m e) in *. set (h := hundredths m e) in *. clearbody B v h.
  assert (Hy2 : 2 * Z.abs (100 * (v * y) - h * y * B) ≤ y * B) by nia.
  assert (Hfin : 2 ^ 54 * (Z.abs (100 * x - h * y) * B) ≤ (2 ^ 53 * y + 200 * x) * B); [|nia].
  rewrite <- (Z.abs_eq B) at 1 by lia. rewrite <- Z.abs_mul.
  replace ((100 * x - h * y) * B) with (100 * (x * B) - h * y * B) by ring.
  replace ((2 ^ 53 * y + 200 * x) * B) with (2 ^ 53 * (y * B) + 200 * (x * B)) by ring.
  set (xB := x * B) in *. set (yB := y * B) in *. set (W := v * y) in *. set (U := h * y * B) in *.
  clearbody xB yB W U. lia.
Qed.

(** The same of a quotient times 100, below 2^52: half a hundredth, and what two
    roundings add, relative to the quotient; at most 100 of a quotient at most 1. *)
Lemma percent_hundredths x y :
  0 < x < 2 ^ 53 → 0 < y < 2 ^ 53 → 128 * x ≤ 2 ^ 52 * y →
  ∃ h, fmt_2f (f64_mul (f64_div (f64_of_Z x) (f64_of_Z y)) (f64_of_Z 100)) = fmt_hundredths h ∧
    0 ≤ h ∧ 2 ^ 53 * Z.abs (10000 * x - h * y) ≤ 2 ^ 52 * y + 30000 * x ∧ (x ≤ y → h ≤ 10000).
Proof.
  intros Hx Hy Hxy. destruct (quotient_scaled x y Hx Hy) as (m1 & e1 & -> & Hm1 & He1 & Herr1).
  destruct (f64_of_Z_scaled 100 ltac:(lia)) as (m2 & e2 & -> & Hm2 & He2 & Hv2).
  destruct (mul_scaled m1 e1 m2 e2 Hm1 Hm2 ltac:(lia) ltac:(lia)) as (m & e & -> & Hm & He & Herr).
  pose proof one_pos as Hone. rewrite Hv2 in Herr.
  assert (Herr2 : 2 ^ 53 * Z.abs (100 * scaled m1 e1 - scaled m e) ≤ 100 * scaled m1 e1).
  { set (B := one) in *. set (v := scaled m1 e1) in *. set (w := scaled m e) in *. clearbody B v w.
    replace (v * (100 * B) - w * B) with ((100 * v - w) * B) in Herr by ring.
    rewrite Z.abs_mul, (Z.abs_eq B) in Herr by lia. clear - Herr Hone. nia. }
  clear Herr. assert (Hle : e < 1).
  { apply (scaled_small m e 1); [lia|lia|lia|].
    set (B := one) in *. set (v := scaled m1 e1) in *. clearbody B v.
    assert (Hxb : 128 * (x * B) ≤ 2 ^ 52 * (y * B)) by (clear - Hxy Hone; nia).
    assert (H100 : 100 * (v * y) < 101 * (x * B)) by nia.
    assert (101 * v * y < 2 ^ 52 * B * y) by nia. nia. }
  destruct (hundredths_scaled m e ltac:(lia)) as [Hh Hh0].
  exists (hundredths m e). split; [done|]. split; [exact Hh0|].
  set (B := one) in *. set (v := scaled m1 e1) in *. set (w := scaled m e) in *.
  set (h := hundredths m e) in *. clearbody B v w h.
  assert (Hwy : 2 ^ 53 * Z.abs (100 * (v * y) - w * y) ≤ 100 * (v * y)) by nia.
  assert (Hhy : 2 * Z.abs (100 * (w * y) - h * y * B) ≤ y * B) by nia.
  assert (Hfin : 2 ^ 53 * (Z.abs (10000 * x - h * y) * B) ≤ (2 ^ 52 * y + 30000 * x) * B).
  { rewrite <- (Z.abs_eq B) at 1 by lia. rewrite <- Z.abs_mul.
    replace ((10000 * x - h * y) * B) with (10000 * (x * B) - h * y * B) by ring.
    replace ((2 ^ 52 * y + 30000 * x) * B) with (2 ^ 52 * (y * B) + 30000 * (x * B)) by ring.
    assert (0 < x * B) by nia.
    set (xB := x * B) in *. set (yB := y * B) in *. set (V := v * y) in *. set (W := w * y) in *.
    set (U := h * y * B) in *. clearbody xB yB V W U. lia. }
  assert (Hb : 2 ^ 53 * Z.abs (10000 * x - h * y) ≤ 2 ^ 52 * y + 30000 * x)
    by (clear - Hfin Hone; nia).
  split; [exact Hb|]. intros Hle1. clear - Hb Hx Hh0 Hle1. nia.
Qed.

(** ** A sum of a whole number and a fraction *)

Lemma f64_add_rounds m1 e1 m2 e2 :
  2 ^ 52 ≤ Zpos m1 < 2 ^ 53 → 2 ^ 52 ≤ Zpos m2 < 2 ^ 53 → - 200 ≤ e1 ≤ 200 → - 200 ≤ e2 ≤ 200 →
  let ez := Z.min e1 e2 in
  rounds_to (Zpos m1 * 2 ^ (e1 - ez) + Zpos m2 * 2 ^ (e2 - ez)) 1 ez
    (f64_add (S754_finite false m1 e1) (S754_finite false m2 e2)).
Proof.
  intros H1 H2 He1 He2 ez. unfold f64_add, SFadd. fold ez. cbn [cond_Zopp].
  assert (Hal : ∀ m e, ez ≤ e → Zpos (fst (shl_align m e ez)) = Zpos m * 2 ^ (e - ez)).
  { intros m e Hle. unfold shl_align. destruct (ez - e) as [|q|q] eqn:E; [|lia|]; cbn [fst].
    - replace (e - ez) with 0 by lia. rewrite Z.pow_0_r. lia.
    - replace (e - ez) with (Zpos q) by lia. clear.
      induction q as [|q IH] using Pos.peano_ind; [cbn; lia|].
      rewrite Pos.iter_succ, Pos2Z.inj_succ, Z.pow_succ_r by lia.
      rewrite (Pos2Z.inj_xO (Pos.iter _ _ _)), IH. lia. }
  rewrite !Hal by (unfold ez; lia). set (N := _ + _).
  assert (Hp1 : 0 < 2 ^ (e1 - ez)) by (apply Z.pow_pos_nonneg; unfold ez; lia).
  assert (Hp2 : 0 < 2 ^ (e2 - ez)) by (apply Z.pow_pos_nonneg; unfold ez; lia).
  assert (HN : 2 ^ 52 ≤ N ∧ N < 2 ^ 53 * 2 ^ 401).
  { split; [unfold N; nia|].
    pose proof (Z.pow_le_mono_r 2 (e1 - ez) 400 ltac:(lia) ltac:(unfold ez; lia)).
    pose proof (Z.pow_le_mono_r 2 (e2 - ez) 400 ltac:(lia) ltac:(unfold ez; lia)).
    unfold N. replace (2 ^ 401) with (2 * 2 ^ 400) by reflexivity. clearbody N ez.
    set (P := 2 ^ 400) in *. clearbody P. nia. }
  assert (Hd : 53 ≤ Zdigits2 N ≤ 454).
  { pose proof (Zdigits2_bounds N ltac:(lia)) as Hb. split.
    - destruct (decide (53 ≤ Zdigits2 N)); [done|exfalso].
      pose proof (Z.pow_le_mono_r 2 (Zdigits2 N) 52 ltac:(lia) ltac:(lia)). 
      assert (Zdigits2 N = 52 ∨ Zdigits2 N < 52) as [E|E] by lia.
      + rewrite E in Hb. lia.
      + pose proof (Z.pow_le_mono_r 2 (Zdigits2 N) 51 ltac:(lia) ltac:(lia)). lia.
    - destruct (decide (Zdigits2 N ≤ 454)); [done|exfalso].
      pose proof (Z.pow_le_mono_r 2 454 (Zdigits2 N - 1) ltac:(lia) ltac:(lia)).
      rewrite <- Z.pow_add_r in HN by lia. lia. }
  unfold binary_normalize. destruct N as [|n|n] eqn:EN; [lia| |lia].
  unfold binary_round. cbn [Zdigits2] in Hd. unfold shl_align.
  assert (Hf : fexp64 (Zpos (digits2_pos n) + ez) - ez = Zpos (digits2_pos n) - 53)
    by (unfold fexp, emin, ez; lia).
  rewrite Hf. destruct (Zpos (digits2_pos n) - 53) as [|q|q] eqn:E; [| |lia];
    (apply round_aux_rounds; [lia|lia|by rewrite Z.div_1_r|by rewrite Z.mod_1_r|..];
     cbn [Zdigits2]; unfold ez; lia).
Qed.

(** The integer part of a number whose exponent is negative. *)
Lemma f64_trunc_div m e u t :
  e < 0 → 0 ≤ e - u → Zpos m * 2 ^ (e - u) = t →
  f64_trunc (S754_finite false m e) = t / 2 ^ (- u).
Proof.
  intros He Hu <-. cbn [f64_trunc]. rewrite decide_False by lia.
  replace (- u) with (- e + (e - u)) by lia. rewrite Z.pow_add_r by lia.
  rewrite Z.div_mul_cancel_r; [done|..]; apply Z.pow_nonzero; lia.
Qed.

(** The sum of two normal numbers: a multiple [t] of the unit [2^u] in its last
    place, at most half a unit from the exact sum. *)
Lemma add_scaled m1 e1 m2 e2 :
  2 ^ 52 ≤ Zpos m1 < 2 ^ 53 → 2 ^ 52 ≤ Zpos m2 < 2 ^ 53 → - 200 ≤ e1 ≤ 200 → - 200 ≤ e2 ≤ 200 →
  ∃ m e u, f64_add (S754_finite false m1 e1) (S754_finite false m2 e2) = S754_finite false m e ∧
    u ≤ e ≤ u + 1 ∧ - 200 ≤ u ∧ let unit := 2 ^ (unit_exp + u) in
    2 ^ 52 * unit ≤ scaled m1 e1 + scaled m2 e2 ∧
    2 * Z.abs (scaled m1 e1 + scaled m2 e2 - Zpos m * 2 ^ (e - u) * unit) ≤ unit.
Proof.
  intros Hm1 Hm2 He1 He2.
  destruct (f64_add_rounds m1 e1 m2 e2 Hm1 Hm2 He1 He2) as (m & e & k & -> & Hk & Hm & Hlo & Hr & He & _).
  set (ez := Z.min e1 e2) in *. set (N := Zpos m1 * 2 ^ (e1 - ez) + Zpos m2 * 2 ^ (e2 - ez)) in *.
  rewrite !Z.mul_1_r in *. exists m, e, (ez + k). cbv zeta.
  assert (HV : N * 2 ^ (unit_exp + ez) = scaled m1 e1 + scaled m2 e2).
  { unfold N, scaled, unit_exp. rewrite Z.mul_add_distr_r, <- !Z.mul_assoc.
    rewrite <- !Z.pow_add_r by (unfold ez; lia). f_equal; f_equal; f_equal; lia. }
  assert (HU : 2 ^ (unit_exp + (ez + k)) = 2 ^ k * 2 ^ (unit_exp + ez)).
  { unfold unit_exp. rewrite <- Z.pow_add_r by (unfold ez; lia). f_equal. lia. }
  assert (HP : 0 ≤ 2 ^ (unit_exp + ez)) by (apply Z.pow_nonneg; lia).
  split; [done|]. split; [lia|]. split; [unfold ez; lia|]. rewrite <- HV, HU. split.
  - rewrite Z.mul_assoc. by apply Z.mul_le_mono_nonneg_r.
  - rewrite Z.mul_assoc, <- (Z.mul_assoc (Zpos m)), <- Z.pow_add_r by lia.
    replace (e - (ez + k) + k) with (e - ez) by lia.
    rewrite <- Z.mul_sub_distr_r, Z.abs_mul, (Z.abs_eq (2 ^ (unit_exp + ez))) by done.
    rewrite Z.mul_assoc. by apply Z.mul_le_mono_nonneg_r.
Qed.

(** A number between [S] and [S + 1], rounded to a multiple [t / q]. *)
Lemma rounded_between S v t q B U :
  0 < U → 0 < q → B = q * U → 0 ≤ v ≤ B → 2 * Z.abs (S * B + v - t * U) ≤ U →
  S ≤ t / q ≤ S + 1 ∧ (2 * v + U < 2 * B → t / q = S).
Proof.
  intros HU Hq HB Hv Ht.
  assert (Hlo : S * q ≤ t).
  { apply Z.lt_succ_r, (Z.mul_lt_mono_pos_r U); [done|]. subst B.
    rewrite <- Z.mul_assoc. lia. }
  assert (Hhi : t ≤ (S + 1) * q).
  { apply Z.lt_succ_r, (Z.mul_lt_mono_pos_r U); [done|]. subst B.
    replace (Z.succ ((S + 1) * q) * U) with (S * (q * U) + q * U + U) by lia. lia. }
  split; [split; [apply Z.div_le_lower_bound; lia|apply Z.div_le_upper_bound; lia]|].
  intros Hlt. assert (Hlt' : t < (S + 1) * q).
  { apply (Z.mul_lt_mono_pos_r U); [done|]. subst B.
    replace ((S + 1) * q * U) with (S * (q * U) + q * U) by lia. lia. }
  symmetry. apply (Z.div_unique_pos _ _ _ (t - S * q)); lia.
Qed.

(** [float64(secs) + float64(nanos) / 1e9], truncated: the number of seconds,
    or one more when the fraction is rounded up; never below 2^24 seconds. *)
Lemma seconds_trunc S F :
  0 < S < 2 ^ 34 → 0 < F < 10 ^ 9 →
  let t := f64_trunc (f64_add (f64_of_Z S) (f64_div (f64_of_Z F) (f64_of_Z 1000000000))) in
  S ≤ t ≤ S + 1 ∧ (S < 2 ^ 24 → t = S).
Proof.
  intros HS HF. destruct (f64_of_Z_scaled S ltac:(lia)) as (m1 & e1 & -> & Hm1 & He1 & Hv1).
  destruct (quotient_scaled F 1000000000 ltac:(lia) ltac:(lia)) as (m2 & e2 & -> & Hm2 & He2 & Herr).
  destruct (add_scaled m1 e1 m2 e2 Hm1 Hm2 ltac:(lia) ltac:(lia))
    as (m & e & u & -> & He & Hu & H52 & Ht). rewrite Hv1 in *.
  pose proof one_pos as HB. set (v := scaled m2 e2) in *. set (U := 2 ^ (unit_exp + u)) in *.
  assert (Hv0 : 0 ≤ v) by (apply Z.mul_nonneg_nonneg; [lia|apply Z.pow_nonneg; unfold unit_exp; lia]).
  assert (Hv : v * 10 ^ 9 * 2 ^ 53 ≤ (10 ^ 9 - 1) * (2 ^ 53 + 1) * one).
  { set (B := one) in *. clearbody B v. clear -Herr HF HB. nia. }
  (* the sum is below [2^b], so that its last place is below [2^(b-52)] *)
  assert (Hexp : ∀ b, 0 ≤ b → S ≤ 2 ^ b - 1 → u < b - 52).
  { intros b Hb Hlt. destruct (decide (u < b - 52)) as [|Hge]; [done|exfalso].
    assert (Hpow : 2 ^ b * one ≤ 2 ^ 52 * U).
    { unfold one, U, unit_exp. rewrite <- !Z.pow_add_r by lia. apply Z.pow_le_mono_r; lia. }
    set (B := one) in *. set (P := 2 ^ b) in *. clearbody B P U v. nia. }
  assert (Hu34 : u < 34 - 52) by (apply Hexp; lia).
  cbv zeta. rewrite (f64_trunc_div m e u _ ltac:(lia) ltac:(lia) eq_refl).
  destruct (rounded_between S v (Zpos m * 2 ^ (e - u)) (2 ^ (- u)) one U) as [Hb He'].
  - apply Z.pow_pos_nonneg; unfold unit_exp; lia.
  - apply Z.pow_pos_nonneg; lia.
  - unfold one, U, unit_exp. rewrite <- Z.pow_add_r by lia. f_equal. lia.
  - lia.
  - exact Ht.
  - split; [exact Hb|]. intros H24. apply He'. assert (Hu24 : u < 24 - 52) by (apply Hexp; lia).
    assert (HUB : U * 2 ^ 29 ≤ one); [|lia].
    unfold one, U, unit_exp. rewrite <- Z.pow_add_r by lia. apply Z.pow_le_mono_r; lia.
Qed.

(** The two degenerate sums. *)
Lemma f64_trunc_of_Z S : 0 ≤ S < 2 ^ 53 → f64_trunc (f64_of_Z S) = S.
Proof.
  intros HS. destruct (decide (S = 0)) as [->|Hne]; [done|].
  destruct (f64_of_Z_exact S ltac:(lia)) as (m & e & (-> & Hm & He) & Hv). cbn [f64_trunc].
  destruct (decide (0 ≤ e)).
  - assert (e = 0) as -> by lia. change (- 0) with 0 in Hv. rewrite Z.pow_0_r in *. lia.
  - rewrite Hv, Z.div_mul; [done|]. apply Z.pow_nonzero; lia.
Qed.

Lemma fraction_trunc F :
  0 < F < 10 ^ 9 → f64_trunc (f64_div (f64_of_Z F) (f64_of_Z 1000000000)) = 0.
Proof.
  intros HF.
  destruct (quotient_scaled F 1000000000 ltac:(lia) ltac:(lia)) as (m & e & -> & Hm & He & Herr).
  pose proof one_pos as HB.
  assert (Hv : scaled m e < one).
  { set (B := one) in *. set (v := scaled m e) in *. clearbody B v. clear -Herr HF HB. nia. }
  assert (He0 : e < 0) by (apply (scaled_small m e 0); lia).
  cbn [f64_trunc]. rewrite decide_False by lia. apply Z.div_small. split; [lia|].
  unfold scaled, one, unit_exp in Hv. replace 1100 with (- e + (1100 + e)) in Hv at 2 by lia.
  rewrite (Z.pow_add_r 2 (- e)) in Hv by lia. apply Z.mul_lt_mono_pos_r in Hv; [done|].
  apply Z.pow_pos_nonneg; lia.
Qed.
