(* ===== verification/GoTime.v ===== *)
(** * The part of package [time] the server uses

    [time.Duration] arithmetic on [int64] nanoseconds, [time.Unix],
    [Time.Sub]/[time.Since], [Time.Format] with the RFC 3339 layout,
    [Duration.String] of whole seconds, and [time.Ticker]. *)

From Stdlib Require Import ZArith Lia.
From Stdlib Require Import Floats.SpecFloat.
From S2P Require Import Prelude Float64 Rounding.

Local Open Scope Z_scope.

(** [time.Duration] is an [int64] count of nanoseconds. *)
Definition Microsecond : Z := 1000.
Definition Millisecond : Z := 1000000.
Definition Second : Z := 1000000000.

(** [time.Time]: seconds since the Unix epoch and nanoseconds within it. *)
Record Time := mkTime { t_sec : Z; t_nsec : Z }.

(** [time.Unix(sec, nsec)], on [int64] arguments. *)
Definition time_Unix (sec nsec : Z) : Time :=
  if decide (nsec < 0 ∨ Second ≤ nsec) then
    let n := Z.quot nsec Second in
    let sec := i64 (sec + n) in
    let nsec := nsec - n * Second in
    if decide (nsec < 0) then mkTime (i64 (sec - 1)) (nsec + Second)
    else mkTime sec nsec
  else mkTime sec nsec.

(** [t.UnixNano()]. *)
Definition UnixNano (t : Time) : Z := i64 (t_sec t * Second + t_nsec t).

Definition minDuration : Z := - 2 ^ 63.
Definition maxDuration : Z := 2 ^ 63 - 1.

(** [t.Sub(u)] without monotonic readings: the difference, saturated. *)
Definition time_Sub (t u : Time) : Z :=
  Z.max minDuration (Z.min maxDuration ((t_sec t - t_sec u) * Second + (t_nsec t - t_nsec u))).

(** [d.Seconds()]: a [float64]. *)
Definition Duration_Seconds (d : Z) : float64 :=
  f64_add (f64_of_Z (Z.quot d Second))
          (f64_div (f64_of_Z (Z.rem d Second)) (f64_of_Z 1000000000)).

(** [d.Truncate(m)] for [m > 0]. *)
Definition Duration_Truncate (d m : Z) : Z := d - Z.rem d m.

(** [d.String()] for a whole number of seconds: ["1h2m3s"], ["2m3s"], ["3s"]. *)
Definition Duration_String (d : Z) : string :=
  let u := Z.abs d / Second in
  let s := fmt_d (u mod 60) +:+ "s" in
  let ms := if decide (0 < u / 60) then fmt_d (u / 60 mod 60) +:+ "m" +:+ s else s in
  let hms := if decide (0 < u / 60 / 60) then fmt_d (u / 60 / 60) +:+ "h" +:+ ms else ms in
  if decide (d < 0) then "-" +:+ hms else hms.

(** ** Tickers *)

(** A ticker, by its period and the instant of the next tick (the clock is a
    count of nanoseconds). *)
Record Ticker := mkTicker { tk_period : Z; tk_next : Z }.

(** [time.NewTicker(d)]: it panics if [d] is not positive. *)
Definition NewTicker (d now : Z) : outcome Ticker :=
  if decide (d ≤ 0) then Panic else Ok (mkTicker d (now + d)).

(** [<-ticker.C] by a receiver that comes to it at [now], and the instant at
    which it has received: a tick that is due is received at once, and the
    others that have passed are dropped; otherwise the receiver waits. *)
Definition Ticker_receive (tk : Ticker) (now : Z) : Z * Ticker :=
  if decide (tk_next tk ≤ now)
  then (now, mkTicker (tk_period tk)
               (tk_next tk + ((now - tk_next tk) / tk_period tk + 1) * tk_period tk))
  else (tk_next tk, mkTicker (tk_period tk) (tk_next tk + tk_period tk)).

(** Ticks are a period apart; a receiver that comes in time gets each at its
    instant. *)
Lemma Ticker_receive_spaced tk now : 0 < tk_period tk →
  let '(at_, tk') := Ticker_receive tk now in
  tk_next tk ≤ at_ ∧ now ≤ at_ ∧ tk_period tk' = tk_period tk ∧
  tk_next tk + tk_period tk ≤ tk_next tk' ∧
  (now ≤ tk_next tk → at_ = tk_next tk ∧ tk_next tk' = tk_next tk + tk_period tk).
Proof.
  intros Hd. unfold Ticker_receive. destruct (decide _) as [Hle|Hgt]; cbn [tk_period tk_next].
  - pose proof (Z.div_pos (now - tk_next tk) (tk_period tk) ltac:(lia) Hd).
    split_and!; [done|done|done|nia|]. intros Hn. assert (now = tk_next tk) as -> by lia.
    rewrite Z.sub_diag, Z.div_0_l by lia. split; [done|lia].
  - split_and!; lia.
Qed.

(** ** Civil dates (proleptic Gregorian calendar) *)

(** Days since 1970-01-01 to (year, month, day): eras of 400 years that start
    on March 1st. *)
Definition civil_from_days (z : Z) : Z * Z * Z :=
  let z := z + 719468 in
  let era := z / 146097 in
  let doe := z mod 146097 in
  let yoe := (doe - doe / 1460 + doe / 36524 - doe / 146096) / 365 in
  let doy := doe - (365 * yoe + yoe / 4 - yoe / 100) in
  let mp := (5 * doy + 2) / 153 in
  let d := doy - (153 * mp + 2) / 5 + 1 in
  let m := if decide (mp < 10) then mp + 3 else mp - 9 in
  let y := yoe + era * 400 in
  ((if decide (m ≤ 2) then y + 1 else y), m, d).

(** [appendInt(b, x, width)]: zero-padded. *)
Fixpoint zeros (n : nat) : string :=
  match n with O => EmptyString | S n' => "0" +:+ zeros n' end.

Definition appendInt (x : Z) (width : nat) : string :=
  let digits := fmt_d (Z.abs x) in
  (if decide (x < 0) then "-" else EmptyString)
    +:+ zeros (width - String.length digits) +:+ digits.

(** [t.Format("2006-01-02T15:04:05Z07:00")] in a zone [offset] seconds east of
    UTC. *)
Definition Format_RFC3339 (offset : Z) (t : Time) : string :=
  let local := t_sec t + offset in
  let '(year, month, day) := civil_from_days (local / 86400) in
  let secs := local mod 86400 in
  let zone := Z.quot offset 60 in
  appendInt year 4 +:+ "-" +:+ appendInt month 2 +:+ "-" +:+ appendInt day 2 +:+ "T"
    +:+ appendInt (secs / 3600) 2 +:+ ":" +:+ appendInt (secs / 60 mod 60) 2
    +:+ ":" +:+ appendInt (secs mod 60) 2
    +:+ (if decide (offset = 0) then "Z"
         else (if decide (zone < 0) then "-" else "+")
              +:+ appendInt (Z.abs zone / 60) 2 +:+ ":" +:+ appendInt (Z.abs zone mod 60) 2).

Example format_epoch : Format_RFC3339 0 (mkTime 0 0) = "1970-01-01T00:00:00Z".
Proof. vm_compute. done. Qed.
Example format_zone : Format_RFC3339 (-25200) (mkTime 1735689600 0) = "2024-12-31T17:00:00-07:00".
Proof. vm_compute. done. Qed.
Example format_leap : Format_RFC3339 19800 (mkTime 1709164800 0) = "2024-02-29T05:30:00+05:30".
Proof. vm_compute. done. Qed.
Example string_hms : Duration_String (3723 * Second) = "1h2m3s".
Proof. vm_compute. done. Qed.
Example string_h0 : Duration_String (3600 * Second) = "1h0m0s".
Proof. vm_compute. done. Qed.

(** A valid time has its nanoseconds within one second. *)
Lemma time_Unix_nsec sec nsec :
  0 ≤ t_nsec (time_Unix sec nsec) < Second.
Proof.
  unfold time_Unix, Second.
  pose proof (Z.quot_rem' nsec 1000000000).
  pose proof (Z.rem_bound_abs nsec 1000000000 ltac:(lia)).
  destruct (decide _); [destruct (decide _)|]; simpl; lia.
Qed.

(** [time.Unix] keeps the instant it is given, away from the ends of [int64]. *)
Lemma time_Unix_instant sec nsec :
  - 2 ^ 62 ≤ sec < 2 ^ 62 → - 2 ^ 62 ≤ nsec < 2 ^ 62 →
  t_sec (time_Unix sec nsec) * Second + t_nsec (time_Unix sec nsec) = sec * Second + nsec.
Proof.
  intros Hs Hn. unfold time_Unix, Second in *.
  pose proof (Z.quot_rem' nsec 1000000000).
  pose proof (Z.rem_bound_abs nsec 1000000000 ltac:(lia)).
  rewrite (i64_id (sec + _)) by lia.
  destruct (decide _); [destruct (decide _)|]; simpl t_sec; simpl t_nsec;
    rewrite ?i64_id by lia; lia.
Qed.

(** The seconds of a duration, truncated to an integer: exact below 2^24
    seconds, and at most one too many above. *)
Lemma Duration_Seconds_trunc d :
  0 ≤ d < 2 ^ 63 →
  d / Second ≤ f64_trunc (Duration_Seconds d) ≤ d / Second + 1 ∧
  (d < 2 ^ 24 * Second → f64_trunc (Duration_Seconds d) = d / Second).
Proof.
  intros Hd. unfold Duration_Seconds. rewrite Z.quot_div_nonneg, Z.rem_mod_nonneg by (unfold Second; lia).
  pose proof (Z.mod_pos_bound d Second ltac:(unfold Second; lia)) as HF.
  pose proof (Z.div_mod d Second ltac:(unfold Second; lia)) as Hdm.
  set (S := d / Second) in *. set (F := d mod Second) in *.
  assert (HS : 0 ≤ S < 2 ^ 34) by (unfold Second in *; lia).
  clearbody S F.
  assert (Hadd0 : ∀ x, f64_add x (S754_zero false) = x ∨ ∃ b, x = S754_zero b).
  { intros [b| | |]; [right; by exists b|by left..]. }
  assert (Hcase : f64_trunc (f64_add (f64_of_Z S) (f64_div (f64_of_Z F) (f64_of_Z 1000000000))) = S ∨
    0 < S ∧ 0 < F).
  { destruct (decide (F = 0)) as [->|HF0].
    - left. change (f64_div (f64_of_Z 0) (f64_of_Z 1000000000)) with (S754_zero false).
      rewrite <- (f64_trunc_of_Z S) at 2 by lia.
      destruct (Hadd0 (f64_of_Z S)) as [->|[b ->]]; [done|by destruct b].
    - destruct (decide (S = 0)) as [->|HS0]; [left|right; lia].
      transitivity (f64_trunc (f64_div (f64_of_Z F) (f64_of_Z 1000000000)));
        [|apply fraction_trunc; unfold Second in HF; lia].
      change (f64_of_Z 0) with (S754_zero false).
      by destruct (f64_div (f64_of_Z F) (f64_of_Z 1000000000)) as [[]| | |]. }
  destruct Hcase as [->|[HS0 HF0]]; [lia|].
  destruct (seconds_trunc S F ltac:(lia) ltac:(unfold Second in HF; lia)) as [Hb He].
  split; [exact Hb|]. intros Hlt. apply He. unfold Second in *. lia.
Qed.

(** What is left of a duration without its fraction of a second. *)
Lemma Duration_Truncate_seconds d : 0 ≤ d → Duration_Truncate d Second = d / Second * Second.
Proof.
  intros Hd. unfold Duration_Truncate. rewrite Z.rem_mod_nonneg by (unfold Second; lia).
  pose proof (Z.div_mod d Second ltac:(unfold Second; lia)). lia.
Qed.

#[export] Hint Resolve time_Unix_nsec : go.
