(* ===== verification/Calendar.v ===== *)
(** * The calendar, and reading a printed time back (package time, RFC 3339)

    [civil_from_days] computes with eras of 400 years that start in March.  The
    reference here counts days as the calendar does: 365 for a year, one more
    for each leap year, and the lengths of the months; a printed time is read
    back to the instant it denotes. *)

From Stdlib Require Import ZArith Lia.
From Stdlib Require Import Strings.Byte.
From S2P Require Import Prelude Bytes Utf8 GoTime.

Local Open Scope Z_scope.

(** ** The reference calendar *)

Definition leap (y : Z) : Prop := y mod 4 = 0 ∧ y mod 100 ≠ 0 ∨ y mod 400 = 0.
#[export] Instance leap_dec y : Decision (leap y).
Proof. unfold leap. apply _. Defined.

Definition month_lengths (y : Z) : list Z :=
  [31; if decide (leap y) then 29 else 28; 31; 30; 31; 30; 31; 31; 30; 31; 30; 31].

(** The days before January 1st of year [y], from that of year 0. *)
Definition days_before_year (y : Z) : Z := 365 * y + (y + 3) / 4 - (y + 99) / 100 + (y + 399) / 400.

(** The days before the first of month [m]. *)
Definition days_before_month (y m : Z) : Z :=
  foldr Z.add 0 (take (Z.to_nat (m - 1)) (month_lengths y)).

Definition valid_date (y m d : Z) : Prop :=
  1 ≤ m ≤ 12 ∧ 1 ≤ d ≤ default 0 (month_lengths y !! Z.to_nat (m - 1)).

(** Days since 1970-01-01. *)
Definition days_from_civil (y m d : Z) : Z :=
  days_before_year y - days_before_year 1970 + days_before_month y m + (d - 1).

(** Linear arithmetic with divisions by constants. *)
Local Ltac div_lia := Z.to_euclidean_division_equations; lia.

(** ** Centuries, cycles of four years, years and days

    A day of an era that starts in March: century [C], cycle [B], year [A] and
    day [n] of the year, the leap day being the last of its year. *)
Definition in_era (C B A n : Z) : Prop :=
  0 ≤ C ≤ 3 ∧ 0 ≤ B ≤ 24 ∧ 0 ≤ A ≤ 3 ∧ 0 ≤ n ≤ 365 ∧
  (n = 365 → A = 3 ∧ (B < 24 ∨ C = 3)).

Definition era_day (C B A n : Z) : Z := 36524 * C + 1461 * B + 365 * A + n.

Lemma in_era_exists doe :
  0 ≤ doe < 146097 → ∃ C B A n, in_era C B A n ∧ doe = era_day C B A n.
Proof.
  intros Hd. unfold in_era, era_day.
  pose (C := Z.min 3 (doe / 36524)). pose (r := doe - 36524 * C).
  pose (B := r / 1461). pose (q := r - 1461 * B). pose (A := Z.min 3 (q / 365)).
  exists C, B, A, (q - 365 * A).
  assert (HC : 0 ≤ C ≤ 3 ∧ 0 ≤ r ≤ 36524 ∧ (r = 36524 → C = 3)).
  { subst r C. destruct (Z.min_spec 3 (doe / 36524)) as [[? ->]|[? ->]]; split_and!; div_lia. }
  assert (Hr : doe = 36524 * C + r) by (subst r; div_lia). clearbody C r.
  assert (HB : 0 ≤ B ≤ 24 ∧ 0 ≤ q ≤ 1460 ∧ (q = 1460 → B < 24 ∨ C = 3)).
  { subst q B. split_and!; div_lia. }
  assert (Hq : r = 1461 * B + q) by (subst q; div_lia). clearbody B q.
  assert (HA : 0 ≤ A ≤ 3 ∧ 0 ≤ q - 365 * A ≤ 365 ∧ (q - 365 * A = 365 → A = 3 ∧ q = 1460)).
  { subst A. destruct (Z.min_spec 3 (q / 365)) as [[? ->]|[? ->]]; split_and!; div_lia. }
  clearbody A.
  split; [|div_lia]. split_and!; div_lia.
Qed.

(** The year within the era, as [civil_from_days] computes it. *)
Lemma era_year C B A n :
  in_era C B A n →
  let doe := era_day C B A n in
  (doe - doe / 1460 + doe / 36524 - doe / 146096) / 365 = 100 * C + 4 * B + A.
Proof.
  unfold in_era, era_day. intros (HC & HB & HA & Hn & Hl). cbv zeta.
  assert (HC' : C = 0 ∨ C = 1 ∨ C = 2 ∨ C = 3) by div_lia.
  assert (HA' : A = 0 ∨ A = 1 ∨ A = 2 ∨ A = 3) by div_lia.
  destruct HC' as [-> | [-> | [-> | ->]]]; destruct HA' as [-> | [-> | [-> | ->]]]; div_lia.
Qed.

(** The day of that year. *)
Lemma era_day_of_year C B A n :
  in_era C B A n →
  let yoe := 100 * C + 4 * B + A in
  era_day C B A n - (365 * yoe + yoe / 4 - yoe / 100) = n.
Proof.
  unfold in_era, era_day. intros (HC & HB & HA & Hn & Hl). cbv zeta.
  replace ((100 * C + 4 * B + A) / 4) with (25 * C + B) by div_lia.
  replace ((100 * C + 4 * B + A) / 100) with C by div_lia. div_lia.
Qed.

(** ** Months

    Day [n] of the year that starts on March 1st of year [y]. *)
Definition march_date (y n : Z) : Z * Z * Z :=
  let mp := (5 * n + 2) / 153 in
  let d := n - (153 * mp + 2) / 5 + 1 in
  let m := if decide (mp < 10) then mp + 3 else mp - 9 in
  ((if decide (m ≤ 2) then y + 1 else y), m, d).

Lemma civil_from_days_march z e C B A n :
  in_era C B A n → z + 719468 = 146097 * e + era_day C B A n →
  civil_from_days z = march_date (400 * e + 100 * C + 4 * B + A) n.
Proof.
  intros Hin Hz. unfold civil_from_days. rewrite Hz.
  assert (Hrange : 0 ≤ era_day C B A n < 146097).
  { unfold in_era, era_day in *. destruct Hin as (? & ? & ? & ? & ?). lia. }
  replace ((146097 * e + era_day C B A n) / 146097) with e by div_lia.
  replace ((146097 * e + era_day C B A n) mod 146097) with (era_day C B A n) by div_lia.
  cbv zeta. rewrite (era_year C B A n Hin), (era_day_of_year C B A n Hin). unfold march_date.
  replace (100 * C + 4 * B + A + e * 400) with (400 * e + 100 * C + 4 * B + A) by lia. done.
Qed.

(** The last day of such a year is a leap day when it has 366. *)
Lemma era_leap e C B A :
  0 ≤ C ≤ 3 → 0 ≤ B ≤ 24 → A = 3 → B < 24 ∨ C = 3 → leap (400 * e + 100 * C + 4 * B + A + 1).
Proof. unfold leap. intros HC HB -> Hl. div_lia. Qed.

(** Leap years up to [y], that of year 0 included. *)
Lemma days_to_march y :
  days_before_year y + 59 + (if decide (leap y) then 1 else 0)
  = 365 * y + y / 4 - y / 100 + y / 400 + 60.
Proof. unfold days_before_year, leap. destruct (decide _); div_lia. Qed.

Lemma days_before_next y :
  days_before_year (y + 1) = 365 * (y + 1) + y / 4 - y / 100 + y / 400 + 1.
Proof. unfold days_before_year. div_lia. Qed.

(** The day of a month is counted from the first of the month. *)
Lemma days_of_month y m d :
  1 ≤ m ≤ 12 →
  1 ≤ d ≤ nth (Z.to_nat (m - 1)) [31; if decide (leap y) then 29 else 28; 31; 30; 31; 30; 31; 31; 30; 31; 30; 31] 0 →
  valid_date y m d ∧
  days_from_civil y m d
  = days_before_year y - 719528 + d - 1
    + nth (Z.to_nat (m - 1)) [0; 31; 59; 90; 120; 151; 181; 212; 243; 273; 304; 334] 0
    + (if decide (m ≤ 2) then 0 else if decide (leap y) then 1 else 0).
Proof.
  intros Hm Hd. assert (Hc : m = 1 ∨ m = 2 ∨ m = 3 ∨ m = 4 ∨ m = 5 ∨ m = 6 ∨ m = 7 ∨ m = 8 ∨ m = 9 ∨
    m = 10 ∨ m = 11 ∨ m = 12) by lia.
  split; [split; [exact Hm|]|].
  - unfold month_lengths. by destruct_or! Hc; subst m.
  - unfold days_from_civil. change (days_before_year 1970) with 719528.
    assert (Hb : days_before_month y m
      = nth (Z.to_nat (m - 1)) [0; 31; 59; 90; 120; 151; 181; 212; 243; 273; 304; 334] 0
        + (if decide (m ≤ 2) then 0 else if decide (leap y) then 1 else 0)).
    { unfold days_before_month, month_lengths.
      destruct_or! Hc; subst m; destruct (decide (leap y)); reflexivity. }
    rewrite Hb. lia.
Qed.

Lemma march_date_correct y n :
  0 ≤ n ≤ 365 → (n = 365 → leap (y + 1)) →
  let '(year, month, day) := march_date y n in
  valid_date year month day ∧
  days_from_civil year month day = 365 * y + y / 4 - y / 100 + y / 400 + n - 719468.
Proof.
  intros Hn Hl. unfold march_date. set (mp := (5 * n + 2) / 153).
  assert (Hmp : 153 * mp ≤ 5 * n + 2 < 153 * mp + 153) by (subst mp; div_lia). clearbody mp.
  pose proof (days_to_march y) as Hy. pose proof (days_before_next y) as Hy1.
  assert (Hc : mp = 0 ∨ mp = 1 ∨ mp = 2 ∨ mp = 3 ∨ mp = 4 ∨ mp = 5 ∨ mp = 6 ∨ mp = 7 ∨ mp = 8 ∨
    mp = 9 ∨ mp = 10 ∨ mp = 11) by lia.
  destruct_or! Hc; subst mp; cbv zeta;
    repeat (first [rewrite (decide_True (P := _ < 10)) by lia
                  |rewrite (decide_False (P := _ < 10)) by lia
                  |rewrite (decide_True (P := _ ≤ 2)) by lia
                  |rewrite (decide_False (P := _ ≤ 2)) by lia]);
    match goal with
    | |- valid_date ?y' ?m' ?d' ∧ _ =>
        let Hv := fresh in let Hd := fresh in
        destruct (days_of_month y' m' d' ltac:(lia)) as [Hv Hd];
        [cbn -[leap Z.div Z.mul]|split; [exact Hv|rewrite Hd; cbn -[days_before_year leap Z.div Z.mul]]]
    end;
    match goal with
    | |- context [Z.to_nat ?e] =>
        let v := eval vm_compute in (Z.to_nat e) in change (Z.to_nat e) with v; cbv iota
    end;
    match goal with
    | |- context [(153 * ?k + 2) / 5] =>
        let v := eval vm_compute in ((153 * k + 2) / 5) in change ((153 * k + 2) / 5) with v
    end;
    repeat match goal with |- context [decide (?P)] => destruct (decide P) end;
    first [lia|assert (n ≠ 365) by tauto; lia].
Qed.

(** The date computed for a day is a date of the calendar, and the day it is. *)
Lemma civil_from_days_correct z :
  let '(year, month, day) := civil_from_days z in
  valid_date year month day ∧ days_from_civil year month day = z.
Proof.
  destruct (in_era_exists ((z + 719468) mod 146097)) as (C & B & A & n & Hin & Hd).
  { apply Z.mod_pos_bound. lia. }
  set (e := (z + 719468) / 146097).
  assert (Hz : z + 719468 = 146097 * e + era_day C B A n) by (subst e; rewrite <- Hd; apply Z.div_mod; lia).
  clearbody e. clear Hd. rewrite (civil_from_days_march z e C B A n Hin Hz).
  destruct Hin as (HC & HB & HA & Hn & Hl). set (y := 400 * e + 100 * C + 4 * B + A).
  pose proof (march_date_correct y n Hn) as Hm.
  assert (Hlp : n = 365 → leap (y + 1)).
  { intros H365. destruct (Hl H365) as [HA3 HBC]. by apply era_leap. }
  specialize (Hm Hlp). destruct (march_date y n) as [[year month] day].
  destruct Hm as [Hv ->]. split; [exact Hv|]. unfold era_day in Hz. subst y. div_lia.
Qed.

(** ** Reading a printed time back *)

(** [expect_byte c l]: what follows [c]. *)
Definition expect_byte (c : byte) (l : list byte) : option (list byte) :=
  match l with b :: l' => if decide (b = c) then Some l' else None | [] => None end.

(** A decimal number, followed by [c]. *)
Definition number_then (c : byte) (l : list byte) : option (Z * list byte) :=
  let '(n, r) := read_digits 0 l in r' ← expect_byte c r; Some (n, r').

(** The offset of the zone: [Z], or hours and minutes east or west of UTC. *)
Definition read_zone (l : list byte) : option Z :=
  match l with
  | b :: l' =>
      if decide (b = x5a ∧ l' = []) then Some 0
      else if decide (b = x2b ∨ b = x2d) then
        '(h, r) ← number_then x3a l';
        let '(m, r') := read_digits 0 r in
        if decide (r' = []) then Some ((if decide (b = x2d) then -1 else 1) * (h * 3600 + m * 60))
        else None
      else None
  | [] => None
  end.

(** Seconds since the Unix epoch and the offset of an RFC 3339 time; its date
    must be one of the calendar's. *)
Definition read_rfc3339 (s : string) : option (Z * Z) :=
  '(year, r) ← number_then x2d (bytes_of_string s);
  '(month, r) ← number_then x2d r;
  '(day, r) ← number_then x54 r;
  '(hour, r) ← number_then x3a r;
  '(minute, r) ← number_then x3a r;
  let '(second, r) := read_digits 0 r in
  offset ← read_zone r;
  if decide (valid_date year month day ∧ hour < 24 ∧ minute < 60 ∧ second < 60) then
    Some (days_from_civil year month day * 86400 + hour * 3600 + minute * 60 + second - offset, offset)
  else None.

Lemma read_digits_zeros n acc l :
  acc = 0 → read_digits acc (bytes_of_string (zeros n) ++ l) = read_digits acc l.
Proof.
  intros ->. induction n as [|n IH]; [done|].
  change (bytes_of_string (zeros (S n))) with (x30 :: bytes_of_string (zeros n)).
  cbn [app read_digits]. rewrite decide_True by by_decide. exact IH.
Qed.

(** A padded number reads back, whatever follows it that is no digit. *)
Lemma appendInt_read x w l :
  0 ≤ x → no_digit l → read_digits 0 (bytes_of_string (appendInt x w) ++ l) = (x, l).
Proof.
  intros Hx Hl. unfold appendInt. rewrite decide_False by lia. rewrite Z.abs_eq by done.
  change (EmptyString +:+ ?s) with s. rewrite bytes_of_string_app, <- app_assoc, read_digits_zeros by done.
  destruct x as [|p|p]; [|exact (proj2 (pretty_read (N.pos p) l Hl))|lia].
  exact (proj2 (pretty_read 0 l Hl)).
Qed.

Lemma appendInt_then x w c s :
  0 ≤ x → no_digit [c] →
  number_then c (bytes_of_string (appendInt x w) ++ c :: s) = Some (x, s).
Proof.
  intros Hx Hc. unfold number_then. rewrite appendInt_read by done.
  unfold expect_byte. by rewrite decide_True.
Qed.

Lemma appendInt_end x w : 0 ≤ x → read_digits 0 (bytes_of_string (appendInt x w)) = (x, []).
Proof. intros Hx. rewrite <- (app_nil_r (bytes_of_string _)). by apply appendInt_read. Qed.

Lemma read_zone_printed offset :
  (60 | offset) →
  let zone := Z.quot offset 60 in
  let s := if decide (offset = 0) then "Z"
           else (if decide (zone < 0) then "-" else "+")
                +:+ appendInt (Z.abs zone / 60) 2 +:+ ":" +:+ appendInt (Z.abs zone mod 60) 2 in
  no_digit (bytes_of_string s) ∧ read_zone (bytes_of_string s) = Some offset.
Proof.
  intros [k ->]. cbv zeta. destruct (decide (k * 60 = 0)) as [->|Hne]; [by split; [by_decide|]|].
  rewrite Z.quot_mul by lia.
  assert (Hk : ∀ sign : string, bytes_of_string (sign +:+ appendInt (Z.abs k / 60) 2 +:+ ":" +:+ appendInt (Z.abs k mod 60) 2)
    = bytes_of_string sign ++ bytes_of_string (appendInt (Z.abs k / 60) 2) ++ x3a :: bytes_of_string (appendInt (Z.abs k mod 60) 2)).
  { intros sign. by rewrite !bytes_of_string_app. }
  rewrite Hk.
  assert (Hread : ∀ b, b = x2b ∨ b = x2d →
    read_zone (b :: bytes_of_string (appendInt (Z.abs k / 60) 2) ++ x3a :: bytes_of_string (appendInt (Z.abs k mod 60) 2))
    = Some ((if decide (b = x2d) then -1 else 1) * (Z.abs k / 60 * 3600 + Z.abs k mod 60 * 60))).
  { intros b Hb. cbn [read_zone]. rewrite decide_False by (intros [-> _]; by destruct Hb).
    rewrite decide_True by done. rewrite appendInt_then; [|apply Z.div_pos; lia|by_decide].
    cbn [mbind option_bind]. rewrite appendInt_end by (apply Z.mod_pos_bound; lia).
    by rewrite decide_True. }
  pose proof (Z.div_mod (Z.abs k) 60 ltac:(lia)) as Hdm.
  destruct (decide (k < 0)) as [Hneg|Hpos].
  - split; [by_decide|]. change (bytes_of_string "-") with [x2d]. cbn [app].
    rewrite Hread by by right. rewrite decide_True by done. f_equal. lia.
  - split; [by_decide|]. change (bytes_of_string "+") with [x2b]. cbn [app].
    rewrite Hread by by left. rewrite decide_False by done. f_equal. lia.
Qed.

(** A day that is not before year 0 is in a year that is not negative. *)
Lemma year_nonneg y m d :
  valid_date y m d → - 719528 ≤ days_from_civil y m d → 0 ≤ y.
Proof.
  intros [Hm Hd] Hdays. unfold days_from_civil in Hdays.
  change (days_before_year 1970) with 719528 in Hdays.
  assert (Hb : days_before_month y m + d ≤ 365 + (if decide (leap y) then 1 else 0)).
  { clear Hdays. assert (Hc : m = 1 ∨ m = 2 ∨ m = 3 ∨ m = 4 ∨ m = 5 ∨ m = 6 ∨ m = 7 ∨ m = 8 ∨ m = 9 ∨
      m = 10 ∨ m = 11 ∨ m = 12) by lia.
    unfold days_before_month, month_lengths in *.
    destruct_or! Hc; subst m;
      match goal with
      | |- context [Z.to_nat ?e] =>
          let v := eval vm_compute in (Z.to_nat e) in change (Z.to_nat e) with v in *
      end; destruct (decide (leap y)); cbn in *; lia. }
  pose proof (days_to_march y) as Hm1. pose proof (days_before_next y) as Hm2.
  destruct (decide (0 ≤ y)) as [|Hneg]; [done|]. exfalso.
  assert (Hy : days_before_year (y + 1) ≤ 0) by (unfold days_before_year; div_lia). lia.
Qed.

(** A printed time denotes the second it was printed for and the zone's
    offset, from year 0 on and for zones of whole minutes. *)
Lemma Format_RFC3339_reads offset t :
  (60 | offset) → - 719528 * 86400 ≤ t_sec t + offset →
  read_rfc3339 (Format_RFC3339 offset t) = Some (t_sec t, offset).
Proof.
  intros Hoff Hyear. unfold Format_RFC3339. set (local := t_sec t + offset) in *.
  pose proof (civil_from_days_correct (local / 86400)) as Hciv.
  destruct (civil_from_days (local / 86400)) as [[year month] day].
  destruct Hciv as [Hv Hdays].
  pose proof (Z.div_mod local 86400 ltac:(lia)) as Hdm.
  pose proof (Z.mod_pos_bound local 86400 ltac:(lia)) as Hsecs.
  assert (Hy : 0 ≤ year).
  { apply (year_nonneg year month day Hv). rewrite Hdays. apply Z.div_le_lower_bound; lia. }
  set (secs := local mod 86400) in *.
  destruct (read_zone_printed offset Hoff) as [Hnd Hzone]. cbv zeta in *.
  set (zone := if decide (offset = 0) then _ else _) in *.
  assert (Hbytes : ∀ a b c d e f : string,
    bytes_of_string (a +:+ "-" +:+ b +:+ "-" +:+ c +:+ "T" +:+ d +:+ ":" +:+ e +:+ ":" +:+ f +:+ zone)
    = bytes_of_string a ++ x2d :: bytes_of_string b ++ x2d :: bytes_of_string c ++ x54 ::
      bytes_of_string d ++ x3a :: bytes_of_string e ++ x3a :: bytes_of_string f ++ bytes_of_string zone).
  { intros. by rewrite !bytes_of_string_app. }
  unfold read_rfc3339. rewrite Hbytes.
  assert (H1' : 0 ≤ month ∧ 0 ≤ day) by (destruct Hv; lia).
  assert (Hh : 0 ≤ secs / 3600 < 24) by div_lia.
  assert (Hmi : 0 ≤ secs / 60 mod 60 < 60) by div_lia.
  assert (Hs : 0 ≤ secs mod 60 < 60) by div_lia.
  do 5 (rewrite appendInt_then by (lia || by_decide); cbn [mbind option_bind]).
  rewrite appendInt_read by (lia || done). rewrite Hzone. cbn [mbind option_bind].
  rewrite decide_True by (split; [exact Hv|lia]). rewrite Hdays. do 2 f_equal.
  assert (secs = secs / 3600 * 3600 + secs / 60 mod 60 * 60 + secs mod 60) by div_lia. lia.
Qed.

(** ** Reading a duration back *)

(** Seconds, written with the units [h], [m] and [s]. *)
Definition read_hms (s : string) : option Z :=
  let '(a, r) := read_digits 0 (bytes_of_string s) in
  match r with
  | u :: r1 =>
      if decide (u = x73) then if decide (r1 = []) then Some a else None
      else
        let '(b, r2) := read_digits 0 r1 in
        match r2 with
        | u2 :: r3 =>
            if decide (u = x6d ∧ u2 = x73 ∧ r3 = []) then Some (a * 60 + b)
            else if decide (u = x68 ∧ u2 = x6d) then
              let '(c, r4) := read_digits 0 r3 in
              if decide (r4 = [x73]) then Some (a * 3600 + b * 60 + c) else None
            else None
        | [] => None
        end
  | [] => None
  end.

Lemma fmt_d_read_digits x l :
  0 ≤ x → no_digit l → read_digits 0 (bytes_of_string (fmt_d x) ++ l) = (x, l).
Proof.
  intros Hx Hl. destruct x as [|p|p]; [exact (proj2 (pretty_read 0 l Hl))| |lia].
  exact (proj2 (pretty_read (N.pos p) l Hl)).
Qed.

Lemma Duration_String_reads d : 0 ≤ d → read_hms (Duration_String d) = Some (d / Second).
Proof.
  intros Hd. unfold Duration_String. rewrite decide_False by lia. rewrite Z.abs_eq by done.
  assert (Hu : 0 ≤ d / Second) by (apply Z.div_pos; [done|unfold Second; lia]).
  set (u := d / Second) in *. clearbody u. clear Hd. unfold read_hms.
  assert (Hs : 0 ≤ u mod 60) by div_lia. assert (Hm : 0 ≤ u / 60 mod 60) by div_lia.
  assert (Hh : 0 ≤ u / 60 / 60) by div_lia.
  destruct (decide (0 < u / 60 / 60)) as [Hhour|Hhour]; [|destruct (decide (0 < u / 60)) as [Hmin|Hmin]];
    rewrite ?(decide_True (P := 0 < u / 60)) by div_lia; rewrite !bytes_of_string_app;
    change (bytes_of_string "h") with [x68]; change (bytes_of_string "m") with [x6d];
    change (bytes_of_string "s") with [x73]; cbn [app].
  - rewrite fmt_d_read_digits by (lia || by_decide). rewrite decide_False by done.
    rewrite fmt_d_read_digits by (lia || by_decide). rewrite decide_False by naive_solver.
    rewrite decide_True by done. rewrite fmt_d_read_digits by (lia || by_decide).
    rewrite decide_True by done. f_equal. div_lia.
  - rewrite fmt_d_read_digits by (lia || by_decide). rewrite decide_False by done.
    rewrite fmt_d_read_digits by (lia || by_decide). rewrite decide_True by done. f_equal. div_lia.
  - rewrite fmt_d_read_digits by (lia || by_decide). rewrite decide_True by done.
    rewrite decide_True by done. f_equal. div_lia.
Qed.
