(* ===== verification/Kernel.v ===== *)
(** * The sysctl(3) interface of the kernel

    The kernel is not part of the program: [Kernel] is the interface of the two
    libSystem functions the trampolines jump to, as a state transformer on an
    abstract world, and [SysctlSpec] is what sysctl(3) documents about them. *)

From Stdlib Require Import ZArith Lia.
From Stdlib Require Import Strings.Byte.
From S2P Require Import Prelude Bytes.

Local Open Scope Z_scope.

(** ** The system call interface *)

(** What [sysctl(3)] leaves behind: the error number (0 for success), the
    contents of the [oldp] buffer and [*oldlenp]. *)
Record sysctl_reply := { r_errno : Z; r_old : list byte; r_oldlen : Z }.

Class Kernel (W : Type) := {
  libc_sysctl (mib : list Z) (old : option (list byte)) (oldlen : Z)
    (newp : option (list byte)) (newlen : Z) : W → sysctl_reply * W;
  libc_sysctlbyname (name : list byte) (old : option (list byte)) (oldlen : Z)
    (newp : option (list byte)) (newlen : Z) : W → sysctl_reply * W;
}.

Definition ENOENT : Z := 2.
Definition ENOMEM : Z := 12.

(** A name the C side reads whole: no NUL byte inside. *)
Definition nul_free (name : string) : Prop := "000"%byte ∉ bytes_of_string name.

#[export] Instance nul_free_dec name : Decision (nul_free name).
Proof. unfold nul_free. apply _. Defined.

Definition c_name (name : string) : list byte := bytes_of_string name ++ ["000"%byte].

(** The documented behaviour of the interface.  [oid_of] is the kernel's name
    table and [value_of w mib] the value a node holds when the world is [w]. *)
Class SysctlSpec (W : Type) `{Kernel W} := {
  oid_of : string → option (list Z);
  value_of : W → list Z → option (list byte);

  (** A name resolves to between 1 and CTL_MAXNAME (12) components. *)
  oid_shape name oid :
    oid_of name = Some oid → (1 ≤ length oid ≤ 12)%nat ∧ Forall word32 oid;

  (** [oldp] null: the size of the data. *)
  sysctl_size mib n w v :
    value_of w mib = Some v →
    r_errno (libc_sysctl mib None n None 0 w).1 = 0 ∧
    r_oldlen (libc_sysctl mib None n None 0 w).1 = Z.of_nat (length v);
  (** A buffer that is large enough receives the data. *)
  sysctl_read mib buf w v :
    value_of w mib = Some v → (length v ≤ length buf)%nat →
    r_errno (libc_sysctl mib (Some buf) (Z.of_nat (length buf)) None 0 w).1 = 0 ∧
    r_oldlen (libc_sysctl mib (Some buf) (Z.of_nat (length buf)) None 0 w).1
      = Z.of_nat (length v) ∧
    r_old (libc_sysctl mib (Some buf) (Z.of_nat (length buf)) None 0 w).1
      = v ++ drop (length v) buf;
  (** A buffer that is too small is an ENOMEM error. *)
  sysctl_short mib buf w v :
    value_of w mib = Some v → (length buf < length v)%nat →
    r_errno (libc_sysctl mib (Some buf) (Z.of_nat (length buf)) None 0 w).1 = ENOMEM;
  (** A node that is not there is an error. *)
  sysctl_absent mib old n w :
    value_of w mib = None → r_errno (libc_sysctl mib old n None 0 w).1 ≠ 0;

  (** A call that succeeds never reports more data than the buffer holds. *)
  sysctl_fits mib buf n newp newlen w :
    0 ≤ n ≤ Z.of_nat (length buf) →
    r_errno (libc_sysctl mib (Some buf) n newp newlen w).1 = 0 →
    0 ≤ r_oldlen (libc_sysctl mib (Some buf) n newp newlen w).1 ≤ n;
  sysctlbyname_fits name buf n newp newlen w :
    0 ≤ n ≤ Z.of_nat (length buf) →
    r_errno (libc_sysctlbyname name (Some buf) n newp newlen w).1 = 0 →
    0 ≤ r_oldlen (libc_sysctlbyname name (Some buf) n newp newlen w).1 ≤ n;
  (** A size is a [size_t]. *)
  sysctl_size_nonneg mib n newp newlen w :
    0 ≤ r_oldlen (libc_sysctl mib None n newp newlen w).1;
  sysctlbyname_size_nonneg name n newp newlen w :
    0 ≤ r_oldlen (libc_sysctlbyname name None n newp newlen w).1;

  (** [sysctlbyname] looks the name up and then behaves as [sysctl]. *)
  sysctlbyname_known name oid old n newp newlen w :
    nul_free name → oid_of name = Some oid →
    libc_sysctlbyname (c_name name) old n newp newlen w = libc_sysctl oid old n newp newlen w;
  sysctlbyname_unknown name old n newp newlen w :
    nul_free name → oid_of name = None →
    r_errno (libc_sysctlbyname (c_name name) old n newp newlen w).1 ≠ 0;

  (** The name-to-OID node [{0, 3}]. *)
  sysctl_name2oid_known name oid buf n w :
    nul_free name → oid_of name = Some oid →
    (4 * length oid ≤ length buf)%nat → 4 * Z.of_nat (length oid) ≤ n →
    r_errno (libc_sysctl [0; 3] (Some buf) n (Some (c_name name))
               (Z.of_nat (String.length name)) w).1 = 0 ∧
    r_oldlen (libc_sysctl [0; 3] (Some buf) n (Some (c_name name))
               (Z.of_nat (String.length name)) w).1 = 4 * Z.of_nat (length oid) ∧
    r_old (libc_sysctl [0; 3] (Some buf) n (Some (c_name name))
               (Z.of_nat (String.length name)) w).1
      = bytes_of_words oid ++ drop (4 * length oid) buf;
  sysctl_name2oid_unknown name buf n w :
    nul_free name → oid_of name = None →
    r_errno (libc_sysctl [0; 3] (Some buf) n (Some (c_name name))
               (Z.of_nat (String.length name)) w).1 ≠ 0;
}.
