(* ===== verification/TableKernel.v ===== *)
(** * A concrete kernel

    An instance of [Kernel] and [SysctlSpec]: a fixed table of names and a
    value table indexed by a clock that advances at every call, so that values
    may change between any two calls.  It shows that the documented behaviour
    is consistent and is the kernel the examples run on. *)

From Stdlib Require Import ZArith Lia.
From Stdlib Require Import Strings.Byte.
From S2P Require Import Prelude Bytes Kernel.

Local Open Scope Z_scope.

Section Table.
Variable oids : list (string * list Z).
Variable values : nat → list Z → option (list byte).

Definition find_oid (name : string) : option (list Z) :=
  match list_find (λ p, p.1 = name) oids with
  | Some (_, (_, oid)) => Some oid
  | None => None
  end.

Definition reply_error (e : Z) : sysctl_reply :=
  {| r_errno := e; r_old := []; r_oldlen := 0 |}.

Definition reply_data (v : list byte) (old : option (list byte)) (oldlen : Z) : sysctl_reply :=
  match old with
  | None => {| r_errno := 0; r_old := []; r_oldlen := Z.of_nat (length v) |}
  | Some buf =>
      if decide (Z.of_nat (length v) ≤ oldlen) then
        {| r_errno := 0; r_old := v ++ drop (length v) buf; r_oldlen := Z.of_nat (length v) |}
      else reply_error ENOMEM
  end.

(** The bytes before the first NUL. *)
Fixpoint c_string (l : list byte) : list byte :=
  match l with
  | [] => []
  | b :: l' => if decide (b = "000"%byte) then [] else b :: c_string l'
  end.

Definition table_sysctl (mib : list Z) (old : option (list byte)) (oldlen : Z)
    (newp : option (list byte)) (newlen : Z) (w : nat) : sysctl_reply * nat :=
  (match newp with
   | Some p =>
       if decide (mib = [0; 3]) then
         match find_oid (string_of_bytes (c_string p)) with
         | Some oid => reply_data (bytes_of_words oid) old oldlen
         | None => reply_error ENOENT
         end
       else reply_error ENOENT
   | None =>
       match values w mib with
       | Some v => reply_data v old oldlen
       | None => reply_error ENOENT
       end
   end, S w).

Definition table_sysctlbyname (name : list byte) (old : option (list byte)) (oldlen : Z)
    (newp : option (list byte)) (newlen : Z) (w : nat) : sysctl_reply * nat :=
  match find_oid (string_of_bytes (c_string name)) with
  | Some oid => table_sysctl oid old oldlen newp newlen w
  | None => (reply_error ENOENT, S w)
  end.

Definition table_kernel : Kernel nat := {|
  libc_sysctl := table_sysctl;
  libc_sysctlbyname := table_sysctlbyname;
|}.
#[local] Existing Instance table_kernel.

Definition oid_ok (p : string * list Z) : Prop :=
  (1 ≤ length p.2 ≤ 12)%nat ∧ Forall word32 p.2.

Lemma c_string_c_name name :
  nul_free name → string_of_bytes (c_string (c_name name)) = name.
Proof.
  intros Hn. transitivity (string_of_bytes (bytes_of_string name)).
  2: apply string_of_bytes_of_string.
  f_equal. unfold nul_free, c_name in *.
  induction (bytes_of_string name) as [|b l IH]; simpl; [done|].
  rewrite decide_False by set_solver. f_equal. apply IH. set_solver.
Qed.

Lemma find_oid_ok name oid : Forall oid_ok oids → find_oid name = Some oid →
  (1 ≤ length oid ≤ 12)%nat ∧ Forall word32 oid.
Proof.
  unfold find_oid. intros Hok H.
  destruct (list_find _ _) as [[i [n o]]|] eqn:E; [|done]. simplify_eq.
  apply list_find_Some in E as (E & _ & _).
  by apply (Forall_lookup_1 _ _ _ _ Hok E).
Qed.

Lemma reply_data_fits v buf n :
  r_errno (reply_data v (Some buf) n) = 0 →
  0 ≤ r_oldlen (reply_data v (Some buf) n) ≤ n.
Proof. unfold reply_data. destruct (decide _); simpl; [lia|done]. Qed.

Lemma reply_data_nonneg v n : 0 ≤ r_oldlen (reply_data v None n).
Proof. simpl. lia. Qed.

Lemma table_sysctl_fits mib buf n newp newlen w :
  r_errno (table_sysctl mib (Some buf) n newp newlen w).1 = 0 →
  0 ≤ r_oldlen (table_sysctl mib (Some buf) n newp newlen w).1 ≤ n.
Proof.
  unfold table_sysctl. cbn [fst].
  repeat case_match; first [apply reply_data_fits|done].
Qed.

Lemma table_sysctl_nonneg mib n newp newlen w :
  0 ≤ r_oldlen (table_sysctl mib None n newp newlen w).1.
Proof.
  unfold table_sysctl. cbn [fst].
  repeat case_match; first [apply reply_data_nonneg|done].
Qed.

Definition table_spec (Hok : Forall oid_ok oids) : SysctlSpec nat.
Proof.
  refine {| oid_of := find_oid; value_of := values |}.
  - intros name oid. by apply find_oid_ok.
  - intros mib n w v Hv. simpl. by rewrite Hv.
  - intros mib buf w v Hv Hle. simpl. rewrite Hv. simpl.
    by rewrite decide_True by lia.
  - intros mib buf w v Hv Hlt. simpl. rewrite Hv. simpl.
    by rewrite decide_False by lia.
  - intros mib old n w Hv. simpl. by rewrite Hv.
  - intros mib buf n newp newlen w _. apply table_sysctl_fits.
  - intros name buf n newp newlen w _. simpl. unfold table_sysctlbyname.
    destruct (find_oid _); [apply table_sysctl_fits|done].
  - intros mib n newp newlen w. apply table_sysctl_nonneg.
  - intros name n newp newlen w. simpl. unfold table_sysctlbyname.
    destruct (find_oid _); [apply table_sysctl_nonneg|done].
  - intros name oid old n newp newlen w Hn Ho. simpl. unfold table_sysctlbyname.
    by rewrite c_string_c_name, Ho.
  - intros name old n newp newlen w Hn Ho. simpl. unfold table_sysctlbyname.
    by rewrite c_string_c_name, Ho.
  - intros name oid buf n w Hn Ho Hb Hle. simpl. rewrite c_string_c_name, Ho by done. simpl.
    rewrite length_bytes_of_words. rewrite decide_True by lia. simpl.
    split_and!; [done|lia|done].
  - intros name buf n w Hn Ho. simpl. by rewrite c_string_c_name, Ho.
Defined.
End Table.

(** ** The kernel of the examples

    [demo.rate] is a counter that changes at every call, [demo.grow] grows from
    four to eight bytes after the first call, the rest is constant. *)
Definition demo_oids : list (string * list Z) :=
  [("kern.ostype", [1; 1]); ("hw.ncpu", [6; 3]); ("hw.memsize", [6; 24]);
   ("demo.rate", [99; 1]); ("demo.grow", [99; 2]); ("demo.empty", [99; 3]);
   ("vm.pages", [2; 100]); ("vm.page_free_count", [2; 101]);
   ("kern.boottime", [1; 21])].

Definition demo_values (w : nat) (mib : list Z) : option (list byte) :=
  if decide (mib = [1; 1]) then Some (bytes_of_string "Darwin" ++ ["000"%byte])
  else if decide (mib = [6; 3]) then Some (le_split 4 10)
  else if decide (mib = [6; 24]) then Some (le_split 8 17179869184)
  else if decide (mib = [99; 1]) then Some (le_split 8 (Z.of_nat w))
  else if decide (mib = [99; 2]) then Some (le_split (if decide (w = 0)%nat then 4 else 8) 7)
  else if decide (mib = [99; 3]) then Some []
  else if decide (mib = [2; 100]) then Some (le_split 4 1000)
  else if decide (mib = [2; 101]) then Some (le_split 4 250)
  else if decide (mib = [1; 21]) then Some (le_split 8 1000000 ++ le_split 8 500)
  else None.

Lemma demo_oids_ok : Forall oid_ok demo_oids.
Proof. unfold demo_oids, oid_ok. repeat constructor; simpl; lia. Qed.

Definition demo_kernel : Kernel nat := table_kernel demo_oids demo_values.
Definition demo_spec : @SysctlSpec nat demo_kernel :=
  table_spec demo_oids demo_values demo_oids_ok.
