(* ===== verification/Sysctl.v ===== *)
(** * Reading one sysctl (internal/macosasmsysctl/sysctl.go, structs.go)

    The raw system calls, name resolution, the size-then-read protocol, the
    typed getters and the structure decoders, over the [Kernel] interface. *)

From Stdlib Require Import ZArith Lia.
From Stdlib Require Import Strings.Byte.
From S2P Require Import Prelude Bytes Float64 GoTime Kernel TableKernel.

Local Open Scope Z_scope.

(** ** The raw calls *)

Section Raw.
Context {W : Type} `{Kernel W}.

(** [if e != 0 { return e }; return nil], with the memory the call wrote. *)
Definition check_errno (r : sysctl_reply * W) : outcome (list byte * Z) * W :=
  if decide (r_errno r.1 ≠ 0) then (Err (Errno (r_errno r.1)), r.2)
  else (Ok (r_old r.1, r_oldlen r.1), r.2).

Definition rawSysctl (mib : list Z) (old : option (list byte)) (oldlen : Z)
    (newp : option (list byte)) (newlen : Z) : M W (list byte * Z) :=
  λ w, check_errno (libc_sysctl mib old oldlen newp newlen w).

Definition rawSysctlbyname (name : list byte) (old : option (list byte)) (oldlen : Z)
    (newp : option (list byte)) (newlen : Z) : M W (list byte * Z) :=
  λ w, check_errno (libc_sysctlbyname name old oldlen newp newlen w).

Definition maxName : Z := 12.

(** [buf] is a [[maxName + 2]uint32]; the final slice expression panics when
    the kernel reports more than its 14 words. *)
Definition nametomib (name : string) : M W (list Z) :=
  let buf := replicate 56 "000"%byte in
  let n := maxName * 4 in
  let nameBytes := c_name name in
  let mib := [0; 3] in
  try r ← rawSysctl mib (Some buf) n (Some nameBytes) (Z.of_nat (String.length name))
  catch err ⇒ raise (Errorf "nametomib %q: %w" [AStr name; AErr err]);
  let '(buf, n) := r in
  if decide (n / 4 ≤ 14) then mret (words_of_bytes (Z.to_nat (n / 4)) buf) else panic.

(** The two-call protocol shared by [GetRaw] and [GetRawMIB]: ask for the
    size, allocate, read; [buf[:n]] panics beyond the capacity. *)
Definition read_two_calls (call : option (list byte) → Z → M W (list byte * Z))
    (size_err read_err : goerror → goerror) : M W (list byte) :=
  try r ← call None 0 catch err ⇒ raise (size_err err);
  let n := r.2 in
  if decide (n = 0) then mret [] else
  let buf := replicate (Z.to_nat n) "000"%byte in
  try r ← call (Some buf) n catch err ⇒ raise (read_err err);
  let '(buf, n') := r in
  if decide (n' ≤ n) then mret (take (Z.to_nat n') buf) else panic.

Definition GetRaw (name : string) : M W (list byte) :=
  let nameBytes := c_name name in
  read_two_calls (λ old n, rawSysctlbyname nameBytes old n None 0)
    (λ err, Errorf "sysctl size %q: %w" [AStr name; AErr err])
    (λ err, Errorf "sysctl read %q: %w" [AStr name; AErr err]).

Definition GetRawMIB (mib : list Z) : M W (list byte) :=
  read_two_calls (λ old n, rawSysctl mib old n None 0)
    (λ err, Errorf "sysctl size mib %v: %w" [AMib mib; AErr err])
    (λ err, Errorf "sysctl read mib %v: %w" [AMib mib; AErr err]).
End Raw.

(** ** Structures (structs.go) *)

Record Timeval := { tv_Sec : Z; tv_Usec : Z }.
Record Loadavg := { Load1 : float64; Load5 : float64; Load15 : float64 }.
Record SwapUsage := { su_Total : Z; su_Avail : Z; su_Used : Z; su_Flags : Z }.
Record Clockinfo := { ci_Hz : Z; ci_Tick : Z; ci_Spare : Z; ci_Profhz : Z; ci_Stathz : Z }.

(** [time.Unix(int64(t.Sec), int64(t.Usec)*1000)]. *)
Definition Timeval_Time (t : Timeval) : Time :=
  time_Unix (i64 (tv_Sec t)) (i64 (i64 (tv_Usec t) * 1000)).

(** [time.Duration(t.Sec)*time.Second + time.Duration(t.Usec)*time.Microsecond],
    each operation wrapping at 64 bits. *)
Definition Timeval_Duration (t : Timeval) : Z :=
  i64 (i64 (i64 (tv_Sec t) * Second) + i64 (i64 (tv_Usec t) * Microsecond)).

Definition Timeval_String (t : Timeval) : string :=
  "{Sec: " +:+ fmt_d (tv_Sec t) +:+ ", Usec: " +:+ fmt_d (tv_Usec t) +:+ "}".

Definition Loadavg_String (l : Loadavg) : string :=
  fmt_2f (Load1 l) +:+ " " +:+ fmt_2f (Load5 l) +:+ " " +:+ fmt_2f (Load15 l).

Definition SwapUsage_String (s : SwapUsage) : string :=
  "total=" +:+ fmt_d (su_Total s) +:+ " avail=" +:+ fmt_d (su_Avail s)
    +:+ " used=" +:+ fmt_d (su_Used s).

Definition Clockinfo_String (c : Clockinfo) : string :=
  "hz=" +:+ fmt_d (ci_Hz c) +:+ " tick=" +:+ fmt_d (ci_Tick c)
    +:+ " profhz=" +:+ fmt_d (ci_Profhz c) +:+ " stathz=" +:+ fmt_d (ci_Stathz c).

(** ** Decoding raw bytes

    The bodies of the typed getters after their [GetRaw] call: each is written
    twice in the source, once for [GetRaw] and once for [MIBCache.GetRaw]. *)

(** Drop one trailing NUL. *)
Definition decode_string (raw : list byte) : string :=
  string_of_bytes
    match last raw with
    | Some b => if decide (b = "000"%byte) then take (length raw - 1) raw else raw
    | None => raw
    end.

Definition bad_width (format name : string) (raw : list byte) : goerror :=
  Errorf format [AStr name; AInt (Z.of_nat (length raw))].

Definition decode_uint32 (name : string) (raw : list byte) : outcome Z :=
  if decide (length raw ≠ 4)%nat then Err (bad_width "sysctl %q: expected 4 bytes, got %d" name raw)
  else Ok (LittleEndian_Uint32 raw).

Definition decode_uint64 (name : string) (raw : list byte) : outcome Z :=
  if decide (length raw ≠ 8)%nat then Err (bad_width "sysctl %q: expected 8 bytes, got %d" name raw)
  else Ok (LittleEndian_Uint64 raw).

Definition decode_timeval (name : string) (raw : list byte) : outcome Timeval :=
  if decide (length raw ≠ 16)%nat then Err (bad_width "sysctl %q: expected 16 bytes, got %d" name raw)
  else Ok {| tv_Sec := LittleEndian_Uint64 (slice raw 0 8);
             tv_Usec := LittleEndian_Uint64 (slice raw 8 16) |}.

(** [fscale] falls back to 2048 when the kernel reports 0. *)
Definition decode_loadavg (raw : list byte) : outcome Loadavg :=
  if decide (length raw ≠ 24)%nat then Err (Errorf "vm.loadavg: expected 24 bytes, got %d" [AInt (Z.of_nat (length raw))])
  else
    let l1 := LittleEndian_Uint32 (slice raw 0 4) in
    let l5 := LittleEndian_Uint32 (slice raw 4 8) in
    let l15 := LittleEndian_Uint32 (slice raw 8 12) in
    let fscale := LittleEndian_Uint64 (slice raw 16 24) in
    let fscale := if decide (fscale = 0) then 2048 else fscale in
    Ok {| Load1 := f64_div (f64_of_Z l1) (f64_of_Z fscale);
          Load5 := f64_div (f64_of_Z l5) (f64_of_Z fscale);
          Load15 := f64_div (f64_of_Z l15) (f64_of_Z fscale) |}.

Definition decode_swapusage (raw : list byte) : outcome SwapUsage :=
  if decide (length raw ≠ 32)%nat then Err (Errorf "vm.swapusage: expected 32 bytes, got %d" [AInt (Z.of_nat (length raw))])
  else Ok {| su_Total := LittleEndian_Uint64 (slice raw 0 8);
             su_Avail := LittleEndian_Uint64 (slice raw 8 16);
             su_Used := LittleEndian_Uint64 (slice raw 16 24);
             su_Flags := LittleEndian_Uint64 (slice raw 24 32) |}.

Definition decode_clockinfo (raw : list byte) : outcome Clockinfo :=
  if decide (length raw ≠ 20)%nat then Err (Errorf "kern.clockrate: expected 20 bytes, got %d" [AInt (Z.of_nat (length raw))])
  else Ok {| ci_Hz := i32 (LittleEndian_Uint32 (slice raw 0 4));
             ci_Tick := i32 (LittleEndian_Uint32 (slice raw 4 8));
             ci_Spare := i32 (LittleEndian_Uint32 (slice raw 8 12));
             ci_Profhz := i32 (LittleEndian_Uint32 (slice raw 12 16));
             ci_Stathz := i32 (LittleEndian_Uint32 (slice raw 16 20)) |}.

(** ** Typed getters over a raw reader *)

Section Getters.
Context {S : Type} (getRaw : string → M S (list byte)).

(** [raw, err := GetRaw(name); if err != nil { return zero, err }; decode]. *)
Definition read_as {A} (name : string) (decode : list byte → outcome A) : M S A :=
  raw ← getRaw name; of_outcome (decode raw).

Definition get_String (name : string) : M S string :=
  read_as name (λ raw, Ok (decode_string raw)).
Definition get_Uint32 (name : string) : M S Z := read_as name (decode_uint32 name).
Definition get_Uint64 (name : string) : M S Z := read_as name (decode_uint64 name).
Definition get_Int32 (name : string) : M S Z := v ← get_Uint32 name; mret (i32 v).
Definition get_Int64 (name : string) : M S Z := v ← get_Uint64 name; mret (i64 v).
Definition get_Timeval (name : string) : M S Timeval := read_as name (decode_timeval name).
Definition get_Loadavg : M S Loadavg := read_as "vm.loadavg" decode_loadavg.
Definition get_SwapUsage : M S SwapUsage := read_as "vm.swapusage" decode_swapusage.
Definition get_Clockinfo : M S Clockinfo := read_as "kern.clockrate" decode_clockinfo.
End Getters.

(** The direct getters of sysctl.go and structs.go. *)
Section Direct.
Context {W : Type} `{Kernel W}.

Definition GetString : string → M W string := get_String GetRaw.
Definition GetUint32 : string → M W Z := get_Uint32 GetRaw.
Definition GetUint64 : string → M W Z := get_Uint64 GetRaw.
Definition GetInt32 : string → M W Z := get_Int32 GetRaw.
Definition GetInt64 : string → M W Z := get_Int64 GetRaw.
Definition GetTimeval : string → M W Timeval := get_Timeval GetRaw.
Definition GetLoadavg : M W Loadavg := get_Loadavg GetRaw.
Definition GetSwapUsage : M W SwapUsage := get_SwapUsage GetRaw.
Definition GetClockinfo : M W Clockinfo := get_Clockinfo GetRaw.
End Direct.

(** ** The kernel's layout of the structures, for the round trips *)

Definition encode_timeval (t : Timeval) : list byte :=
  le_split 8 (tv_Sec t) ++ le_split 8 (tv_Usec t).

Definition encode_swapusage (s : SwapUsage) : list byte :=
  le_split 8 (su_Total s) ++ le_split 8 (su_Avail s) ++ le_split 8 (su_Used s)
    ++ le_split 8 (su_Flags s).

Definition encode_clockinfo (c : Clockinfo) : list byte :=
  le_split 4 (ci_Hz c) ++ le_split 4 (ci_Tick c) ++ le_split 4 (ci_Spare c)
    ++ le_split 4 (ci_Profhz c) ++ le_split 4 (ci_Stathz c).

Definition uint64_range (z : Z) : Prop := 0 ≤ z < 2 ^ 64.
Definition int32_range (z : Z) : Prop := - 2 ^ 31 ≤ z < 2 ^ 31.

Definition timeval_ok (t : Timeval) : Prop :=
  uint64_range (tv_Sec t) ∧ uint64_range (tv_Usec t).
Definition swapusage_ok (s : SwapUsage) : Prop :=
  uint64_range (su_Total s) ∧ uint64_range (su_Avail s) ∧ uint64_range (su_Used s)
  ∧ uint64_range (su_Flags s).
Definition clockinfo_ok (c : Clockinfo) : Prop :=
  int32_range (ci_Hz c) ∧ int32_range (ci_Tick c) ∧ int32_range (ci_Spare c)
  ∧ int32_range (ci_Profhz c) ∧ int32_range (ci_Stathz c).

(** ** Properties of the raw reads *)

(** What the two-call protocol yields when the node held [v0] at the size query
    and holds [v1] at the read: the second value, unless the node was empty,
    vanished or grew in between. *)
Definition read_spec (v0 v1 : option (list byte)) : option (list byte) :=
  match v0 with
  | None => None
  | Some [] => Some []
  | Some v =>
      match v1 with
      | Some v' => if decide (length v' ≤ length v)%nat then Some v' else None
      | None => None
      end
  end.

Lemma read_two_calls_agree {W} (call1 call2 : option (list byte) → Z → M W (list byte * Z))
    s1 r1 s2 r2 w :
  (∀ old n w, call1 old n w = call2 old n w) →
  outcome_agree (read_two_calls call1 s1 r1 w).1 (read_two_calls call2 s2 r2 w).1 ∧
  (read_two_calls call1 s1 r1 w).2 = (read_two_calls call2 s2 r2 w).2.
Proof.
  intros Hc. unfold read_two_calls. run_simpl. rewrite Hc.
  destruct (call2 None 0 w) as [[[b n]|e|] w1]; simpl; [|done|done].
  destruct (decide (n = 0)); [done|]. simpl. rewrite Hc.
  destruct (call2 _ n w1) as [[[b' n']|e|] w2]; simpl; [|done|done].
  by destruct (decide (n' ≤ n)).
Qed.

Lemma read_two_calls_ext {W} (call1 call2 : option (list byte) → Z → M W (list byte * Z)) s1 r1 w :
  (∀ old n w, call1 old n w = call2 old n w) →
  read_two_calls call1 s1 r1 w = read_two_calls call2 s1 r1 w.
Proof.
  intros Hc. unfold read_two_calls. run_simpl. rewrite Hc.
  destruct (call2 None 0 w) as [[[b n]|e|] w1]; simpl; [|done|done].
  destruct (decide (n = 0)); [done|]. simpl. by rewrite Hc.
Qed.

Section RawProperties.
Context {W : Type} `{SysctlSpec W}.

(** What the two-call protocol answers and which call failed, for the values
    [v0] and [v1] the node holds at the two calls. *)
Inductive two_calls_result (size_err read_err : goerror → goerror)
    (v0 v1 : option (list byte)) : outcome (list byte) → Prop :=
  | absent_at_size k :
      v0 = None → k ≠ 0 → two_calls_result size_err read_err v0 v1 (Err (size_err (Errno k)))
  | empty_at_size :
      v0 = Some [] → two_calls_result size_err read_err v0 v1 (Ok [])
  | read_in_full v v' :
      v0 = Some v → v ≠ [] → v1 = Some v' → (length v' ≤ length v)%nat →
      two_calls_result size_err read_err v0 v1 (Ok v')
  | outgrown v v' :
      v0 = Some v → v ≠ [] → v1 = Some v' → (length v < length v')%nat →
      two_calls_result size_err read_err v0 v1 (Err (read_err (Errno ENOMEM)))
  | absent_at_read v k :
      v0 = Some v → v ≠ [] → v1 = None → k ≠ 0 →
      two_calls_result size_err read_err v0 v1 (Err (read_err (Errno k))).

Lemma read_two_calls_result mib size_err read_err w :
  two_calls_result size_err read_err
    (value_of w mib) (value_of (libc_sysctl mib None 0 None 0 w).2 mib)
    (read_two_calls (λ old n, rawSysctl mib old n None 0) size_err read_err w).1.
Proof.
  set (w1 := (libc_sysctl mib None 0 None 0 w).2).
  unfold read_two_calls, rawSysctl, check_errno. run_simpl.
  destruct (value_of w mib) as [v|] eqn:Hv.
  2: { pose proof (sysctl_absent mib None 0 w Hv).
       rewrite decide_True by done. by apply absent_at_size. }
  pose proof (sysctl_size mib 0 w v Hv) as [He Hn].
  rewrite decide_False by (rewrite He; auto). run_simpl. rewrite Hn.
  destruct v as [|b v]; [by apply empty_at_size|].
  rewrite decide_False by (simpl; lia). fold w1.
  assert (Hne : b :: v ≠ []) by done.
  remember (b :: v) as u eqn:Hu. clear He Hn Hu. rewrite Nat2Z.id.
  set (buf := replicate (length u) "000"%byte).
  assert (Hb : length u = length buf) by (symmetry; apply length_replicate).
  rewrite Hb. destruct (value_of w1 mib) as [v'|] eqn:Hv'.
  2: { pose proof (sysctl_absent mib (Some buf) (Z.of_nat (length buf)) w1 Hv').
       rewrite decide_True by done. by eapply absent_at_read. }
  destruct (decide (length v' ≤ length buf)%nat) as [Hle|Hgt].
  - pose proof (sysctl_read mib buf w1 v' Hv' Hle) as (He & Hn & Ho).
    rewrite decide_False by (rewrite He; auto). run_simpl. rewrite Hn, Ho.
    rewrite decide_True by lia. run_simpl. rewrite Nat2Z.id, take_app_length.
    eapply read_in_full; [done..|lia].
  - pose proof (sysctl_short mib buf w1 v' Hv' ltac:(lia)) as He.
    rewrite He, decide_True by done. eapply outgrown; [done..|lia].
Qed.

Lemma GetRawMIB_cases mib w :
  let w1 := (libc_sysctl mib None 0 None 0 w).2 in
  match read_spec (value_of w mib) (value_of w1 mib) with
  | Some b => (GetRawMIB mib w).1 = Ok b
  | None => ∃ e, (GetRawMIB mib w).1 = Err e
  end.
Proof.
  intros w1. unfold GetRawMIB.
  pose proof (read_two_calls_result mib
    (λ err, Errorf "sysctl size mib %v: %w" [AMib mib; AErr err])
    (λ err, Errorf "sysctl read mib %v: %w" [AMib mib; AErr err]) w) as Hr.
  fold w1 in Hr. clearbody w1.
  destruct Hr as [k -> ? | -> | [|b v] v' -> ? -> ? | [|b v] v' -> ? -> ? | [|b v] k -> ? -> ?];
    cbn [read_spec]; try done; try (by eexists).
  - by rewrite decide_True by done.
  - rewrite decide_False by lia. by eexists.
Qed.

(** By name: the same calls, once the name is known. *)
Lemma GetRaw_result name oid w :
  nul_free name → oid_of name = Some oid →
  two_calls_result
    (λ err, Errorf "sysctl size %q: %w" [AStr name; AErr err])
    (λ err, Errorf "sysctl read %q: %w" [AStr name; AErr err])
    (value_of w oid) (value_of (libc_sysctl oid None 0 None 0 w).2 oid) (GetRaw name w).1.
Proof.
  intros Hn Ho.
  replace (GetRaw name w) with (read_two_calls (λ old n, rawSysctl oid old n None 0)
    (λ err, Errorf "sysctl size %q: %w" [AStr name; AErr err])
    (λ err, Errorf "sysctl read %q: %w" [AStr name; AErr err]) w);
    [apply read_two_calls_result|].
  unfold GetRaw. apply read_two_calls_ext. intros old n w'.
  unfold rawSysctlbyname, rawSysctl. by rewrite sysctlbyname_known with (oid := oid).
Qed.

Lemma GetRaw_GetRawMIB name oid w :
  nul_free name → oid_of name = Some oid →
  outcome_agree (GetRaw name w).1 (GetRawMIB oid w).1 ∧
  (GetRaw name w).2 = (GetRawMIB oid w).2.
Proof.
  intros Hn Ho. apply read_two_calls_agree. intros old n w'.
  unfold rawSysctlbyname, rawSysctl. by rewrite sysctlbyname_known with (oid := oid).
Qed.

Lemma GetRaw_unknown_errno name w :
  nul_free name → oid_of name = None →
  ∃ k, k ≠ 0 ∧ (GetRaw name w).1 = Err (Errorf "sysctl size %q: %w" [AStr name; AErr (Errno k)]).
Proof.
  intros Hn Ho. unfold GetRaw, read_two_calls, rawSysctlbyname, check_errno. run_simpl.
  rewrite decide_True by by apply sysctlbyname_unknown.
  eexists. split; [|done]. by apply sysctlbyname_unknown.
Qed.

Lemma GetRaw_unknown name w :
  nul_free name → oid_of name = None → ∃ e, (GetRaw name w).1 = Err e.
Proof. intros Hn Ho. destruct (GetRaw_unknown_errno name w Hn Ho) as (k & _ & ->). by eexists. Qed.

Lemma nametomib_known name oid w :
  nul_free name → oid_of name = Some oid → (nametomib name w).1 = Ok oid.
Proof.
  intros Hn Ho. destruct (oid_shape name oid Ho) as [Hl Hw].
  unfold nametomib, rawSysctl, check_errno. run_simpl.
  set (buf := replicate 56 "000"%byte).
  assert (Hb : length buf = 56%nat) by apply length_replicate.
  destruct (sysctl_name2oid_known name oid buf (maxName * 4) w Hn Ho) as (He & Hln & Hold);
    [lia|unfold maxName; lia|].
  rewrite decide_False by (rewrite He; auto). run_simpl. rewrite Hln, Hold.
  rewrite (Z.mul_comm 4), Z.div_mul by lia.
  rewrite decide_True by lia. run_simpl.
  by rewrite Nat2Z.id, words_of_bytes_of_words.
Qed.

Lemma nametomib_unknown_errno name w :
  nul_free name → oid_of name = None →
  ∃ k, k ≠ 0 ∧ (nametomib name w).1 = Err (Errorf "nametomib %q: %w" [AStr name; AErr (Errno k)]).
Proof.
  intros Hn Ho. unfold nametomib, rawSysctl, check_errno. run_simpl.
  rewrite decide_True by by apply sysctl_name2oid_unknown.
  eexists. split; [|done]. by apply sysctl_name2oid_unknown.
Qed.

Lemma nametomib_unknown name w :
  nul_free name → oid_of name = None → ∃ e, (nametomib name w).1 = Err e.
Proof. intros Hn Ho. destruct (nametomib_unknown_errno name w Hn Ho) as (k & _ & ->). by eexists. Qed.

(** The two-call protocol does not panic when a successful call never reports
    more than the buffer it was given holds. *)
Lemma read_two_calls_safe (call : option (list byte) → Z → M W (list byte * Z)) s1 r1 :
  (∀ n w, match (call None n w).1 with Ok r => 0 ≤ r.2 | Err _ => True | Panic => False end) →
  (∀ buf n w, 0 ≤ n ≤ Z.of_nat (length buf) →
     match (call (Some buf) n w).1 with Ok r => r.2 ≤ n | Err _ => True | Panic => False end) →
  safe (read_two_calls call s1 r1).
Proof.
  intros Hs Hr w. unfold read_two_calls. run_simpl.
  specialize (Hs 0 w). destruct (call None 0 w) as [[[b n]|e|] w1]; cbn [fst snd] in *; [|done|done].
  destruct (decide (n = 0)); [done|].
  specialize (Hr (replicate (Z.to_nat n) "000"%byte) n w1).
  rewrite length_replicate in Hr. specialize (Hr ltac:(lia)).
  destruct (call _ n w1) as [[[b' n']|e|] w2]; cbn [fst snd] in *; [|done|done].
  by rewrite decide_True by done.
Qed.

Lemma check_errno_cases {W'} (r : sysctl_reply * W') (P : Z → Prop) :
  (r_errno r.1 = 0 → P (r_oldlen r.1)) →
  match (check_errno r).1 with Ok x => P x.2 | Err _ => True | Panic => False end.
Proof.
  unfold check_errno. intros HP. destruct (decide _) as [|He]; cbn [fst snd]; [done|].
  apply HP. by apply dec_stable.
Qed.

Lemma GetRaw_safe name : safe (GetRaw name).
Proof.
  apply read_two_calls_safe.
  - intros n w. apply (check_errno_cases _ (λ n', 0 ≤ n')). intros _. apply sysctlbyname_size_nonneg.
  - intros buf n w Hn. apply (check_errno_cases _ (λ n', n' ≤ n)).
    intros He. by apply sysctlbyname_fits.
Qed.

Lemma GetRawMIB_safe mib : safe (GetRawMIB mib).
Proof.
  apply read_two_calls_safe.
  - intros n w. apply (check_errno_cases _ (λ n', 0 ≤ n')). intros _. apply sysctl_size_nonneg.
  - intros buf n w Hn. apply (check_errno_cases _ (λ n', n' ≤ n)).
    intros He. by apply sysctl_fits.
Qed.

Lemma nametomib_safe name : safe (nametomib name).
Proof.
  intros w. unfold nametomib. run_simpl.
  pose proof (check_errno_cases
    (libc_sysctl [0; 3] (Some (replicate 56 "000"%byte)) (maxName * 4) (Some (c_name name))
       (Z.of_nat (String.length name)) w) (λ n, 0 ≤ n ≤ maxName * 4)) as Hc.
  specialize (Hc ltac:(intros He; apply sysctl_fits; [by vm_compute|done])).
  unfold rawSysctl.
  destruct (check_errno _) as [[[b n]|e|] w1]; cbn [fst snd] in *; [|done|done].
  unfold maxName in Hc. rewrite decide_True; [done|].
  apply Z.div_le_upper_bound; lia.
Qed.
End RawProperties.

(** ** Decoding *)

(** A getter's error and panic cases are those of its reader, and it only adds
    its own width error. *)
Lemma hoare_read_as {S A} (getRaw : string → M S (list byte)) name
    (decode : list byte → outcome A) I :
  hoare I (getRaw name) (λ _, I) (λ _, I) →
  (∀ raw, decode raw ≠ Panic) →
  hoare I (read_as getRaw name decode) (λ a s, (∃ raw, decode raw = Ok a) ∧ I s) (λ _, I).
Proof.
  intros Hg Hd. unfold read_as. eapply hoare_bind; [done|]. intros raw.
  apply hoare_of_outcome. intros s Hs.
  destruct (decode raw) eqn:E; [eauto|done|]. by apply (Hd raw).
Qed.

Lemma decode_uint32_ok name raw v :
  decode_uint32 name raw = Ok v → length raw = 4%nat ∧ 0 ≤ v < 2 ^ 32.
Proof.
  unfold decode_uint32. destruct (decide _) as [|Hl]; [done|].
  intros [= <-]. split; [lia|auto with go].
Qed.

Lemma decode_uint64_ok name raw v :
  decode_uint64 name raw = Ok v → length raw = 8%nat ∧ 0 ≤ v < 2 ^ 64.
Proof.
  unfold decode_uint64. destruct (decide _) as [|Hl]; [done|].
  intros [= <-]. split; [lia|auto with go].
Qed.

Ltac decode_no_panic := intros raw; cbv delta [decode_uint32 decode_uint64 decode_timeval
  decode_loadavg decode_swapusage decode_clockinfo]; cbv beta zeta; by destruct (decide _).

Lemma decode_uint32_no_panic name raw : decode_uint32 name raw ≠ Panic.
Proof. revert raw. decode_no_panic. Qed.
Lemma decode_uint64_no_panic name raw : decode_uint64 name raw ≠ Panic.
Proof. revert raw. decode_no_panic. Qed.
Lemma decode_timeval_no_panic name raw : decode_timeval name raw ≠ Panic.
Proof. revert raw. decode_no_panic. Qed.
Lemma decode_loadavg_no_panic raw : decode_loadavg raw ≠ Panic.
Proof. revert raw. decode_no_panic. Qed.
Lemma decode_swapusage_no_panic raw : decode_swapusage raw ≠ Panic.
Proof. revert raw. decode_no_panic. Qed.
Lemma decode_clockinfo_no_panic raw : decode_clockinfo raw ≠ Panic.
Proof. revert raw. decode_no_panic. Qed.

#[export] Hint Resolve decode_uint32_no_panic decode_uint64_no_panic decode_timeval_no_panic
  decode_loadavg_no_panic decode_swapusage_no_panic decode_clockinfo_no_panic : go.

(** The fields of a structure laid out as 8-byte or 4-byte words. *)
Lemma Uint64_le_split z : uint64_range z → LittleEndian_Uint64 (le_split 8 z) = z.
Proof.
  intros H. unfold LittleEndian_Uint64.
  rewrite take_ge by (rewrite length_le_split; lia). by apply le_combine_split_id.
Qed.

Lemma i32_Uint32_le_split z : int32_range z → i32 (LittleEndian_Uint32 (le_split 4 z)) = z.
Proof.
  intros H. unfold LittleEndian_Uint32.
  rewrite take_ge by (rewrite length_le_split; lia).
  rewrite le_combine_split. rewrite <- (i32_id z H) at 2.
  unfold i32. rewrite Zplus_mod_idemp_l. done.
Qed.

Lemma le_split_Uint64 l : length l = 8%nat → le_split 8 (LittleEndian_Uint64 l) = l.
Proof.
  intros H. unfold LittleEndian_Uint64. rewrite take_ge by lia.
  rewrite <- H. apply le_split_combine.
Qed.

(** Splitting only looks at the low bits. *)
Lemma le_split_mod n z : le_split n (z mod 2 ^ (8 * Z.of_nat n)) = le_split n z.
Proof.
  rewrite <- le_combine_split.
  rewrite <- (length_le_split n z) at 1. apply le_split_combine.
Qed.

Lemma le_split_i32_Uint32 l : length l = 4%nat → le_split 4 (i32 (LittleEndian_Uint32 l)) = l.
Proof.
  intros H. rewrite <- le_split_mod. change (2 ^ _) with (2 ^ 32).
  fold (u32 (i32 (LittleEndian_Uint32 l))). rewrite u32_i32.
  unfold u32. rewrite Z.mod_small by auto with go.
  unfold LittleEndian_Uint32. rewrite take_ge by lia.
  rewrite <- H. apply le_split_combine.
Qed.

(** Consecutive slices put together give the bytes back. *)
Lemma slice_app {A} (l : list A) lo mid hi :
  (lo ≤ mid)%nat → (mid ≤ hi)%nat → slice l lo mid ++ slice l mid hi = slice l lo hi.
Proof.
  intros H1 H2. unfold slice.
  replace (drop mid l) with (drop (mid - lo) (drop lo l)).
  2: { rewrite drop_drop. f_equal. lia. }
  replace (hi - lo)%nat with ((mid - lo) + (hi - mid))%nat by lia.
  by rewrite take_take_drop.
Qed.

Lemma slice_all {A} (l : list A) n : length l = n → slice l 0 n = l.
Proof. intros <-. unfold slice. by rewrite drop_0, Nat.sub_0_r, firstn_all. Qed.

Lemma length_slice {A} (l : list A) lo hi :
  (lo ≤ hi)%nat → (hi ≤ length l)%nat → length (slice l lo hi) = (hi - lo)%nat.
Proof. intros H1 H2. unfold slice. rewrite length_take, length_drop. lia. Qed.

(** ** Theorems on the decoders *)

(** A timeval the kernel lays out as two little-endian 64-bit words is
    decoded back to itself, and any 16 bytes decode to the timeval they encode
    (so no two values share an encoding and none is lost). *)
Lemma timeval_roundtrip name :
  (∀ t, timeval_ok t → decode_timeval name (encode_timeval t) = Ok t) ∧
  (∀ raw t, decode_timeval name raw = Ok t → timeval_ok t ∧ encode_timeval t = raw).
Proof.
  split.
  - intros [sec usec] [Hs Hu]. unfold decode_timeval, encode_timeval.
    rewrite decide_False by (rewrite length_app, !length_le_split; auto).
    cbn [tv_Sec tv_Usec] in *.
    do 2 f_equal; [exact (Uint64_le_split _ Hs)|exact (Uint64_le_split _ Hu)].
  - intros raw t. unfold decode_timeval. destruct (decide _) as [|Hl]; [done|].
    intros [= <-]. apply dec_stable in Hl.
    split; [split; apply LittleEndian_Uint64_range|].
    unfold encode_timeval. cbn [tv_Sec tv_Usec].
    rewrite !le_split_Uint64 by (rewrite length_slice; lia).
    rewrite slice_app by lia. by apply slice_all.
Qed.

(** The same for the four words of [xsw_usage]. *)
Lemma swapusage_roundtrip :
  (∀ s, swapusage_ok s → decode_swapusage (encode_swapusage s) = Ok s) ∧
  (∀ raw s, decode_swapusage raw = Ok s → swapusage_ok s ∧ encode_swapusage s = raw).
Proof.
  split.
  - intros [a b c d] (Ha & Hb & Hc & Hd). unfold decode_swapusage, encode_swapusage.
    cbn [su_Total su_Avail su_Used su_Flags] in *.
    rewrite decide_False by (rewrite !length_app, !length_le_split; auto).
    do 2 f_equal; [exact (Uint64_le_split _ Ha)|exact (Uint64_le_split _ Hb)
      |exact (Uint64_le_split _ Hc)|exact (Uint64_le_split _ Hd)].
  - intros raw s. unfold decode_swapusage. destruct (decide _) as [|Hl]; [done|].
    intros [= <-]. apply dec_stable in Hl.
    split; [repeat split; apply LittleEndian_Uint64_range|].
    unfold encode_swapusage. cbn [su_Total su_Avail su_Used su_Flags].
    rewrite !le_split_Uint64 by (rewrite length_slice; lia).
    rewrite !slice_app by lia. by apply slice_all.
Qed.

(** The same for the five signed 32-bit words of [clockinfo]: the sign
    survives the trip through [uint32]. *)
Lemma clockinfo_roundtrip :
  (∀ c, clockinfo_ok c → decode_clockinfo (encode_clockinfo c) = Ok c) ∧
  (∀ raw c, decode_clockinfo raw = Ok c → clockinfo_ok c ∧ encode_clockinfo c = raw).
Proof.
  split.
  - intros [a b c d e] (Ha & Hb & Hc & Hd & He). unfold decode_clockinfo, encode_clockinfo.
    cbn [ci_Hz ci_Tick ci_Spare ci_Profhz ci_Stathz] in *.
    rewrite decide_False by (rewrite !length_app, !length_le_split; auto).
    do 2 f_equal; [exact (i32_Uint32_le_split _ Ha)|exact (i32_Uint32_le_split _ Hb)
      |exact (i32_Uint32_le_split _ Hc)|exact (i32_Uint32_le_split _ Hd)
      |exact (i32_Uint32_le_split _ He)].
  - intros raw s. unfold decode_clockinfo. destruct (decide _) as [|Hl]; [done|].
    intros [= <-]. apply dec_stable in Hl.
    split; [repeat split; apply i32_range|].
    unfold encode_clockinfo. cbn [ci_Hz ci_Tick ci_Spare ci_Profhz ci_Stathz].
    rewrite !le_split_i32_Uint32 by (rewrite length_slice; lia).
    rewrite !slice_app by lia. by apply slice_all.
Qed.

(** C21: each of the three fixed-layout structures survives the trip through the
    kernel's bytes both ways: what the kernel lays out as little-endian words is
    decoded back to itself, and bytes that decode are exactly the encoding of
    what they decode to, so no two values share an encoding; the signed fields
    of [clockinfo] keep their sign through [uint32]. *)
Theorem structure_roundtrips name :
  ((∀ t, timeval_ok t → decode_timeval name (encode_timeval t) = Ok t) ∧
   (∀ raw t, decode_timeval name raw = Ok t → timeval_ok t ∧ encode_timeval t = raw)) ∧
  ((∀ s, swapusage_ok s → decode_swapusage (encode_swapusage s) = Ok s) ∧
   (∀ raw s, decode_swapusage raw = Ok s → swapusage_ok s ∧ encode_swapusage s = raw)) ∧
  ((∀ c, clockinfo_ok c → decode_clockinfo (encode_clockinfo c) = Ok c) ∧
   (∀ raw c, decode_clockinfo raw = Ok c → clockinfo_ok c ∧ encode_clockinfo c = raw)).
Proof. split; [apply timeval_roundtrip|]. split; [apply swapusage_roundtrip|apply clockinfo_roundtrip]. Qed.

(** ** Theorems on the raw reads *)

Section RawTheorems.
Context {W : Type} `{SysctlSpec W}.

(** C15: [GetRaw(name)] is fully specified: it fails when the kernel does not
    know the name; otherwise it returns what the node held at the second
    call, except that a node that was empty at the size query reads as empty
    and one that vanished or outgrew the buffer in between is an error.  It
    never panics. *)
Theorem GetRaw_correct name w (Hname : nul_free name) :
  match oid_of name with
  | None => ∃ e, (GetRaw name w).1 = Err e
  | Some oid =>
      let w1 := (libc_sysctl oid None 0 None 0 w).2 in
      match read_spec (value_of w oid) (value_of w1 oid) with
      | Some b => (GetRaw name w).1 = Ok b
      | None => ∃ e, (GetRaw name w).1 = Err e
      end
  end.
Proof.
  destruct (oid_of name) as [oid|] eqn:Ho; [|by apply GetRaw_unknown].
  pose proof (GetRawMIB_cases oid w) as Hc.
  destruct (GetRaw_GetRawMIB name oid w Hname Ho) as [Ha _].
  cbv zeta in *. destruct (read_spec _ _).
  - rewrite Hc in Ha. destruct (GetRaw name w).1; simpl in Ha; by subst.
  - destruct Hc as [e Hc]. rewrite Hc in Ha.
    destruct (GetRaw name w).1; simpl in Ha; by eauto.
Qed.

(** [nametomib] returns exactly the kernel's OID of a known name and an
    error for an unknown one; its final slice expression never panics. *)
Theorem nametomib_correct name w (Hname : nul_free name) :
  match oid_of name with
  | Some oid => (nametomib name w).1 = Ok oid
  | None => ∃ e, (nametomib name w).1 = Err e
  end.
Proof.
  destruct (oid_of name) as [oid|] eqn:Ho.
  - by apply nametomib_known.
  - by apply nametomib_unknown.
Qed.
End RawTheorems.

(** The value that grew between the calls is the ENOMEM branch, the counter the
    [read at the second call] branch. *)
Lemma GetRaw_correct_witness :
  (@GetRaw nat demo_kernel "demo.rate" 5%nat).1 = Ok (le_split 8 6) ∧
  (∃ e, (@GetRaw nat demo_kernel "demo.grow" 0%nat).1 = Err e).
Proof.
  split.
  - exact (@GetRaw_correct nat demo_kernel demo_spec "demo.rate" 5%nat
             ltac:(by_decide)).
  - exact (@GetRaw_correct nat demo_kernel demo_spec "demo.grow" 0%nat
             ltac:(by_decide)).
Defined.

Lemma nametomib_correct_witness :
  (@nametomib nat demo_kernel "hw.memsize" 0%nat).1 = Ok [6; 24] ∧
  (∃ e, (@nametomib nat demo_kernel "bogus.nonexistent" 0%nat).1 = Err e).
Proof.
  split.
  - exact (@nametomib_correct nat demo_kernel demo_spec "hw.memsize" 0%nat
             ltac:(by_decide)).
  - exact (@nametomib_correct nat demo_kernel demo_spec "bogus.nonexistent" 0%nat
             ltac:(by_decide)).
Defined.
