(* ===== verification/MibCache.v ===== *)
(** * The MIB cache (internal/macosasmsysctl/mibcache.go)

    [MIBCache.cache] is a finite map from names to MIBs; the cache's code runs
    in the state made of the kernel's world and that map.  The RWMutex makes
    each map access one atomic step; the last section interleaves the steps of
    several goroutines that resolve names on one cache. *)

From Stdlib Require Import ZArith Lia.
From Stdlib Require Import Strings.Byte.
From S2P Require Import Prelude Bytes Float64 GoTime Kernel TableKernel Sysctl.

Local Open Scope Z_scope.

Abbreviation mib_cache := (gmap string (list Z)).

Record CacheSt (W : Type) := mkCacheSt { c_world : W; c_cache : mib_cache }.
Arguments mkCacheSt {W}.
Arguments c_world {W}.
Arguments c_cache {W}.

Section MIBCache.
Context {W : Type} `{Kernel W}.
Implicit Types st : CacheSt W.

(** A system call made while the cache is in scope. *)
Definition on_kernel {A} (m : M W A) : M (CacheSt W) A :=
  zoom c_world (λ w st, mkCacheSt w (c_cache st)) m.

Definition NewMIBCache : mib_cache := ∅.

Definition cache_insert (name : string) (mib : list Z) : M (CacheSt W) unit :=
  modify (λ st, mkCacheSt (c_world st) (<[name := mib]> (c_cache st))).

Definition Resolve (name : string) : M (CacheSt W) (list Z) :=
  cached ← gets (λ st, c_cache st !! name);
  match cached with
  | Some mib => mret mib
  | None =>
      mib ← on_kernel (nametomib name);
      cache_insert name mib;;
      mret mib
  end.

(** [for _, name := range names { if _, err := c.Resolve(name); err == nil { resolved++ } }] *)
Definition Warm (names : list string) : M (CacheSt W) Z :=
  foldM (λ resolved name,
           try _mib ← Resolve name catch _err ⇒ mret resolved;
           mret (resolved + 1))
        0 names.

Definition MIBCache_GetRaw (name : string) : M (CacheSt W) (list byte) :=
  mib ← Resolve name; on_kernel (GetRawMIB mib).

Definition MIBCache_GetString : string → M (CacheSt W) string := get_String MIBCache_GetRaw.
Definition MIBCache_GetUint32 : string → M (CacheSt W) Z := get_Uint32 MIBCache_GetRaw.
Definition MIBCache_GetUint64 : string → M (CacheSt W) Z := get_Uint64 MIBCache_GetRaw.
Definition MIBCache_GetInt32 : string → M (CacheSt W) Z := get_Int32 MIBCache_GetRaw.
Definition MIBCache_GetInt64 : string → M (CacheSt W) Z := get_Int64 MIBCache_GetRaw.
Definition MIBCache_GetTimeval : string → M (CacheSt W) Timeval := get_Timeval MIBCache_GetRaw.
Definition MIBCache_GetLoadavg : M (CacheSt W) Loadavg := get_Loadavg MIBCache_GetRaw.
Definition MIBCache_GetSwapUsage : M (CacheSt W) SwapUsage := get_SwapUsage MIBCache_GetRaw.
Definition MIBCache_GetClockinfo : M (CacheSt W) Clockinfo := get_Clockinfo MIBCache_GetRaw.
End MIBCache.

(** ** Sequential behaviour *)

Section Properties.
Context {W : Type} `{SysctlSpec W}.
Implicit Types st : CacheSt W.

(** The cache holds nothing but the kernel's own resolutions. *)
Definition cache_ok (c : mib_cache) : Prop :=
  ∀ name mib, nul_free name → c !! name = Some mib → oid_of name = Some mib.

Lemma cache_ok_empty : cache_ok NewMIBCache.
Proof. intros name mib _. unfold NewMIBCache. by rewrite lookup_empty. Qed.

Lemma cache_ok_insert c name mib :
  cache_ok c → (nul_free name → oid_of name = Some mib) → cache_ok (<[name := mib]> c).
Proof.
  intros Hc Hn name' mib' Hf. rewrite lookup_insert. case_decide; [naive_solver|]. by apply Hc.
Qed.

Lemma nametomib_ok name w mib :
  (nametomib name w).1 = Ok mib → nul_free name → oid_of name = Some mib.
Proof.
  intros Hr Hf. destruct (oid_of name) as [oid|] eqn:Ho.
  - rewrite (nametomib_known name oid w Hf Ho) in Hr. by simplify_eq.
  - destruct (nametomib_unknown name w Hf Ho) as [e He]. by rewrite He in Hr.
Qed.

(** [Resolve], case by case. *)
Lemma Resolve_hit name mib st :
  c_cache st !! name = Some mib → Resolve name st = (Ok mib, st).
Proof. intros Hl. unfold Resolve. run_simpl. by rewrite Hl. Qed.

Lemma Resolve_miss name st :
  c_cache st !! name = None →
  Resolve name st =
    match nametomib name (c_world st) with
    | (Ok mib, w) => (Ok mib, mkCacheSt w (<[name := mib]> (c_cache st)))
    | (Err e, w) => (Err e, mkCacheSt w (c_cache st))
    | (Panic, w) => (Panic, mkCacheSt w (c_cache st))
    end.
Proof.
  intros Hl. unfold Resolve, on_kernel, cache_insert. run_simpl. rewrite Hl.
  run_simpl. by destruct (nametomib name (c_world st)) as [[]].
Qed.

(** The cache only grows, never changes an entry, and stays correct. *)
Lemma hoare_Resolve name c0 :
  hoare (λ st, cache_ok (c_cache st) ∧ c0 ⊆ c_cache st) (Resolve name)
    (λ mib st, c_cache st !! name = Some mib ∧ cache_ok (c_cache st) ∧ c0 ⊆ c_cache st)
    (λ _ st, cache_ok (c_cache st) ∧ c0 ⊆ c_cache st).
Proof.
  intros st [Hok Hsub]. destruct (c_cache st !! name) as [mib|] eqn:Hl.
  { by rewrite (Resolve_hit _ _ _ Hl). }
  rewrite (Resolve_miss _ _ Hl).
  pose proof (nametomib_safe name (c_world st)) as Hs.
  pose proof (nametomib_ok name (c_world st)) as Hm.
  destruct (nametomib name (c_world st)) as [[mib|e|] w]; cbn [fst c_cache] in *; [|done|done].
  split_and!.
  - by rewrite lookup_insert_eq.
  - apply cache_ok_insert; eauto.
  - etrans; [done|]. by apply insert_subseteq.
Qed.

(** The invariant of the code above the cache: correct, and grown from [c0]. *)
Definition cache_from (c0 : mib_cache) (st : CacheSt W) : Prop :=
  cache_ok (c_cache st) ∧ c0 ⊆ c_cache st.

Lemma hoare_on_kernel {A} (m : M W A) I :
  safe m → hoare (λ st, I (c_cache st)) (on_kernel m) (λ _ st, I (c_cache st)) (λ _ st, I (c_cache st)).
Proof.
  intros Hm. eapply hoare_zoom; [by apply safe_hoare|done|done|done].
Qed.

Lemma hoare_cache_GetRaw c0 name :
  hoare (cache_from c0) (MIBCache_GetRaw name) (λ _, cache_from c0) (λ _, cache_from c0).
Proof.
  unfold MIBCache_GetRaw. eapply hoare_bind.
  - apply (hoare_Resolve name c0).
  - intros mib. eapply hoare_conseq;
      [apply (hoare_on_kernel (GetRawMIB mib) (λ c, cache_ok c ∧ c0 ⊆ c)), GetRawMIB_safe|..]; simpl.
    + by intros st (_ & ? & ?).
    + done.
    + done.
Qed.

(** What [Resolve] answers in a correct cache. *)
Lemma Resolve_answer name st :
  cache_ok (c_cache st) → nul_free name →
  match oid_of name with
  | Some oid => (Resolve name st).1 = Ok oid
  | None => ∃ e, (Resolve name st).1 = Err e
  end.
Proof.
  intros Hok Hf. destruct (c_cache st !! name) as [mib|] eqn:Hl.
  { rewrite (Hok _ _ Hf Hl), (Resolve_hit _ _ _ Hl). done. }
  rewrite (Resolve_miss _ _ Hl). destruct (oid_of name) as [oid|] eqn:Ho.
  - pose proof (nametomib_known name oid (c_world st) Hf Ho) as Hn.
    by destruct (nametomib _ _) as [[]]; simplify_eq/=.
  - destruct (nametomib_unknown name (c_world st) Hf Ho) as [e Hn].
    destruct (nametomib _ _) as [[]]; simplify_eq/=; eauto.
Qed.
End Properties.

(** ** Concurrent resolution

    One goroutine's [Resolve] as atomic steps: the read under [RLock], the
    system call with no lock held, the write under [Lock]. *)

Inductive resolve_pc :=
  | RLookup
  | RMiss
  | RGot (mib : list Z)
  | RDone (r : outcome (list Z)).

Section Concurrent.
Context {W : Type} `{SysctlSpec W}.

Definition resolve_thread_step (name : string) (pc : resolve_pc) (st : CacheSt W)
    : resolve_pc * CacheSt W :=
  match pc with
  | RLookup =>
      (match c_cache st !! name with Some mib => RDone (Ok mib) | None => RMiss end, st)
  | RMiss =>
      match nametomib name (c_world st) with
      | (Ok mib, w) => (RGot mib, mkCacheSt w (c_cache st))
      | (Err e, w) => (RDone (Err e), mkCacheSt w (c_cache st))
      | (Panic, w) => (RDone Panic, mkCacheSt w (c_cache st))
      end
  | RGot mib => (RDone (Ok mib), mkCacheSt (c_world st) (<[name := mib]> (c_cache st)))
  | RDone r => (RDone r, st)
  end.

(** The goroutines resolving on one cache, and their shared state. *)
Record resolvers := mkResolvers {
  rs_threads : list (string * resolve_pc);
  rs_state : CacheSt W;
}.

Definition steps_left (pc : resolve_pc) : nat :=
  match pc with RLookup => 3 | RMiss => 2 | RGot _ => 1 | RDone _ => 0 end.

Definition pcs_left (p : string * resolve_pc) : nat := steps_left p.2.

(** Any unfinished goroutine may take the next step. *)
Inductive resolvers_step : resolvers → resolvers → Prop :=
  | resolvers_sched i name pc ths st :
      ths !! i = Some (name, pc) → steps_left pc ≠ 0%nat →
      resolvers_step (mkResolvers ths st)
        (mkResolvers (<[i := (name, (resolve_thread_step name pc st).1)]> ths)
           (resolve_thread_step name pc st).2).

(** What a goroutine may know at each point. *)
Definition resolve_pc_ok (name : string) (pc : resolve_pc) : Prop :=
  match pc with
  | RLookup | RMiss => True
  | RGot mib => oid_of name = Some mib
  | RDone (Ok mib) => oid_of name = Some mib
  | RDone (Err _) => oid_of name = None
  | RDone Panic => False
  end.

Definition resolvers_ok (c0 : mib_cache) (rs : resolvers) : Prop :=
  cache_ok (c_cache (rs_state rs)) ∧ c0 ⊆ c_cache (rs_state rs) ∧
  Forall (λ p, nul_free p.1 ∧ resolve_pc_ok p.1 p.2) (rs_threads rs).

Lemma resolve_thread_step_ok name pc st c0 :
  nul_free name → resolve_pc_ok name pc → cache_ok (c_cache st) → c0 ⊆ c_cache st →
  resolve_pc_ok name (resolve_thread_step name pc st).1 ∧
  cache_ok (c_cache (resolve_thread_step name pc st).2) ∧
  c0 ⊆ c_cache (resolve_thread_step name pc st).2.
Proof.
  intros Hf Hpc Hok Hsub. destruct pc as [| |mib|r]; cbn [resolve_thread_step fst snd].
  - destruct (_ !! name) eqn:Hl; [|done]. split; [by apply Hok|done].
  - pose proof (nametomib_safe name (c_world st)) as Hs.
    pose proof (nametomib_ok name (c_world st)) as Hn.
    destruct (oid_of name) as [oid|] eqn:Ho.
    + pose proof (nametomib_known name oid (c_world st) Hf Ho) as Hk.
      destruct (nametomib _ _) as [[]]; simplify_eq/=. by split.
    + destruct (nametomib_unknown name (c_world st) Hf Ho) as [e Hk].
      destruct (nametomib _ _) as [[]]; simplify_eq/=. by split.
  - cbn [c_cache]. split; [done|]. split; [by apply cache_ok_insert|].
    intros k. specialize (Hsub k). rewrite lookup_insert. case_decide as Hkk; [|done].
    subst k. destruct (c0 !! name) as [m0|] eqn:E0; [|done].
    destruct (c_cache st !! name) as [m1|] eqn:E1; [|done].
    simpl in *. subst m1. apply Hok in E1; [|done]. simpl in Hpc. congruence.
  - by split.
Qed.

Lemma resolvers_step_ok c0 rs rs' :
  resolvers_step rs rs' → resolvers_ok c0 rs → resolvers_ok c0 rs'.
Proof.
  intros Hstep (Hok & Hsub & Hall). inversion Hstep as [i name pc ths st Hi Hpc]; subst.
  cbn [rs_state rs_threads] in *.
  destruct (Forall_lookup_1 _ _ _ _ Hall Hi) as [Hf Hp]. simpl in Hf, Hp.
  destruct (resolve_thread_step_ok name pc st c0 Hf Hp Hok Hsub) as (H1 & H2 & H3).
  split_and!; [done..|]. by apply Forall_insert.
Qed.

(** A goroutine that runs alone is [Resolve]. *)
Lemma resolve_thread_sequential name st :
  Nat.iter 3 (λ p, resolve_thread_step name p.1 p.2) (RLookup, st)
  = (RDone (Resolve name st).1, (Resolve name st).2).
Proof.
  cbn [Nat.iter nat_rect fst snd resolve_thread_step].
  destruct (c_cache st !! name) as [mib|] eqn:Hl.
  { by rewrite (Resolve_hit _ _ _ Hl). }
  rewrite (Resolve_miss _ _ Hl). cbn [resolve_thread_step].
  by destruct (nametomib _ _) as [[]].
Qed.
End Concurrent.

(** ** Theorems *)

Section Theorems.
Context {W : Type} `{SysctlSpec W}.

Lemma cached_read_refines {A} name (decode : list byte → outcome A)
    (st : CacheSt W) (Hok : cache_ok (c_cache st)) (Hname : nul_free name) :
  let w' := match c_cache st !! name with
            | Some _ => c_world st
            | None => (nametomib name (c_world st)).2
            end in
  outcome_agree (read_as MIBCache_GetRaw name decode st).1 (read_as GetRaw name decode w').1 ∧
  cache_ok (c_cache (read_as MIBCache_GetRaw name decode st).2) ∧
  (∀ oid, oid_of name = Some oid →
     c_cache (read_as MIBCache_GetRaw name decode st).2 !! name = Some oid).
Proof.
  intros w'. unfold read_as, MIBCache_GetRaw, on_kernel. run_simpl.
  destruct (c_cache st !! name) as [mib|] eqn:Hl.
  - rewrite (Resolve_hit _ _ _ Hl). run_simpl.
    pose proof (Hok _ _ Hname Hl) as Ho.
    destruct (GetRaw_GetRawMIB name mib w' Hname Ho) as [Ha _].
    destruct (GetRawMIB mib (c_world st)) as [[b|e|] w1] eqn:E1;
      fold w' in E1; rewrite E1 in Ha;
      destruct (GetRaw name w') as [[b'|e'|] w2]; simpl in Ha; try done; subst;
      split_and!; try done; try (by destruct (decode _)); naive_solver.
  - rewrite (Resolve_miss _ _ Hl).
    destruct (oid_of name) as [oid|] eqn:Ho.
    + pose proof (nametomib_known name oid (c_world st) Hname Ho) as Hn.
      subst w'. destruct (nametomib name (c_world st)) as [[mib|e|] w'] eqn:E0; simplify_eq/=.
      destruct (GetRaw_GetRawMIB name oid w' Hname Ho) as [Ha _].
      destruct (GetRawMIB oid w') as [[b|e|] w1];
        destruct (GetRaw name w') as [[b'|e'|] w2]; simpl in Ha; try done; subst; simpl;
        split_and!; try done; try (by destruct (decode _));
        try (by apply cache_ok_insert); intros; simplify_eq; by rewrite lookup_insert_eq.
    + destruct (nametomib_unknown name (c_world st) Hname Ho) as [e Hn].
      subst w'. destruct (nametomib name (c_world st)) as [[mib|e'|] w'] eqn:E0; simplify_eq/=.
      destruct (GetRaw_unknown name w' Hname Ho) as [e2 He2].
      destruct (GetRaw name w') as [[]]; simplify_eq/=. by split_and!.
Qed.

(** C14: the MIB cache is transparent: on a correct cache, a cached typed
    getter returns exactly what the same getter returns through
    [sysctlbyname] (the values are equal, and one fails iff the other does;
    [w'] is the world after the name lookup a cold name costs), and it leaves
    the cache correct with every known name it was asked for resolved. *)
Theorem cached_read_refines_direct {A} name (decode : list byte → outcome A)
    (st : CacheSt W) (Hok : cache_ok (c_cache st)) (Hname : nul_free name) :
  let w' := match c_cache st !! name with
            | Some _ => c_world st
            | None => (nametomib name (c_world st)).2
            end in
  outcome_agree (read_as MIBCache_GetRaw name decode st).1 (read_as GetRaw name decode w').1 ∧
  cache_ok (c_cache (read_as MIBCache_GetRaw name decode st).2) ∧
  (∀ oid, oid_of name = Some oid →
     c_cache (read_as MIBCache_GetRaw name decode st).2 !! name = Some oid).
Proof. by apply cached_read_refines. Qed.

(** What a read of [name] tells the caller when it fails: the call that failed,
    with the name or the MIB it was made on and the errno the kernel gave, or
    the decoder's complaint about the bytes that were read. *)
Definition direct_result {A} name (decode : list byte → outcome A) (w : W) (r : outcome A) : Prop :=
  match oid_of name with
  | None => ∃ k, k ≠ 0 ∧ r = Err (Errorf "sysctl size %q: %w" [AStr name; AErr (Errno k)])
  | Some oid => ∃ o, r = outcome_bind decode o ∧
      two_calls_result
        (λ err, Errorf "sysctl size %q: %w" [AStr name; AErr err])
        (λ err, Errorf "sysctl read %q: %w" [AStr name; AErr err])
        (value_of w oid) (value_of (libc_sysctl oid None 0 None 0 w).2 oid) o
  end.

Definition cached_result {A} name (decode : list byte → outcome A) (w : W) (r : outcome A) : Prop :=
  match oid_of name with
  | None => ∃ k, k ≠ 0 ∧ r = Err (Errorf "nametomib %q: %w" [AStr name; AErr (Errno k)])
  | Some oid => ∃ o, r = outcome_bind decode o ∧
      two_calls_result
        (λ err, Errorf "sysctl size mib %v: %w" [AMib oid; AErr err])
        (λ err, Errorf "sysctl read mib %v: %w" [AMib oid; AErr err])
        (value_of w oid) (value_of (libc_sysctl oid None 0 None 0 w).2 oid) o
  end.

(** C11: every failed read says which step failed and why, exactly.  By name: an
    unknown name, or a node absent at the size query, is a [sysctl size] error
    carrying the name and the kernel's non-zero errno; a node that vanished
    before the read is a [sysctl read] error, one that outgrew its buffer the
    same with ENOMEM; bytes that were read go to the decoder, whose error is
    returned as it is.  Through the cache: an unknown name is a [nametomib]
    error, and the size and read errors carry the resolved MIB instead of the
    name.  No failure of one step is ever reported as another's. *)
Theorem read_errors_exact {A} name (decode : list byte → outcome A)
    (st : CacheSt W) (Hok : cache_ok (c_cache st)) (Hname : nul_free name) :
  let w' := match c_cache st !! name with
            | Some _ => c_world st
            | None => (nametomib name (c_world st)).2
            end in
  (∀ w, direct_result name decode w (read_as GetRaw name decode w).1) ∧
  cached_result name decode w' (read_as MIBCache_GetRaw name decode st).1.
Proof.
  intros w'. split.
  - intros w. unfold direct_result, read_as. run_simpl.
    destruct (oid_of name) as [oid|] eqn:Ho.
    + pose proof (GetRaw_result name oid w Hname Ho) as Hr.
      exists (GetRaw name w).1. split; [|exact Hr].
      by destruct (GetRaw name w) as [[]].
    + destruct (GetRaw_unknown_errno name w Hname Ho) as (k & Hk & He).
      exists k. split; [exact Hk|]. by destruct (GetRaw name w) as [[]]; simplify_eq/=.
  - unfold cached_result, read_as, MIBCache_GetRaw, on_kernel. run_simpl.
    destruct (c_cache st !! name) as [mib|] eqn:Hl.
    + rewrite (Resolve_hit _ _ _ Hl), (Hok _ _ Hname Hl). run_simpl.
      exists (GetRawMIB mib w').1. split; [|apply read_two_calls_result].
      subst w'. by destruct (GetRawMIB mib (c_world st)) as [[]].
    + rewrite (Resolve_miss _ _ Hl). destruct (oid_of name) as [oid|] eqn:Ho.
      * pose proof (nametomib_known name oid (c_world st) Hname Ho) as Hn.
        exists (GetRawMIB oid w').1. split; [|apply read_two_calls_result].
        subst w'. destruct (nametomib name (c_world st)) as [[mib|e|] w1]; simplify_eq/=.
        by destruct (GetRawMIB oid w1) as [[]].
      * destruct (nametomib_unknown_errno name (c_world st) Hname Ho) as (k & Hk & Hn).
        exists k. split; [exact Hk|].
        by destruct (nametomib name (c_world st)) as [[mib|e|] w1]; simplify_eq/=.
Qed.

Lemma Warm_spec names (st : CacheSt W)
    (Hok : cache_ok (c_cache st)) (Hnames : Forall nul_free names) :
  ∃ st', Warm names st
      = (Ok (Z.of_nat (length (filter (λ n, is_Some (oid_of n)) names))), st') ∧
    cache_ok (c_cache st') ∧ c_cache st ⊆ c_cache st' ∧
    ∀ n oid, n ∈ names → oid_of n = Some oid → c_cache st' !! n = Some oid.
Proof.
  pose (I := λ (done : list string) (r : Z) (s : CacheSt W),
    r = Z.of_nat (length (filter (λ n, is_Some (oid_of n)) done)) ∧
    cache_ok (c_cache s) ∧ c_cache st ⊆ c_cache s ∧
    ∀ n oid, n ∈ done → oid_of n = Some oid → c_cache s !! n = Some oid).
  cut (hoare_ok (I [] 0) (Warm names) (I names)).
  { intros Hh. specialize (Hh st). destruct (Warm names st) as [[r|e|] st'].
    2, 3: exfalso; apply Hh; split_and!; [done|done|done|set_solver].
    destruct Hh as (-> & ? & ? & ?); [split_and!; [done|done|done|set_solver]|eauto]. }
  apply hoare_foldM. intros done x rest r Hl s (-> & Hs & Hsub & Hdone).
  assert (Hx : nul_free x).
  { rewrite Forall_forall in Hnames. apply Hnames. set_solver. }
  pose proof (hoare_Resolve x (c_cache s) s (conj Hs (reflexivity _))) as Hh.
  pose proof (Resolve_answer x s Hs Hx) as Ha. run_simpl. unfold I.
  rewrite length_filter_snoc.
  destruct (oid_of x) as [oid|] eqn:Ho.
  - rewrite decide_True by eauto. destruct (Resolve x s) as [[mib|e|] s']; simplify_eq/=.
    destruct Hh as (Hx' & Hs' & Hsub').
    split_and!; [lia|done|by etrans|].
    intros n oid' [Hn|Hn%list_elem_of_singleton]%elem_of_app Hoid.
    + eapply lookup_weaken; [by apply Hdone|done].
    + subst n. congruence.
  - destruct Ha as [e Ha]. rewrite decide_False by by intros [? ?].
    destruct (Resolve x s) as [[mib|e'|] s']; simplify_eq/=.
    destruct Hh as (Hs' & Hsub').
    split_and!; [lia|done|by etrans|].
    intros n oid' [Hn|Hn%list_elem_of_singleton]%elem_of_app Hoid.
    + eapply lookup_weaken; [by apply Hdone|done].
    + subst n. congruence.
Qed.

(** [Warm] never fails: it counts exactly the names the kernel knows,
    leaves every one of them in the cache and skips the others. *)
Theorem Warm_correct names (st : CacheSt W)
    (Hok : cache_ok (c_cache st)) (Hnames : Forall nul_free names) :
  ∃ st', Warm names st
      = (Ok (Z.of_nat (length (filter (λ n, is_Some (oid_of n)) names))), st') ∧
    cache_ok (c_cache st') ∧ c_cache st ⊆ c_cache st' ∧
    ∀ n oid, n ∈ names → oid_of n = Some oid → c_cache st' !! n = Some oid.
Proof. by apply Warm_spec. Qed.

(** C16: any number of goroutines resolving any names on one cache, their
    steps interleaved in any order: each that finishes has the kernel's OID of
    its name (an error only for an unknown name), the cache never holds a
    wrong entry or loses one, and the run is over after at most three steps
    per goroutine. *)
Theorem resolve_concurrent_correct names (st : CacheSt W) n rs
    (Hok : cache_ok (c_cache st)) (Hnames : Forall nul_free names)
    (Hrun : nsteps resolvers_step n
              (mkResolvers ((λ name, (name, RLookup)) <$> names) st) rs) :
  (n ≤ 3 * length names)%nat ∧
  cache_ok (c_cache (rs_state rs)) ∧ c_cache st ⊆ c_cache (rs_state rs) ∧
  ∀ i name r, rs_threads rs !! i = Some (name, RDone r) →
    match oid_of name with Some oid => r = Ok oid | None => ∃ e, r = Err e end.
Proof.
  assert (Hinit : resolvers_ok (c_cache st)
            (mkResolvers ((λ name, (name, RLookup)) <$> names) st)).
  { split_and!; [done|done|]. cbn [rs_threads]. apply Forall_fmap.
    eapply Forall_impl; [done|]. by intros. }
  assert (Hlen : sum_list_with pcs_left
            ((λ name : string, (name, RLookup)) <$> names) = (3 * length names)%nat).
  { clear. induction names as [|x l IH]; [done|].
    rewrite fmap_cons. cbn [sum_list_with length]. rewrite IH.
    unfold pcs_left. simpl. lia. }
  rewrite <- Hlen.
  cut ((n ≤ sum_list_with pcs_left ((λ name : string, (name, RLookup)) <$> names))%nat
       ∧ resolvers_ok (c_cache st) rs).
  { intros [Hn (H1 & H2 & H3)]. split_and!; [exact Hn|done|done|].
    intros i name r Hi. destruct (Forall_lookup_1 _ _ _ _ H3 Hi) as [_ Hp]. simpl in Hp.
    destruct (oid_of name), r; naive_solver. }
  clear Hlen. revert Hinit Hrun.
  generalize ((λ name : string, (name, RLookup)) <$> names). intros ths Hinit Hrun.
  change ths with (rs_threads (mkResolvers ths st)).
  revert Hinit Hrun. generalize (mkResolvers ths st). intros rs0 Hinit Hrun.
  induction Hrun as [rs0|n rs0 rs1 rs Hstep Hrun IH]; [split; [lia|done]|].
  destruct IH as [Hn Hfin]; [by eapply resolvers_step_ok|]. split; [|done].
  inversion Hstep as [i name pc ths' st' Hi Hpc]; subst. cbn [rs_threads] in *.
  pose proof (sum_list_with_insert pcs_left _ _ _
    (name, (resolve_thread_step name pc st').1) Hi) as Hsum.
  assert (steps_left (resolve_thread_step name pc st').1 < steps_left pc)%nat.
  { destruct pc; simpl in *; repeat case_match; simpl; lia. }
  unfold pcs_left in Hsum at 2 4. cbn [snd] in Hsum. cbn [rs_threads] in Hn. lia.
Qed.
End Theorems.

(** ** Witnesses on the concrete kernel *)

Definition demo_cold : CacheSt nat := mkCacheSt 0%nat ∅.

Lemma cached_read_refines_direct_witness :
  outcome_agree
    (@read_as _ (@MIBCache_GetRaw nat demo_kernel) _ "hw.memsize" (decode_uint64 "hw.memsize") demo_cold).1
    (@read_as _ (@GetRaw nat demo_kernel) _ "hw.memsize" (decode_uint64 "hw.memsize") 1%nat).1.
Proof.
  exact (proj1 (@cached_read_refines_direct nat demo_kernel demo_spec Z "hw.memsize"
    (decode_uint64 "hw.memsize") demo_cold
    (@cache_ok_empty nat demo_kernel demo_spec) ltac:(by_decide))).
Defined.

(** Two of the three names exist. *)
Lemma Warm_correct_witness :
  ∃ st', @Warm nat demo_kernel ["kern.ostype"; "bogus.nonexistent"; "hw.ncpu"] demo_cold
           = (Ok 2, st') ∧ c_cache st' !! "hw.ncpu" = Some [6; 3].
Proof.
  destruct (@Warm_correct nat demo_kernel demo_spec
    ["kern.ostype"; "bogus.nonexistent"; "hw.ncpu"] demo_cold
    (@cache_ok_empty nat demo_kernel demo_spec)
    ltac:(repeat (constructor; [by_decide|]); constructor)) as (st' & Hw & _ & _ & Hk).
  exists st'. split; [exact Hw|]. apply Hk; [set_solver|reflexivity].
Defined.

(** Two goroutines miss, look up and store the same name, interleaved. *)
Lemma resolve_concurrent_correct_witness :
  ∃ rs, nsteps (@resolvers_step nat demo_kernel) 6
          (mkResolvers ((λ name, (name, RLookup)) <$> ["hw.ncpu"; "hw.ncpu"]) demo_cold) rs ∧
        c_cache (rs_state rs) !! "hw.ncpu" = Some [6; 3] ∧ (6 ≤ 3 * 2)%nat.
Proof.
  assert (Hrun : ∃ rs, nsteps (@resolvers_step nat demo_kernel) 6
    (mkResolvers ((λ name, (name, RLookup)) <$> ["hw.ncpu"; "hw.ncpu"]) demo_cold) rs ∧
    c_cache (rs_state rs) !! "hw.ncpu" = Some [6; 3]).
  { eexists. split; [|shelve].
    eapply nsteps_l; [eapply (resolvers_sched 0); [reflexivity|done]|].
    eapply nsteps_l; [eapply (resolvers_sched 1); [reflexivity|done]|].
    eapply nsteps_l; [eapply (resolvers_sched 1); [reflexivity|done]|].
    eapply nsteps_l; [eapply (resolvers_sched 0); [reflexivity|done]|].
    eapply nsteps_l; [eapply (resolvers_sched 1); [reflexivity|done]|].
    eapply nsteps_l; [eapply (resolvers_sched 0); [reflexivity|done]|].
    apply nsteps_O.
    Unshelve. vm_compute. reflexivity. }
  destruct Hrun as (rs & Hrun & Hc). exists rs. split; [exact Hrun|]. split; [exact Hc|].
  exact (proj1 (@resolve_concurrent_correct nat demo_kernel demo_spec
    ["hw.ncpu"; "hw.ncpu"] demo_cold 6%nat rs
    (@cache_ok_empty nat demo_kernel demo_spec)
    ltac:(repeat (constructor; [by_decide|]); constructor) Hrun)).
Defined.

(** An unknown name, cached and direct; a node that outgrows its buffer. *)
Lemma read_errors_exact_witness :
  @cached_result nat demo_kernel demo_spec string "bogus.nonexistent" (λ raw, Ok (decode_string raw)) 1%nat
    (@get_String _ (@MIBCache_GetRaw nat demo_kernel) "bogus.nonexistent" demo_cold).1 ∧
  @direct_result nat demo_kernel demo_spec Z "demo.grow" (decode_uint64 "demo.grow") 0%nat
    (@get_Uint64 _ (@GetRaw nat demo_kernel) "demo.grow" 0%nat).1.
Proof.
  split.
  - exact (proj2 (@read_errors_exact nat demo_kernel demo_spec string "bogus.nonexistent"
      (λ raw, Ok (decode_string raw)) demo_cold
      (@cache_ok_empty nat demo_kernel demo_spec) ltac:(by_decide))).
  - exact (proj1 (@read_errors_exact nat demo_kernel demo_spec Z "demo.grow"
      (decode_uint64 "demo.grow") demo_cold
      (@cache_ok_empty nat demo_kernel demo_spec) ltac:(by_decide)) 0%nat).
Defined.

(** The two errors of the witness, evaluated. *)
Example read_errors_computed :
  (@get_String _ (@MIBCache_GetRaw nat demo_kernel) "bogus.nonexistent" demo_cold).1
    = Err (Errorf "nametomib %q: %w" [AStr "bogus.nonexistent"; AErr (Errno ENOENT)]) ∧
  (@get_Uint64 _ (@GetRaw nat demo_kernel) "demo.grow" 0%nat).1
    = Err (Errorf "sysctl read %q: %w" [AStr "demo.grow"; AErr (Errno ENOMEM)]).
Proof. split; vm_compute; reflexivity. Qed.
