(* ===== verification/Registry.v ===== *)
(** * The metric registry (internal/metrics/registry.go)

    The [Known] table, one definition per section of the source's literal, the
    lookup functions, and the lazily built name index [knownByName], both as
    the sequential code and as goroutines sharing the index. *)

From Stdlib Require Import ZArith Lia.
From S2P Require Import Prelude.

Local Open Scope Z_scope.

(** [ValueType] and its constants. *)
Definition ValueType := string.
Definition Category := string.

Definition TypeString : ValueType := "string".
Definition TypeUint32 : ValueType := "uint32".
Definition TypeUint64 : ValueType := "uint64".
Definition TypeInt32 : ValueType := "int32".
Definition TypeInt64 : ValueType := "int64".
Definition TypeRaw : ValueType := "raw".
Definition TypeTimeval : ValueType := "timeval".
Definition TypeLoadavg : ValueType := "loadavg".
Definition TypeSwap : ValueType := "swap".
Definition TypeClock : ValueType := "clock".
Definition TypeComputed : ValueType := "computed".

(** [Category] and its constants. *)
Definition CatHWCPU : Category := "hw.cpu".
Definition CatHWMemory : Category := "hw.memory".
Definition CatHWCache : Category := "hw.cache".
Definition CatHWPerflevel : Category := "hw.perflevel".
Definition CatHWARM : Category := "hw.arm".
Definition CatHWMisc : Category := "hw.misc".
Definition CatKernIdentity : Category := "kern.identity".
Definition CatKernProcess : Category := "kern.process".
Definition CatKernMemory : Category := "kern.memory".
Definition CatKernSched : Category := "kern.sched".
Definition CatKernTime : Category := "kern.time".
Definition CatKernLimits : Category := "kern.limits".
Definition CatKernIPC : Category := "kern.ipc".
Definition CatKernMisc : Category := "kern.misc".
Definition CatVMPressure : Category := "vm.pressure".
Definition CatVMPages : Category := "vm.pages".
Definition CatVMCompressor : Category := "vm.compressor".
Definition CatVMPageout : Category := "vm.pageout".
Definition CatVMSwap : Category := "vm.swap".
Definition CatVMWire : Category := "vm.wire".
Definition CatVMMisc : Category := "vm.misc".
Definition CatMachdep : Category := "machdep".
Definition CatNetTCP : Category := "net.tcp".
Definition CatNetUDP : Category := "net.udp".
Definition CatNetIP : Category := "net.ip".
Definition CatNetMisc : Category := "net.misc".
Definition CatVFS : Category := "vfs".
Definition CatDebug : Category := "debug".
Definition CatKPC : Category := "kpc".
Definition CatIOGPU : Category := "iogpu".
Definition CatSecurity : Category := "security".
Definition CatComputed : Category := "computed".

Record Info := mkInfo {
  info_Name : string;
  info_Description : string;
  info_Type : ValueType;
  info_Category : Category;
}.

#[export] Instance Info_eq_dec : EqDecision Info.
Proof. solve_decision. Defined.

(** ** The table *)

Definition Known_HWCPU : list Info :=
  [mkInfo "hw.ncpu" "Total number of CPUs (logical)" TypeInt32 CatHWCPU;
   mkInfo "hw.activecpu" "Currently active CPUs" TypeInt32 CatHWCPU;
   mkInfo "hw.physicalcpu" "Physical CPU cores" TypeInt32 CatHWCPU;
   mkInfo "hw.physicalcpu_max" "Max physical CPU cores" TypeInt32 CatHWCPU;
   mkInfo "hw.logicalcpu" "Logical CPU cores" TypeInt32 CatHWCPU;
   mkInfo "hw.logicalcpu_max" "Max logical CPU cores" TypeInt32 CatHWCPU;
   mkInfo "hw.packages" "CPU packages" TypeInt32 CatHWCPU;
   mkInfo "hw.nperflevels" "Performance levels (P+E)" TypeInt32 CatHWCPU;
   mkInfo "hw.cpu64bit_capable" "64-bit capable" TypeInt32 CatHWCPU;
   mkInfo "hw.cputype" "Mach-O CPU type" TypeInt32 CatHWCPU;
   mkInfo "hw.cpusubtype" "Mach-O CPU subtype" TypeInt32 CatHWCPU;
   mkInfo "hw.cpufamily" "CPU family identifier" TypeInt32 CatHWCPU;
   mkInfo "hw.cpusubfamily" "CPU subfamily" TypeInt32 CatHWCPU;
   mkInfo "hw.byteorder" "Byte order (1234=LE)" TypeInt32 CatHWCPU].

Definition Known_HWMemory : list Info :=
  [mkInfo "hw.memsize" "Physical memory in bytes" TypeUint64 CatHWMemory;
   mkInfo "hw.memsize_usable" "Usable physical memory" TypeUint64 CatHWMemory;
   mkInfo "hw.pagesize" "System page size" TypeInt64 CatHWMemory;
   mkInfo "hw.pagesize32" "32-bit page size" TypeInt64 CatHWMemory].

Definition Known_HWCache : list Info :=
  [mkInfo "hw.cachelinesize" "Cache line size in bytes" TypeInt64 CatHWCache;
   mkInfo "hw.l1icachesize" "L1 instruction cache size" TypeInt64 CatHWCache;
   mkInfo "hw.l1dcachesize" "L1 data cache size" TypeInt64 CatHWCache;
   mkInfo "hw.l2cachesize" "L2 cache size" TypeInt64 CatHWCache;
   mkInfo "hw.tbfrequency" "Timebase frequency (Hz)" TypeInt64 CatHWCache;
   mkInfo "hw.cacheconfig" "CPUs per cache level [10]uint64" TypeRaw CatHWCache;
   mkInfo "hw.cachesize" "Cache size per level [10]uint64" TypeRaw CatHWCache].

Definition Known_HWPerflevel : list Info :=
  [mkInfo "hw.perflevel0.name" "P-core cluster name" TypeString CatHWPerflevel;
   mkInfo "hw.perflevel0.physicalcpu" "P-core physical CPUs" TypeInt32 CatHWPerflevel;
   mkInfo "hw.perflevel0.physicalcpu_max" "P-core max physical CPUs" TypeInt32 CatHWPerflevel;
   mkInfo "hw.perflevel0.logicalcpu" "P-core logical CPUs" TypeInt32 CatHWPerflevel;
   mkInfo "hw.perflevel0.logicalcpu_max" "P-core max logical CPUs" TypeInt32 CatHWPerflevel;
   mkInfo "hw.perflevel0.l1icachesize" "P-core L1I cache" TypeInt32 CatHWPerflevel;
   mkInfo "hw.perflevel0.l1dcachesize" "P-core L1D cache" TypeInt32 CatHWPerflevel;
   mkInfo "hw.perflevel0.l2cachesize" "P-core shared L2 cache" TypeInt32 CatHWPerflevel;
   mkInfo "hw.perflevel0.cpusperl2" "P-cores per L2" TypeInt32 CatHWPerflevel;
   mkInfo "hw.perflevel1.name" "E-core cluster name" TypeString CatHWPerflevel;
   mkInfo "hw.perflevel1.physicalcpu" "E-core physical CPUs" TypeInt32 CatHWPerflevel;
   mkInfo "hw.perflevel1.physicalcpu_max" "E-core max physical CPUs" TypeInt32 CatHWPerflevel;
   mkInfo "hw.perflevel1.logicalcpu" "E-core logical CPUs" TypeInt32 CatHWPerflevel;
   mkInfo "hw.perflevel1.logicalcpu_max" "E-core max logical CPUs" TypeInt32 CatHWPerflevel;
   mkInfo "hw.perflevel1.l1icachesize" "E-core L1I cache" TypeInt32 CatHWPerflevel;
   mkInfo "hw.perflevel1.l1dcachesize" "E-core L1D cache" TypeInt32 CatHWPerflevel;
   mkInfo "hw.perflevel1.l2cachesize" "E-core shared L2 cache" TypeInt32 CatHWPerflevel;
   mkInfo "hw.perflevel1.cpusperl2" "E-cores per L2" TypeInt32 CatHWPerflevel].

Definition Known_HWARM : list Info :=
  [mkInfo "hw.optional.arm.FEAT_AES" "AES instructions" TypeInt32 CatHWARM;
   mkInfo "hw.optional.arm.FEAT_SHA256" "SHA-256 instructions" TypeInt32 CatHWARM;
   mkInfo "hw.optional.arm.FEAT_SHA512" "SHA-512 instructions" TypeInt32 CatHWARM;
   mkInfo "hw.optional.arm.FEAT_SHA3" "SHA-3 instructions" TypeInt32 CatHWARM;
   mkInfo "hw.optional.arm.FEAT_LSE" "Large System Extensions (atomics)" TypeInt32 CatHWARM;
   mkInfo "hw.optional.arm.FEAT_LSE2" "LSE v2 (128-bit atomics)" TypeInt32 CatHWARM;
   mkInfo "hw.optional.arm.FEAT_CRC32" "CRC32 instructions" TypeInt32 CatHWARM;
   mkInfo "hw.optional.arm.FEAT_BF16" "BFloat16 instructions" TypeInt32 CatHWARM;
   mkInfo "hw.optional.arm.FEAT_I8MM" "Int8 matrix multiply" TypeInt32 CatHWARM;
   mkInfo "hw.optional.arm.FEAT_DotProd" "Dot product instructions" TypeInt32 CatHWARM;
   mkInfo "hw.optional.arm.FEAT_SME" "Scalable Matrix Extension" TypeInt32 CatHWARM;
   mkInfo "hw.optional.arm.FEAT_SME2" "SME version 2" TypeInt32 CatHWARM;
   mkInfo "hw.optional.arm.FEAT_PAuth" "Pointer authentication" TypeInt32 CatHWARM;
   mkInfo "hw.optional.arm.FEAT_BTI" "Branch target identification" TypeInt32 CatHWARM;
   mkInfo "hw.optional.arm.AdvSIMD" "Advanced SIMD (NEON)" TypeInt32 CatHWARM;
   mkInfo "hw.optional.arm.FEAT_FP16" "Half-precision FP" TypeInt32 CatHWARM;
   mkInfo "hw.optional.floatingpoint" "FP support" TypeInt32 CatHWARM].

Definition Known_KernIdentity : list Info :=
  [mkInfo "kern.ostype" "OS type" TypeString CatKernIdentity;
   mkInfo "kern.osrelease" "Darwin kernel release" TypeString CatKernIdentity;
   mkInfo "kern.osversion" "macOS build version" TypeString CatKernIdentity;
   mkInfo "kern.osproductversion" "macOS product version" TypeString CatKernIdentity;
   mkInfo "kern.version" "Full kernel version string" TypeString CatKernIdentity;
   mkInfo "kern.hostname" "System hostname" TypeString CatKernIdentity;
   mkInfo "kern.uuid" "System UUID" TypeString CatKernIdentity;
   mkInfo "kern.bootuuid" "Boot session UUID" TypeString CatKernIdentity;
   mkInfo "kern.osrevision" "OS revision number" TypeInt32 CatKernIdentity;
   mkInfo "kern.osreleasetype" "Release type" TypeString CatKernIdentity;
   mkInfo "kern.iossupportversion" "iOS compatibility version" TypeString CatKernIdentity].

Definition Known_KernProcess : list Info :=
  [mkInfo "kern.num_files" "Open file descriptors" TypeInt32 CatKernProcess;
   mkInfo "kern.num_vnodes" "Active vnodes" TypeInt32 CatKernProcess;
   mkInfo "kern.num_recycledvnodes" "Recycled vnode count" TypeInt64 CatKernProcess;
   mkInfo "kern.free_vnodes" "Free vnodes available" TypeInt32 CatKernProcess].

Definition Known_KernMemory : list Info :=
  [mkInfo "kern.memorystatus_level" "Memory pressure level (0-100%)" TypeInt32 CatKernMemory;
   mkInfo "kern.memorystatus_purge_on_warning" "Purge on memory warning" TypeInt32 CatKernMemory;
   mkInfo "kern.memorystatus_purge_on_urgent" "Purge on urgent memory" TypeInt32 CatKernMemory;
   mkInfo "kern.memorystatus_purge_on_critical" "Purge on critical memory" TypeInt32 CatKernMemory].

Definition Known_KernSched : list Info :=
  [mkInfo "kern.sched" "Scheduler name" TypeString CatKernSched;
   mkInfo "kern.sched_allow_NO_SMT_threads" "Allow non-SMT thread placement" TypeInt32 CatKernSched;
   mkInfo "kern.cpu_checkin_interval" "CPU checkin interval (ms)" TypeInt32 CatKernSched;
   mkInfo "kern.wq_max_threads" "Max workqueue threads" TypeInt32 CatKernSched;
   mkInfo "kern.wq_max_constrained_threads" "Max constrained WQ threads" TypeInt32 CatKernSched;
   mkInfo "kern.thread_groups_supported" "Thread group QoS scheduling" TypeInt32 CatKernSched].

Definition Known_KernTime : list Info :=
  [mkInfo "kern.boottime" "System boot time" TypeTimeval CatKernTime;
   mkInfo "kern.sleeptime" "Time spent sleeping" TypeTimeval CatKernTime;
   mkInfo "kern.waketime" "Last wake time" TypeTimeval CatKernTime;
   mkInfo "kern.wake_abs_time" "Absolute time of last wake" TypeUint64 CatKernTime;
   mkInfo "kern.sleep_abs_time" "Absolute time of sleep" TypeUint64 CatKernTime;
   mkInfo "kern.useractive_abs_time" "User-active absolute time" TypeUint64 CatKernTime;
   mkInfo "kern.userinactive_abs_time" "User-inactive absolute time" TypeUint64 CatKernTime;
   mkInfo "kern.monotonicclock_usecs" "Monotonic clock (usecs)" TypeUint64 CatKernTime;
   mkInfo "kern.clockrate" "Clock rate info" TypeClock CatKernTime].

Definition Known_KernLimits : list Info :=
  [mkInfo "kern.maxproc" "Max processes" TypeInt32 CatKernLimits;
   mkInfo "kern.maxprocperuid" "Max processes per user" TypeInt32 CatKernLimits;
   mkInfo "kern.maxfiles" "Max open files" TypeInt32 CatKernLimits;
   mkInfo "kern.maxfilesperproc" "Max open files per process" TypeInt32 CatKernLimits;
   mkInfo "kern.maxvnodes" "Max vnodes" TypeInt32 CatKernLimits;
   mkInfo "kern.maxnbuf" "Max buffer cache entries" TypeInt32 CatKernLimits;
   mkInfo "kern.argmax" "Max argument list size" TypeInt32 CatKernLimits;
   mkInfo "kern.ngroups" "Max supplementary groups" TypeInt32 CatKernLimits;
   mkInfo "kern.aiomax" "Max AIO operations" TypeInt32 CatKernLimits;
   mkInfo "kern.aioprocmax" "Max AIO per process" TypeInt32 CatKernLimits;
   mkInfo "kern.coredump" "Core dumps enabled" TypeInt32 CatKernLimits;
   mkInfo "kern.num_tasks" "Task limit (not live count, always 4096)" TypeInt32 CatKernLimits;
   mkInfo "kern.num_threads" "Thread limit (not live count, always 20480)" TypeInt32 CatKernLimits;
   mkInfo "kern.num_taskthreads" "Threads-per-task limit (not live count, always 4096)" TypeInt32 CatKernLimits].

Definition Known_KernIPC : list Info :=
  [mkInfo "kern.ipc.maxsockbuf" "Max socket buffer size" TypeInt32 CatKernIPC;
   mkInfo "kern.ipc.somaxconn" "Max listen backlog" TypeInt32 CatKernIPC;
   mkInfo "kern.ipc.nmbclusters" "Network mbuf clusters" TypeInt32 CatKernIPC].

Definition Known_KernMisc : list Info :=
  [mkInfo "kern.hv_support" "Hypervisor support" TypeInt32 CatKernMisc;
   mkInfo "kern.hv_vmm_present" "VMM currently active" TypeInt32 CatKernMisc;
   mkInfo "kern.secure_kernel" "Secure kernel mode" TypeInt32 CatKernMisc;
   mkInfo "kern.safeboot" "Safe boot mode" TypeInt32 CatKernMisc;
   mkInfo "kern.hibernatemode" "Hibernate mode" TypeInt32 CatKernMisc;
   mkInfo "kern.hibernatecount" "Hibernate count" TypeInt32 CatKernMisc;
   mkInfo "kern.slide" "Kernel ASLR slide" TypeInt32 CatKernMisc;
   mkInfo "kern.stack_size" "Default stack size" TypeInt32 CatKernMisc;
   mkInfo "kern.stack_depth_max" "Max stack depth" TypeInt32 CatKernMisc].

Definition Known_VMPressure : list Info :=
  [mkInfo "vm.memory_pressure" "Memory pressure (1=normal, 2=warn, 4=critical)" TypeInt32 CatVMPressure;
   mkInfo "vm.page_free_wanted" "Pages wanted by free list" TypeInt32 CatVMPressure;
   mkInfo "vm.vm_page_free_target" "Target free page count" TypeInt32 CatVMPressure].

Definition Known_VMPages : list Info :=
  [mkInfo "vm.pages" "Total physical pages" TypeInt32 CatVMPages;
   mkInfo "vm.pagesize" "VM page size" TypeInt32 CatVMPages;
   mkInfo "vm.page_free_count" "Free pages" TypeInt32 CatVMPages;
   mkInfo "vm.page_speculative_count" "Speculative (prefetched) pages" TypeInt32 CatVMPages;
   mkInfo "vm.page_cleaned_count" "Cleaned pages" TypeInt32 CatVMPages;
   mkInfo "vm.page_pageable_internal_count" "Pageable internal (anon) pages" TypeInt32 CatVMPages;
   mkInfo "vm.page_pageable_external_count" "Pageable external (file) pages" TypeInt32 CatVMPages;
   mkInfo "vm.page_purgeable_count" "Purgeable pages" TypeInt32 CatVMPages;
   mkInfo "vm.page_purgeable_wired_count" "Purgeable wired pages" TypeInt32 CatVMPages;
   mkInfo "vm.page_reusable_count" "Reusable pages" TypeInt32 CatVMPages;
   mkInfo "vm.page_realtime_count" "Realtime pages" TypeInt32 CatVMPages;
   mkInfo "vm.vm_page_external_count" "External (file-cache) pages" TypeInt32 CatVMPages;
   mkInfo "vm.vm_page_background_count" "Background pages" TypeInt32 CatVMPages;
   mkInfo "vm.vm_page_background_internal_count" "Background internal pages" TypeInt32 CatVMPages;
   mkInfo "vm.vm_page_background_external_count" "Background external pages" TypeInt32 CatVMPages;
   mkInfo "vm.vm_page_background_target" "Background page target" TypeInt32 CatVMPages;
   mkInfo "vm.pages_grabbed" "Total pages grabbed from free list" TypeInt64 CatVMPages].

Definition Known_VMCompressor : list Info :=
  [mkInfo "vm.compressor_mode" "Compressor mode (7=compress+swap)" TypeInt32 CatVMCompressor;
   mkInfo "vm.compressor_is_active" "Compressor active" TypeInt32 CatVMCompressor;
   mkInfo "vm.compressor_available" "Compressor available" TypeInt32 CatVMCompressor;
   mkInfo "vm.compressor_input_bytes" "Bytes submitted to compressor" TypeUint64 CatVMCompressor;
   mkInfo "vm.compressor_compressed_bytes" "Bytes after compression" TypeUint64 CatVMCompressor;
   mkInfo "vm.compressor_bytes_used" "Current compressor memory usage" TypeUint64 CatVMCompressor;
   mkInfo "vm.compressor_pool_size" "Compressor pool size" TypeUint64 CatVMCompressor;
   mkInfo "vm.compressor_segment_pages_compressed" "Compressed segment pages" TypeInt32 CatVMCompressor;
   mkInfo "vm.compressor_segment_limit" "Max compressed segments" TypeInt32 CatVMCompressor;
   mkInfo "vm.compressor_swapouts_under_30s" "Swapouts within 30s of compress" TypeInt64 CatVMCompressor;
   mkInfo "vm.compressor_swapouts_under_60s" "Swapouts within 60s" TypeInt64 CatVMCompressor;
   mkInfo "vm.compressor_swapouts_under_300s" "Swapouts within 300s" TypeInt64 CatVMCompressor;
   mkInfo "vm.compressor_swapper_reclaim_swapins" "Reclaim swap-ins" TypeInt64 CatVMCompressor;
   mkInfo "vm.compressor_swapper_defrag_swapins" "Defrag swap-ins" TypeInt64 CatVMCompressor;
   mkInfo "vm.compressor_swapper_swapout_thrashing_detected" "Swap thrashing events" TypeInt64 CatVMCompressor].

Definition Known_VMPageout : list Info :=
  [mkInfo "vm.pageout_inactive_clean" "Inactive clean pages freed" TypeInt32 CatVMPageout;
   mkInfo "vm.pageout_inactive_used" "Inactive used pages reactivated" TypeInt32 CatVMPageout;
   mkInfo "vm.pageout_inactive_dirty_internal" "Inactive dirty internal written" TypeInt64 CatVMPageout;
   mkInfo "vm.pageout_inactive_dirty_external" "Inactive dirty external written" TypeInt64 CatVMPageout;
   mkInfo "vm.pageout_speculative_clean" "Speculative pages freed" TypeInt64 CatVMPageout;
   mkInfo "vm.pageout_freed_external" "External pages freed" TypeInt64 CatVMPageout;
   mkInfo "vm.pageout_freed_speculative" "Speculative pages freed (alt)" TypeInt64 CatVMPageout;
   mkInfo "vm.pageout_freed_cleaned" "Cleaned pages freed" TypeInt64 CatVMPageout;
   mkInfo "vm.pageout_protect_realtime" "Realtime pages protected" TypeInt32 CatVMPageout;
   mkInfo "vm.vm_pageout_considered_bq_internal" "Internal pages considered" TypeInt64 CatVMPageout;
   mkInfo "vm.vm_pageout_considered_bq_external" "External pages considered" TypeInt64 CatVMPageout;
   mkInfo "vm.vm_pageout_rejected_bq_internal" "Internal pages rejected" TypeInt64 CatVMPageout;
   mkInfo "vm.vm_pageout_rejected_bq_external" "External pages rejected" TypeInt64 CatVMPageout].

Definition Known_VMSwap : list Info :=
  [mkInfo "vm.swapusage" "Swap usage stats" TypeSwap CatVMSwap;
   mkInfo "vm.swap_enabled" "Swap enabled" TypeInt32 CatVMSwap;
   mkInfo "vm.swapfileprefix" "Swap file path prefix" TypeString CatVMSwap].

Definition Known_VMWire : list Info :=
  [mkInfo "vm.global_user_wire_limit" "Max user-wired memory" TypeUint64 CatVMWire;
   mkInfo "vm.user_wire_limit" "Per-task user-wire limit" TypeUint64 CatVMWire;
   mkInfo "vm.global_no_user_wire_amount" "Reserved non-wirable memory" TypeUint64 CatVMWire;
   mkInfo "vm.add_wire_count_over_global_limit" "Wire attempts over global limit" TypeInt64 CatVMWire;
   mkInfo "vm.add_wire_count_over_user_limit" "Wire attempts over user limit" TypeInt64 CatVMWire].

Definition Known_VMMisc : list Info :=
  [mkInfo "vm.cs_blob_count" "Code signature blobs" TypeInt32 CatVMMisc;
   mkInfo "vm.cs_blob_count_peak" "Peak CS blob count" TypeInt32 CatVMMisc;
   mkInfo "vm.cs_blob_size" "CS blob memory usage" TypeInt64 CatVMMisc;
   mkInfo "vm.cs_blob_size_peak" "Peak CS blob memory" TypeInt64 CatVMMisc;
   mkInfo "vm.shared_region_count" "Active shared regions" TypeInt32 CatVMMisc;
   mkInfo "vm.shared_region_peak" "Peak shared regions" TypeInt32 CatVMMisc;
   mkInfo "vm.copied_on_read" "Copy-on-read events" TypeInt64 CatVMMisc;
   mkInfo "vm.loadavg" "System load averages" TypeLoadavg CatVMMisc].

Definition Known_Machdep : list Info :=
  [mkInfo "machdep.cpu.brand_string" "CPU brand string" TypeString CatMachdep;
   mkInfo "machdep.cpu.core_count" "Physical core count" TypeInt32 CatMachdep;
   mkInfo "machdep.cpu.thread_count" "Thread count" TypeInt32 CatMachdep;
   mkInfo "machdep.cpu.cores_per_package" "Cores per package" TypeInt32 CatMachdep;
   mkInfo "machdep.cpu.logical_per_package" "Logical CPUs per package" TypeInt32 CatMachdep;
   mkInfo "machdep.ptrauth_enabled" "Pointer authentication enabled" TypeInt32 CatMachdep;
   mkInfo "machdep.virtual_address_size" "Virtual address bits" TypeInt32 CatMachdep;
   mkInfo "machdep.time_since_reset" "Time since CPU reset (abs)" TypeUint64 CatMachdep;
   mkInfo "machdep.wake_abstime" "Absolute time of last wake" TypeUint64 CatMachdep;
   mkInfo "machdep.wake_conttime" "Continuous time of last wake" TypeUint64 CatMachdep;
   mkInfo "machdep.user_idle_level" "User idle level" TypeInt32 CatMachdep].

Definition Known_NetTCP : list Info :=
  [mkInfo "net.inet.tcp.mssdflt" "Default TCP MSS" TypeInt32 CatNetTCP;
   mkInfo "net.inet.tcp.keepidle" "Keepalive idle time (ms)" TypeInt32 CatNetTCP;
   mkInfo "net.inet.tcp.keepintvl" "Keepalive interval (ms)" TypeInt32 CatNetTCP;
   mkInfo "net.inet.tcp.keepcnt" "Keepalive probe count" TypeInt32 CatNetTCP;
   mkInfo "net.inet.tcp.sendspace" "Default send buffer" TypeInt32 CatNetTCP;
   mkInfo "net.inet.tcp.recvspace" "Default receive buffer" TypeInt32 CatNetTCP;
   mkInfo "net.inet.tcp.pcbcount" "Active TCP connections" TypeInt32 CatNetTCP;
   mkInfo "net.inet.tcp.sack" "SACK enabled" TypeInt32 CatNetTCP;
   mkInfo "net.inet.tcp.sack_globalholes" "Current global SACK holes" TypeInt32 CatNetTCP;
   mkInfo "net.inet.tcp.sack_globalmaxholes" "Max global SACK holes" TypeInt32 CatNetTCP;
   mkInfo "net.inet.tcp.ecn_initiate_out" "ECN for outgoing" TypeInt32 CatNetTCP;
   mkInfo "net.inet.tcp.ecn_negotiate_in" "ECN for incoming" TypeInt32 CatNetTCP;
   mkInfo "net.inet.tcp.fastopen" "TCP Fast Open" TypeInt32 CatNetTCP;
   mkInfo "net.inet.tcp.delayed_ack" "Delayed ACK" TypeInt32 CatNetTCP;
   mkInfo "net.inet.tcp.blackhole" "Blackhole mode" TypeInt32 CatNetTCP;
   mkInfo "net.inet.tcp.cubic_sockets" "Sockets using CUBIC" TypeInt32 CatNetTCP;
   mkInfo "net.inet.tcp.v6mssdflt" "Default IPv6 MSS" TypeInt32 CatNetTCP;
   mkInfo "net.inet.tcp.always_keepalive" "Force keepalive" TypeInt32 CatNetTCP].

Definition Known_NetUDP : list Info :=
  [mkInfo "net.inet.udp.pcbcount" "Active UDP sockets" TypeInt32 CatNetUDP;
   mkInfo "net.inet.udp.maxdgram" "Max datagram size" TypeInt32 CatNetUDP;
   mkInfo "net.inet.udp.recvspace" "Default receive buffer" TypeInt32 CatNetUDP;
   mkInfo "net.inet.udp.checksum" "Checksum enabled" TypeInt32 CatNetUDP].

Definition Known_NetIP : list Info :=
  [mkInfo "net.inet.ip.forwarding" "IP forwarding" TypeInt32 CatNetIP;
   mkInfo "net.inet.ip.ttl" "Default TTL" TypeInt32 CatNetIP;
   mkInfo "net.inet.ip.maxfragpackets" "Max fragmented packets" TypeInt32 CatNetIP].

Definition Known_NetMisc : list Info :=
  [mkInfo "net.local.pcbcount" "Unix domain socket count" TypeInt32 CatNetMisc;
   mkInfo "net.soflow.count" "Socket flow count" TypeInt64 CatNetMisc;
   mkInfo "net.inet.mptcp.pcbcount" "MPTCP connections" TypeInt32 CatNetMisc].

Definition Known_VFS : list Info :=
  [mkInfo "vfs.vnstats.num_vnodes" "Total vnodes" TypeInt64 CatVFS;
   mkInfo "vfs.vnstats.num_free_vnodes" "Free vnodes" TypeInt64 CatVFS;
   mkInfo "vfs.vnstats.num_recycledvnodes" "Recycled vnodes" TypeInt64 CatVFS;
   mkInfo "vfs.vnstats.num_dead_vnodes" "Dead vnodes pending reclaim" TypeInt64 CatVFS;
   mkInfo "vfs.vnstats.num_newvnode_calls" "New vnode allocations" TypeInt64 CatVFS;
   mkInfo "vfs.nummntops" "Mount operations" TypeInt32 CatVFS;
   mkInfo "vfs.generic.apfs.allocated" "APFS allocated bytes" TypeInt64 CatVFS].

Definition Known_Debug : list Info :=
  [mkInfo "debug.lowpri_throttle_enabled" "Low-priority I/O throttling" TypeInt32 CatDebug;
   mkInfo "debug.bpf_bufsize" "BPF buffer size" TypeInt32 CatDebug;
   mkInfo "debug.bpf_maxbufsize" "Max BPF buffer size" TypeInt32 CatDebug].

Definition Known_KPC : list Info :=
  [mkInfo "kpc.pc_capture_supported" "PC capture supported" TypeInt32 CatKPC;
   mkInfo "kperf.debug_level" "kperf debug level" TypeInt32 CatKPC].

Definition Known_IOGPU : list Info :=
  [mkInfo "iogpu.wired_limit_mb" "GPU wired memory limit (MB)" TypeInt32 CatIOGPU;
   mkInfo "iogpu.wired_lwm_mb" "GPU wired low water mark (MB)" TypeInt32 CatIOGPU;
   mkInfo "iogpu.dynamic_lwm" "Dynamic low water mark" TypeInt32 CatIOGPU].

Definition Known_Security : list Info :=
  [mkInfo "security.mac.vnode_label_count" "Active vnode MAC labels" TypeInt32 CatSecurity;
   mkInfo "security.mac.asp.stats.exec_hook_count" "ASP exec hook invocations" TypeInt64 CatSecurity;
   mkInfo "security.mac.asp.stats.library_hook_count" "ASP library hook invocations" TypeInt64 CatSecurity;
   mkInfo "security.mac.asp.stats.exec_hook_work_time" "ASP exec hook cumulative time" TypeInt64 CatSecurity;
   mkInfo "security.mac.asp.stats.library_hook_time" "ASP library hook cumulative time" TypeInt64 CatSecurity].

Definition Known_Computed : list Info :=
  [mkInfo "computed.memory_utilization_pct" "Memory utilization percentage" TypeComputed CatComputed;
   mkInfo "computed.compression_ratio" "Memory compression ratio (input/compressed)" TypeComputed CatComputed;
   mkInfo "computed.swap_utilization_pct" "Swap utilization percentage" TypeComputed CatComputed;
   mkInfo "computed.compressor_pressure_pct" "Compressor pool pressure percentage" TypeComputed CatComputed;
   mkInfo "computed.total_connections" "Total network connections (TCP+UDP+Unix)" TypeComputed CatComputed;
   mkInfo "computed.uptime_seconds" "System uptime in seconds" TypeComputed CatComputed;
   mkInfo "computed.vfs_reclamation_pct" "VFS vnode reclamation percentage" TypeComputed CatComputed].

Definition Known : list Info :=
  Known_HWCPU ++ Known_HWMemory ++ Known_HWCache ++ Known_HWPerflevel ++ Known_HWARM
    ++ Known_KernIdentity ++ Known_KernProcess ++ Known_KernMemory ++ Known_KernSched
    ++ Known_KernTime ++ Known_KernLimits ++ Known_KernIPC ++ Known_KernMisc
    ++ Known_VMPressure ++ Known_VMPages ++ Known_VMCompressor ++ Known_VMPageout
    ++ Known_VMSwap ++ Known_VMWire ++ Known_VMMisc ++ Known_Machdep ++ Known_NetTCP
    ++ Known_NetUDP ++ Known_NetIP ++ Known_NetMisc ++ Known_VFS ++ Known_Debug
    ++ Known_KPC ++ Known_IOGPU ++ Known_Security ++ Known_Computed.

(** ** Lookups *)

(** [for i := range Known { knownByName[Known[i].Name] = &Known[i] }]: a pointer
    into the table is an index. *)
Definition index_step (l : list Info) (m : gmap string nat) (i : nat) : gmap string nat :=
  match l !! i with Some info => <[info_Name info := i]> m | None => m end.

Definition index_by_name (l : list Info) : gmap string nat :=
  foldl (index_step l) ∅ (seq 0 (length l)).

(** [knownByName[name]], dereferenced. *)
Definition index_lookup (m : gmap string nat) (name : string) : option Info :=
  m !! name ≫= λ i, Known !! i.

(** The package variable [knownByName]; [None] is the nil map. *)
Definition ByName (name : string) : M (option (gmap string nat)) (option Info) :=
  idx ← gets (λ idx, idx);
  match idx with
  | None =>
      modify (λ _, Some (index_by_name Known));;
      mret (index_lookup (index_by_name Known) name)
  | Some m => mret (index_lookup m name)
  end.

Definition ByCategory (cat : Category) : list Info :=
  filter (λ m, info_Category m = cat) Known.

Fixpoint categories_loop (l : list Info) (seen : gset string) : list Category :=
  match l with
  | [] => []
  | m :: l' =>
      if decide (info_Category m ∈ seen) then categories_loop l' seen
      else info_Category m :: categories_loop l' ({[info_Category m]} ∪ seen)
  end.

Definition Categories : list Category := categories_loop Known ∅.

(** ** The name index *)

Lemma index_by_name_unfold l :
  index_by_name l = foldl (index_step l) ∅ (seq 0 (length l)).
Proof. reflexivity. Qed.

Lemma index_by_name_prefix l n :
  NoDup (info_Name <$> l) → (n ≤ length l)%nat →
  ∀ name i, foldl (index_step l) ∅ (seq 0 n) !! name = Some i ↔
    (i < n)%nat ∧ info_Name <$> l !! i = Some name.
Proof.
  intros Hnd. induction n as [|n IH]; intros Hn name i.
  { simpl. rewrite lookup_empty. split; [done|lia]. }
  rewrite seq_S, foldl_app. simpl. unfold index_step at 1.
  destruct (lookup_lt_is_Some_2 l n) as [info Hi]; [lia|]. rewrite Hi.
  rewrite lookup_insert. case_decide as Hname.
  - split.
    + intros [= <-]. rewrite Hi. simpl. split; [lia|]. by f_equal.
    + subst name. intros [Hlt Hl]. f_equal.
      eapply NoDup_lookup; [exact Hnd|..]; rewrite list_lookup_fmap; [by rewrite Hi|done].
  - rewrite IH by lia. split; [intros [? ?]; split; [lia|done]|].
    intros [Hlt Hl]. split; [|done].
    destruct (decide (i = n)) as [->|]; [|lia]. rewrite Hi in Hl. naive_solver.
Qed.

Lemma Known_names_NoDup : NoDup (info_Name <$> Known).
Proof. by_decide. Qed.

(** The table is only ever evaluated on purpose, by [vm_compute]. *)
#[global] Opaque Known.

(** The index answers by name, and only by name. *)
Lemma index_lookup_known name info :
  index_lookup (index_by_name Known) name = Some info ↔ info ∈ Known ∧ info_Name info = name.
Proof.
  unfold index_lookup.
  pose proof (index_by_name_prefix Known (length Known) Known_names_NoDup ltac:(lia)) as Hix.
  fold (index_by_name Known) in Hix. rewrite bind_Some. split.
  - intros (i & Hm & Hi). apply Hix in Hm as [_ Hn]. rewrite Hi in Hn. simplify_eq/=.
    split; [by eapply list_elem_of_lookup_2|done].
  - intros [(i & Hi)%list_elem_of_lookup Hn]. exists i. split; [|done].
    apply Hix. split; [by eapply lookup_lt_Some|]. rewrite Hi. simpl. by f_equal.
Qed.

(** The sequential states of [knownByName]: nil, or complete. *)
Definition index_ok (idx : option (gmap string nat)) : Prop :=
  idx = None ∨ idx = Some (index_by_name Known).

(** The registry entry of a name, as the code's callers see it. *)
Definition registry_entry (name : string) : option Info :=
  index_lookup (index_by_name Known) name.

Lemma registry_entry_Some name info :
  registry_entry name = Some info ↔ info ∈ Known ∧ info_Name info = name.
Proof. apply index_lookup_known. Qed.

Lemma ByName_run name idx :
  index_ok idx → ByName name idx = (Ok (registry_entry name), Some (index_by_name Known)).
Proof. by intros [->| ->]. Qed.

#[global] Opaque registry_entry index_by_name.

(** ** Categories *)

Lemma categories_loop_spec l seen :
  NoDup (categories_loop l seen) ∧
  ∀ c, c ∈ categories_loop l seen ↔ c ∉ seen ∧ c ∈ (info_Category <$> l).
Proof.
  revert seen. induction l as [|m l IH]; intros seen; simpl.
  { split; [constructor|]. intros c. split; [by intros ?%elem_of_nil|by intros [_ ?%elem_of_nil]]. }
  case_decide as Hc.
  - destruct (IH seen) as [H1 H2]. split; [done|]. intros c. rewrite H2, elem_of_cons. split.
    + intros [? ?]. auto.
    + intros [Hs [->|Hin]]; [done|auto].
  - destruct (IH ({[info_Category m]} ∪ seen)) as [H1 H2]. split.
    + constructor; [|done]. rewrite H2. intros [Hn _]. apply Hn, elem_of_union. left.
      by apply elem_of_singleton.
    + intros c. rewrite !elem_of_cons, H2, not_elem_of_union, not_elem_of_singleton. split.
      * intros [->|[[? ?] ?]]; auto.
      * intros [Hs [->|Hin]]; [auto|]. destruct (decide (c = info_Category m)); auto.
Qed.

Lemma elem_of_ByCategory info cat :
  info ∈ ByCategory cat ↔ info ∈ Known ∧ info_Category info = cat.
Proof. unfold ByCategory. rewrite list_elem_of_filter. naive_solver. Qed.

Lemma categories_nonempty cat : cat ∈ Categories ↔ ByCategory cat ≠ [].
Proof.
  unfold Categories. destruct (categories_loop_spec Known ∅) as [_ Hin].
  rewrite Hin, list_elem_of_fmap. split.
  - intros [_ (info & -> & Hi)] Hnil.
    pose proof (proj2 (elem_of_ByCategory info _) (conj Hi eq_refl)) as Hc.
    rewrite Hnil in Hc. by apply elem_of_nil in Hc.
  - intros Hne. split; [apply not_elem_of_empty|].
    destruct (ByCategory cat) as [|info l] eqn:E; [done|].
    exists info. assert (info ∈ ByCategory cat) as Hc by (rewrite E; left).
    apply elem_of_ByCategory in Hc as [Hk Hcat]. by split.
Qed.

(** ** Theorems *)

(** C24: [ByName] is correct from either sequential state of the lazy index: it
    returns the one table entry of that name when there is one and nil
    otherwise, and leaves the index complete. *)
Theorem ByName_correct name idx (Hidx : index_ok idx) :
  ∃ r, ByName name idx = (Ok r, Some (index_by_name Known)) ∧
    (∀ info, r = Some info ↔ info ∈ Known ∧ info_Name info = name) ∧
    (r = None ↔ name ∉ (info_Name <$> Known)).
Proof.
  exists (registry_entry name). split; [by apply ByName_run|]. split.
  - intros info. apply registry_entry_Some.
  - split.
    + intros Hn [info [-> Hi]]%list_elem_of_fmap.
      pose proof (proj2 (registry_entry_Some (info_Name info) info) (conj Hi eq_refl)) as Hr.
      rewrite Hr in Hn. discriminate Hn.
    + intros Hn. destruct (registry_entry name) as [info|] eqn:E; [|reflexivity].
      apply registry_entry_Some in E as [Hi <-]. exfalso. apply Hn, list_elem_of_fmap.
      by exists info.
Qed.

Lemma ByName_correct_witness :
  ∃ r, ByName "hw.ncpu" None = (Ok r, Some (index_by_name Known)) ∧
    r = Some (mkInfo "hw.ncpu" "Total number of CPUs (logical)" TypeInt32 CatHWCPU).
Proof.
  destruct (ByName_correct "hw.ncpu" None (or_introl eq_refl)) as (r & Hr & Hk & _).
  exists r. split; [exact Hr|]. apply Hk. split; [by_decide|reflexivity].
Defined.

(** C31: the categories partition the registry: [Categories] lists each category
    once, in table order, a metric is in [ByCategory] of exactly its own
    category, and walking the categories in order yields the 250 metrics of the
    table in table order. *)
Theorem categories_partition_registry :
  NoDup Categories ∧
  (∀ info cat, info ∈ ByCategory cat ↔ info ∈ Known ∧ info_Category info = cat) ∧
  (∀ cat, cat ∈ Categories ↔ ByCategory cat ≠ []) ∧
  Categories ≫= ByCategory = Known ∧
  length Known = 250%nat ∧ length Categories = 31%nat.
Proof.
  destruct (categories_loop_spec Known ∅) as [Hnd Hin]. fold Categories in Hnd, Hin.
  split_and!.
  - done.
  - intros. apply elem_of_ByCategory.
  - apply categories_nonempty.
  - vm_compute. reflexivity.
  - vm_compute. reflexivity.
  - vm_compute. reflexivity.
Qed.
