(* ===== verification/RegistryRace.v ===== *)
(** * The lazy name index under concurrency (internal/metrics/registry.go)

    [ByName] fills the package variable [knownByName] on first use with no lock.
    Here its statements are single steps of goroutines that share the variable:
    the nil test, the [make], one assignment per table entry, and the final
    read.  A goroutine alone computes [ByName]; goroutines that start after the
    index is complete are safe in any interleaving; goroutines that share the
    first use are not. *)

From Stdlib Require Import ZArith Lia.
From S2P Require Import Prelude Registry.

Inductive byname_pc :=
  | BCheck                        (* if knownByName == nil *)
  | BMake                         (* knownByName = make(...) *)
  | BFill (i : nat)               (* the loop, about to assign entry i *)
  | BRead                         (* return knownByName[name] *)
  | BDone (r : option Info).

Abbreviation name_index := (option (gmap string nat)).

Definition byname_thread_step (name : string) (pc : byname_pc) (idx : name_index)
    : byname_pc * name_index :=
  match pc with
  | BCheck => (match idx with None => BMake | Some _ => BRead end, idx)
  | BMake => (BFill 0, Some ∅)
  | BFill i =>
      if decide (i < length Known) then
        (BFill (S i), (λ m, index_step Known m i) <$> idx)
      else (BRead, idx)
  | BRead =>
      (BDone (match idx with Some m => index_lookup m name | None => None end), idx)
  | BDone r => (BDone r, idx)
  end.

Record callers := mkCallers {
  cl_threads : list (string * byname_pc);
  cl_index : name_index;
}.

Inductive callers_step : callers → callers → Prop :=
  | callers_sched i name pc ths idx :
      ths !! i = Some (name, pc) →
      callers_step (mkCallers ths idx)
        (mkCallers (<[i := (name, (byname_thread_step name pc idx).1)]> ths)
           (byname_thread_step name pc idx).2).

Definition new_callers (names : list string) (idx : name_index) : callers :=
  mkCallers ((λ name, (name, BCheck)) <$> names) idx.

(** ** One goroutine *)

(** From the loop header, [n] iterations leave a partial index of the first
    [n] entries. *)
Lemma byname_fill_iter name n :
  n ≤ length Known →
  Nat.iter n (λ p, byname_thread_step name p.1 p.2) (BFill 0, Some ∅)
  = (BFill n, Some (foldl (index_step Known) ∅ (seq 0 n))).
Proof.
  induction n as [|n IH]; intros Hn; [reflexivity|].
  rewrite Nat.iter_succ, IH by lia. cbn [fst snd byname_thread_step].
  rewrite decide_True by lia. f_equal. simpl fmap. f_equal.
  rewrite seq_S, foldl_app. reflexivity.
Qed.

(** ** Theorems *)

(** A goroutine that runs alone from the nil index performs the sequential
    [ByName]: after its [length Known + 4] steps it has the right answer and the
    index is complete. *)
Theorem byname_alone_sequential name :
  Nat.iter (length Known + 4) (λ p, byname_thread_step name p.1 p.2) (BCheck, None)
  = (BDone (registry_entry name), Some (index_by_name Known)).
Proof.
  replace (length Known + 4) with (2 + (length Known + 2)) by lia.
  rewrite Nat.iter_add.
  rewrite (Nat.iter_add (length Known) 2).
  change (Nat.iter 2 (λ p, byname_thread_step name p.1 p.2) (BCheck, None))
    with (BFill 0, Some (∅ : gmap string nat)).
  rewrite byname_fill_iter by lia.
  rewrite <- index_by_name_unfold. cbn [Nat.iter nat_rect fst snd].
  unfold byname_thread_step at 2. rewrite decide_False by lia. reflexivity.
Qed.

(** C34: once the index is complete, any number of concurrent calls, interleaved
    in any way, all return the registry's entry and leave the index alone. *)
Theorem byname_warm_concurrent names cs
    (Hrun : rtc callers_step (new_callers names (Some (index_by_name Known))) cs) :
  cl_index cs = Some (index_by_name Known) ∧
  ∀ i name r, cl_threads cs !! i = Some (name, BDone r) → r = registry_entry name.
Proof.
  pose (ok := λ p : string * byname_pc,
    match p.2 with BCheck | BRead => True | BDone r => r = registry_entry p.1 | _ => False end).
  pose (inv := λ cs, cl_index cs = Some (index_by_name Known) ∧ Forall ok (cl_threads cs)).
  assert (Hstep : ∀ a b, callers_step a b → inv a → inv b).
  { intros a b Hs [Hidx Hall]. inversion Hs as [i name pc ths idx Hi]; subst.
    cbn [cl_index cl_threads] in *. subst idx.
    pose proof (Forall_lookup_1 _ _ _ _ Hall Hi) as Hpc.
    destruct pc; try (exfalso; exact Hpc); (split; [reflexivity|]); apply Forall_insert;
      try exact Hall; try exact I; try exact Hpc; reflexivity. }
  assert (Hinv : inv cs).
  { assert (H0 : inv (new_callers names (Some (index_by_name Known)))).
    { split; [reflexivity|]. apply Forall_fmap, Forall_true. intros name. exact I. }
    revert H0. induction Hrun; eauto. }
  destruct Hinv as [H1 H2]. split; [exact H1|].
  intros i name r Hi. exact (Forall_lookup_1 _ _ _ _ H2 Hi).
Qed.

(** C25: with the index still nil, the unsynchronised first use gives a wrong
    answer: while one goroutine has published the empty map and not filled it,
    another one is told that a metric of the table is unknown. *)
Theorem byname_first_use_race :
  ∃ cs, rtc callers_step (new_callers ["hw.memsize"; "hw.ncpu"] None) cs ∧
    cl_threads cs !! 1 = Some ("hw.ncpu", BDone None) ∧
    registry_entry "hw.ncpu" ≠ None.
Proof.
  eexists. split; [|split].
  - eapply rtc_l; [apply (callers_sched 0 "hw.memsize" BCheck); reflexivity|].
    eapply rtc_l; [apply (callers_sched 0 "hw.memsize" BMake); reflexivity|].
    eapply rtc_l; [apply (callers_sched 1 "hw.ncpu" BCheck); reflexivity|].
    eapply rtc_l; [apply (callers_sched 1 "hw.ncpu" BRead); reflexivity|].
    apply rtc_refl.
  - reflexivity.
  - vm_compute. discriminate.
Qed.

(** Two callers on the complete index. *)
Lemma byname_warm_concurrent_witness :
  ∃ cs, rtc callers_step
          (new_callers ["hw.ncpu"; "no.such.metric"] (Some (index_by_name Known))) cs ∧
    cl_threads cs !! 0 = Some ("hw.ncpu", BDone (registry_entry "hw.ncpu")) ∧
    cl_index cs = Some (index_by_name Known).
Proof.
  assert (Hrun : ∃ cs, rtc callers_step
      (new_callers ["hw.ncpu"; "no.such.metric"] (Some (index_by_name Known))) cs ∧
      cl_threads cs !! 0
      = Some ("hw.ncpu", BDone (index_lookup (index_by_name Known) "hw.ncpu"))).
  { eexists. split.
    - eapply rtc_l; [apply (callers_sched 0 "hw.ncpu" BCheck); reflexivity|].
      eapply rtc_l; [apply (callers_sched 1 "no.such.metric" BCheck); reflexivity|].
      eapply rtc_l; [apply (callers_sched 0 "hw.ncpu" BRead); reflexivity|].
      apply rtc_refl.
    - reflexivity. }
  destruct Hrun as (cs & Hrun & Hi).
  destruct (byname_warm_concurrent _ cs Hrun) as [Hidx Hr].
  exists cs. split; [exact Hrun|]. split; [|exact Hidx].
  rewrite Hi, (Hr 0 _ _ Hi). reflexivity.
Defined.
