(* ===== verification/KernelRegistry.v ===== *)
(** * The kernel registry (internal/metrics/kernelregistry.go)

    The protobuf messages of the registry as the Go structs of
    proto/sysctlpb/sysctl.pb.go, loading, the name index and validation against
    the [Known] table.  Reading the embedded file and [prototext.Unmarshal] are
    parameters; the iteration order of a Go map is a parameter too. *)

From Stdlib Require Import ZArith Lia.
From Stdlib Require Import Strings.Byte.
From S2P Require Import Prelude Registry.

Local Open Scope Z_scope.

(** ** Messages *)

Inductive AccessPattern :=
  | ACCESS_PATTERN_UNSPECIFIED
  | STATIC
  | POLLED
  | CONSTRAINED
  | DYNAMIC
  | DISABLED.

#[export] Instance AccessPattern_eq_dec : EqDecision AccessPattern.
Proof. solve_decision. Defined.

(** [AccessPattern.String()]. *)
Definition AccessPattern_String (p : AccessPattern) : string :=
  match p with
  | ACCESS_PATTERN_UNSPECIFIED => "ACCESS_PATTERN_UNSPECIFIED"
  | STATIC => "STATIC"
  | POLLED => "POLLED"
  | CONSTRAINED => "CONSTRAINED"
  | DYNAMIC => "DYNAMIC"
  | DISABLED => "DISABLED"
  end.

(** [durationpb.Duration]: [int64] seconds and [int32] nanoseconds. *)
Record DurationPb := mkDuration { dur_Seconds : Z; dur_Nanos : Z }.

(** A pointer field is an [option]; a nil pointer is [None]. *)
Record AccessConfig := mkAccess { ac_Pattern : AccessPattern; ac_Ttl : option DurationPb }.

Record KernelMetric := mkKernelMetric {
  km_Name : string;
  km_Description : string;
  km_ValueType : string;
  km_Category : string;
  km_KernelAccessPattern : option AccessConfig;
  km_RecommendedAccessPattern : option AccessConfig;
  km_Notes : string;
}.

Record KernelMetricRegistry := mkRegistry {
  reg_OsRegistry : string;
  reg_OsVersion : string;
  reg_Metrics : list KernelMetric;
}.

#[export] Instance DurationPb_eq_dec : EqDecision DurationPb.
Proof. solve_decision. Defined.
#[export] Instance AccessConfig_eq_dec : EqDecision AccessConfig.
Proof. solve_decision. Defined.
#[export] Instance KernelMetric_eq_dec : EqDecision KernelMetric.
Proof. solve_decision. Defined.
#[export] Instance KernelMetricRegistry_eq_dec : EqDecision KernelMetricRegistry.
Proof. solve_decision. Defined.

(** ** Iterating over a map

    [range m] visits every key once, in an order the language leaves open. *)
Class MapOrder := {
  range_keys : ∀ {A}, gmap string A → list string;
  range_keys_perm : ∀ {A} (m : gmap string A), range_keys m ≡ₚ (map_to_list m).*1;
}.

Definition some_order : MapOrder :=
  {| range_keys := λ A m, (map_to_list m).*1; range_keys_perm := λ A m, reflexivity _ |}.

Lemma elem_of_range_keys `{MapOrder} {A} (m : gmap string A) k :
  k ∈ range_keys m ↔ is_Some (m !! k).
Proof.
  rewrite range_keys_perm, list_elem_of_fmap. split.
  - intros ([k' x] & -> & Hx). apply elem_of_map_to_list in Hx. by exists x.
  - intros [x Hx]. exists (k, x). split; [done|]. by apply elem_of_map_to_list.
Qed.

(** ** Loading *)

(** The embedded file system and the textproto parser. *)
Class RegistryFiles := {
  darwinConfigs_ReadFile : string → outcome (list byte);
  prototext_Unmarshal : list byte → outcome KernelMetricRegistry;
  runtime_GOARCH : string;
  runtime_GOOS : string;
}.

Definition LoadKernelRegistry `{RegistryFiles} (osVersion : string)
    : outcome KernelMetricRegistry :=
  if decide (runtime_GOARCH ≠ "arm64" ∨ runtime_GOOS ≠ "darwin") then
    Err (Errorf "no kernel registry for %s/%s" [AStr runtime_GOOS; AStr runtime_GOARCH])
  else
    let path := "darwin/" +:+ osVersion +:+ ".textproto" in
    match darwinConfigs_ReadFile path with
    | Err err => Err (Errorf "load kernel registry %q: %w" [AStr path; AErr err])
    | Panic => Panic
    | Ok data =>
        match prototext_Unmarshal data with
        | Err err => Err (Errorf "parse kernel registry %q: %w" [AStr path; AErr err])
        | Panic => Panic
        | Ok reg => Ok reg
        end
    end.

(** ** The name index *)

(** [for _, km := range reg.Metrics { m[km.Name] = km }]. *)
Definition metrics_by_name (l : list KernelMetric) : gmap string KernelMetric :=
  foldl (λ m km, <[km_Name km := km]> m) ∅ l.

Definition KernelRegistryByName (reg : KernelMetricRegistry) : gmap string KernelMetric :=
  metrics_by_name (reg_Metrics reg).

(** ** Validation *)

Definition duplicate_issue (name : string) : goerror :=
  Errorf "duplicate kernel metric: %s" [AStr name].
Definition missing_issue (name : string) : goerror :=
  Errorf "metric %q in registry but missing from kernel registry" [AStr name].
Definition no_kernel_pattern_issue (name : string) : goerror :=
  Errorf "metric %q: missing kernel_access_pattern" [AStr name].
Definition no_recommended_issue (name : string) : goerror :=
  Errorf "metric %q: missing recommended_access_pattern" [AStr name].
Definition no_ttl_issue (name : string) (p : AccessPattern) : goerror :=
  Errorf "metric %q: %s recommended but no TTL set" [AStr name; AStr (AccessPattern_String p)].
Definition unknown_issue (name : string) : goerror :=
  Errorf "kernel metric %q not in Known registry" [AStr name].

(** The first loop: index the registry, reporting names seen before. *)
Definition validate_index_step (acc : list goerror * gmap string KernelMetric) (km : KernelMetric)
    : list goerror * gmap string KernelMetric :=
  let '(issues, kernelMetrics) := acc in
  (match kernelMetrics !! km_Name km with
   | Some _ => issues ++ [duplicate_issue (km_Name km)]
   | None => issues
   end,
   <[km_Name km := km]> kernelMetrics).

(** The checks on the configuration of a metric that is present. *)
Definition access_issues (name : string) (km : KernelMetric) : list goerror :=
  (match km_KernelAccessPattern km with
   | None => [no_kernel_pattern_issue name]
   | Some _ => []
   end) ++
  (match km_RecommendedAccessPattern km with
   | None => [no_recommended_issue name]
   | Some _ => []
   end) ++
  (match km_RecommendedAccessPattern km with
   | Some rec =>
       let p := ac_Pattern rec in
       if decide ((p = POLLED ∨ p = CONSTRAINED) ∧ ac_Ttl rec = None)
       then [no_ttl_issue name p] else []
   | None => []
   end).

(** The second loop: every [Known] metric, removed from the index when found. *)
Definition validate_known_step (acc : list goerror * gmap string KernelMetric) (info : Info)
    : list goerror * gmap string KernelMetric :=
  let '(issues, kernelMetrics) := acc in
  match kernelMetrics !! info_Name info with
  | None => (issues ++ [missing_issue (info_Name info)], kernelMetrics)
  | Some km =>
      (issues ++ access_issues (info_Name info) km, delete (info_Name info) kernelMetrics)
  end.

(** The table is an argument so that the lemmas hold for any table; the code's
    is [Known]. *)
Definition validate_against `{MapOrder} (known : list Info) (reg : KernelMetricRegistry)
    : list goerror :=
  let '(issues, kernelMetrics) := foldl validate_index_step ([], ∅) (reg_Metrics reg) in
  let '(issues, kernelMetrics) := foldl validate_known_step (issues, kernelMetrics) known in
  issues ++ (unknown_issue <$> range_keys kernelMetrics).

Definition ValidateRegistry `{MapOrder} (reg : KernelMetricRegistry) : list goerror :=
  validate_against Known reg.

(** ** What a consistent registry is *)

Definition needs_ttl (p : AccessPattern) : Prop := p = POLLED ∨ p = CONSTRAINED.

(** A metric with both patterns, and a TTL where the pattern uses one. *)
Definition access_ok (km : KernelMetric) : Prop :=
  is_Some (km_KernelAccessPattern km) ∧
  ∃ rec, km_RecommendedAccessPattern km = Some rec ∧
         (needs_ttl (ac_Pattern rec) → is_Some (ac_Ttl rec)).

(** One entry per metric of the table, each well configured, and nothing else. *)
Definition registry_consistent (known : list Info) (reg : KernelMetricRegistry) : Prop :=
  NoDup (km_Name <$> reg_Metrics reg) ∧
  (∀ name, name ∈ (info_Name <$> known) ↔ name ∈ (km_Name <$> reg_Metrics reg)) ∧
  Forall access_ok (reg_Metrics reg).

Lemma access_issues_nil name km : access_issues name km = [] ↔ access_ok km.
Proof.
  unfold access_issues, access_ok, needs_ttl. split.
  - destruct (km_KernelAccessPattern km) as [k|]; [|done].
    destruct (km_RecommendedAccessPattern km) as [rec|]; [|done]. simpl.
    destruct (decide _) as [|Hn]; [done|]. intros _. split; [eauto|].
    exists rec. split; [done|]. intros Hp. destruct (ac_Ttl rec); [eauto|]. tauto.
  - intros [[k ->] (rec & -> & Ht)]. simpl. rewrite decide_False; [done|].
    intros [Hp Hn]. destruct (Ht Hp) as [x Hx]. congruence.
Qed.

(** The index built by either loop: the last metric of a name wins. *)
Lemma metrics_by_name_lookup_None l (m : gmap string KernelMetric) name :
  foldl (λ m km, <[km_Name km := km]> m) m l !! name = None
  ↔ m !! name = None ∧ name ∉ (km_Name <$> l).
Proof.
  revert m. induction l as [|km l IH]; intros m; simpl.
  { split; [intros ?; split; [done|apply not_elem_of_nil]|by intros [? _]]. }
  rewrite IH, lookup_insert, not_elem_of_cons.
  case_decide as Hn; naive_solver.
Qed.

Lemma metrics_by_name_lookup_Some l (m : gmap string KernelMetric) name km :
  NoDup (km_Name <$> l) → km ∈ l → km_Name km = name →
  foldl (λ m km, <[km_Name km := km]> m) m l !! name = Some km.
Proof.
  revert m. induction l as [|km' l IH]; intros m Hnd Hin Hname; [by apply elem_of_nil in Hin|].
  simpl in *. apply NoDup_cons in Hnd as [Hni Hnd].
  apply elem_of_cons in Hin as [->|Hin]; [|by apply IH].
  clear IH. subst name. assert (Hm : (<[km_Name km' := km']> m) !! km_Name km' = Some km')
    by apply lookup_insert_eq.
  revert Hm. generalize (<[km_Name km' := km']> m). clear Hnd.
  induction l as [|km2 l IH]; intros m' Hm; simpl in *; [done|].
  apply not_elem_of_cons in Hni as [Hne Hni]. apply IH; [done|].
  by rewrite lookup_insert_ne.
Qed.

Lemma validate_index_spec l iss m :
  (foldl validate_index_step (iss, m) l).2 = foldl (λ m km, <[km_Name km := km]> m) m l ∧
  ((foldl validate_index_step (iss, m) l).1 = []
   ↔ iss = [] ∧ NoDup (km_Name <$> l) ∧ Forall (λ km, m !! km_Name km = None) l).
Proof.
  revert iss m. induction l as [|km l IH]; intros iss m; simpl.
  { split; [done|]. split; [intros ->; split_and!; constructor|by intros (-> & _)]. }
  destruct (IH (match m !! km_Name km with
                | Some _ => iss ++ [duplicate_issue (km_Name km)] | None => iss end)
              (<[km_Name km := km]> m)) as [H1 H2].
  split; [done|]. rewrite H2. clear IH H1 H2.
  rewrite NoDup_cons, Forall_cons.
  assert (Hins : Forall (λ km0, (<[km_Name km:=km]> m) !! km_Name km0 = None) l
    ↔ km_Name km ∉ (km_Name <$> l) ∧ Forall (λ km0, m !! km_Name km0 = None) l).
  { rewrite !Forall_forall, list_elem_of_fmap. split.
    - intros Hall. split.
      + intros (km0 & Hk & Hin). specialize (Hall km0 Hin).
        by rewrite Hk, lookup_insert_eq in Hall.
      + intros km0 Hin. specialize (Hall km0 Hin). rewrite lookup_insert in Hall.
        by case_decide.
    - intros [Hn Hall] km0 Hin. rewrite lookup_insert_ne; [by apply Hall|].
      intros Hk. apply Hn. eauto. }
  rewrite Hins. destruct (m !! km_Name km) as [old|] eqn:Hm; [|tauto].
  split; [intros [Happ _]; by apply app_eq_nil in Happ as [_ ?]|by intros (_ & _ & ? & _)].
Qed.

Lemma validate_known_spec known iss m :
  NoDup (info_Name <$> known) →
  (∀ name, (foldl validate_known_step (iss, m) known).2 !! name
           = if decide (name ∈ (info_Name <$> known)) then None else m !! name) ∧
  ((foldl validate_known_step (iss, m) known).1 = []
   ↔ iss = [] ∧ Forall (λ info, ∃ km, m !! info_Name info = Some km ∧ access_ok km) known).
Proof.
  revert iss m. induction known as [|info known IH]; intros iss m Hnd.
  { cbn [foldl fst snd fmap list_fmap]. split; [|by rewrite Forall_nil; tauto].
    intros name. rewrite decide_False by apply not_elem_of_nil. done. }
  rewrite fmap_cons, NoDup_cons in Hnd. destruct Hnd as [Hni Hnd].
  cbn [foldl validate_known_step]. rewrite Forall_cons, fmap_cons.
  destruct (m !! info_Name info) as [km|] eqn:Hm.
  - destruct (IH (iss ++ access_issues (info_Name info) km) (delete (info_Name info) m) Hnd)
      as [H1 H2]. split.
    + intros name. rewrite H1, lookup_delete.
      destruct (decide (name ∈ (info_Name <$> known))).
      { rewrite decide_True; [done|]. by right. }
      destruct (decide (info_Name info = name)) as [<-|].
      { rewrite decide_True; [done|]. left. }
      rewrite decide_False; [done|]. rewrite elem_of_cons. naive_solver.
    + rewrite H2. rewrite !Forall_forall.
      assert (∀ i, i ∈ known → delete (info_Name info) m !! info_Name i = m !! info_Name i) as Hd.
      { intros i Hi. apply lookup_delete_ne. intros He. apply Hni. rewrite He.
        apply list_elem_of_fmap. eauto. }
      split.
      * intros [[-> Ha]%app_eq_nil Hall]. apply access_issues_nil in Ha.
        split_and!; [done|eauto|]. intros i Hi. rewrite <- Hd by done. by apply Hall.
      * intros (-> & (km' & Hk & Ha) & Hall). simplify_eq. split.
        { by apply access_issues_nil. }
        intros i Hi. rewrite Hd by done. by apply Hall.
  - destruct (IH (iss ++ [missing_issue (info_Name info)]) m Hnd) as [H1 H2]. split.
    + intros name. rewrite H1.
      destruct (decide (name ∈ (info_Name <$> known))).
      { rewrite decide_True; [done|]. by right. }
      destruct (decide (name = info_Name info)) as [->|].
      { rewrite decide_True; [done|]. left. }
      rewrite decide_False; [done|]. rewrite elem_of_cons. naive_solver.
    + rewrite H2. split; [by intros [[_ ?]%app_eq_nil _]|].
      intros (_ & (km & Hk & _) & _). congruence.
Qed.

(** A consistent registry is exactly one that validation accepts. *)
Lemma validate_against_nil `{MapOrder} known reg :
  NoDup (info_Name <$> known) →
  validate_against known reg = [] ↔ registry_consistent known reg.
Proof.
  intros Hnd. unfold validate_against, registry_consistent.
  destruct (validate_index_spec (reg_Metrics reg) [] ∅) as [Hi1 Hi2].
  destruct (foldl validate_index_step ([], ∅) (reg_Metrics reg)) as [iss m]. simpl in Hi1, Hi2.
  destruct (validate_known_spec known iss m Hnd) as [Hk1 Hk2].
  destruct (foldl validate_known_step (iss, m) known) as [iss' m']. simpl in Hk1, Hk2.
  assert (Hkeys : range_keys m' = [] ↔ ∀ name, m' !! name = None).
  { split.
    - intros Hr name. apply eq_None_not_Some. intros Hs.
      apply elem_of_range_keys in Hs. rewrite Hr in Hs. by apply elem_of_nil in Hs.
    - intros Hn. destruct (range_keys m') as [|k ks] eqn:E; [done|].
      assert (is_Some (m' !! k)) as [x Hx] by (apply elem_of_range_keys; rewrite E; left).
      congruence. }
  assert (Hm : ∀ name, m !! name = None ↔ name ∉ (km_Name <$> reg_Metrics reg)).
  { intros name. rewrite Hi1, metrics_by_name_lookup_None, lookup_empty. tauto. }
  assert (Happ : iss' ++ (unknown_issue <$> range_keys m') = [] ↔
                 iss' = [] ∧ range_keys m' = []).
  { split; [|by intros [-> ->]]. intros [-> Hf]%app_eq_nil. split; [done|].
    by apply fmap_nil_inv in Hf. }
  rewrite Happ, Hkeys, Hk2, Hi2. clear Happ Hkeys Hk2 Hi2. split.
  - intros [[(_ & Hnd' & _) Hall] Hnone]. rewrite Forall_forall in Hall.
    assert (Hnames : ∀ name, name ∈ (info_Name <$> known) ↔ name ∈ (km_Name <$> reg_Metrics reg)).
    { intros name. split.
      - intros (info & -> & Hin)%list_elem_of_fmap. destruct (Hall info Hin) as (km & Hk & _).
        apply dec_stable. intros Hno%Hm. congruence.
      - intros Hin. apply dec_stable. intros Hno. specialize (Hnone name).
        rewrite Hk1, decide_False in Hnone by done. by apply Hm in Hnone. }
    split_and!; [done|done|]. apply Forall_forall. intros km Hin.
    assert (km_Name km ∈ (info_Name <$> known)) as (info & Hn & Hk)%list_elem_of_fmap.
    { apply Hnames, list_elem_of_fmap. eauto. }
    destruct (Hall info Hk) as (km' & Hkm & Hok). rewrite <- Hn, Hi1 in Hkm.
    rewrite (metrics_by_name_lookup_Some _ _ _ km) in Hkm by done. by simplify_eq.
  - intros (Hnd' & Hnames & Hok). rewrite Forall_forall in Hok. split_and!; [done|done|..].
    + apply Forall_forall. intros km _. apply lookup_empty.
    + apply Forall_forall. intros info Hin.
      assert (info_Name info ∈ (km_Name <$> reg_Metrics reg)) as (km & Hn & Hk)%list_elem_of_fmap.
      { apply Hnames, list_elem_of_fmap. eauto. }
      exists km. split; [|by apply Hok]. rewrite Hi1. by apply metrics_by_name_lookup_Some.
    + intros name. rewrite Hk1. destruct (decide _) as [|Hno]; [done|].
      apply Hm. by rewrite <- Hnames.
Qed.

(** ** Theorems *)

(** C22: whatever order the map is iterated in, [ValidateRegistry] reports no
    issue exactly when the registry has one entry for each metric of the table
    and no other, every entry has both access patterns, and every POLLED or
    CONSTRAINED recommendation has a TTL. *)
Theorem ValidateRegistry_correct `{MapOrder} reg :
  ValidateRegistry reg = [] ↔ registry_consistent Known reg.
Proof. apply validate_against_nil, Known_names_NoDup. Qed.
