(* ===== verification/Classify.v ===== *)
(** * Access pattern classification (internal/metrics/darwin)

    The generator's classification functions (generate_textproto.go), the text
    it writes for a metric, and the contents of the checked-in
    24.6.0.textproto as the message it parses to. *)

From Stdlib Require Import ZArith Lia.
From S2P Require Import Prelude Registry KernelRegistry.

Local Open Scope Z_scope.

(** ** The generator *)

(** The keys of the map literal; every value is [true]. *)
Definition writableTunables : list string :=
  ["kern.maxproc";
   "kern.maxprocperuid";
   "kern.maxfiles";
   "kern.maxfilesperproc";
   "kern.maxvnodes";
   "kern.maxnbuf";
   "kern.aiomax";
   "kern.aioprocmax";
   "kern.coredump";
   "kern.ipc.maxsockbuf";
   "kern.ipc.somaxconn";
   "kern.cpu_checkin_interval";
   "kern.wq_max_threads";
   "kern.wq_max_constrained_threads";
   "kern.memorystatus_purge_on_warning";
   "kern.memorystatus_purge_on_urgent";
   "kern.memorystatus_purge_on_critical";
   "kern.hostname";
   "kern.hibernatemode";
   "vm.global_user_wire_limit";
   "vm.user_wire_limit";
   "vm.global_no_user_wire_amount";
   "net.inet.tcp.mssdflt";
   "net.inet.tcp.v6mssdflt";
   "net.inet.tcp.keepidle";
   "net.inet.tcp.keepintvl";
   "net.inet.tcp.keepcnt";
   "net.inet.tcp.sendspace";
   "net.inet.tcp.recvspace";
   "net.inet.tcp.sack";
   "net.inet.tcp.delayed_ack";
   "net.inet.tcp.fastopen";
   "net.inet.tcp.ecn_initiate_out";
   "net.inet.tcp.ecn_negotiate_in";
   "net.inet.tcp.blackhole";
   "net.inet.tcp.always_keepalive";
   "net.inet.tcp.sack_globalmaxholes";
   "net.inet.udp.maxdgram";
   "net.inet.udp.recvspace";
   "net.inet.udp.checksum";
   "net.inet.ip.forwarding";
   "net.inet.ip.ttl";
   "net.inet.ip.maxfragpackets";
   "debug.lowpri_throttle_enabled";
   "debug.bpf_bufsize";
   "debug.bpf_maxbufsize";
   "iogpu.wired_limit_mb";
   "iogpu.wired_lwm_mb";
   "iogpu.dynamic_lwm";
   "kperf.debug_level";
   "machdep.user_idle_level"].

(** [writableTunables[name]]: [false] for an absent key. *)
Definition is_writable (name : string) : bool := bool_decide (name ∈ writableTunables).

(** [case cats...:] of a switch on the category, and on the name. *)
Definition one_of (x : string) (l : list string) : bool := bool_decide (x ∈ l).

Definition hardware_categories : list Category :=
  [CatHWCPU; CatHWMemory; CatHWCache; CatHWPerflevel; CatHWARM; CatHWMisc].

Definition machdep_identity : list string :=
  ["machdep.cpu.brand_string"; "machdep.cpu.core_count"; "machdep.cpu.thread_count";
   "machdep.cpu.cores_per_package"; "machdep.cpu.logical_per_package";
   "machdep.ptrauth_enabled"; "machdep.virtual_address_size"].

Definition classifyKernel (name : string) (cat : Category) : string :=
  if one_of cat hardware_categories then "STATIC" else
  if decide (cat = CatKernIdentity) then
    (if is_writable name then "CONSTRAINED" else "STATIC")
  else if decide (cat = CatMachdep) then
    (if one_of name machdep_identity then "STATIC"
     else if is_writable name then "CONSTRAINED" else "DYNAMIC")
  else if decide (cat = CatKernTime) then
    (if one_of name ["kern.boottime"; "kern.clockrate"] then "STATIC" else "DYNAMIC")
  else if bool_decide (cat = CatKernMisc) && one_of name
       ["kern.hv_support"; "kern.secure_kernel"; "kern.safeboot"; "kern.slide";
        "kern.stack_size"; "kern.stack_depth_max"] then "STATIC"
  else if is_writable name then "CONSTRAINED"
  else "DYNAMIC".

Definition no_ttl : string := EmptyString.
Definition ttl_10 : string := "ttl { seconds: 10 }".
Definition ttl_30 : string := "ttl { seconds: 30 }".
Definition ttl_60 : string := "ttl { seconds: 60 }".

Definition classifyRecommended (name : string) (cat : Category) : string * string :=
  if one_of cat hardware_categories then ("STATIC", no_ttl) else
  if decide (cat = CatKernIdentity) then
    (if is_writable name then ("CONSTRAINED", ttl_60) else ("STATIC", no_ttl))
  else if bool_decide (cat = CatMachdep) && one_of name machdep_identity then ("STATIC", no_ttl)
  else if one_of name ["kern.sched"; "vm.swapfileprefix"] then ("STATIC", no_ttl)
  else if one_of name ["kern.boottime"; "kern.clockrate"] then ("STATIC", no_ttl)
  else if is_writable name then ("CONSTRAINED", ttl_60)
  else if decide (cat = CatComputed) then ("POLLED", ttl_10)
  else if one_of cat [CatVMPages; CatVMPageout; CatVMPressure; CatKernProcess; CatSecurity]
    then ("POLLED", ttl_10)
  else if decide (cat = CatVMCompressor) then ("POLLED", ttl_10)
  else if decide (name = "kern.memorystatus_level") then ("POLLED", ttl_10)
  else if one_of name
       ["net.inet.tcp.pcbcount"; "net.inet.udp.pcbcount"; "net.local.pcbcount";
        "net.soflow.count"; "net.inet.mptcp.pcbcount"; "net.inet.tcp.sack_globalholes";
        "net.inet.tcp.cubic_sockets"] then ("POLLED", ttl_10)
  else if decide (cat = CatVFS) then ("POLLED", ttl_10)
  else if decide (cat = CatVMMisc) then ("POLLED", ttl_10)
  else if decide (name = "vm.swapusage") then ("POLLED", ttl_30)
  else if decide (cat = CatVMSwap) then ("POLLED", ttl_60)
  else if decide (cat = CatVMWire) then ("POLLED", ttl_60)
  else if decide (cat = CatKernTime) then ("POLLED", ttl_30)
  else if decide (cat = CatMachdep) then ("POLLED", ttl_30)
  else if decide (cat = CatKernLimits) then ("POLLED", ttl_60)
  else if decide (cat = CatKernIPC) then ("POLLED", ttl_60)
  else if decide (cat = CatKernSched) then ("POLLED", ttl_60)
  else if decide (cat = CatKernMisc) then ("POLLED", ttl_60)
  else if decide (cat = CatKernMemory) then ("POLLED", ttl_60)
  else if one_of cat [CatNetTCP; CatNetUDP; CatNetIP; CatNetMisc] then ("POLLED", ttl_60)
  else if one_of cat [CatDebug; CatKPC; CatIOGPU] then ("POLLED", ttl_60)
  else ("DYNAMIC", no_ttl).

(** *** The text of the file *)

Definition nl : string := String (Ascii.ascii_of_nat 10) EmptyString.

(** [%q] on a name with no character to escape. *)
Definition quoted (s : string) : string :=
  String (Ascii.ascii_of_nat 34) EmptyString +:+ s +:+ String (Ascii.ascii_of_nat 34) EmptyString.

Definition textproto_header : string :=
  "# KernelMetricRegistry for Apple Silicon macOS" +:+ nl +:+
  "# Generated from internal/metrics/registry.go" +:+ nl +:+
  "# Darwin 24.6.0 / xnu-11417 / ARM64" +:+ nl +:+
  "#" +:+ nl +:+
  "# kernel_access_pattern: whether the kernel CAN change this value at runtime" +:+ nl +:+
  "# recommended_access_pattern: what monitoring clients should use for freshness" +:+ nl +:+
  nl +:+
  "os_registry: " +:+ quoted "darwin-arm64" +:+ nl +:+
  "os_version: " +:+ quoted "Darwin 24.6.0 / xnu-11417" +:+ nl +:+ nl.

(** One [metrics { ... }] block. *)
Definition textproto_block (info : Info) : string :=
  let kernelPattern := classifyKernel (info_Name info) (info_Category info) in
  let '(recPattern, recTTL) := classifyRecommended (info_Name info) (info_Category info) in
  "metrics {" +:+ nl +:+
  "  name: " +:+ quoted (info_Name info) +:+ nl +:+
  "  kernel_access_pattern { pattern: " +:+ kernelPattern +:+ " }" +:+ nl +:+
  (if decide (recTTL ≠ EmptyString) then
     "  recommended_access_pattern { pattern: " +:+ recPattern +:+ " " +:+ recTTL +:+ " }" +:+ nl
   else
     "  recommended_access_pattern { pattern: " +:+ recPattern +:+ " }" +:+ nl) +:+
  "}" +:+ nl.

(** The loop of [main]: a comment line whenever the category changes. *)
Fixpoint textproto_body (lastCat : Category) (l : list Info) : string :=
  match l with
  | [] => EmptyString
  | info :: l' =>
      (if decide (info_Category info ≠ lastCat) then
         (if decide (lastCat ≠ EmptyString) then nl else EmptyString)
           +:+ "# --- " +:+ info_Category info +:+ " ---" +:+ nl
       else EmptyString)
        +:+ textproto_block info
        +:+ textproto_body (info_Category info) l'
  end.

Definition generate_textproto : string := textproto_header +:+ textproto_body EmptyString Known.

(** ** The checked-in registry

    24.6.0.textproto as parsed: no description, type, category or notes. *)
Definition entry (name : string) (kernel recommended : AccessPattern) (ttl : option Z)
    : KernelMetric :=
  mkKernelMetric name EmptyString EmptyString EmptyString
    (Some (mkAccess kernel None))
    (Some (mkAccess recommended ((λ s, mkDuration s 0) <$> ttl)))
    EmptyString.

Definition textproto_hw_cpu : list KernelMetric :=
  [entry "hw.ncpu" STATIC STATIC None;
   entry "hw.activecpu" STATIC STATIC None;
   entry "hw.physicalcpu" STATIC STATIC None;
   entry "hw.physicalcpu_max" STATIC STATIC None;
   entry "hw.logicalcpu" STATIC STATIC None;
   entry "hw.logicalcpu_max" STATIC STATIC None;
   entry "hw.packages" STATIC STATIC None;
   entry "hw.nperflevels" STATIC STATIC None;
   entry "hw.cpu64bit_capable" STATIC STATIC None;
   entry "hw.cputype" STATIC STATIC None;
   entry "hw.cpusubtype" STATIC STATIC None;
   entry "hw.cpufamily" STATIC STATIC None;
   entry "hw.cpusubfamily" STATIC STATIC None;
   entry "hw.byteorder" STATIC STATIC None].

Definition textproto_hw_memory : list KernelMetric :=
  [entry "hw.memsize" STATIC STATIC None;
   entry "hw.memsize_usable" STATIC STATIC None;
   entry "hw.pagesize" STATIC STATIC None;
   entry "hw.pagesize32" STATIC STATIC None].

Definition textproto_hw_cache : list KernelMetric :=
  [entry "hw.cachelinesize" STATIC STATIC None;
   entry "hw.l1icachesize" STATIC STATIC None;
   entry "hw.l1dcachesize" STATIC STATIC None;
   entry "hw.l2cachesize" STATIC STATIC None;
   entry "hw.tbfrequency" STATIC STATIC None;
   entry "hw.cacheconfig" STATIC STATIC None;
   entry "hw.cachesize" STATIC STATIC None].

Definition textproto_hw_perflevel : list KernelMetric :=
  [entry "hw.perflevel0.name" STATIC STATIC None;
   entry "hw.perflevel0.physicalcpu" STATIC STATIC None;
   entry "hw.perflevel0.physicalcpu_max" STATIC STATIC None;
   entry "hw.perflevel0.logicalcpu" STATIC STATIC None;
   entry "hw.perflevel0.logicalcpu_max" STATIC STATIC None;
   entry "hw.perflevel0.l1icachesize" STATIC STATIC None;
   entry "hw.perflevel0.l1dcachesize" STATIC STATIC None;
   entry "hw.perflevel0.l2cachesize" STATIC STATIC None;
   entry "hw.perflevel0.cpusperl2" STATIC STATIC None;
   entry "hw.perflevel1.name" STATIC STATIC None;
   entry "hw.perflevel1.physicalcpu" STATIC STATIC None;
   entry "hw.perflevel1.physicalcpu_max" STATIC STATIC None;
   entry "hw.perflevel1.logicalcpu" STATIC STATIC None;
   entry "hw.perflevel1.logicalcpu_max" STATIC STATIC None;
   entry "hw.perflevel1.l1icachesize" STATIC STATIC None;
   entry "hw.perflevel1.l1dcachesize" STATIC STATIC None;
   entry "hw.perflevel1.l2cachesize" STATIC STATIC None;
   entry "hw.perflevel1.cpusperl2" STATIC STATIC None].

Definition textproto_hw_arm : list KernelMetric :=
  [entry "hw.optional.arm.FEAT_AES" STATIC STATIC None;
   entry "hw.optional.arm.FEAT_SHA256" STATIC STATIC None;
   entry "hw.optional.arm.FEAT_SHA512" STATIC STATIC None;
   entry "hw.optional.arm.FEAT_SHA3" STATIC STATIC None;
   entry "hw.optional.arm.FEAT_LSE" STATIC STATIC None;
   entry "hw.optional.arm.FEAT_LSE2" STATIC STATIC None;
   entry "hw.optional.arm.FEAT_CRC32" STATIC STATIC None;
   entry "hw.optional.arm.FEAT_BF16" STATIC STATIC None;
   entry "hw.optional.arm.FEAT_I8MM" STATIC STATIC None;
   entry "hw.optional.arm.FEAT_DotProd" STATIC STATIC None;
   entry "hw.optional.arm.FEAT_SME" STATIC STATIC None;
   entry "hw.optional.arm.FEAT_SME2" STATIC STATIC None;
   entry "hw.optional.arm.FEAT_PAuth" STATIC STATIC None;
   entry "hw.optional.arm.FEAT_BTI" STATIC STATIC None;
   entry "hw.optional.arm.AdvSIMD" STATIC STATIC None;
   entry "hw.optional.arm.FEAT_FP16" STATIC STATIC None;
   entry "hw.optional.floatingpoint" STATIC STATIC None].

Definition textproto_kern_identity : list KernelMetric :=
  [entry "kern.ostype" STATIC STATIC None;
   entry "kern.osrelease" STATIC STATIC None;
   entry "kern.osversion" STATIC STATIC None;
   entry "kern.osproductversion" STATIC STATIC None;
   entry "kern.version" STATIC STATIC None;
   entry "kern.hostname" CONSTRAINED CONSTRAINED (Some 60);
   entry "kern.uuid" STATIC STATIC None;
   entry "kern.bootuuid" STATIC STATIC None;
   entry "kern.osrevision" STATIC STATIC None;
   entry "kern.osreleasetype" STATIC STATIC None;
   entry "kern.iossupportversion" STATIC STATIC None].

Definition textproto_kern_process : list KernelMetric :=
  [entry "kern.num_files" DYNAMIC POLLED (Some 10);
   entry "kern.num_vnodes" DYNAMIC POLLED (Some 10);
   entry "kern.num_recycledvnodes" DYNAMIC POLLED (Some 10);
   entry "kern.free_vnodes" DYNAMIC POLLED (Some 10)].

Definition textproto_kern_memory : list KernelMetric :=
  [entry "kern.memorystatus_level" DYNAMIC POLLED (Some 10);
   entry "kern.memorystatus_purge_on_warning" CONSTRAINED CONSTRAINED (Some 60);
   entry "kern.memorystatus_purge_on_urgent" CONSTRAINED CONSTRAINED (Some 60);
   entry "kern.memorystatus_purge_on_critical" CONSTRAINED CONSTRAINED (Some 60)].

Definition textproto_kern_sched : list KernelMetric :=
  [entry "kern.sched" DYNAMIC STATIC None;
   entry "kern.sched_allow_NO_SMT_threads" DYNAMIC POLLED (Some 60);
   entry "kern.cpu_checkin_interval" CONSTRAINED CONSTRAINED (Some 60);
   entry "kern.wq_max_threads" CONSTRAINED CONSTRAINED (Some 60);
   entry "kern.wq_max_constrained_threads" CONSTRAINED CONSTRAINED (Some 60);
   entry "kern.thread_groups_supported" DYNAMIC POLLED (Some 60)].

Definition textproto_kern_time : list KernelMetric :=
  [entry "kern.boottime" STATIC STATIC None;
   entry "kern.sleeptime" DYNAMIC POLLED (Some 30);
   entry "kern.waketime" DYNAMIC POLLED (Some 30);
   entry "kern.wake_abs_time" DYNAMIC POLLED (Some 30);
   entry "kern.sleep_abs_time" DYNAMIC POLLED (Some 30);
   entry "kern.useractive_abs_time" DYNAMIC POLLED (Some 30);
   entry "kern.userinactive_abs_time" DYNAMIC POLLED (Some 30);
   entry "kern.monotonicclock_usecs" DYNAMIC POLLED (Some 30);
   entry "kern.clockrate" STATIC STATIC None].

Definition textproto_kern_limits : list KernelMetric :=
  [entry "kern.maxproc" CONSTRAINED CONSTRAINED (Some 60);
   entry "kern.maxprocperuid" CONSTRAINED CONSTRAINED (Some 60);
   entry "kern.maxfiles" CONSTRAINED CONSTRAINED (Some 60);
   entry "kern.maxfilesperproc" CONSTRAINED CONSTRAINED (Some 60);
   entry "kern.maxvnodes" CONSTRAINED CONSTRAINED (Some 60);
   entry "kern.maxnbuf" CONSTRAINED CONSTRAINED (Some 60);
   entry "kern.argmax" DYNAMIC POLLED (Some 60);
   entry "kern.ngroups" DYNAMIC POLLED (Some 60);
   entry "kern.aiomax" CONSTRAINED CONSTRAINED (Some 60);
   entry "kern.aioprocmax" CONSTRAINED CONSTRAINED (Some 60);
   entry "kern.coredump" CONSTRAINED CONSTRAINED (Some 60);
   entry "kern.num_tasks" DYNAMIC POLLED (Some 60);
   entry "kern.num_threads" DYNAMIC POLLED (Some 60);
   entry "kern.num_taskthreads" DYNAMIC POLLED (Some 60)].

Definition textproto_kern_ipc : list KernelMetric :=
  [entry "kern.ipc.maxsockbuf" CONSTRAINED CONSTRAINED (Some 60);
   entry "kern.ipc.somaxconn" CONSTRAINED CONSTRAINED (Some 60);
   entry "kern.ipc.nmbclusters" DYNAMIC POLLED (Some 60)].

Definition textproto_kern_misc : list KernelMetric :=
  [entry "kern.hv_support" STATIC POLLED (Some 60);
   entry "kern.hv_vmm_present" DYNAMIC POLLED (Some 60);
   entry "kern.secure_kernel" STATIC POLLED (Some 60);
   entry "kern.safeboot" STATIC POLLED (Some 60);
   entry "kern.hibernatemode" CONSTRAINED CONSTRAINED (Some 60);
   entry "kern.hibernatecount" DYNAMIC POLLED (Some 60);
   entry "kern.slide" STATIC POLLED (Some 60);
   entry "kern.stack_size" STATIC POLLED (Some 60);
   entry "kern.stack_depth_max" STATIC POLLED (Some 60)].

Definition textproto_vm_pressure : list KernelMetric :=
  [entry "vm.memory_pressure" DYNAMIC POLLED (Some 10);
   entry "vm.page_free_wanted" DYNAMIC POLLED (Some 10);
   entry "vm.vm_page_free_target" DYNAMIC POLLED (Some 10)].

Definition textproto_vm_pages : list KernelMetric :=
  [entry "vm.pages" DYNAMIC POLLED (Some 10);
   entry "vm.pagesize" DYNAMIC POLLED (Some 10);
   entry "vm.page_free_count" DYNAMIC POLLED (Some 10);
   entry "vm.page_speculative_count" DYNAMIC POLLED (Some 10);
   entry "vm.page_cleaned_count" DYNAMIC POLLED (Some 10);
   entry "vm.page_pageable_internal_count" DYNAMIC POLLED (Some 10);
   entry "vm.page_pageable_external_count" DYNAMIC POLLED (Some 10);
   entry "vm.page_purgeable_count" DYNAMIC POLLED (Some 10);
   entry "vm.page_purgeable_wired_count" DYNAMIC POLLED (Some 10);
   entry "vm.page_reusable_count" DYNAMIC POLLED (Some 10);
   entry "vm.page_realtime_count" DYNAMIC POLLED (Some 10);
   entry "vm.vm_page_external_count" DYNAMIC POLLED (Some 10);
   entry "vm.vm_page_background_count" DYNAMIC POLLED (Some 10);
   entry "vm.vm_page_background_internal_count" DYNAMIC POLLED (Some 10);
   entry "vm.vm_page_background_external_count" DYNAMIC POLLED (Some 10);
   entry "vm.vm_page_background_target" DYNAMIC POLLED (Some 10);
   entry "vm.pages_grabbed" DYNAMIC POLLED (Some 10)].

Definition textproto_vm_compressor : list KernelMetric :=
  [entry "vm.compressor_mode" DYNAMIC POLLED (Some 10);
   entry "vm.compressor_is_active" DYNAMIC POLLED (Some 10);
   entry "vm.compressor_available" DYNAMIC POLLED (Some 10);
   entry "vm.compressor_input_bytes" DYNAMIC POLLED (Some 10);
   entry "vm.compressor_compressed_bytes" DYNAMIC POLLED (Some 10);
   entry "vm.compressor_bytes_used" DYNAMIC POLLED (Some 10);
   entry "vm.compressor_pool_size" DYNAMIC POLLED (Some 10);
   entry "vm.compressor_segment_pages_compressed" DYNAMIC POLLED (Some 10);
   entry "vm.compressor_segment_limit" DYNAMIC POLLED (Some 10);
   entry "vm.compressor_swapouts_under_30s" DYNAMIC POLLED (Some 10);
   entry "vm.compressor_swapouts_under_60s" DYNAMIC POLLED (Some 10);
   entry "vm.compressor_swapouts_under_300s" DYNAMIC POLLED (Some 10);
   entry "vm.compressor_swapper_reclaim_swapins" DYNAMIC POLLED (Some 10);
   entry "vm.compressor_swapper_defrag_swapins" DYNAMIC POLLED (Some 10);
   entry "vm.compressor_swapper_swapout_thrashing_detected" DYNAMIC POLLED (Some 10)].

Definition textproto_vm_pageout : list KernelMetric :=
  [entry "vm.pageout_inactive_clean" DYNAMIC POLLED (Some 10);
   entry "vm.pageout_inactive_used" DYNAMIC POLLED (Some 10);
   entry "vm.pageout_inactive_dirty_internal" DYNAMIC POLLED (Some 10);
   entry "vm.pageout_inactive_dirty_external" DYNAMIC POLLED (Some 10);
   entry "vm.pageout_speculative_clean" DYNAMIC POLLED (Some 10);
   entry "vm.pageout_freed_external" DYNAMIC POLLED (Some 10);
   entry "vm.pageout_freed_speculative" DYNAMIC POLLED (Some 10);
   entry "vm.pageout_freed_cleaned" DYNAMIC POLLED (Some 10);
   entry "vm.pageout_protect_realtime" DYNAMIC POLLED (Some 10);
   entry "vm.vm_pageout_considered_bq_internal" DYNAMIC POLLED (Some 10);
   entry "vm.vm_pageout_considered_bq_external" DYNAMIC POLLED (Some 10);
   entry "vm.vm_pageout_rejected_bq_internal" DYNAMIC POLLED (Some 10);
   entry "vm.vm_pageout_rejected_bq_external" DYNAMIC POLLED (Some 10)].

Definition textproto_vm_swap : list KernelMetric :=
  [entry "vm.swapusage" DYNAMIC POLLED (Some 30);
   entry "vm.swap_enabled" DYNAMIC POLLED (Some 60);
   entry "vm.swapfileprefix" DYNAMIC STATIC None].

Definition textproto_vm_wire : list KernelMetric :=
  [entry "vm.global_user_wire_limit" CONSTRAINED CONSTRAINED (Some 60);
   entry "vm.user_wire_limit" CONSTRAINED CONSTRAINED (Some 60);
   entry "vm.global_no_user_wire_amount" CONSTRAINED CONSTRAINED (Some 60);
   entry "vm.add_wire_count_over_global_limit" DYNAMIC POLLED (Some 60);
   entry "vm.add_wire_count_over_user_limit" DYNAMIC POLLED (Some 60)].

Definition textproto_vm_misc : list KernelMetric :=
  [entry "vm.cs_blob_count" DYNAMIC POLLED (Some 10);
   entry "vm.cs_blob_count_peak" DYNAMIC POLLED (Some 10);
   entry "vm.cs_blob_size" DYNAMIC POLLED (Some 10);
   entry "vm.cs_blob_size_peak" DYNAMIC POLLED (Some 10);
   entry "vm.shared_region_count" DYNAMIC POLLED (Some 10);
   entry "vm.shared_region_peak" DYNAMIC POLLED (Some 10);
   entry "vm.copied_on_read" DYNAMIC POLLED (Some 10);
   entry "vm.loadavg" DYNAMIC POLLED (Some 10)].

Definition textproto_machdep : list KernelMetric :=
  [entry "machdep.cpu.brand_string" STATIC STATIC None;
   entry "machdep.cpu.core_count" STATIC STATIC None;
   entry "machdep.cpu.thread_count" STATIC STATIC None;
   entry "machdep.cpu.cores_per_package" STATIC STATIC None;
   entry "machdep.cpu.logical_per_package" STATIC STATIC None;
   entry "machdep.ptrauth_enabled" STATIC STATIC None;
   entry "machdep.virtual_address_size" STATIC STATIC None;
   entry "machdep.time_since_reset" DYNAMIC POLLED (Some 30);
   entry "machdep.wake_abstime" DYNAMIC POLLED (Some 30);
   entry "machdep.wake_conttime" DYNAMIC POLLED (Some 30);
   entry "machdep.user_idle_level" CONSTRAINED CONSTRAINED (Some 60)].

Definition textproto_net_tcp : list KernelMetric :=
  [entry "net.inet.tcp.mssdflt" CONSTRAINED CONSTRAINED (Some 60);
   entry "net.inet.tcp.keepidle" CONSTRAINED CONSTRAINED (Some 60);
   entry "net.inet.tcp.keepintvl" CONSTRAINED CONSTRAINED (Some 60);
   entry "net.inet.tcp.keepcnt" CONSTRAINED CONSTRAINED (Some 60);
   entry "net.inet.tcp.sendspace" CONSTRAINED CONSTRAINED (Some 60);
   entry "net.inet.tcp.recvspace" CONSTRAINED CONSTRAINED (Some 60);
   entry "net.inet.tcp.pcbcount" DYNAMIC POLLED (Some 10);
   entry "net.inet.tcp.sack" CONSTRAINED CONSTRAINED (Some 60);
   entry "net.inet.tcp.sack_globalholes" DYNAMIC POLLED (Some 10);
   entry "net.inet.tcp.sack_globalmaxholes" CONSTRAINED CONSTRAINED (Some 60);
   entry "net.inet.tcp.ecn_initiate_out" CONSTRAINED CONSTRAINED (Some 60);
   entry "net.inet.tcp.ecn_negotiate_in" CONSTRAINED CONSTRAINED (Some 60);
   entry "net.inet.tcp.fastopen" CONSTRAINED CONSTRAINED (Some 60);
   entry "net.inet.tcp.delayed_ack" CONSTRAINED CONSTRAINED (Some 60);
   entry "net.inet.tcp.blackhole" CONSTRAINED CONSTRAINED (Some 60);
   entry "net.inet.tcp.cubic_sockets" DYNAMIC POLLED (Some 10);
   entry "net.inet.tcp.v6mssdflt" CONSTRAINED CONSTRAINED (Some 60);
   entry "net.inet.tcp.always_keepalive" CONSTRAINED CONSTRAINED (Some 60)].

Definition textproto_net_udp : list KernelMetric :=
  [entry "net.inet.udp.pcbcount" DYNAMIC POLLED (Some 10);
   entry "net.inet.udp.maxdgram" CONSTRAINED CONSTRAINED (Some 60);
   entry "net.inet.udp.recvspace" CONSTRAINED CONSTRAINED (Some 60);
   entry "net.inet.udp.checksum" CONSTRAINED CONSTRAINED (Some 60)].

Definition textproto_net_ip : list KernelMetric :=
  [entry "net.inet.ip.forwarding" CONSTRAINED CONSTRAINED (Some 60);
   entry "net.inet.ip.ttl" CONSTRAINED CONSTRAINED (Some 60);
   entry "net.inet.ip.maxfragpackets" CONSTRAINED CONSTRAINED (Some 60)].

Definition textproto_net_misc : list KernelMetric :=
  [entry "net.local.pcbcount" DYNAMIC POLLED (Some 10);
   entry "net.soflow.count" DYNAMIC POLLED (Some 10);
   entry "net.inet.mptcp.pcbcount" DYNAMIC POLLED (Some 10)].

Definition textproto_vfs : list KernelMetric :=
  [entry "vfs.vnstats.num_vnodes" DYNAMIC POLLED (Some 10);
   entry "vfs.vnstats.num_free_vnodes" DYNAMIC POLLED (Some 10);
   entry "vfs.vnstats.num_recycledvnodes" DYNAMIC POLLED (Some 10);
   entry "vfs.vnstats.num_dead_vnodes" DYNAMIC POLLED (Some 10);
   entry "vfs.vnstats.num_newvnode_calls" DYNAMIC POLLED (Some 10);
   entry "vfs.nummntops" DYNAMIC POLLED (Some 10);
   entry "vfs.generic.apfs.allocated" DYNAMIC POLLED (Some 10)].

Definition textproto_debug : list KernelMetric :=
  [entry "debug.lowpri_throttle_enabled" CONSTRAINED CONSTRAINED (Some 60);
   entry "debug.bpf_bufsize" CONSTRAINED CONSTRAINED (Some 60);
   entry "debug.bpf_maxbufsize" CONSTRAINED CONSTRAINED (Some 60)].

Definition textproto_kpc : list KernelMetric :=
  [entry "kpc.pc_capture_supported" DYNAMIC POLLED (Some 60);
   entry "kperf.debug_level" CONSTRAINED CONSTRAINED (Some 60)].

Definition textproto_iogpu : list KernelMetric :=
  [entry "iogpu.wired_limit_mb" CONSTRAINED CONSTRAINED (Some 60);
   entry "iogpu.wired_lwm_mb" CONSTRAINED CONSTRAINED (Some 60);
   entry "iogpu.dynamic_lwm" CONSTRAINED CONSTRAINED (Some 60)].

Definition textproto_security : list KernelMetric :=
  [entry "security.mac.vnode_label_count" DYNAMIC POLLED (Some 10);
   entry "security.mac.asp.stats.exec_hook_count" DYNAMIC POLLED (Some 10);
   entry "security.mac.asp.stats.library_hook_count" DYNAMIC POLLED (Some 10);
   entry "security.mac.asp.stats.exec_hook_work_time" DYNAMIC POLLED (Some 10);
   entry "security.mac.asp.stats.library_hook_time" DYNAMIC POLLED (Some 10)].

Definition textproto_computed : list KernelMetric :=
  [entry "computed.memory_utilization_pct" DYNAMIC POLLED (Some 10);
   entry "computed.compression_ratio" DYNAMIC POLLED (Some 10);
   entry "computed.swap_utilization_pct" DYNAMIC POLLED (Some 10);
   entry "computed.compressor_pressure_pct" DYNAMIC POLLED (Some 10);
   entry "computed.total_connections" DYNAMIC POLLED (Some 10);
   entry "computed.uptime_seconds" DYNAMIC POLLED (Some 10);
   entry "computed.vfs_reclamation_pct" DYNAMIC POLLED (Some 10)].

Definition textproto_24_6_0 : KernelMetricRegistry :=
  mkRegistry "darwin-arm64" "Darwin 24.6.0 / xnu-11417"
    (textproto_hw_cpu ++ textproto_hw_memory ++ textproto_hw_cache
      ++ textproto_hw_perflevel ++ textproto_hw_arm ++ textproto_kern_identity
      ++ textproto_kern_process ++ textproto_kern_memory ++ textproto_kern_sched
      ++ textproto_kern_time ++ textproto_kern_limits ++ textproto_kern_ipc
      ++ textproto_kern_misc ++ textproto_vm_pressure ++ textproto_vm_pages
      ++ textproto_vm_compressor ++ textproto_vm_pageout ++ textproto_vm_swap
      ++ textproto_vm_wire ++ textproto_vm_misc ++ textproto_machdep
      ++ textproto_net_tcp ++ textproto_net_udp ++ textproto_net_ip
      ++ textproto_net_misc ++ textproto_vfs ++ textproto_debug ++ textproto_kpc
      ++ textproto_iogpu ++ textproto_security ++ textproto_computed).

(** ** Reading a registry entry *)

Definition ttl_text (d : option DurationPb) : string :=
  match d with
  | None => no_ttl
  | Some d => "ttl { seconds: " +:+ fmt_d (dur_Seconds d) +:+ " }"
  end.

Definition access_text (ac : AccessConfig) : string * string :=
  (AccessPattern_String (ac_Pattern ac), ttl_text (ac_Ttl ac)).

(** The entry says what the generator computes for the metric. *)
Definition classified_as (info : Info) (km : KernelMetric) : Prop :=
  km_Name km = info_Name info ∧
  access_text <$> km_KernelAccessPattern km
    = Some (classifyKernel (info_Name info) (info_Category info), no_ttl) ∧
  access_text <$> km_RecommendedAccessPattern km
    = Some (classifyRecommended (info_Name info) (info_Category info)).

#[export] Instance classified_as_dec info km : Decision (classified_as info km).
Proof. unfold classified_as. apply _. Defined.

Definition kernel_pattern (km : KernelMetric) : option AccessPattern :=
  ac_Pattern <$> km_KernelAccessPattern km.
Definition recommended_pattern (km : KernelMetric) : option AccessPattern :=
  ac_Pattern <$> km_RecommendedAccessPattern km.

Definition count_pattern (f : KernelMetric → option AccessPattern) (p : AccessPattern)
    (reg : KernelMetricRegistry) : nat :=
  length (filter (λ km, f km = Some p) (reg_Metrics reg)).

(** *** The monotonic chain of CACHE_DESIGN.md

    [DYNAMIC > POLLED > CONSTRAINED > STATIC > DISABLED] by decreasing access
    frequency, unspecified meaning DYNAMIC. *)
Definition frequency (p : AccessPattern) : Z :=
  match p with
  | ACCESS_PATTERN_UNSPECIFIED | DYNAMIC => 4
  | POLLED => 3
  | CONSTRAINED => 2
  | STATIC => 1
  | DISABLED => 0
  end.

(** The six flags set at boot that [classifyKernel] knows. *)
Definition boot_flag (name : string) (cat : Category) : Prop :=
  cat = CatKernMisc ∧
  name ∈ ["kern.hv_support"; "kern.secure_kernel"; "kern.safeboot"; "kern.slide";
          "kern.stack_size"; "kern.stack_depth_max"].

(** TTL of the recommendation, in seconds. *)
Definition ttl_seconds (km : KernelMetric) : option Z :=
  km_RecommendedAccessPattern km ≫= λ ac, dur_Seconds <$> ac_Ttl ac.

(** The TTL a recommendation comes with. *)
Definition documented_ttl (km : KernelMetric) : Prop :=
  match recommended_pattern km with
  | Some STATIC => ttl_seconds km = None
  | Some POLLED => ttl_seconds km ∈ [Some 10; Some 30; Some 60]
  | Some CONSTRAINED => ttl_seconds km = Some 60 ∧ kernel_pattern km = Some CONSTRAINED
  | _ => False
  end.

#[export] Instance documented_ttl_dec km : Decision (documented_ttl km).
Proof. unfold documented_ttl. repeat case_match; apply _. Defined.

(** A (pattern, TTL text) pair with a TTL exactly where one is used. *)
Definition ttl_where_used (p : string * string) : Prop :=
  (p.1 ∈ ["POLLED"; "CONSTRAINED"] ∧ p.2 ∈ [ttl_10; ttl_30; ttl_60]) ∨
  (p.1 ∈ ["STATIC"; "DYNAMIC"] ∧ p.2 = no_ttl).

#[export] Instance ttl_where_used_dec p : Decision (ttl_where_used p).
Proof. unfold ttl_where_used. apply _. Defined.

(** Both branches of a conditional. *)
Lemma branch_bool {A} (P : A → Prop) (b : bool) x y : P x → P y → P (if b then x else y).
Proof. by destruct b. Qed.
Lemma branch_dec {A} (P : A → Prop) (Q : Prop) (d : Decision Q) x y :
  P x → P y → P (if d then x else y).
Proof. by destruct d. Qed.

#[global] Opaque textproto_24_6_0.

Lemma textproto_consistent : registry_consistent Known textproto_24_6_0.
Proof.
  assert (Hn : km_Name <$> reg_Metrics textproto_24_6_0 = info_Name <$> Known).
  { vm_compute. reflexivity. }
  split_and!.
  - rewrite Hn. apply Known_names_NoDup.
  - intros name. rewrite Hn. reflexivity.
  - assert (Ha : Forall (λ km, access_issues (km_Name km) km = []) (reg_Metrics textproto_24_6_0)).
    { by_decide. }
    eapply Forall_impl; [exact Ha|]. intros km Hk. by apply access_issues_nil in Hk.
Qed.

(** ** Theorems *)

(** The checked-in registry is what the generator computes: entry by entry,
    in table order, the name, the kernel pattern, the recommended pattern and
    the TTL text are the classification of the metric. *)
Theorem textproto_is_generated :
  Forall2 classified_as Known (reg_Metrics textproto_24_6_0).
Proof. by_decide. Qed.

(** The checked-in registry passes validation, whatever order Go iterates
    the map in. *)
Theorem textproto_validates `{MapOrder} : ValidateRegistry textproto_24_6_0 = [].
Proof. apply validate_against_nil; [apply Known_names_NoDup|apply textproto_consistent]. Qed.

(** The documented shape of the classification: 81 STATIC, 118 POLLED and 51
    CONSTRAINED recommendations, 85 STATIC, 51 CONSTRAINED and 114 DYNAMIC
    kernel patterns; the CONSTRAINED metrics are exactly the writable tunables,
    at 60 s; a POLLED metric has a TTL of 10, 30 or 60 s and a STATIC one has
    none. *)
Theorem textproto_census :
  count_pattern recommended_pattern STATIC textproto_24_6_0 = 81%nat ∧
  count_pattern recommended_pattern POLLED textproto_24_6_0 = 118%nat ∧
  count_pattern recommended_pattern CONSTRAINED textproto_24_6_0 = 51%nat ∧
  count_pattern kernel_pattern STATIC textproto_24_6_0 = 85%nat ∧
  count_pattern kernel_pattern CONSTRAINED textproto_24_6_0 = 51%nat ∧
  count_pattern kernel_pattern DYNAMIC textproto_24_6_0 = 114%nat ∧
  Forall (λ km, documented_ttl km ∧
    (recommended_pattern km = Some CONSTRAINED ↔ is_writable (km_Name km) = true))
    (reg_Metrics textproto_24_6_0).
Proof.
  split_and!; [vm_compute; reflexivity..|].
  assert (Hb : Forall (λ km, documented_ttl km ∧
    bool_decide (recommended_pattern km = Some CONSTRAINED) = is_writable (km_Name km))
    (reg_Metrics textproto_24_6_0)) by by_decide.
  eapply Forall_impl; [exact Hb|]. intros km [H1 H2]. split; [exact H1|].
  rewrite <- H2. by rewrite bool_decide_eq_true.
Qed.

(** What [classifyRecommended] may answer. *)
Lemma recommended_range name cat :
  ∃ r, (classifyRecommended name cat).1 = AccessPattern_String r ∧ frequency r ≤ 4.
Proof.
  assert (Hr : (classifyRecommended name cat).1 ∈ ["STATIC"; "CONSTRAINED"; "POLLED"; "DYNAMIC"]).
  { unfold classifyRecommended.
    repeat first [apply (branch_bool (λ p, p.1 ∈ _))|apply (branch_dec (λ p, p.1 ∈ _))].
    all: by_decide. }
  rewrite !elem_of_cons, elem_of_nil in Hr. destruct Hr as [Hr|[Hr|[Hr|[Hr|[]]]]]; rewrite Hr.
  - by exists STATIC.
  - by exists CONSTRAINED.
  - by exists POLLED.
  - by exists DYNAMIC.
Qed.

(** A boot flag is in none of the cases before the kernel's. *)
Lemma boot_flag_classified name cat :
  boot_flag name cat →
  classifyKernel name cat = "STATIC" ∧ classifyRecommended name cat = ("POLLED", ttl_60).
Proof.
  intros [-> Hn]. rewrite !elem_of_cons, elem_of_nil in Hn.
  destruct Hn as [->|[->|[->|[->|[->|[->|[]]]]]]]; vm_compute; by split.
Qed.

(** A metric that the kernel never changes, the flags apart, is not polled. *)
Lemma kernel_static name cat :
  classifyKernel name cat = "STATIC" → ¬ boot_flag name cat →
  classifyRecommended name cat = ("STATIC", no_ttl).
Proof.
  unfold classifyKernel, classifyRecommended. intros Hk Hflag.
  destruct (one_of cat hardware_categories); [done|].
  destruct (decide (cat = CatKernIdentity)); [by destruct (is_writable name)|].
  destruct (decide (cat = CatMachdep)) as [->|Hm].
  { rewrite bool_decide_eq_true_2 by done. simpl.
    destruct (one_of name machdep_identity); [done|by destruct (is_writable name)]. }
  rewrite bool_decide_eq_false_2 by done. simpl.
  destruct (decide (cat = CatKernTime)) as [->|Ht].
  { destruct (one_of name ["kern.boottime"; "kern.clockrate"]); [|done].
    by destruct (one_of name ["kern.sched"; "vm.swapfileprefix"]). }
  destruct (bool_decide (cat = CatKernMisc)) eqn:Hc; simpl in Hk.
  - destruct (one_of name _) eqn:Hn; [|by destruct (is_writable name)].
    exfalso. apply Hflag. split; [by apply bool_decide_eq_true in Hc|].
    by apply bool_decide_eq_true in Hn.
  - by destruct (is_writable name).
Qed.

(** A writable tunable is read no more often than a tunable. *)
Lemma kernel_constrained name cat :
  classifyKernel name cat = "CONSTRAINED" →
  classifyRecommended name cat ∈ [("CONSTRAINED", ttl_60); ("STATIC", no_ttl)].
Proof.
  assert (Hw : is_writable name = true ∨ classifyKernel name cat ≠ "CONSTRAINED").
  { unfold classifyKernel. destruct (is_writable name); [by left|right].
    repeat first [apply (branch_bool (λ s, s ≠ _))|apply (branch_dec (λ s, s ≠ _))]; done. }
  intros Hk. destruct Hw as [Hw|Hw]; [|done]. unfold classifyRecommended. rewrite Hw.
  repeat first [apply (branch_bool (λ p, p ∈ _))|apply (branch_dec (λ p, p ∈ _))].
  all: by_decide.
Qed.

Lemma kernel_range name cat : classifyKernel name cat ∈ ["STATIC"; "CONSTRAINED"; "DYNAMIC"].
Proof.
  unfold classifyKernel.
  repeat first [apply (branch_bool (λ s, s ∈ _))|apply (branch_dec (λ s, s ∈ _))].
  all: by_decide.
Qed.

(** C33: the generator and the monotonic chain of CACHE_DESIGN.md: for every name
    and category, in the table or not, the pattern it recommends is at most as
    frequent as the one it gives the kernel (so what the kernel never changes is
    read once, and a writable tunable is never polled), unless the name is one of
    six boot-time flags of kern.misc: exactly for these the chain is broken, a
    STATIC kernel value being recommended POLLED at 60 s. *)
Theorem classification_monotone name cat :
  ∃ k r ttl, classifyKernel name cat = AccessPattern_String k ∧
    classifyRecommended name cat = (AccessPattern_String r, ttl) ∧
    (frequency r ≤ frequency k ↔ ¬ boot_flag name cat) ∧
    (boot_flag name cat → k = STATIC ∧ r = POLLED ∧ ttl = ttl_60).
Proof.
  assert (Hdec : Decision (boot_flag name cat)) by (unfold boot_flag; apply _).
  destruct (decide (boot_flag name cat)) as [Hb|Hb].
  { destruct (boot_flag_classified name cat Hb) as [-> ->]. exists STATIC, POLLED, ttl_60.
    by repeat split. }
  pose proof (kernel_range name cat) as Hk. rewrite !elem_of_cons, elem_of_nil in Hk.
  destruct Hk as [Hk|[Hk|[Hk|[]]]]; rewrite Hk.
  - rewrite kernel_static by done. exists STATIC, STATIC, no_ttl. by repeat split.
  - pose proof (kernel_constrained name cat Hk) as Hr.
    rewrite !elem_of_cons, elem_of_nil in Hr. destruct Hr as [->|[->|[]]].
    + exists CONSTRAINED, CONSTRAINED, ttl_60. by repeat split.
    + exists CONSTRAINED, STATIC, no_ttl. by repeat split.
  - destruct (recommended_range name cat) as (r & Hr & Hf). exists DYNAMIC, r.
    destruct (classifyRecommended name cat) as [rec ttl]. cbn [fst] in Hr. subst rec.
    exists ttl. by repeat split.
Qed.

(** For any name and category, known or not, the generator writes a TTL
    exactly with a POLLED or CONSTRAINED recommendation, so a generated file
    never fails the TTL check of [ValidateRegistry]. *)
Theorem classifyRecommended_ttl name cat :
  ttl_where_used (classifyRecommended name cat).
Proof.
  unfold classifyRecommended.
  repeat first [apply (branch_bool ttl_where_used)|apply (branch_dec ttl_where_used)].
  all: by_decide.
Qed.
