(* ===== verification/Textproto.v ===== *)
(** * The generated registry file and its loading
    (internal/metrics/darwin/generate_textproto.go, kernelregistry.go)

    The generator's [main] with its file write, and a reader of the protobuf
    text format for the registry's messages, which gives the generated text its
    meaning: what the loader gets from the file the generator wrote. *)

From Stdlib Require Import ZArith Lia.
From Stdlib Require Import Strings.Byte.
From S2P Require Import Prelude Utf8 Registry KernelRegistry Classify.

Local Open Scope Z_scope.

(** ** The generator's [main] *)

Section Generator.
Context {S : Type} (os_WriteFile : string → list byte → M S unit).

(** The exit status and the message printed, on the standard error when the
    write fails. *)
Definition generator_main : M S (Z * goerror) :=
  try _written ← os_WriteFile "24.6.0.textproto" (bytes_of_string generate_textproto)
  catch err ⇒ mret (1, Errorf "write: %v" [AErr err]);
  mret (0, Errorf "wrote 24.6.0.textproto (%d metrics)" [AInt (Z.of_nat (length Known))]).
End Generator.

(** ** The text format: tokens *)

Inductive token :=
  | TIdent (s : string)
  | TString (s : string)
  | TPunct (c : Ascii.ascii).

Definition char_between (lo hi : nat) (c : Ascii.ascii) : bool :=
  bool_decide (lo ≤ Ascii.nat_of_ascii c)%nat && bool_decide (Ascii.nat_of_ascii c ≤ hi)%nat.

(** Letters, digits and the underscore. *)
Definition ident_char (c : Ascii.ascii) : bool :=
  char_between 48 57 c || char_between 65 90 c || char_between 97 122 c || char_between 95 95 c.

Definition char (n : nat) : Ascii.ascii := Ascii.ascii_of_nat n.
Definition line_feed : Ascii.ascii := char 10.
Definition double_quote : Ascii.ascii := char 34.
Definition hash : Ascii.ascii := char 35.
Definition colon : Ascii.ascii := char 58.
Definition backslash : Ascii.ascii := char 92.
Definition open_brace : Ascii.ascii := char 123.
Definition close_brace : Ascii.ascii := char 125.

Inductive lex_mode :=
  | LStart
  | LIdent (acc : string)
  | LString (acc : string)
  | LComment.

(** The word that ends where another token starts. *)
Definition pending (m : lex_mode) : list token :=
  match m with LIdent acc => [TIdent acc] | _ => [] end.

Definition with_tokens (ts : list token) (r : option (list token)) : option (list token) :=
  match r with Some us => Some (ts ++ us) | None => None end.

(** Words, quoted strings without escapes, punctuation; a hash starts a comment
    up to the end of the line. *)
Fixpoint lex (m : lex_mode) (s : string) : option (list token) :=
  match s with
  | EmptyString => match m with LString _ => None | _ => Some (pending m) end
  | String c s' =>
      match m with
      | LComment => lex (if decide (c = line_feed) then LStart else LComment) s'
      | LString acc =>
          if decide (c = double_quote) then with_tokens [TString acc] (lex LStart s')
          else if decide (c = backslash ∨ c = line_feed) then None
          else lex (LString (acc +:+ String c EmptyString)) s'
      | LStart | LIdent _ =>
          if ident_char c then
            let acc := match m with LIdent acc => acc | _ => EmptyString end in
            lex (LIdent (acc +:+ String c EmptyString)) s'
          else
            with_tokens (pending m)
              (if decide (c = char 32 ∨ c = line_feed) then lex LStart s'
               else if decide (c = hash) then lex LComment s'
               else if decide (c = double_quote) then lex (LString EmptyString) s'
               else if decide (c = colon ∨ c = open_brace ∨ c = close_brace)
               then with_tokens [TPunct c] (lex LStart s')
               else None)
      end
  end.

(** ** Messages *)

#[warnings="-register-all"]
Inductive pbvalue :=
  | PText (s : string)
  | PWord (s : string)
  | PMessage (fields : list (string * pbvalue)).

(** The fields up to a closing brace or the end; each call takes a field, so
    that the number of tokens bounds the calls. *)
Fixpoint read_fields (n : nat) (ts : list token)
    : option (list (string * pbvalue) * list token) :=
  match n with
  | O => None
  | S n =>
      match ts with
      | TIdent k :: TPunct c :: r =>
          if decide (c = colon) then
            match r with
            | TString v :: r' => '(fs, r2) ← read_fields n r'; Some ((k, PText v) :: fs, r2)
            | TIdent v :: r' => '(fs, r2) ← read_fields n r'; Some ((k, PWord v) :: fs, r2)
            | _ => None
            end
          else if decide (c = open_brace) then
            '(sub, r1) ← read_fields n r;
            match r1 with
            | TPunct c' :: r2 =>
                if decide (c' = close_brace) then
                  '(fs, r3) ← read_fields n r2; Some ((k, PMessage sub) :: fs, r3)
                else None
            | _ => None
            end
          else None
      | _ => Some ([], ts)
      end
  end.

(** The values a field has in a message. *)
Definition values (key : string) (fs : list (string * pbvalue)) : list pbvalue :=
  snd <$> filter (λ kv : string * pbvalue, kv.1 = key) fs.

(** No field but these. *)
Definition known_fields (keys : list string) (fs : list (string * pbvalue)) : Prop :=
  Forall (λ kv : string * pbvalue, kv.1 ∈ keys) fs.

(** A field that is not repeated: at most one value, [default] without it. *)
Definition singular {A} (key : string) (fs : list (string * pbvalue)) (read : pbvalue → option A)
    (default : A) : option A :=
  match values key fs with [] => Some default | [v] => read v | _ => None end.

Definition read_text (v : pbvalue) : option string :=
  match v with PText s => Some s | _ => None end.

(** A decimal number. *)
Fixpoint decimal (acc : Z) (s : string) : option Z :=
  match s with
  | EmptyString => Some acc
  | String c s' =>
      if char_between 48 57 c then decimal (acc * 10 + (Z.of_nat (Ascii.nat_of_ascii c) - 48)) s'
      else None
  end.

Definition read_number (v : pbvalue) : option Z :=
  match v with PWord s => decimal 0 s | _ => None end.

Definition read_pattern (v : pbvalue) : option AccessPattern :=
  match v with
  | PWord s => list_find (λ p, AccessPattern_String p = s)
                 [ACCESS_PATTERN_UNSPECIFIED; STATIC; POLLED; CONSTRAINED; DYNAMIC; DISABLED]
               ≫= λ found, Some found.2
  | _ => None
  end.

Definition read_duration (v : pbvalue) : option (option DurationPb) :=
  match v with
  | PMessage fs =>
      if decide (known_fields ["seconds"; "nanos"] fs) then
        secs ← singular "seconds" fs read_number 0;
        nanos ← singular "nanos" fs read_number 0;
        Some (Some (mkDuration secs nanos))
      else None
  | _ => None
  end.

Definition read_access (v : pbvalue) : option (option AccessConfig) :=
  match v with
  | PMessage fs =>
      if decide (known_fields ["pattern"; "ttl"] fs) then
        pattern ← singular "pattern" fs read_pattern ACCESS_PATTERN_UNSPECIFIED;
        ttl ← singular "ttl" fs read_duration None;
        Some (Some (mkAccess pattern ttl))
      else None
  | _ => None
  end.

Definition read_metric (v : pbvalue) : option KernelMetric :=
  match v with
  | PMessage fs =>
      if decide (known_fields ["name"; "description"; "value_type"; "category";
                               "kernel_access_pattern"; "recommended_access_pattern"; "notes"] fs)
      then
        name ← singular "name" fs read_text EmptyString;
        description ← singular "description" fs read_text EmptyString;
        value_type ← singular "value_type" fs read_text EmptyString;
        category ← singular "category" fs read_text EmptyString;
        kernel ← singular "kernel_access_pattern" fs read_access None;
        recommended ← singular "recommended_access_pattern" fs read_access None;
        notes ← singular "notes" fs read_text EmptyString;
        Some (mkKernelMetric name description value_type category kernel recommended notes)
      else None
  | _ => None
  end.

(** A whole registry. *)
Definition read_registry (s : string) : option KernelMetricRegistry :=
  ts ← lex LStart s;
  '(fs, rest) ← read_fields (Datatypes.S (length ts)) ts;
  if decide (rest = [] ∧ known_fields ["os_registry"; "os_version"; "metrics"] fs) then
    os_registry ← singular "os_registry" fs read_text EmptyString;
    os_version ← singular "os_version" fs read_text EmptyString;
    metrics ← foldr (λ v acc, km ← read_metric v; kms ← acc; Some (km :: kms)) (Some [])
                (values "metrics" fs);
    Some (mkRegistry os_registry os_version metrics)
  else None.

(** ** What is written is what is loaded *)

Lemma generated_text_reads : read_registry generate_textproto = Some textproto_24_6_0.
Proof. vm_compute. reflexivity. Qed.

(** The files of internal/metrics/darwin, where the generator runs. *)
Abbreviation directory := (gmap string (list byte)).

Definition write_file (name : string) (data : list byte) : M directory unit :=
  modify (λ d, <[name := data]> d).

Fixpoint strip_prefix (p s : string) : option string :=
  match p, s with
  | EmptyString, _ => Some s
  | String c p', String c' s' => if decide (c = c') then strip_prefix p' s' else None
  | String _ _, EmptyString => None
  end.

Lemma strip_prefix_app p s : strip_prefix p (p +:+ s) = Some s.
Proof.
  induction p as [|c p IH]; [by destruct s|].
  change (String c p +:+ s) with (String c (p +:+ s)). cbn [strip_prefix]. by rewrite decide_True.
Qed.

(** The program built with that directory embedded, on the platform it is
    written for, its text parser being the reader above. *)
Definition embedded (d : directory) : RegistryFiles := {|
  darwinConfigs_ReadFile := λ path,
    match strip_prefix "darwin/" path ≫= λ name, d !! name with
    | Some data => Ok data
    | None => Err (Errorf "open %s: file does not exist" [AStr path])
    end;
  prototext_Unmarshal := λ data,
    match read_registry (string_of_bytes data) with
    | Some reg => Ok reg
    | None => Err (Errorf "proto: syntax error" [])
    end;
  runtime_GOARCH := "arm64";
  runtime_GOOS := "darwin";
|}.

Lemma load_embedded d v :
  @LoadKernelRegistry (embedded d) v =
  let path := "darwin/" +:+ v +:+ ".textproto" in
  match d !! (v +:+ ".textproto") with
  | None => Err (Errorf "load kernel registry %q: %w"
              [AStr path; AErr (Errorf "open %s: file does not exist" [AStr path])])
  | Some data =>
      match read_registry (string_of_bytes data) with
      | Some reg => Ok reg
      | None => Err (Errorf "parse kernel registry %q: %w"
                  [AStr path; AErr (Errorf "proto: syntax error" [])])
      end
  end.
Proof.
  unfold LoadKernelRegistry. rewrite decide_False by (cbn; intros [Hn|Hn]; by apply Hn).
  cbn [darwinConfigs_ReadFile prototext_Unmarshal embedded]. rewrite strip_prefix_app.
  cbn [mbind option_bind]. destruct (d !! (v +:+ ".textproto")) as [data|]; [|done].
  by destruct (read_registry (string_of_bytes data)).
Qed.

Lemma textproto_name_inj v : v +:+ ".textproto" = "24.6.0.textproto" → v = "24.6.0".
Proof.
  change "24.6.0.textproto" with ("24.6.0" +:+ ".textproto"). intros Heq.
  apply (f_equal bytes_of_string) in Heq. rewrite !bytes_of_string_app in Heq.
  apply app_inv_tail in Heq. apply (f_equal string_of_bytes) in Heq.
  by rewrite !string_of_bytes_of_string in Heq.
Qed.

(** C32: generate, embed, load: running the generator in any directory exits with
    status 0 and reports the 250 metrics; a program built from the directory
    then loads for 24.6.0 exactly the checked-in registry (the generated text
    read as a message: every name and both patterns and every TTL of every
    entry), and for any other version what it loaded before; without the file,
    loading is the error that names its path.  A write that fails is reported
    and ends the generator with status 1. *)
Theorem generate_embed_load (d : directory) :
  (∃ d', generator_main write_file d
     = (Ok (0, Errorf "wrote 24.6.0.textproto (%d metrics)" [AInt 250]), d') ∧
   @LoadKernelRegistry (embedded d') "24.6.0" = Ok textproto_24_6_0 ∧
   ∀ v, v ≠ "24.6.0" → @LoadKernelRegistry (embedded d') v = @LoadKernelRegistry (embedded d) v) ∧
  (d !! "24.6.0.textproto" = None →
   ∃ err, @LoadKernelRegistry (embedded d) "24.6.0"
     = Err (Errorf "load kernel registry %q: %w" [AStr "darwin/24.6.0.textproto"; AErr err])) ∧
  (∀ {S} (os_WriteFile : string → list byte → M S unit) s s' err,
     (∀ name data, os_WriteFile name data s = (Err err, s')) →
     generator_main os_WriteFile s = (Ok (1, Errorf "write: %v" [AErr err]), s')).
Proof.
  split_and!.
  - unfold generator_main, write_file. run_simpl.
    replace (Z.of_nat (length Known)) with 250 by (vm_compute; reflexivity).
    eexists. split; [reflexivity|]. split.
    + rewrite load_embedded. change ("24.6.0" +:+ ".textproto") with "24.6.0.textproto".
      rewrite lookup_insert_eq, string_of_bytes_of_string, generated_text_reads. reflexivity.
    + intros v Hv. rewrite !load_embedded. rewrite lookup_insert_ne; [done|].
      intros Heq. by apply Hv, textproto_name_inj.
  - intros Hd. rewrite load_embedded. change ("24.6.0" +:+ ".textproto") with "24.6.0.textproto".
    rewrite Hd. by eexists.
  - intros S os_WriteFile s s' err Hw. unfold generator_main. run_simpl. by rewrite Hw.
Qed.

(** From an empty directory. *)
Lemma generate_embed_load_witness :
  (∃ err, @LoadKernelRegistry (embedded ∅) "24.6.0"
     = Err (Errorf "load kernel registry %q: %w" [AStr "darwin/24.6.0.textproto"; AErr err])) ∧
  ∃ d', generator_main write_file (∅ : directory)
     = (Ok (0, Errorf "wrote 24.6.0.textproto (%d metrics)" [AInt 250]), d') ∧
   @LoadKernelRegistry (embedded d') "24.6.0" = Ok textproto_24_6_0.
Proof.
  destruct (generate_embed_load ∅) as ((d' & Hrun & Hload & _) & Hnone & _).
  split; [exact (Hnone eq_refl)|]. exists d'. split; [exact Hrun|exact Hload].
Defined.
