(* ===== verification/Metrics.v ===== *)
(** * Reading metrics (internal/server/server.go, readMetricLive and below)

    The state of the process these functions run in is the kernel's world with
    the MIB cache, and the lazy name index.  The clock and the local time zone
    are parameters. *)

From Stdlib Require Import ZArith Lia.
From Stdlib Require Import Strings.Byte Floats.SpecFloat.
From S2P Require Import Prelude Bytes Float64 Rounding GoTime Calendar Kernel TableKernel Sysctl.
From S2P Require Import MibCache Registry.

Local Open Scope Z_scope.

(** The host: [time.Now] and the zone database's offset at an instant. *)
Class Host (W : Type) := {
  time_Now : W → Time * W;
  zone_offset : Z → Z;
}.

(** ** Messages *)

Inductive MetricValue :=
  | Metric_StringValue (s : string)
  | Metric_Uint64Value (z : Z)
  | Metric_Int64Value (z : Z)
  | Metric_Uint32Value (z : Z)
  | Metric_Int32Value (z : Z)
  | Metric_RawValue (raw : list byte)
  | Metric_StructValue (type_name : string) (fields : gmap string string).

(** [pb.Metric]: the oneof is an option, and so is the error text ([None] is
    the empty string: every error text of the code is non-empty). *)
Record Metric := mkMetric {
  m_Name : string;
  m_Category : string;
  m_Value : option MetricValue;
  m_Error : option goerror;
}.

Definition set_value (m : Metric) (v : MetricValue) : Metric :=
  mkMetric (m_Name m) (m_Category m) (Some v) (m_Error m).
Definition set_error (m : Metric) (e : goerror) : Metric :=
  mkMetric (m_Name m) (m_Category m) (m_Value m) (Some e).

(** ** The process *)

Record Proc (W : Type) := mkProc {
  p_cache : CacheSt W;
  p_index : option (gmap string nat);
}.
Arguments mkProc {W}.
Arguments p_cache {W}.
Arguments p_index {W}.

Section Metrics.
Context {W : Type} `{Kernel W} `{Host W}.

Definition on_cache {A} (m : M (CacheSt W) A) : M (Proc W) A :=
  zoom p_cache (λ c p, mkProc c (p_index p)) m.
Definition on_index {A} (m : M (option (gmap string nat)) A) : M (Proc W) A :=
  zoom p_index (λ i p, mkProc (p_cache p) i) m.

Definition proc_now : M (Proc W) Time := λ p,
  let '(t, w) := time_Now (c_world (p_cache p)) in
  (Ok t, mkProc (mkCacheSt w (c_cache (p_cache p))) (p_index p)).

(** [if err != nil { m.Error = text(err); return m }; k(v)]. *)
Definition or_error {A} (m : Metric) (text : goerror → goerror) (get : M (CacheSt W) A)
    (k : A → M (Proc W) Metric) : M (Proc W) Metric :=
  try v ← on_cache get catch err ⇒ mret (set_error m (text err)); k v.

(** [m.Error = err.Error()], and [m.Error = fmt.Sprintf("name: %v", err)]. *)
Definition plain (err : goerror) : goerror := err.
Definition prefixed (name : string) (err : goerror) : goerror :=
  Errorf (name +:+ ": %v") [AErr err].

Definition struct_value (m : Metric) (type_name : string) (fields : list (string * string)) : Metric :=
  set_value m (Metric_StructValue type_name (list_to_map fields)).

(** [t.Format(...)] of a local time. *)
Definition format_local (t : Time) : string := Format_RFC3339 (zone_offset (t_sec t)) t.

(** ** Computed metrics *)

(** [float64(x) / float64(y) * 100]. *)
Definition percent (x y : Z) : float64 :=
  f64_mul (f64_div (f64_of_Z x) (f64_of_Z y)) (f64_of_Z 100).

Definition computeMemoryUtil (m : Metric) : M (Proc W) Metric :=
  or_error m (prefixed "vm.pages") (MIBCache_GetInt32 "vm.pages") (λ total,
  or_error m (prefixed "vm.page_free_count") (MIBCache_GetInt32 "vm.page_free_count") (λ free,
  if decide (total = 0) then mret (set_error m (Errorf "vm.pages is 0" [])) else
  let pct := percent (i32 (total - free)) total in
  mret (struct_value m "computed"
    [("value", fmt_2f pct); ("unit", "percent");
     ("total_pages", fmt_d total); ("free_pages", fmt_d free)]))).

Definition computeCompressionRatio (m : Metric) : M (Proc W) Metric :=
  or_error m (prefixed "vm.compressor_input_bytes")
    (MIBCache_GetUint64 "vm.compressor_input_bytes") (λ input,
  or_error m (prefixed "vm.compressor_compressed_bytes")
    (MIBCache_GetUint64 "vm.compressor_compressed_bytes") (λ compressed,
  let ratio := if decide (compressed > 0)
               then f64_div (f64_of_Z input) (f64_of_Z compressed) else S754_zero false in
  mret (struct_value m "computed"
    [("value", fmt_2f ratio); ("unit", "ratio");
     ("input_bytes", fmt_d input); ("compressed_bytes", fmt_d compressed)]))).

Definition computeSwapUtil (m : Metric) : M (Proc W) Metric :=
  or_error m (prefixed "vm.swapusage") MIBCache_GetSwapUsage (λ su,
  let pct := if decide (su_Total su > 0) then percent (su_Used su) (su_Total su)
             else S754_zero false in
  mret (struct_value m "computed"
    [("value", fmt_2f pct); ("unit", "percent");
     ("swap_used", fmt_d (su_Used su)); ("swap_total", fmt_d (su_Total su))])).

Definition computeCompressorPressure (m : Metric) : M (Proc W) Metric :=
  or_error m (prefixed "vm.compressor_bytes_used")
    (MIBCache_GetUint64 "vm.compressor_bytes_used") (λ used,
  or_error m (prefixed "vm.compressor_pool_size")
    (MIBCache_GetUint64 "vm.compressor_pool_size") (λ pool,
  let pct := if decide (pool > 0) then percent used pool else S754_zero false in
  mret (struct_value m "computed"
    [("value", fmt_2f pct); ("unit", "percent");
     ("bytes_used", fmt_d used); ("pool_size", fmt_d pool)]))).

Definition computeTotalConnections (m : Metric) : M (Proc W) Metric :=
  or_error m (prefixed "net.inet.tcp.pcbcount") (MIBCache_GetInt32 "net.inet.tcp.pcbcount") (λ tcp,
  or_error m (prefixed "net.inet.udp.pcbcount") (MIBCache_GetInt32 "net.inet.udp.pcbcount") (λ udp,
  or_error m (prefixed "net.local.pcbcount") (MIBCache_GetInt32 "net.local.pcbcount") (λ unix,
  let total := i64 (i64 (tcp + udp) + unix) in
  mret (struct_value m "computed"
    [("value", fmt_d total); ("unit", "connections");
     ("tcp", fmt_d tcp); ("udp", fmt_d udp); ("unix", fmt_d unix)])))).

Definition computeUptime (m : Metric) : M (Proc W) Metric :=
  or_error m (prefixed "kern.boottime") (MIBCache_GetTimeval "kern.boottime") (λ tv,
  now ← proc_now;
  let uptime := time_Sub now (Timeval_Time tv) in
  let secs := f64_trunc (Duration_Seconds uptime) in
  mret (struct_value m "computed"
    [("value", fmt_d secs); ("unit", "seconds");
     ("human", Duration_String (Duration_Truncate uptime Second));
     ("boottime", format_local (Timeval_Time tv))])).

Definition computeVFSReclamation (m : Metric) : M (Proc W) Metric :=
  or_error m (prefixed "vfs.vnstats.num_vnodes")
    (MIBCache_GetInt64 "vfs.vnstats.num_vnodes") (λ total,
  or_error m (prefixed "vfs.vnstats.num_recycledvnodes")
    (MIBCache_GetInt64 "vfs.vnstats.num_recycledvnodes") (λ recycled,
  let pct := if decide (total > 0) then percent recycled total else S754_zero false in
  mret (struct_value m "computed"
    [("value", fmt_2f pct); ("unit", "percent");
     ("recycled", fmt_d recycled); ("total", fmt_d total)]))).

Definition readComputed (name : string) (m : Metric) : M (Proc W) Metric :=
  if decide (name = "computed.memory_utilization_pct") then computeMemoryUtil m
  else if decide (name = "computed.compression_ratio") then computeCompressionRatio m
  else if decide (name = "computed.swap_utilization_pct") then computeSwapUtil m
  else if decide (name = "computed.compressor_pressure_pct") then computeCompressorPressure m
  else if decide (name = "computed.total_connections") then computeTotalConnections m
  else if decide (name = "computed.uptime_seconds") then computeUptime m
  else if decide (name = "computed.vfs_reclamation_pct") then computeVFSReclamation m
  else mret (set_error m (Errorf "unknown computed metric %q" [AStr name])).

(** ** Live reads *)

(** One case of the switch: read, or report the error as it is. *)
Definition read_value {A} (m : Metric) (get : M (CacheSt W) A) (value : A → MetricValue)
    : M (Proc W) Metric :=
  or_error m plain get (λ v, mret (set_value m (value v))).

Definition timeval_fields (tv : Timeval) : list (string * string) :=
  [("sec", fmt_d (tv_Sec tv)); ("usec", fmt_d (tv_Usec tv));
   ("time", format_local (Timeval_Time tv))].
Definition loadavg_fields (la : Loadavg) : list (string * string) :=
  [("load1", fmt_2f (Load1 la)); ("load5", fmt_2f (Load5 la)); ("load15", fmt_2f (Load15 la))].
Definition swap_fields (su : SwapUsage) : list (string * string) :=
  [("total", fmt_d (su_Total su)); ("avail", fmt_d (su_Avail su)); ("used", fmt_d (su_Used su))].
Definition clock_fields (ci : Clockinfo) : list (string * string) :=
  [("hz", fmt_d (ci_Hz ci)); ("tick", fmt_d (ci_Tick ci));
   ("profhz", fmt_d (ci_Profhz ci)); ("stathz", fmt_d (ci_Stathz ci))].

Definition structv (type_name : string) (fields : list (string * string)) : MetricValue :=
  Metric_StructValue type_name (list_to_map fields).

(** The switch on [info.Type], after the computed case. *)
Definition read_by_type (name : string) (t : ValueType) (m : Metric) : M (Proc W) Metric :=
  if decide (t = TypeString) then read_value m (MIBCache_GetString name) Metric_StringValue
  else if decide (t = TypeUint64) then read_value m (MIBCache_GetUint64 name) Metric_Uint64Value
  else if decide (t = TypeUint32) then read_value m (MIBCache_GetUint32 name) Metric_Uint32Value
  else if decide (t = TypeInt32) then read_value m (MIBCache_GetInt32 name) Metric_Int32Value
  else if decide (t = TypeInt64) then read_value m (MIBCache_GetInt64 name) Metric_Int64Value
  else if decide (t = TypeTimeval) then
    read_value m (MIBCache_GetTimeval name) (λ tv, structv "timeval" (timeval_fields tv))
  else if decide (t = TypeLoadavg) then
    read_value m MIBCache_GetLoadavg (λ la, structv "loadavg" (loadavg_fields la))
  else if decide (t = TypeSwap) then
    read_value m MIBCache_GetSwapUsage (λ su, structv "swap" (swap_fields su))
  else if decide (t = TypeClock) then
    read_value m MIBCache_GetClockinfo (λ ci, structv "clock" (clock_fields ci))
  else if decide (t = TypeRaw) then read_value m (MIBCache_GetRaw name) Metric_RawValue
  else mret (set_error m (Errorf "unsupported type %q" [AStr t])).

Definition readMetricLive (name : string) : M (Proc W) Metric :=
  info ← on_index (ByName name);
  match info with
  | None =>
      let m := mkMetric name EmptyString None None in
      read_value m (MIBCache_GetRaw name) Metric_RawValue
  | Some info =>
      let m := mkMetric name (info_Category info) None None in
      if decide (info_Type info = TypeComputed) then readComputed name m
      else read_by_type name (info_Type info) m
  end.
End Metrics.

(** ** What a metric may look like *)

(** The pseudo-unit each computed metric reports. *)
Definition computed_unit (name : string) : string :=
  if decide (name = "computed.compression_ratio") then "ratio"
  else if decide (name = "computed.total_connections") then "connections"
  else if decide (name = "computed.uptime_seconds") then "seconds"
  else "percent".

(** The values a metric of a given registry type may carry. *)
Definition value_matches (name : string) (t : ValueType) (v : MetricValue) : Prop :=
  match v with
  | Metric_StringValue _ => t = TypeString
  | Metric_Uint64Value z => t = TypeUint64 ∧ uint64_range z
  | Metric_Int64Value z => t = TypeInt64 ∧ - 2 ^ 63 ≤ z < 2 ^ 63
  | Metric_Uint32Value z => t = TypeUint32 ∧ 0 ≤ z < 2 ^ 32
  | Metric_Int32Value z => t = TypeInt32 ∧ int32_range z
  | Metric_RawValue _ => t = TypeRaw
  | Metric_StructValue n fields =>
      (t = TypeTimeval ∨ t = TypeLoadavg ∨ t = TypeSwap ∨ t = TypeClock) ∧ n = t ∨
      t = TypeComputed ∧ n = "computed" ∧ is_Some (fields !! "value") ∧
      fields !! "unit" = Some (computed_unit name)
  end.

(** The sysctls a computed metric is computed from. *)
Definition computed_inputs (name : string) : list string :=
  if decide (name = "computed.memory_utilization_pct") then ["vm.pages"; "vm.page_free_count"]
  else if decide (name = "computed.compression_ratio") then
    ["vm.compressor_input_bytes"; "vm.compressor_compressed_bytes"]
  else if decide (name = "computed.swap_utilization_pct") then ["vm.swapusage"]
  else if decide (name = "computed.compressor_pressure_pct") then
    ["vm.compressor_bytes_used"; "vm.compressor_pool_size"]
  else if decide (name = "computed.total_connections") then
    ["net.inet.tcp.pcbcount"; "net.inet.udp.pcbcount"; "net.local.pcbcount"]
  else if decide (name = "computed.uptime_seconds") then ["kern.boottime"]
  else if decide (name = "computed.vfs_reclamation_pct") then
    ["vfs.vnstats.num_vnodes"; "vfs.vnstats.num_recycledvnodes"]
  else [].

(** The errors a metric may carry: a computed one says which of its inputs
    could not be read, or that the kernel has no pages. *)
Definition error_matches (name : string) (t : ValueType) (e : goerror) : Prop :=
  t = TypeComputed →
  (∃ input err, input ∈ computed_inputs name ∧ e = prefixed input err) ∨
  name = "computed.memory_utilization_pct" ∧ e = Errorf "vm.pages is 0" [].

(** A finished metric: exactly one of value and error, of the right kind. *)
Definition metric_finished (good : MetricValue → Prop) (fail : goerror → Prop)
    (m : Metric) : Prop :=
  match m_Value m, m_Error m with
  | Some v, None => good v
  | None, Some e => fail e
  | _, _ => False
  end.

(** An entry of the registry that the switch can read: a computed metric with
    a function of its own, a type with a case, and the three structures whose
    getters name their sysctl read only under that name. *)
Definition computed_names : list string :=
  ["computed.memory_utilization_pct"; "computed.compression_ratio";
   "computed.swap_utilization_pct"; "computed.compressor_pressure_pct";
   "computed.total_connections"; "computed.uptime_seconds";
   "computed.vfs_reclamation_pct"].

Definition readable (name : string) (t : ValueType) : Prop :=
  t ∈ [TypeString; TypeUint64; TypeUint32; TypeInt32; TypeInt64; TypeTimeval; TypeRaw] ∨
  (t = TypeLoadavg ∧ name = "vm.loadavg") ∨ (t = TypeSwap ∧ name = "vm.swapusage") ∨
  (t = TypeClock ∧ name = "kern.clockrate").

Definition entry_readable (info : Info) : Prop :=
  (info_Type info = TypeComputed ∧ info_Name info ∈ computed_names) ∨
  (info_Type info ≠ TypeComputed ∧ readable (info_Name info) (info_Type info)).

#[export] Instance entry_readable_dec info : Decision (entry_readable info).
Proof. unfold entry_readable, readable. apply _. Defined.

Lemma Known_readable : Forall entry_readable Known.
Proof. by_decide. Qed.

(** The decoding a type stands for, as a function of the raw bytes. *)
Section Spec.
Context {W : Type} `{Host W}.

Definition metric_of_bytes (name : string) (t : ValueType) (raw : list byte)
    : outcome MetricValue :=
  if decide (t = TypeString) then Ok (Metric_StringValue (decode_string raw))
  else if decide (t = TypeUint64) then outcome_map Metric_Uint64Value (decode_uint64 name raw)
  else if decide (t = TypeUint32) then outcome_map Metric_Uint32Value (decode_uint32 name raw)
  else if decide (t = TypeInt32) then
    outcome_map (λ z, Metric_Int32Value (i32 z)) (decode_uint32 name raw)
  else if decide (t = TypeInt64) then
    outcome_map (λ z, Metric_Int64Value (i64 z)) (decode_uint64 name raw)
  else if decide (t = TypeTimeval) then
    outcome_map (λ tv, structv "timeval" (timeval_fields tv)) (decode_timeval name raw)
  else if decide (t = TypeLoadavg) then
    outcome_map (λ la, structv "loadavg" (loadavg_fields la)) (decode_loadavg raw)
  else if decide (t = TypeSwap) then
    outcome_map (λ su, structv "swap" (swap_fields su)) (decode_swapusage raw)
  else if decide (t = TypeClock) then
    outcome_map (λ ci, structv "clock" (clock_fields ci)) (decode_clockinfo raw)
  else Ok (Metric_RawValue raw).

Lemma metric_of_bytes_no_panic name t raw : metric_of_bytes name t raw ≠ Panic.
Proof.
  unfold metric_of_bytes.
  repeat match goal with |- context [decide ?P] => destruct (decide P) end; try done;
    match goal with |- outcome_map _ ?o ≠ _ =>
      let E := fresh in assert (E : o ≠ Panic) by auto with go; by destruct o end.
Qed.

Lemma metric_of_bytes_matches name t raw v :
  readable name t → metric_of_bytes name t raw = Ok v → value_matches name t v.
Proof.
  unfold metric_of_bytes. intros Hr.
  repeat match goal with |- context [decide (t = ?P)] => destruct (decide (t = P)) end.
  all: try match goal with |- outcome_map _ ?o = _ → _ =>
    destruct o eqn:E; simpl; [|done|done] end.
  all: intros [= <-]; simpl; try by auto 6.
  - split; [done|]. by apply decode_uint64_ok in E as [_ ?].
  - split; [done|]. by apply decode_uint32_ok in E as [_ ?].
  - split; [done|]. apply i32_range.
  - split; [done|]. apply i64_range.
  - destruct Hr as [Hr|Hr]; [|tauto]. rewrite !elem_of_cons, elem_of_nil in Hr. tauto.
Qed.
End Spec.

(** ** Every read finishes *)

Section Reads.
Context {W : Type} `{SysctlSpec W} `{Host W}.

(** The sequential states of the process. *)
Definition proc_ok (p : Proc W) : Prop :=
  cache_ok (c_cache (p_cache p)) ∧ index_ok (p_index p).

(** During a read: the cache grows from [c0] and the index is [idx]. *)
Definition proc_at (c0 : mib_cache) (idx : option (gmap string nat)) (p : Proc W) : Prop :=
  cache_from c0 (p_cache p) ∧ p_index p = idx.

Lemma proc_at_start p : proc_ok p → proc_at (c_cache (p_cache p)) (p_index p) p.
Proof. intros [Hc _]. by split. Qed.

Context (c0 : mib_cache) (idx : option (gmap string nat)).

(** Nothing is claimed of the value read. *)
Definition any {A} (_ : A) : Prop := True.

Lemma hoare_on_cache {A} (m : M (CacheSt W) A) (Q : A → Prop) :
  hoare (cache_from c0) m (λ a c, Q a ∧ cache_from c0 c) (λ _, cache_from c0) →
  hoare (proc_at c0 idx) (on_cache m) (λ a p, Q a ∧ proc_at c0 idx p) (λ _, proc_at c0 idx).
Proof.
  intros Hm. eapply hoare_zoom; [exact Hm|..].
  - by intros p [Hc _].
  - intros p a c [_ Hi] [HQ Hc]. by split.
  - intros p e c [_ Hi] Hc. by split.
Qed.

Lemma hoare_cache_read {A} name (decode : list byte → outcome A) :
  (∀ raw, decode raw ≠ Panic) →
  hoare (cache_from c0) (read_as MIBCache_GetRaw name decode)
    (λ a c, (∃ raw, decode raw = Ok a) ∧ cache_from c0 c) (λ _, cache_from c0).
Proof. intros Hd. apply hoare_read_as; [apply hoare_cache_GetRaw|done]. Qed.

(** [m'] is [m], finished. *)
Definition finishes (good : MetricValue → Prop) (fail : goerror → Prop) (m m' : Metric) : Prop :=
  m_Name m' = m_Name m ∧ m_Category m' = m_Category m ∧ metric_finished good fail m'.

Definition fresh_metric (m : Metric) : Prop := m_Value m = None ∧ m_Error m = None.

Lemma finishes_error good (fail : goerror → Prop) m e :
  fresh_metric m → fail e → finishes good fail m (set_error m e).
Proof. intros [Hv He] Hf. unfold finishes, metric_finished. simpl. by rewrite Hv. Qed.

Lemma finishes_value (good : MetricValue → Prop) fail m v :
  fresh_metric m → good v → finishes good fail m (set_value m v).
Proof. intros [Hv He] Hg. unfold finishes, metric_finished. simpl. by rewrite He. Qed.

(** The triple of a function that finishes [m]. *)
Definition finishing (good : MetricValue → Prop) (fail : goerror → Prop) (m : Metric)
    (f : M (Proc W) Metric) : Prop :=
  hoare_ok (proc_at c0 idx) f (λ m' p, finishes good fail m m' ∧ proc_at c0 idx p).

Lemma finishing_run good fail m f p :
  finishing good fail m f → proc_at c0 idx p →
  ∃ m' p', f p = (Ok m', p') ∧ finishes good fail m m' ∧ proc_at c0 idx p'.
Proof.
  intros Hf Hp. specialize (Hf p Hp). destruct (f p) as [[m'|e|] p']; [|done|done].
  destruct Hf. by exists m', p'.
Qed.

Lemma finishing_ret good fail m m' : finishes good fail m m' → finishing good fail m (mret m').
Proof. intros Hf. apply hoare_ret. auto. Qed.

Lemma finishing_or_error {A} good (fail : goerror → Prop) m text (get : M (CacheSt W) A)
    (Q : A → Prop) k :
  fresh_metric m →
  (∀ err, fail (text err)) →
  hoare (cache_from c0) get (λ a c, Q a ∧ cache_from c0 c) (λ _, cache_from c0) →
  (∀ v, Q v → finishing good fail m (k v)) →
  finishing good fail m (or_error m text get k).
Proof.
  intros Hm Hf Hget Hk. unfold or_error. eapply hoare_errcase; [by apply hoare_on_cache|..].
  - intros e. apply hoare_ret. intros p Hp. split; [by apply finishes_error, Hf|done].
  - intros v p [HQ Hp]. by apply Hk.
Qed.

Lemma hoare_cache_Uint64 name :
  hoare (cache_from c0) (MIBCache_GetUint64 name) (λ z c, uint64_range z ∧ cache_from c0 c) (λ _, cache_from c0).
Proof.
  eapply hoare_conseq; [apply hoare_cache_read, decode_uint64_no_panic|done| |done].
  intros z c [[raw Hr] Hc]. split; [|done]. by apply decode_uint64_ok in Hr as [_ ?].
Qed.

Lemma hoare_cache_Int32 name :
  hoare (cache_from c0) (MIBCache_GetInt32 name) (λ z c, int32_range z ∧ cache_from c0 c) (λ _, cache_from c0).
Proof.
  eapply hoare_bind; [apply hoare_cache_read, decode_uint32_no_panic|].
  intros z. apply hoare_ret. intros c [_ Hc]. split; [apply i32_range|done].
Qed.

Lemma hoare_cache_Int64 name :
  hoare (cache_from c0) (MIBCache_GetInt64 name) (λ v c, any v ∧ cache_from c0 c) (λ _, cache_from c0).
Proof.
  eapply hoare_bind; [apply hoare_cache_read, decode_uint64_no_panic|].
  intros z. apply hoare_ret. by intros c [_ Hc].
Qed.

Lemma hoare_cache_SwapUsage :
  hoare (cache_from c0) MIBCache_GetSwapUsage (λ v c, any v ∧ cache_from c0 c) (λ _, cache_from c0).
Proof.
  eapply hoare_conseq; [apply hoare_cache_read, decode_swapusage_no_panic|done| |done].
  by intros z c [_ Hc].
Qed.

Lemma hoare_cache_Timeval name :
  hoare (cache_from c0) (MIBCache_GetTimeval name) (λ v c, any v ∧ cache_from c0 c) (λ _, cache_from c0).
Proof.
  eapply hoare_conseq; [apply hoare_cache_read, decode_timeval_no_panic|done| |done].
  by intros z c [_ Hc].
Qed.

Lemma hoare_proc_now : hoare_ok (proc_at c0 idx) proc_now (λ _, proc_at c0 idx).
Proof. intros p Hp. unfold proc_now. by destruct (time_Now _). Qed.
End Reads.

#[export] Hint Resolve finishes_error hoare_cache_Uint64 hoare_cache_Int32 hoare_cache_Int64
  hoare_cache_SwapUsage hoare_cache_Timeval : go.

(** The error of reading the [k]-th input. *)
Lemma input_error name input err :
  input ∈ computed_inputs name → error_matches name TypeComputed (prefixed input err).
Proof. intros Hin _. left. by exists input, err. Qed.

(** One computed function: read after read, then a struct value. *)
Ltac finish_computed :=
  repeat (eapply finishing_or_error;
          [done|intros ?; apply input_error; by_decide|by eauto with go|]; intros ? ?);
  try (eapply finishing_ret, finishes_value; [done|];
       simpl; right; split_and!; [done|done|by eexists|by vm_compute]).

(** The next read of a computed function, of value [x]. *)
Tactic Notation "read_input" ident(x) ident(Hx) :=
  eapply finishing_or_error;
  [done|intros ?; apply input_error; by_decide|by eauto with go|]; intros x Hx.

Section Totality.
Context {W : Type} `{SysctlSpec W} `{Host W} (c0 : mib_cache) (idx : option (gmap string nat)).

Lemma finishing_computed name m :
  fresh_metric m → name ∈ computed_names →
  finishing c0 idx (value_matches name TypeComputed) (error_matches name TypeComputed) m
    (readComputed name m).
Proof.
  intros Hm Hn. unfold computed_names in Hn. rewrite !elem_of_cons, elem_of_nil in Hn.
  destruct Hn as [->|[->|[->|[->|[->|[->|[->|[]]]]]]]];
    cbv [readComputed]; rewrite ?(decide_False (P := _ = _)), decide_True by done.
  - unfold computeMemoryUtil. finish_computed.
    destruct (decide _); [|finish_computed].
    eapply finishing_ret, finishes_error; [done|]. intros _. by right.
  - unfold computeCompressionRatio. finish_computed.
  - unfold computeSwapUtil. finish_computed.
  - unfold computeCompressorPressure. finish_computed.
  - unfold computeTotalConnections. finish_computed.
  - unfold computeUptime. finish_computed.
    eapply hoare_bind; [apply hoare_proc_now|]. intros t. finish_computed.
  - unfold computeVFSReclamation. finish_computed.
Qed.
End Totality.

(** ** The switch is one decoder *)

Section Switch.
Context {W : Type} `{SysctlSpec W} `{Host W}.

Lemma read_value_as {A} m name (decode : list byte → outcome A) (f : A → MetricValue) (p : Proc W) :
  read_value m (read_as MIBCache_GetRaw name decode) f p
  = read_value m (read_as MIBCache_GetRaw name (λ raw, outcome_map f (decode raw))) id p.
Proof.
  unfold read_value, or_error, on_cache, read_as. run_simpl.
  destruct (MIBCache_GetRaw name (p_cache p)) as [[raw|e|] c]; [|done|done].
  by destruct (decode raw).
Qed.

Lemma read_value_bind {A B} m name (decode : list byte → outcome A) (g : A → B)
    (f : B → MetricValue) (p : Proc W) :
  read_value m (v ← read_as MIBCache_GetRaw name decode; mret (g v)) f p
  = read_value m (read_as MIBCache_GetRaw name (λ raw, outcome_map (λ a, f (g a)) (decode raw))) id p.
Proof.
  unfold read_value, or_error, on_cache, read_as. run_simpl.
  destruct (MIBCache_GetRaw name (p_cache p)) as [[raw|e|] c]; [|done|done].
  by destruct (decode raw).
Qed.

Lemma read_value_raw m name (f : list byte → MetricValue) (p : Proc W) :
  read_value m (MIBCache_GetRaw name) f p
  = read_value m (read_as MIBCache_GetRaw name (λ raw, Ok (f raw))) id p.
Proof.
  unfold read_value, or_error, on_cache, read_as. run_simpl.
  by destruct (MIBCache_GetRaw name (p_cache p)) as [[raw|e|] c].
Qed.

(** Ten cases of the source, one decoder: what the switch does for an entry
    is read the raw bytes and decode them at its type. *)
Lemma read_by_type_as name t m (p : Proc W) :
  readable name t →
  read_by_type name t m p
  = read_value m (read_as MIBCache_GetRaw name (metric_of_bytes name t)) id p.
Proof.
  intros Hr. unfold readable in Hr. rewrite !elem_of_cons, elem_of_nil in Hr.
  destruct Hr as [[->|[->|[->|[->|[->|[->|[->|[]]]]]]]]|[[-> ->]|[[-> ->]|[-> ->]]]];
    cbv [read_by_type metric_of_bytes]; rewrite ?(decide_False (P := _ = _)), decide_True by done.
  - apply read_value_as.
  - apply read_value_as.
  - apply read_value_as.
  - apply read_value_bind.
  - apply read_value_bind.
  - apply read_value_as.
  - apply read_value_raw.
  - apply read_value_as.
  - apply read_value_as.
  - apply read_value_as.
Qed.

Lemma registry_entry_readable name info :
  registry_entry name = Some info → entry_readable info ∧ info_Name info = name.
Proof.
  intros [Hin Hn]%registry_entry_Some. split; [|done].
  pose proof Known_readable as Hall. rewrite Forall_forall in Hall. by apply Hall.
Qed.

Lemma readMetricLive_unfold name (p : Proc W) :
  proc_ok p →
  readMetricLive name p =
    let p' := mkProc (p_cache p) (Some (index_by_name Known)) in
    match registry_entry name with
    | None => read_value (mkMetric name EmptyString None None) (MIBCache_GetRaw name)
                Metric_RawValue p'
    | Some info =>
        let m := mkMetric name (info_Category info) None None in
        if decide (info_Type info = TypeComputed) then readComputed name m p'
        else read_by_type name (info_Type info) m p'
    end.
Proof.
  intros [_ Hi]. unfold readMetricLive, on_index. run_simpl. rewrite (ByName_run _ _ Hi).
  run_simpl. destruct (registry_entry name) as [info|]; [|done].
  by destruct (decide _).
Qed.

(** The shape of the answer to a request for [name]. *)
Definition metric_for (name : string) (m : Metric) : Prop :=
  m_Name m = name ∧
  m_Category m = match registry_entry name with Some info => info_Category info
                                              | None => EmptyString end ∧
  let t := match registry_entry name with Some info => info_Type info | None => TypeRaw end in
  metric_finished (value_matches name t) (error_matches name t) m.

Lemma hoare_read_decoded c0 idx name t m :
  fresh_metric m → readable name t → t ≠ TypeComputed →
  finishing c0 idx (value_matches name t) (error_matches name t) m
    (read_value m (read_as MIBCache_GetRaw name (metric_of_bytes name t)) id).
Proof.
  intros Hm Hr Ht. eapply finishing_or_error; [done| by intros err Ht'| |].
  - apply hoare_cache_read. apply metric_of_bytes_no_panic.
  - intros v [raw Hv]. apply finishing_ret, finishes_value; [done|].
    by eapply metric_of_bytes_matches.
Qed.

Lemma readMetricLive_ok name (p : Proc W) :
  proc_ok p →
  ∃ m p', readMetricLive name p = (Ok m, p') ∧ metric_for name m ∧
    proc_at (c_cache (p_cache p)) (Some (index_by_name Known)) p'.
Proof.
  intros Hp. rewrite readMetricLive_unfold by done. cbv zeta.
  assert (Hp' : proc_at (c_cache (p_cache p)) (Some (index_by_name Known))
                  (mkProc (p_cache p) (Some (index_by_name Known)))).
  { split; [split; [apply Hp|reflexivity]|reflexivity]. }
  unfold metric_for. destruct (registry_entry name) as [info|] eqn:E.
  - apply registry_entry_readable in E as [Hr <-].
    set (m := mkMetric (info_Name info) (info_Category info) None None).
    assert (Hm : fresh_metric m) by done.
    destruct Hr as [[Ht Hn]|[Ht Hr]].
    + rewrite decide_True, Ht by done.
      destruct (finishing_run _ _ _ _ _ _ _ (finishing_computed _ _ (info_Name info) m Hm Hn) Hp')
        as (m' & p'' & -> & Hfin & Hq). exists m', p''. exact (conj eq_refl (conj Hfin Hq)).
    + rewrite decide_False, read_by_type_as by done.
      destruct (finishing_run _ _ _ _ _ _ _
        (hoare_read_decoded _ _ (info_Name info) (info_Type info) m Hm Hr Ht) Hp')
        as (m' & p'' & -> & Hfin & Hq). exists m', p''. exact (conj eq_refl (conj Hfin Hq)).
  - rewrite read_value_raw.
    change (λ raw, Ok (Metric_RawValue raw)) with (metric_of_bytes name TypeRaw).
    destruct (finishing_run _ _ _ _ _ _ _
      (hoare_read_decoded _ _ name TypeRaw (mkMetric name EmptyString None None)
        (conj eq_refl eq_refl) ltac:(left; by do 6 right; left) ltac:(by_decide)) Hp')
      as (m' & p'' & -> & Hfin & Hq). exists m', p''. exact (conj eq_refl (conj Hfin Hq)).
Qed.

Lemma proc_at_ok c0 p : proc_at c0 (Some (index_by_name Known)) p → proc_ok p.
Proof. intros [[Hc _] Hi]. split; [exact Hc|right; exact Hi]. Qed.

Lemma hoare_readMetricLive c0 name :
  hoare_ok (λ p, proc_ok p ∧ c0 ⊆ c_cache (p_cache p)) (readMetricLive name)
    (λ m p, metric_for name m ∧ proc_ok p ∧ c0 ⊆ c_cache (p_cache p)).
Proof.
  intros p [Hp Hsub]. destruct (readMetricLive_ok name p Hp) as (m & p' & -> & Hm & Hp').
  split; [exact Hm|]. split; [exact (proc_at_ok _ _ Hp')|].
  destruct Hp' as [[_ Hs] _]. etrans; [exact Hsub|exact Hs].
Qed.
End Switch.

(** ** Theorems *)

Section Theorems.
Context {W : Type} `{SysctlSpec W} `{Host W}.

(** C9: [readMetricLive] is total: for every name, known or not, and from any
    sequential state of the process it returns a metric that bears the
    requested name and the registry's category (none for an unknown name),
    carries exactly one of a value and an error, and when a value, one of the
    type the registry declares, in that type's range; a struct value has the
    declared type name and a computed one its value and unit; the error of a
    computed metric names the one of its own inputs that could not be read
    (or says that the kernel has no pages), so that no computed entry of the
    registry falls into [readComputed]'s [unknown computed metric] default.
    It never panics and leaves the MIB cache and the name index correct. *)
Theorem readMetricLive_total name (p : Proc W) (Hp : proc_ok p) :
  ∃ m p', readMetricLive name p = (Ok m, p') ∧ metric_for name m ∧ proc_ok p' ∧
    c_cache (p_cache p) ⊆ c_cache (p_cache p') ∧ p_index p' = Some (index_by_name Known).
Proof.
  destruct (readMetricLive_ok name p Hp) as (m & p' & Hr & Hm & Hp').
  exists m, p'. split; [exact Hr|]. split; [exact Hm|].
  split; [exact (proc_at_ok _ _ Hp')|]. destruct Hp' as [[_ Hs] Hi]. split; [exact Hs|exact Hi].
Qed.

(** The metric that a raw read and the decoder of its type stand for. *)
Definition metric_of_read (name category : string) (t : ValueType) (r : outcome (list byte))
    (m : Metric) : Prop :=
  match r with
  | Ok raw =>
      match metric_of_bytes name t raw with
      | Ok v => m = mkMetric name category (Some v) None
      | Err _ => ∃ e, m = mkMetric name category None (Some e)
      | Panic => False
      end
  | Err _ => ∃ e, m = mkMetric name category None (Some e)
  | Panic => False
  end.

Lemma read_value_refines name category t (p : Proc W) :
  proc_ok p → nul_free name →
  let w' := match c_cache (p_cache p) !! name with
            | Some _ => c_world (p_cache p)
            | None => (nametomib name (c_world (p_cache p))).2
            end in
  ∃ m p', read_value (mkMetric name category None None)
            (read_as MIBCache_GetRaw name (metric_of_bytes name t)) id p = (Ok m, p') ∧
    metric_of_read name category t (GetRaw name w').1 m.
Proof.
  intros [Hc _] Hn w'.
  destruct (cached_read_refines name (metric_of_bytes name t) (p_cache p) Hc Hn) as (Ha & _).
  fold w' in Ha. unfold read_value, or_error, on_cache. run_simpl.
  unfold read_as in Ha at 2. run_simpl. unfold metric_of_read.
  pose proof (GetRaw_safe name w') as Hs.
  pose proof (metric_of_bytes_no_panic name t) as Hd.
  destruct (read_as _ _ _ _) as [[v|e|] c]; cbn [fst snd] in *;
    (destruct (GetRaw name w') as [[raw|e'|] w'']; cbn [fst snd] in *; [|try done|done]);
    try (destruct (metric_of_bytes name t raw) eqn:E; simpl in Ha); try done;
    try (by exfalso; apply (Hd raw)); subst; do 2 eexists; (split; [reflexivity|]);
    unfold set_value, set_error; simpl; eauto.
Qed.

(** C1: [readMetricLive] refines one abstract read: for every registry entry
    that is not computed, whichever of the switch's ten cases it takes, the
    metric it returns is the one obtained by reading the name's raw bytes
    straight from the kernel ([sysctlbyname], in the world after the name
    lookup a cold cache costs) and decoding them at the entry's declared
    type. *)
Theorem readMetricLive_refines_read name info (p : Proc W) (Hp : proc_ok p)
    (Hname : nul_free name) (Hinfo : registry_entry name = Some info)
    (Hlive : info_Type info ≠ TypeComputed) :
  let w' := match c_cache (p_cache p) !! name with
            | Some _ => c_world (p_cache p)
            | None => (nametomib name (c_world (p_cache p))).2
            end in
  ∃ m p', readMetricLive name p = (Ok m, p') ∧
    metric_of_read name (info_Category info) (info_Type info) (GetRaw name w').1 m.
Proof.
  rewrite readMetricLive_unfold, Hinfo by done. cbv zeta. rewrite decide_False by done.
  destruct (registry_entry_readable _ _ Hinfo) as [[[Ht _]|[_ Hr]] Hn]; [destruct (Hlive Ht)|].
  rewrite Hn in Hr. rewrite read_by_type_as by done.
  apply (read_value_refines name (info_Category info) (info_Type info)
    (mkProc (p_cache p) (Some (index_by_name Known)))); [|done].
  split; [apply Hp|by right].
Qed.

(** The fields of the connections metric: three 32-bit counts and their sum. *)
Definition connections_value (v : MetricValue) : Prop :=
  ∃ tcp udp unix, int32_range tcp ∧ int32_range udp ∧ int32_range unix ∧
    v = structv "computed"
          [("value", fmt_d (tcp + udp + unix)); ("unit", "connections");
           ("tcp", fmt_d tcp); ("udp", fmt_d udp); ("unix", fmt_d unix)].

(** [computeTotalConnections] never wraps: from any state it finishes the
    metric with an error or with the mathematical sum of the three [int32]
    counts it also reports, whatever the counts. *)
Theorem total_connections_exact m (p : Proc W) (Hp : proc_ok p) (Hm : fresh_metric m) :
  ∃ m' p', computeTotalConnections m p = (Ok m', p') ∧
    finishes connections_value (error_matches "computed.total_connections" TypeComputed) m m' ∧
    c_cache (p_cache p) ⊆ c_cache (p_cache p') ∧ cache_ok (c_cache (p_cache p')).
Proof.
  cut (finishing (c_cache (p_cache p)) (p_index p) connections_value
         (error_matches "computed.total_connections" TypeComputed) m (computeTotalConnections m)).
  { intros Hf. destruct (finishing_run _ _ _ _ _ _ _ Hf (proc_at_start p Hp))
      as (m' & p' & Hr & Hfin & [[Hc Hs] _]). by exists m', p'. }
  unfold computeTotalConnections.
  read_input tcp Htcp. read_input udp Hudp. read_input unix Hunix.
  apply finishing_ret, finishes_value; [done|]. exists tcp, udp, unix.
  split_and!; [done..|]. unfold int32_range in *.
  rewrite (i64_id (tcp + udp)), i64_id by lia. reflexivity.
Qed.











(** The nanoseconds from the boot time [tv] to the instant [now]. *)
Definition since_boot (now : Time) (tv : Timeval) : Z :=
  (t_sec now * Second + t_nsec now) - (tv_Sec tv * Second + tv_Usec tv * Microsecond).

(** The value of the uptime metric for the boot time [tv] and the clock reading
    [now]. *)
Definition uptime_value (tv : Timeval) (now : Time) (v : MetricValue) : Prop :=
  ∃ secs human,
    v = structv "computed"
          [("value", fmt_d secs); ("unit", "seconds"); ("human", human);
           ("boottime", format_local (Timeval_Time tv))] ∧
    (- 2 ^ 62 ≤ tv_Sec tv < 2 ^ 62 → 0 ≤ tv_Usec tv < 2 ^ 31 → 0 ≤ since_boot now tv < 2 ^ 63 →
     read_hms human = Some (since_boot now tv / Second) ∧
     since_boot now tv / Second ≤ secs ≤ since_boot now tv / Second + 1 ∧
     (since_boot now tv < 2 ^ 24 * Second → secs = since_boot now tv / Second)).

Lemma time_Sub_boot now tv :
  - 2 ^ 62 ≤ tv_Sec tv < 2 ^ 62 → 0 ≤ tv_Usec tv < 2 ^ 31 → 0 ≤ since_boot now tv < 2 ^ 63 →
  time_Sub now (Timeval_Time tv) = since_boot now tv.
Proof.
  intros Hs Hu Hd. unfold time_Sub, Timeval_Time, since_boot, Microsecond in *.
  rewrite (i64_id (tv_Sec tv)), (i64_id (tv_Usec tv)), i64_id by lia.
  pose proof (time_Unix_instant (tv_Sec tv) (tv_Usec tv * 1000) ltac:(lia) ltac:(lia)) as Hi.
  unfold minDuration, maxDuration. nia.
Qed.

Lemma uptime_value_intro tv now :
  let uptime := time_Sub now (Timeval_Time tv) in
  uptime_value tv now
    (structv "computed"
       [("value", fmt_d (f64_trunc (Duration_Seconds uptime))); ("unit", "seconds");
        ("human", Duration_String (Duration_Truncate uptime Second));
        ("boottime", format_local (Timeval_Time tv))]).
Proof.
  cbv zeta. do 2 eexists. split; [reflexivity|]. intros Hs Hu Hd.
  rewrite time_Sub_boot by done. split; [|by apply Duration_Seconds_trunc].
  rewrite Duration_Truncate_seconds by lia.
  assert (0 ≤ since_boot now tv / Second) by (apply Z.div_pos; [lia|done]).
  rewrite Duration_String_reads by (apply Z.mul_nonneg_nonneg; done). by rewrite Z.div_mul.
Qed.

#[local] Opaque time_Sub Timeval_Time Duration_Seconds f64_trunc Duration_Truncate Duration_String
  format_local fmt_d structv uptime_value.

(** C12: the uptime: when the boot time cannot be read, the metric is finished
    with that error; when it is read as [tv], the clock is read once, after it,
    and the metric shows the time from [tv] to that reading [now]: for a clock at
    or after the boot time (and up to 2^63 nanoseconds, 292 years, later), its
    text reads back, from hours, minutes and seconds, to exactly the whole seconds
    of the difference, and its value is that number of seconds, exactly for the
    first 2^24 seconds (194 days), and later never less and at most one more: what
    [int64(uptime.Seconds())] may gain in [float64] arithmetic.  [boottime] is the
    boot time that was read. *)
Theorem uptime_accurate m (p : Proc W) (Hp : proc_ok p) :
  match MIBCache_GetTimeval "kern.boottime" (p_cache p) with
  | (Ok tv, c) =>
      let now := (time_Now (c_world c)).1 in
      ∃ v, computeUptime m p
        = (Ok (set_value m v),
           mkProc (mkCacheSt (time_Now (c_world c)).2 (c_cache c)) (p_index p)) ∧
        uptime_value tv now v
  | (Err err, c) =>
      computeUptime m p = (Ok (set_error m (prefixed "kern.boottime" err)), mkProc c (p_index p))
  | (Panic, _) => False
  end.
Proof.
  destruct Hp as [Hc _].
  pose proof (hoare_cache_Timeval (c_cache (p_cache p)) "kern.boottime" (p_cache p)
    (conj Hc (reflexivity _))) as Hsafe.
  unfold computeUptime, or_error, on_cache. run_simpl.
  destruct (MIBCache_GetTimeval "kern.boottime" (p_cache p)) as [[tv|err|] c]; [|done|done].
  cbn [p_cache p_index]. run_simpl. unfold proc_now. cbn [p_cache p_index].
  destruct (time_Now (c_world c)) as [now w]. cbn [fst snd].
  eexists. split; [reflexivity|]. apply uptime_value_intro.
Qed.

#[local] Transparent time_Sub Timeval_Time Duration_Seconds f64_trunc Duration_Truncate
  Duration_String format_local fmt_d structv uptime_value.

(** C13: the three fields of a timeval denote one instant: for a boot time or a
    sleep time with its microseconds within a second, the seconds and the
    microseconds are printed in decimal, and the time, in any zone of whole
    minutes, is a date of the calendar that reads back to exactly those
    seconds and the zone's offset: the civil date is right for every day. *)
Theorem timeval_fields_denote tv
    (Hsec : 0 ≤ tv_Sec tv < 2 ^ 62) (Husec : 0 ≤ tv_Usec tv < 1000000)
    (Hzone : (60 | zone_offset (tv_Sec tv))) (Hoff : - 86400 < zone_offset (tv_Sec tv)) :
  ∃ time, timeval_fields tv
      = [("sec", fmt_d (tv_Sec tv)); ("usec", fmt_d (tv_Usec tv)); ("time", time)] ∧
    read_rfc3339 time = Some (tv_Sec tv, zone_offset (tv_Sec tv)).
Proof.
  eexists. split; [reflexivity|].
  assert (Ht : t_sec (Timeval_Time tv) = tv_Sec tv).
  { unfold Timeval_Time. rewrite (i64_id (tv_Sec tv)) by lia.
    rewrite (i64_id (tv_Usec tv)) by lia. rewrite i64_id by lia. unfold time_Unix, Second.
    by rewrite decide_False by lia. }
  unfold format_local. rewrite Ht. rewrite Format_RFC3339_reads; [by rewrite Ht|done|].
  rewrite Ht. lia.
Qed.
End Theorems.

(** ** Witnesses on the concrete kernel *)

(** A host in UTC whose clock stands 2^24 seconds after boot, less one
    nanosecond. *)
Definition demo_host : Host nat :=
  {| time_Now := λ w, (mkTime 17777217 499999, S w); zone_offset := λ _, 0 |}.

Definition demo_proc : Proc nat := mkProc demo_cold None.

Lemma demo_proc_ok : @proc_ok nat demo_kernel demo_spec demo_proc.
Proof. split; [exact (@cache_ok_empty nat demo_kernel demo_spec)|by left]. Qed.

Definition ncpu_info : Info :=
  mkInfo "hw.ncpu" "Total number of CPUs (logical)" TypeInt32 CatHWCPU.

Lemma ncpu_entry : registry_entry "hw.ncpu" = Some ncpu_info.
Proof. apply registry_entry_Some. split; [by_decide|reflexivity]. Qed.

Lemma readMetricLive_total_witness :
  ∃ m p', @readMetricLive nat demo_kernel demo_host "hw.ncpu" demo_proc = (Ok m, p') ∧
    metric_for "hw.ncpu" m.
Proof.
  destruct (@readMetricLive_total nat demo_kernel demo_spec demo_host "hw.ncpu" demo_proc
    demo_proc_ok) as (m & p' & Hr & Hm & _). exists m, p'. split; [exact Hr|exact Hm].
Defined.

(** The value is the kernel's ten processors. *)
Lemma readMetricLive_refines_read_witness :
  ∃ p', @readMetricLive nat demo_kernel demo_host "hw.ncpu" demo_proc
    = (Ok (mkMetric "hw.ncpu" "hw.cpu" (Some (Metric_Int32Value 10)) None), p').
Proof.
  destruct (@readMetricLive_refines_read nat demo_kernel demo_spec demo_host "hw.ncpu" ncpu_info
    demo_proc demo_proc_ok ltac:(by_decide) ncpu_entry ltac:(by_decide)) as (m & p' & Hr & Hm).
  exists p'. rewrite Hr. f_equal. f_equal. vm_compute in Hm. exact Hm.
Defined.

Definition blank (name : string) : Metric := mkMetric name "computed" None None.

Lemma total_connections_exact_witness :
  ∃ m' p', @computeTotalConnections nat demo_kernel (blank "computed.total_connections") demo_proc
    = (Ok m', p') ∧ finishes connections_value
      (error_matches "computed.total_connections" TypeComputed) (blank "computed.total_connections") m'.
Proof.
  destruct (@total_connections_exact nat demo_kernel demo_spec
    (blank "computed.total_connections") demo_proc demo_proc_ok (conj eq_refl eq_refl))
    as (m' & p' & Hr & Hm & _). exists m', p'. split; [exact Hr|exact Hm].
Defined.


(** The host of the examples, 2^24 + 1 seconds after boot less one nanosecond. *)
Lemma uptime_accurate_witness :
  ∃ m' p', @computeUptime nat demo_kernel demo_host (blank "computed.uptime_seconds") demo_proc
    = (Ok m', p') ∧ ∃ tv v, m_Value m' = Some v ∧
      @uptime_value nat demo_host tv (mkTime 17777217 499999) v ∧
      since_boot (mkTime 17777217 499999) tv = (2 ^ 24 + 1) * Second - 1.
Proof.
  pose proof (@uptime_accurate nat demo_kernel demo_spec demo_host (blank "computed.uptime_seconds")
    demo_proc demo_proc_ok) as Hu.
  set (r := MIBCache_GetTimeval "kern.boottime" (p_cache demo_proc)) in Hu.
  vm_compute in r. subst r. cbv iota beta zeta in Hu. destruct Hu as (v & Hr & Hv).
  eexists _, _. split; [exact Hr|]. eexists _, v. split; [reflexivity|].
  split; [exact Hv|]. by_decide.
Defined.

(** The two renderings of the uptime disagree near the end of a second: 2^24
    seconds after boot less one nanosecond, [int64(uptime.Seconds())] has been
    rounded up by [float64] while the ["human"] field truncates the duration. *)
Theorem uptime_value_rounds_up :
  match (@computeUptime nat demo_kernel demo_host (blank "computed.uptime_seconds") demo_proc).1 with
  | Ok m => m_Value m = Some (structv "computed"
      [("value", "16777217"); ("unit", "seconds"); ("human", "4660h20m16s");
       ("boottime", "1970-01-12T13:46:40Z")])
  | _ => False
  end.
Proof. vm_compute. reflexivity. Qed.

(** A host in India, at a leap day. *)
Definition india_host : Host nat :=
  {| time_Now := λ w, (mkTime 1709164800 0, S w); zone_offset := λ _, 19800 |}.

Lemma timeval_fields_denote_witness :
  ∃ time, @timeval_fields nat india_host {| tv_Sec := 1709164800; tv_Usec := 5 |}
      = [("sec", "1709164800"); ("usec", "5"); ("time", time)] ∧
    read_rfc3339 time = Some (1709164800, 19800).
Proof.
  exact (@timeval_fields_denote nat india_host {| tv_Sec := 1709164800; tv_Usec := 5 |}
    ltac:(cbn; lia) ltac:(cbn; lia) ltac:(exists 330; reflexivity) ltac:(cbn; lia)).
Defined.
