(* ===== verification/FullRegistry.v ===== *)
(** * The served registry (internal/server/server.go: buildFullRegistry,
    minSubscribeInterval, ListKnownMetrics, ListCategories, GetKernelRegistry)

    The server merges the [Known] table with the kernel registry once, at
    start-up; the listing handlers are pure functions of the result. *)

From Stdlib Require Import ZArith Lia.
From S2P Require Import Prelude GoTime Registry KernelRegistry Classify.

Local Open Scope Z_scope.

(** ** Merging *)

Definition defaultAccess : AccessConfig := mkAccess DYNAMIC None.

(** One iteration of the loop over [metrics.Known]. *)
Definition merge_entry (kernelByName : gmap string KernelMetric) (info : Info) : KernelMetric :=
  match kernelByName !! info_Name info with
  | Some km2 =>
      mkKernelMetric (info_Name info) (info_Description info) (info_Type info) (info_Category info)
        (km_KernelAccessPattern km2) (km_RecommendedAccessPattern km2) (km_Notes km2)
  | None =>
      mkKernelMetric (info_Name info) (info_Description info) (info_Type info) (info_Category info)
        (Some defaultAccess) (Some defaultAccess) EmptyString
  end.

(** The argument is [s.kernelRegistry], nil when no registry was loaded. *)
Definition buildFullRegistry (kernelRegistry : option KernelMetricRegistry) : KernelMetricRegistry :=
  let kernelByName :=
    match kernelRegistry with Some reg => KernelRegistryByName reg | None => ∅ end in
  mkRegistry
    (match kernelRegistry with Some reg => reg_OsRegistry reg | None => EmptyString end)
    (match kernelRegistry with Some reg => reg_OsVersion reg | None => EmptyString end)
    (foldl (λ metrics info, metrics ++ [merge_entry kernelByName info]) [] Known).

(** ** Listing *)

Definition ListKnownMetrics (full : KernelMetricRegistry) (category : string)
    : KernelMetricRegistry :=
  if decide (category = EmptyString) then full
  else mkRegistry (reg_OsRegistry full) (reg_OsVersion full)
         (filter (λ km, km_Category km = category) (reg_Metrics full)).

(** [pb.CategoryInfo]: the count is an [int32]. *)
Record CategoryInfo := mkCategoryInfo { ci_Name : string; ci_MetricCount : Z }.

Definition ListCategories : list CategoryInfo :=
  (λ cat, mkCategoryInfo cat (i32 (Z.of_nat (length (ByCategory cat))))) <$> Categories.

(** ** The subscription floor *)

(** [time.Duration(rec.Ttl.Seconds)*time.Second + time.Duration(rec.Ttl.Nanos)],
    each operation wrapping at 64 bits. *)
Definition ttl_nanos (ttl : DurationPb) : Z :=
  i64 (i64 (dur_Seconds ttl * Second) + dur_Nanos ttl).

Definition min_interval_step (min : Z) (km : KernelMetric) : Z :=
  match km_RecommendedAccessPattern km with
  | Some rec =>
      match ac_Ttl rec with
      | Some d =>
          let ttl := ttl_nanos d in
          if decide (ttl > 0 ∧ ttl < min) then ttl else min
      | None => min
      end
  | None => min
  end.

Definition minSubscribeInterval (full : option KernelMetricRegistry) : Z :=
  let min := 100 * Millisecond in
  match full with
  | None => min
  | Some reg => foldl min_interval_step min (reg_Metrics reg)
  end.

(** [pb.GetKernelRegistryResponse]. *)
Definition GetKernelRegistry (full : KernelMetricRegistry) : KernelMetricRegistry * Z :=
  (full, minSubscribeInterval (Some full)).

(** ** Lemmas *)

Lemma foldl_snoc_fmap {A B} (f : A → B) l acc :
  foldl (λ ys x, ys ++ [f x]) acc l = acc ++ (f <$> l).
Proof.
  revert acc. induction l as [|x l IH]; intros acc; simpl; [by rewrite app_nil_r|].
  by rewrite IH, <- app_assoc.
Qed.

(** Indexing a registry by name keeps the last entry of each name. *)
Lemma metrics_by_name_last l (m : gmap string KernelMetric) name :
  foldl (λ m km, <[km_Name km := km]> m) m l !! name
  = match last (filter (λ km, km_Name km = name) l) with
    | Some km => Some km
    | None => m !! name
    end.
Proof.
  revert m. induction l as [|km l IH]; intros m; [done|].
  cbn [foldl]. rewrite IH, filter_cons, lookup_insert.
  destruct (decide (km_Name km = name)) as [E|E]; [|done].
  rewrite last_cons. by destruct (last _).
Qed.

Lemma metrics_fmap kernelRegistry :
  reg_Metrics (buildFullRegistry kernelRegistry)
  = merge_entry match kernelRegistry with Some reg => KernelRegistryByName reg | None => ∅ end
      <$> Known.
Proof. unfold buildFullRegistry. cbn [reg_Metrics]. by rewrite foldl_snoc_fmap. Qed.

(** What an entry of the served registry is, from the table's entry and the last
    entry of that name in the kernel registry, if any. *)
Definition served_as (kernel : option KernelMetric) (info : Info) (km : KernelMetric) : Prop :=
  km_Name km = info_Name info ∧ km_Description km = info_Description info ∧
  km_ValueType km = info_Type info ∧ km_Category km = info_Category info ∧
  match kernel with
  | Some km2 =>
      km_KernelAccessPattern km = km_KernelAccessPattern km2 ∧
      km_RecommendedAccessPattern km = km_RecommendedAccessPattern km2 ∧
      km_Notes km = km_Notes km2
  | None =>
      km_KernelAccessPattern km = Some defaultAccess ∧
      km_RecommendedAccessPattern km = Some defaultAccess ∧ km_Notes km = EmptyString
  end.

Definition kernel_entry (kernelRegistry : option KernelMetricRegistry) (name : string)
    : option KernelMetric :=
  reg ← kernelRegistry; last (filter (λ km, km_Name km = name) (reg_Metrics reg)).

Lemma merge_entry_served kernelRegistry info :
  served_as (kernel_entry kernelRegistry (info_Name info)) info
    (merge_entry match kernelRegistry with Some reg => KernelRegistryByName reg | None => ∅ end info).
Proof.
  unfold served_as, merge_entry, kernel_entry. destruct kernelRegistry as [reg|]; simpl.
  - unfold KernelRegistryByName, metrics_by_name.
    rewrite metrics_by_name_last, lookup_empty. by destruct (last _).
  - rewrite lookup_empty. done.
Qed.

Lemma merge_entry_fields m info :
  km_Name (merge_entry m info) = info_Name info ∧
  km_Category (merge_entry m info) = info_Category info.
Proof. unfold merge_entry. by destruct (m !! _). Qed.

Lemma full_names kernelRegistry :
  km_Name <$> reg_Metrics (buildFullRegistry kernelRegistry) = info_Name <$> Known.
Proof.
  rewrite metrics_fmap, <- list_fmap_compose. apply list_fmap_ext.
  intros i info _. apply merge_entry_fields.
Qed.

(** One step lowers the floor to the entry's TTL when that is positive. *)
Definition positive_ttl (km : KernelMetric) (ttl : Z) : Prop :=
  ∃ rec d, km_RecommendedAccessPattern km = Some rec ∧ ac_Ttl rec = Some d ∧
           ttl = ttl_nanos d ∧ 0 < ttl.

Lemma min_interval_step_spec min km :
  min_interval_step min km ≤ min ∧
  (∀ ttl, positive_ttl km ttl → min_interval_step min km ≤ ttl) ∧
  (min_interval_step min km = min ∨ positive_ttl km (min_interval_step min km)).
Proof.
  unfold min_interval_step, positive_ttl.
  destruct (km_RecommendedAccessPattern km) as [rec|]; [|split_and!; [lia|naive_solver|by left]].
  destruct (ac_Ttl rec) as [d|] eqn:Ed; [|split_and!; [lia|naive_solver|by left]].
  destruct (decide _) as [[H1 H2]|Hn]; (split_and!; [lia|..]).
  - intros ttl (rec' & d' & ? & ? & -> & ?). simplify_eq. lia.
  - right. exists rec, d. split_and!; [done|done|done|lia].
  - intros ttl (rec' & d' & ? & ? & -> & ?). simplify_eq. lia.
  - by left.
Qed.

Lemma min_interval_fold l min :
  foldl min_interval_step min l ≤ min ∧
  (∀ km ttl, km ∈ l → positive_ttl km ttl → foldl min_interval_step min l ≤ ttl) ∧
  (foldl min_interval_step min l = min ∨
   ∃ km, km ∈ l ∧ positive_ttl km (foldl min_interval_step min l)).
Proof.
  revert min. induction l as [|km l IH]; intros min; simpl.
  { split_and!; [lia|by intros ? ? ?%elem_of_nil|by left]. }
  destruct (min_interval_step_spec min km) as (S1 & S2 & S3).
  destruct (IH (min_interval_step min km)) as (I1 & I2 & I3).
  split_and!; [lia|..].
  - intros km' ttl [->|Hin]%elem_of_cons Ht; [|by eapply I2].
    specialize (S2 ttl Ht). lia.
  - destruct I3 as [I3|(km' & Hin & Ht)].
    + destruct S3 as [S3|S3]; [left; lia|]. right. exists km. rewrite I3. split; [left|done].
    + right. exists km'. split; [by right|done].
Qed.

(** The floor is positive, so a ticker can be made of it. *)
Lemma minSubscribeInterval_pos reg : 0 < minSubscribeInterval (Some reg) ≤ 100 * Millisecond.
Proof.
  destruct (min_interval_fold (reg_Metrics reg) (100 * Millisecond)) as (H1 & _ & H3).
  split; [|exact H1]. unfold minSubscribeInterval.
  destruct H3 as [->|(km & _ & (_ & _ & _ & _ & _ & Hp))]; [done|exact Hp].
Qed.

(** Filtering the merged table by category is merging the category's part. *)
Lemma filter_category (f : Info → KernelMetric) cat (l : list Info) :
  (∀ info, km_Category (f info) = info_Category info) →
  filter (λ km, km_Category km = cat) (f <$> l)
  = f <$> filter (λ info, info_Category info = cat) l.
Proof.
  intros Hf. induction l as [|info l IH]; [done|].
  rewrite fmap_cons, !filter_cons, Hf.
  destruct (decide _); [by rewrite fmap_cons, IH|done].
Qed.

Lemma ListKnownMetrics_category kernelRegistry cat :
  cat ≠ EmptyString →
  km_Name <$> reg_Metrics (ListKnownMetrics (buildFullRegistry kernelRegistry) cat)
  = info_Name <$> ByCategory cat.
Proof.
  intros Hc. unfold ListKnownMetrics. rewrite decide_False by done. cbn [reg_Metrics].
  rewrite metrics_fmap, filter_category by (intros; apply merge_entry_fields).
  rewrite <- list_fmap_compose. apply list_fmap_ext. intros i info _. apply merge_entry_fields.
Qed.

(** Every listed category has a name and a count that fits. *)
Lemma listed_categories :
  Forall (λ cat, cat ≠ EmptyString ∧ (0 < length (ByCategory cat) ≤ 250)%nat) Categories.
Proof. by_decide. Qed.

(** ** Theorems *)

(** C23: the served registry is the [Known] table, entry for entry and in order,
    with the access patterns and notes of the kernel registry's entry of the
    same name (the last one, were there several), and DYNAMIC for both patterns
    where there is none; kernel entries unknown to the table are dropped. *)
Theorem buildFullRegistry_correct kernelRegistry :
  Forall2 (λ info km, served_as (kernel_entry kernelRegistry (info_Name info)) info km)
    Known (reg_Metrics (buildFullRegistry kernelRegistry)).
Proof.
  rewrite metrics_fmap. apply Forall2_fmap_r. apply Forall_Forall2_diag, Forall_true.
  intros info. apply merge_entry_served.
Qed.

(** Whatever passes validation is served in a form that passes it again, and
    so is the registry of a server that found no kernel registry. *)
Theorem buildFullRegistry_validates `{MapOrder} kernelRegistry
    (Hok : ∀ reg, kernelRegistry = Some reg → ValidateRegistry reg = []) :
  ValidateRegistry (buildFullRegistry kernelRegistry) = [].
Proof.
  apply validate_against_nil; [apply Known_names_NoDup|].
  split_and!.
  - rewrite full_names. apply Known_names_NoDup.
  - intros name. by rewrite full_names.
  - rewrite metrics_fmap. apply Forall_fmap, Forall_forall. intros info Hin. unfold compose.
    unfold merge_entry. destruct kernelRegistry as [reg|].
    2: { rewrite lookup_empty. split; [by eexists|]. exists defaultAccess. split; [done|].
         by intros [?|?]. }
    specialize (Hok reg eq_refl). apply validate_against_nil in Hok; [|apply Known_names_NoDup].
    destruct Hok as (Hnd & Hnames & Hall). rewrite Forall_forall in Hall.
    assert (info_Name info ∈ (km_Name <$> reg_Metrics reg)) as (km & Hn & Hkm)%list_elem_of_fmap.
    { apply Hnames, list_elem_of_fmap. eauto. }
    unfold KernelRegistryByName, metrics_by_name.
    rewrite (metrics_by_name_lookup_Some _ _ _ km) by done.
    exact (Hall km Hkm).
Qed.

Lemma buildFullRegistry_validates_witness :
  @ValidateRegistry some_order (buildFullRegistry (Some textproto_24_6_0)) = [].
Proof.
  apply buildFullRegistry_validates. intros reg Hr. injection Hr as <-.
  apply textproto_validates.
Defined.

(** The listing handlers agree: every category [ListCategories] names is
    non-empty, appears once, and its count is the number of metrics
    [ListKnownMetrics] returns for it, which are those of the table, in order;
    the counts add up to the 250 metrics that the empty category returns. *)
Theorem listing_consistent kernelRegistry :
  NoDup (ci_Name <$> ListCategories) ∧
  Forall (λ c, 0 < ci_MetricCount c ∧
    ci_MetricCount c = Z.of_nat (length (reg_Metrics
      (ListKnownMetrics (buildFullRegistry kernelRegistry) (ci_Name c)))) ∧
    km_Name <$> reg_Metrics (ListKnownMetrics (buildFullRegistry kernelRegistry) (ci_Name c))
      = info_Name <$> ByCategory (ci_Name c)) ListCategories ∧
  foldr Z.add 0 (ci_MetricCount <$> ListCategories) = 250 ∧
  km_Name <$> reg_Metrics (ListKnownMetrics (buildFullRegistry kernelRegistry) EmptyString)
    = info_Name <$> Known.
Proof.
  split_and!.
  - unfold ListCategories. rewrite <- list_fmap_compose.
    apply NoDup_fmap_2; [by intros ???|apply categories_loop_spec].
  - unfold ListCategories. apply Forall_fmap. eapply Forall_impl; [apply listed_categories|].
    intros cat [Hc Hl]. unfold compose. cbn [ci_Name ci_MetricCount].
    rewrite i32_id by lia. split_and!; [lia| |by apply ListKnownMetrics_category].
    rewrite <- (length_fmap km_Name), ListKnownMetrics_category by done.
    by rewrite length_fmap.
  - vm_compute. reflexivity.
  - unfold ListKnownMetrics. rewrite decide_True by done. apply full_names.
Qed.

(** With the checked-in registry no TTL is shorter than ten seconds. *)
Lemma shipped_ttls :
  let full := buildFullRegistry (Some textproto_24_6_0) in
  GetKernelRegistry full = (full, 100 * Millisecond) ∧
  (∀ km ttl, km ∈ reg_Metrics full → positive_ttl km ttl → 10 * Second ≤ ttl) ∧
  (∃ km, km ∈ reg_Metrics full ∧ positive_ttl km (10 * Second)).
Proof.
  intros full.
  assert (Hall : foldl min_interval_step (10 * Second) (reg_Metrics full) = 10 * Second).
  { vm_compute. reflexivity. }
  split_and!.
  - unfold GetKernelRegistry. f_equal.
  - intros km ttl Hin Ht. rewrite <- Hall.
    destruct (min_interval_fold (reg_Metrics full) (10 * Second)) as (_ & H2 & _).
    by eapply H2.
  - assert (Hmin : foldl min_interval_step (10 * Second + 1) (reg_Metrics full) = 10 * Second).
    { vm_compute. reflexivity. }
    destruct (min_interval_fold (reg_Metrics full) (10 * Second + 1)) as (_ & _ & [H3|H3]).
    + rewrite Hmin in H3. discriminate H3.
    + rewrite Hmin in H3. exact H3.
Qed.

(** C27: [minSubscribeInterval] is the smaller of 100 ms and the shortest
    positive recommended TTL: positive, never above 100 ms, never above a
    positive TTL, and one of those values.  With the checked-in registry the
    shortest TTL is ten seconds, so the floor that [GetKernelRegistry] reports
    is the constant 100 ms, a hundred times below it. *)
Theorem minSubscribeInterval_correct :
  (∀ reg, let r := minSubscribeInterval (Some reg) in
     0 < r ≤ 100 * Millisecond ∧
     (∀ km ttl, km ∈ reg_Metrics reg → positive_ttl km ttl → r ≤ ttl) ∧
     (r = 100 * Millisecond ∨ ∃ km, km ∈ reg_Metrics reg ∧ positive_ttl km r)) ∧
  (let full := buildFullRegistry (Some textproto_24_6_0) in
   GetKernelRegistry full = (full, 100 * Millisecond) ∧
   (∀ km ttl, km ∈ reg_Metrics full → positive_ttl km ttl → 10 * Second ≤ ttl) ∧
   (∃ km, km ∈ reg_Metrics full ∧ positive_ttl km (10 * Second))).
Proof.
  split; [|exact shipped_ttls]. intros reg r.
  destruct (min_interval_fold (reg_Metrics reg) (100 * Millisecond)) as (_ & H2 & H3).
  split; [apply minSubscribeInterval_pos|]. by split.
Qed.
