(* ===== verification/Poller.v ===== *)
(** * The poller (internal/server/poller.go)

    The metric store, the construction of the poller from the served registry,
    one tick, and the polling goroutine with its stop protocol as a step
    relation.  The poller's own state is a record; it runs together with the
    process state of the metric reads. *)

From Stdlib Require Import ZArith Lia.
From S2P Require Import Prelude GoTime Kernel TableKernel MibCache Registry KernelRegistry.
From S2P Require Import Classify Metrics FullRegistry.

Local Open Scope Z_scope.

(** ** The metric store

    The read-write lock makes each of these one atomic step. *)

Abbreviation metricStore := (gmap string Metric).

Definition newMetricStore : metricStore := ∅.
Definition store_get (s : metricStore) (name : string) : option Metric := s !! name.
Definition store_put (s : metricStore) (name : string) (m : Metric) : metricStore := <[name := m]> s.

(** [for name, m := range batch { s.values[name] = m }]. *)
Definition putBatch `{MapOrder} (s : metricStore) (batch : gmap string Metric) : metricStore :=
  foldl (λ s name, match batch !! name with Some m => <[name := m]> s | None => s end)
    s (range_keys batch).

(** ** The poller *)

Record polledMetric := mkPolled {
  pm_name : string;
  pm_ttlNanos : Z;
  pm_nextGatherNs : Z;
}.

(** The channels [stopCh] and [doneCh] carry no values: they are open or
    closed. *)
Record poller := mkPoller {
  po_store : metricStore;
  po_frequencyIncrement : Z;
  po_polledMetrics : list polledMetric;
  po_stopCh_closed : bool;
  po_doneCh_closed : bool;
}.

Section Poller.
Context {W : Type} `{Kernel W} `{Host W} `{MapOrder}.

(** What the loop of [newPoller] has built so far, with the three counts it
    logs. *)
Record PollInit := mkPollInit {
  pi_store : metricStore;
  pi_polled : list polledMetric;
  pi_static : Z;
  pi_polledCount : Z;
  pi_constrained : Z;
}.

Definition default_ttl : Z := 10 * Second.

Definition ttl_of (rec : AccessConfig) : Z :=
  match ac_Ttl rec with
  | Some d => i64 (i64 (dur_Seconds d * Second) + dur_Nanos d)
  | None => default_ttl
  end.

Definition newPoller_step (now : Z) (acc : PollInit) (km : KernelMetric)
    : M (Proc W) PollInit :=
  match km_RecommendedAccessPattern km with
  | None => mret acc
  | Some rec =>
      match ac_Pattern rec with
      | STATIC =>
          m ← readMetricLive (km_Name km);
          mret (mkPollInit (store_put (pi_store acc) (km_Name km) m) (pi_polled acc)
                  (pi_static acc + 1) (pi_polledCount acc) (pi_constrained acc))
      | (POLLED | CONSTRAINED) as pattern =>
          let polled := pi_polled acc ++ [mkPolled (km_Name km) (ttl_of rec) now] in
          let c := if decide (pattern = CONSTRAINED) then 1 else 0 in
          m ← readMetricLive (km_Name km);
          mret (mkPollInit (store_put (pi_store acc) (km_Name km) m) polled
                  (pi_static acc) (pi_polledCount acc + (1 - c)) (pi_constrained acc + c))
      | _ => mret acc
      end
  end.

(** The poller and the counts of its log line. *)
Definition newPoller (fullRegistry : option KernelMetricRegistry) (frequencyIncrement : Z)
    : M (Proc W) (poller * option (Z * Z * Z)) :=
  let p := mkPoller newMetricStore frequencyIncrement [] false false in
  match fullRegistry with
  | None => mret (p, None)
  | Some full =>
      t ← proc_now;
      r ← foldM (newPoller_step (UnixNano t)) (mkPollInit (po_store p) [] 0 0 0) (reg_Metrics full);
      mret (mkPoller (pi_store r) frequencyIncrement (pi_polled r) false false,
            Some (pi_static r, pi_polledCount r, pi_constrained r))
  end.

(** ** One tick *)

(** The poller with the process it reads through. *)
Record PollSt := mkPollSt { ps_proc : Proc W; ps_poller : poller }.

Definition on_proc {A} (m : M (Proc W) A) : M PollSt A :=
  zoom ps_proc (λ p st, mkPollSt p (ps_poller st)) m.

(** The body of the loop: [batch] so far and the entries already visited. *)
Definition tick_step (now : Z) (acc : gmap string Metric * list polledMetric)
    (pm : polledMetric) : M (Proc W) (gmap string Metric * list polledMetric) :=
  let '(batch, visited) := acc in
  if decide (pm_nextGatherNs pm ≤ now) then
    m ← readMetricLive (pm_name pm);
    mret (<[pm_name pm := m]> batch,
          visited ++ [mkPolled (pm_name pm) (pm_ttlNanos pm) (i64 (now + pm_ttlNanos pm))])
  else mret (batch, visited ++ [pm]).

Definition set_polled (pms : list polledMetric) (po : poller) : poller :=
  mkPoller (po_store po) (po_frequencyIncrement po) pms (po_stopCh_closed po) (po_doneCh_closed po).
Definition set_store (s : metricStore) (po : poller) : poller :=
  mkPoller s (po_frequencyIncrement po) (po_polledMetrics po)
    (po_stopCh_closed po) (po_doneCh_closed po).

Definition on_poller (f : poller → poller) : M PollSt unit :=
  modify (λ st, mkPollSt (ps_proc st) (f (ps_poller st))).

Definition tick : M PollSt unit :=
  t ← on_proc proc_now;
  pms ← gets (λ st, po_polledMetrics (ps_poller st));
  r ← on_proc (foldM (tick_step (UnixNano t)) (∅, []) pms);
  let '(batch, pms') := r in
  on_poller (set_polled pms');;
  if decide (0 < size batch)%nat
  then on_poller (λ po, set_store (putBatch (po_store po) batch) po)
  else mret tt.
End Poller.
Arguments PollSt : clear implicits.

(** ** The store *)

(** The order of the batch's iteration does not matter. *)
Lemma putBatch_union `{MapOrder} s batch : putBatch s batch = batch ∪ s.
Proof.
  unfold putBatch. apply map_eq. intros name.
  assert (Hgen : ∀ ks (s0 : metricStore), NoDup ks → (∀ k, k ∈ ks → is_Some (batch !! k)) →
    foldl (λ s name, match batch !! name with Some m => <[name := m]> s | None => s end) s0 ks !! name
    = if decide (name ∈ ks) then batch !! name else s0 !! name).
  { induction ks as [|k ks IH]; intros s0 Hnd Hin; [done|].
    apply NoDup_cons in Hnd as [Hk Hnd]. cbn [foldl].
    rewrite IH; [|done|intros; apply Hin; by right].
    destruct (Hin k ltac:(left)) as [m Hm]. rewrite Hm.
    destruct (decide (name ∈ ks)) as [Hn|Hn].
    { rewrite decide_True; [done|]. by right. }
    destruct (decide (name = k)) as [->|Hne].
    - rewrite decide_True by left. by rewrite lookup_insert_eq, Hm.
    - rewrite decide_False by (by rewrite elem_of_cons; intros [?|?]).
      by rewrite lookup_insert_ne. }
  rewrite Hgen.
  - rewrite lookup_union. destruct (decide _) as [Hn|Hn].
    + apply elem_of_range_keys in Hn as [m Hm]. rewrite Hm. by destruct (s !! name).
    + destruct (batch !! name) as [m|] eqn:Hm; [exfalso; apply Hn, elem_of_range_keys; eauto|].
      by rewrite (left_id_L None _).
  - rewrite range_keys_perm. apply NoDup_fst_map_to_list.
  - intros k Hk. by apply elem_of_range_keys.
Qed.

(** The entries of a list of names and values, the last of a name winning. *)
Definition insert_all (m : gmap string Metric) (kvs : list (string * Metric)) : gmap string Metric :=
  foldl (λ m kv, <[kv.1 := kv.2]> m) m kvs.

Lemma insert_all_app m (l k : list (string * Metric)) : insert_all m (l ++ k) = insert_all (insert_all m l) k.
Proof. apply foldl_app. Qed.

Lemma insert_all_notin m kvs name :
  name ∉ kvs.*1 → insert_all m kvs !! name = m !! name.
Proof.
  revert m. induction kvs as [|[k v] kvs IH]; intros m Hn; [done|].
  rewrite fmap_cons, not_elem_of_cons in Hn. destruct Hn as [Hk Hn].
  cbn [insert_all foldl]. rewrite IH by done. simpl. by rewrite lookup_insert_ne.
Qed.

Lemma insert_all_in m kvs name v :
  NoDup kvs.*1 → (name, v) ∈ kvs → insert_all m kvs !! name = Some v.
Proof.
  revert m. induction kvs as [|[k w] kvs IH]; intros m Hnd Hin; [by apply elem_of_nil in Hin|].
  rewrite fmap_cons, NoDup_cons in Hnd. destruct Hnd as [Hk Hnd].
  cbn [insert_all foldl]. apply elem_of_cons in Hin as [[= -> ->]|Hin]; [|by apply IH].
  rewrite insert_all_notin by done. by rewrite lookup_insert_eq.
Qed.

(** Inserting into an empty batch and publishing it is inserting into the
    store. *)
Lemma insert_all_union s kvs : insert_all ∅ kvs ∪ s = insert_all s kvs.
Proof.
  rewrite <- (map_empty_union s) at 2. generalize (∅ : gmap string Metric) as b.
  induction kvs as [|[k v] kvs IH]; intros b; [done|]. cbn [insert_all foldl fst snd].
  rewrite insert_union_l. apply IH.
Qed.

(** ** Loops of live reads *)

(** Entries gathered at a tick, and what a tick does to an entry's schedule. *)
Definition due (now : Z) (pm : polledMetric) : Prop := pm_nextGatherNs pm ≤ now.

#[export] Instance due_dec now pm : Decision (due now pm).
Proof. unfold due. apply _. Defined.

Definition due_names (now : Z) (pms : list polledMetric) : list string :=
  pm_name <$> filter (due now) pms.

Definition advance (now : Z) (pm : polledMetric) : polledMetric :=
  if decide (due now pm)
  then mkPolled (pm_name pm) (pm_ttlNanos pm) (i64 (now + pm_ttlNanos pm)) else pm.

(** Entries of the registry the poller stores, and those it schedules. *)
Definition recommends (ps : list AccessPattern) (km : KernelMetric) : Prop :=
  match km_RecommendedAccessPattern km with Some rec => ac_Pattern rec ∈ ps | None => False end.

#[export] Instance recommends_dec ps km : Decision (recommends ps km).
Proof. unfold recommends. destruct (km_RecommendedAccessPattern km); apply _. Defined.

Abbreviation stored := (recommends [STATIC; POLLED; CONSTRAINED]).
Abbreviation polled := (recommends [POLLED; CONSTRAINED]).

Definition km_ttl (km : KernelMetric) : Z :=
  match km_RecommendedAccessPattern km with Some rec => ttl_of rec | None => default_ttl end.

Definition schedule (now : Z) (km : KernelMetric) : polledMetric :=
  mkPolled (km_Name km) (km_ttl km) now.

Definition count_recommended (p : AccessPattern) (l : list KernelMetric) : Z :=
  Z.of_nat (length (filter (recommends [p]) l)).

Section Loops.
Context {W : Type} `{SysctlSpec W} `{Host W} `{MapOrder}.

(** Correct, and with a MIB cache grown from that of [p]. *)
Definition proc_after (p p' : Proc W) : Prop :=
  proc_ok p' ∧ c_cache (p_cache p) ⊆ c_cache (p_cache p').

Lemma hoare_live_reads p names :
  hoare_ok (proc_after p) (mapM readMetricLive names)
    (λ ms p', Forall2 metric_for names ms ∧ proc_after p p').
Proof. apply hoare_mapM. intros name _. apply hoare_readMetricLive. Qed.

Lemma live_reads_ok names (p : Proc W) :
  proc_ok p → ∃ ms p', mapM readMetricLive names p = (Ok ms, p') ∧
    Forall2 metric_for names ms ∧ proc_after p p'.
Proof.
  intros Hp. pose proof (hoare_live_reads p names p (conj Hp (reflexivity _))) as Hh.
  destruct (mapM readMetricLive names p) as [[ms|e|] p']; [|done|done].
  destruct Hh. eauto.
Qed.

(** Any live read leaves the name index built. *)
Lemma live_reads_warm names (p p' : Proc W) ms :
  proc_ok p → names ≠ [] → mapM readMetricLive names p = (Ok ms, p') →
  p_index p' = Some (index_by_name Known).
Proof.
  intros Hp Hne. revert p ms Hp. induction names as [|name names IH]; intros p ms Hp; [done|].
  cbn [mapM]. run_simpl. destruct (readMetricLive_ok name p Hp) as (m & p1 & Hr & _ & Hp1).
  rewrite Hr. run_simpl. destruct (decide (names = [])) as [->|Hn].
  - cbn [mapM]. run_simpl. intros [= _ <-]. by destruct Hp1.
  - destruct (mapM readMetricLive names p1) as [[ms'|e|] p2] eqn:E; [|done|done].
    intros [= _ <-]. exact (IH Hn p1 ms' (proc_at_ok _ _ Hp1) E).
Qed.

(** The tick's loop reads exactly the due entries, in order. *)
Lemma tick_loop now pms batch visited (p : Proc W) :
  foldM (tick_step now) (batch, visited) pms p =
    match mapM readMetricLive (due_names now pms) p with
    | (Ok ms, p') => (Ok (insert_all batch (zip (due_names now pms) ms),
                          visited ++ (advance now <$> pms)), p')
    | (Err e, p') => (Err e, p')
    | (Panic, p') => (Panic, p')
    end.
Proof.
  revert batch visited p. induction pms as [|pm pms IH]; intros batch visited p.
  { unfold due_names. rewrite filter_nil. simpl. run_simpl. by rewrite app_nil_r. }
  cbn [foldM tick_step]. unfold due_names, advance. rewrite filter_cons, !fmap_cons.
  fold (due now pm). destruct (decide (due now pm)) as [Hd|Hd]; run_simpl.
  - rewrite fmap_cons. cbn [mapM]. run_simpl.
    destruct (readMetricLive (pm_name pm) p) as [[m|e|] p1]; [|done|done]. run_simpl.
    rewrite IH. unfold due_names.
    destruct (mapM readMetricLive _ p1) as [[ms|e|] p2]; [|done|done].
    by rewrite <- app_assoc.
  - rewrite IH. unfold due_names.
    destruct (mapM readMetricLive _ p) as [[ms|e|] p2]; [|done|done].
    by rewrite <- app_assoc.
Qed.

(** [newPoller]'s loop reads exactly the stored entries, in order. *)
Lemma newPoller_loop now l acc (p : Proc W) :
  foldM (newPoller_step now) acc l p =
    match mapM readMetricLive (km_Name <$> filter stored l) p with
    | (Ok ms, p') =>
        (Ok (mkPollInit (insert_all (pi_store acc) (zip (km_Name <$> filter stored l) ms))
               (pi_polled acc ++ (schedule now <$> filter polled l))
               (pi_static acc + count_recommended STATIC l)
               (pi_polledCount acc + count_recommended POLLED l)
               (pi_constrained acc + count_recommended CONSTRAINED l)), p')
    | (Err e, p') => (Err e, p')
    | (Panic, p') => (Panic, p')
    end.
Proof.
  revert acc p. induction l as [|km l IH]; intros acc p.
  { rewrite !filter_nil. simpl. run_simpl.
    rewrite app_nil_r. unfold count_recommended. rewrite !filter_nil. simpl.
    rewrite !Z.add_0_r. by destruct acc. }
  cbn [foldM]. set (loop := foldM (newPoller_step now)) in *.
  unfold newPoller_step, count_recommended. rewrite !filter_cons.
  destruct (km_RecommendedAccessPattern km) as [rec|] eqn:Erec.
  2: { assert (Hr : ∀ ps, ¬ recommends ps km)
         by (intros ps; unfold recommends; rewrite Erec; by intros []).
       repeat match goal with |- context [decide (recommends ?ps km)] =>
         rewrite (decide_False (P := recommends ps km)) by apply Hr end.
       run_simpl. apply IH. }
  assert (Hr : ∀ ps, recommends ps km ↔ ac_Pattern rec ∈ ps)
    by (intros; unfold recommends; by rewrite Erec).
  assert (Hs : schedule now km = mkPolled (km_Name km) (ttl_of rec) now)
    by (unfold schedule, km_ttl; by rewrite Erec).
  destruct (ac_Pattern rec) eqn:Ep; run_simpl;
    repeat match goal with |- context [decide (recommends ?ps km)] =>
      first [ rewrite (decide_True (P := recommends ps km)) by (apply Hr; by_decide)
            | rewrite (decide_False (P := recommends ps km)) by (rewrite Hr; by_decide) ] end;
    try apply IH; rewrite fmap_cons; cbn [mapM]; run_simpl;
    (destruct (readMetricLive (km_Name km) p) as [[m|e|] p1]; [|done|done]); run_simpl;
    rewrite IH; cbn [pi_store pi_polled pi_static pi_polledCount pi_constrained];
    (destruct (mapM readMetricLive _ p1) as [[ms|e|] p2]; [|done|done]);
    rewrite ?fmap_cons, ?Hs, <- ?app_assoc; unfold count_recommended;
    do 2 f_equal; f_equal; cbn [length];
    repeat (first [rewrite decide_True by done|rewrite decide_False by done]); lia.
Qed.
End Loops.

(** ** One tick, exactly *)

Definition store_ok (s : metricStore) : Prop := ∀ name m, s !! name = Some m → metric_for name m.

Lemma store_ok_insert_all s names ms :
  store_ok s → Forall2 metric_for names ms → store_ok (insert_all s (zip names ms)).
Proof.
  intros Hs Hall. revert s Hs. induction Hall as [|name m names ms Hm Hall IH]; intros s Hs; [done|].
  cbn [zip zip_with insert_all foldl fst snd]. apply IH. intros name' m'. rewrite lookup_insert.
  case_decide; [naive_solver|by apply Hs].
Qed.

Lemma insert_all_dom s names ms name :
  length names = length ms →
  is_Some (insert_all s (zip names ms) !! name) ↔ name ∈ names ∨ is_Some (s !! name).
Proof.
  revert s ms. induction names as [|k names IH]; intros s [|m ms] Hl; try done; simpl.
  { split; [by right|]. intros [?%elem_of_nil|?]; done. }
  simpl in Hl. rewrite IH by lia. rewrite lookup_insert, elem_of_cons.
  case_decide; naive_solver.
Qed.

Lemma pm_name_advance now (pms : list polledMetric) : pm_name <$> (advance now <$> pms) = pm_name <$> pms.
Proof.
  rewrite <- list_fmap_compose. apply list_fmap_ext. intros i pm _.
  unfold compose, advance. by destruct (decide _).
Qed.

Section Ticks.
Context {W : Type} `{SysctlSpec W} `{Host W} `{MapOrder}.

(** The reading of the clock a tick (or [newPoller]) makes first. *)
Definition clock_at (p : Proc W) : Z := UnixNano (time_Now (c_world (p_cache p))).1.
Definition after_clock (p : Proc W) : Proc W := (proc_now p).2.

Lemma proc_now_run p : (proc_now p).1 = Ok (time_Now (c_world (p_cache p))).1.
Proof. unfold proc_now. by destruct (time_Now _). Qed.

Lemma after_clock_ok p : proc_ok p → proc_ok (after_clock p).
Proof. unfold after_clock, proc_now. by destruct (time_Now _). Qed.

Lemma after_clock_cache p : c_cache (p_cache (after_clock p)) = c_cache (p_cache p).
Proof. unfold after_clock, proc_now. by destruct (time_Now _). Qed.

Lemma tick_exact (st : PollSt W) :
  proc_ok (ps_proc st) →
  let po := ps_poller st in
  let now := clock_at (ps_proc st) in
  let names := due_names now (po_polledMetrics po) in
  ∃ ms p', mapM readMetricLive names (after_clock (ps_proc st)) = (Ok ms, p') ∧
    Forall2 metric_for names ms ∧ proc_after (ps_proc st) p' ∧
    tick st = (Ok tt, mkPollSt p'
      (mkPoller (insert_all (po_store po) (zip names ms)) (po_frequencyIncrement po)
         (advance now <$> po_polledMetrics po) (po_stopCh_closed po) (po_doneCh_closed po))).
Proof.
  intros Hp po now names.
  destruct (live_reads_ok names _ (after_clock_ok _ Hp)) as (ms & p' & Hrun & Hms & Hp').
  exists ms, p'. split; [exact Hrun|]. split; [exact Hms|].
  split; [by unfold proc_after in *; rewrite <- after_clock_cache|].
  unfold tick, on_proc, on_poller. run_simpl.
  pose proof (proc_now_run (ps_proc st)) as Hnow. unfold after_clock in Hrun.
  destruct (proc_now (ps_proc st)) as [o p1]. cbn [fst snd] in Hnow, Hrun. subst o. run_simpl.
  cbn [ps_poller ps_proc]. rewrite tick_loop. fold (clock_at (ps_proc st)). fold po now names.
  rewrite Hrun. run_simpl. cbn [app]. rewrite <- (insert_all_union (po_store po)).
  destruct (decide _) as [Hs|Hs]; unfold set_polled, set_store;
    cbn [po_store po_frequencyIncrement po_polledMetrics po_stopCh_closed po_doneCh_closed].
  - by rewrite putBatch_union.
  - assert (Hz : insert_all ∅ (zip names ms) = ∅) by (apply map_size_empty_iff; lia).
    by rewrite Hz, (left_id_L ∅ _).
Qed.

(** What a tick reads and where it puts it. *)
Lemma tick_reads (st : PollSt W) :
  proc_ok (ps_proc st) → NoDup (pm_name <$> po_polledMetrics (ps_poller st)) →
  let po := ps_poller st in
  let now := clock_at (ps_proc st) in
  let names := due_names now (po_polledMetrics po) in
  ∃ ms st', tick st = (Ok tt, st') ∧ proc_ok (ps_proc st') ∧
    mapM readMetricLive names (after_clock (ps_proc st)) = (Ok ms, ps_proc st') ∧
    po_polledMetrics (ps_poller st') = advance now <$> po_polledMetrics po ∧
    Forall2 (λ name m, po_store (ps_poller st') !! name = Some m ∧ metric_for name m) names ms ∧
    (∀ name, name ∉ names → po_store (ps_poller st') !! name = po_store po !! name).
Proof.
  intros Hp Hnd po now names. destruct (tick_exact st Hp) as (ms & p' & Hrun & Hms & [Hp' _] & Htick).
  fold po now names in Hrun, Hms, Htick. exists ms. eexists. split; [exact Htick|].
  cbn [ps_proc ps_poller po_store po_polledMetrics].
  assert (Hl : length names = length ms) by by eapply Forall2_length.
  assert (Hkeys : (zip names ms).*1 = names) by (apply fst_zip; lia).
  assert (Hn : NoDup names).
  { unfold names, due_names. eapply sublist_NoDup; [exact Hnd|].
    apply fmap_sublist, sublist_filter. }
  split; [exact Hp'|]. split; [exact Hrun|]. split; [reflexivity|]. split.
  - apply Forall2_same_length_lookup. split; [done|]. intros i name m Hi Hm.
    split.
    + apply insert_all_in; [by rewrite Hkeys|].
      apply list_elem_of_lookup. exists i. by rewrite lookup_zip_with, Hi, Hm.
    + by eapply Forall2_lookup_lr.
  - intros name Hnot. apply insert_all_notin. by rewrite Hkeys.
Qed.

Lemma newPoller_exact full freq (p : Proc W) :
  proc_ok p →
  let now := clock_at p in
  let names := km_Name <$> filter stored (reg_Metrics full) in
  ∃ ms p', mapM readMetricLive names (after_clock p) = (Ok ms, p') ∧
    Forall2 metric_for names ms ∧ proc_after p p' ∧
    newPoller (Some full) freq p
      = (Ok (mkPoller (insert_all ∅ (zip names ms)) freq
               (schedule now <$> filter polled (reg_Metrics full)) false false,
             Some (count_recommended STATIC (reg_Metrics full),
                   count_recommended POLLED (reg_Metrics full),
                   count_recommended CONSTRAINED (reg_Metrics full))), p').
Proof.
  intros Hp now names.
  destruct (live_reads_ok names _ (after_clock_ok _ Hp)) as (ms & p' & Hrun & Hms & Hp').
  exists ms, p'. split; [exact Hrun|]. split; [exact Hms|].
  split; [by unfold proc_after in *; rewrite <- after_clock_cache|].
  unfold newPoller. run_simpl. pose proof (proc_now_run p) as Hnow. unfold after_clock in Hrun.
  destruct (proc_now p) as [o p1]. cbn [fst snd] in Hnow, Hrun. subst o. run_simpl.
  rewrite newPoller_loop. fold (clock_at p). fold names. rewrite Hrun. run_simpl.
  by cbn [app pi_store pi_polled pi_static pi_polledCount pi_constrained po_store].
Qed.
End Ticks.

(** ** Runs of ticks *)

Lemma due_names_iff now pms i pm :
  NoDup (pm_name <$> pms) → pms !! i = Some pm → pm_name pm ∈ due_names now pms ↔ due now pm.
Proof.
  intros Hnd Hi. unfold due_names. rewrite list_elem_of_fmap. split.
  - intros (pm' & Hname & [Hd (j & Hj)%list_elem_of_lookup]%list_elem_of_filter).
    assert (i = j); [|by simplify_eq].
    apply (NoDup_lookup (pm_name <$> pms) i j (pm_name pm)); [done|..];
      rewrite list_lookup_fmap; [by rewrite Hi|by rewrite Hj, Hname].
  - intros Hd. exists pm. split; [done|]. apply list_elem_of_filter.
    split; [done|]. by eapply list_elem_of_lookup_2.
Qed.

(** The clock readings at which an entry is gathered, of those of a run. *)
Fixpoint gathers (pm : polledMetric) (nows : list Z) : list Z :=
  match nows with
  | [] => []
  | now :: nows' =>
      if decide (due now pm) then now :: gathers (advance now pm) nows' else gathers pm nows'
  end.

Lemma advance_idle now pm : ¬ due now pm → advance now pm = pm.
Proof. intros H. unfold advance. by rewrite decide_False. Qed.

(** An entry after a run of ticks. *)
Definition advance_all (nows : list Z) (pm : polledMetric) : polledMetric :=
  foldl (λ pm now, advance now pm) pm nows.

Lemma gathers_snoc pm nows now :
  gathers pm (nows ++ [now])
  = gathers pm nows ++ (if decide (due now (advance_all nows pm)) then [now] else []).
Proof.
  revert pm. induction nows as [|n nows IH]; intros pm; [simpl; by destruct (decide _)|].
  cbn [gathers app]. unfold advance_all. cbn [foldl]. fold (advance_all nows (advance n pm)).
  destruct (decide (due n pm)) as [Hd|Hd]; rewrite IH; [done|].
  by rewrite (advance_idle _ _ Hd).
Qed.

(** Times that fit [int64] with room for a TTL. *)
Definition time_range (z : Z) : Prop := 0 ≤ z < 2 ^ 62.

#[export] Instance time_range_dec z : Decision (time_range z).
Proof. unfold time_range. apply _. Defined.

Lemma advance_next now pm :
  time_range now → time_range (pm_ttlNanos pm) → due now pm →
  advance now pm = mkPolled (pm_name pm) (pm_ttlNanos pm) (now + pm_ttlNanos pm).
Proof.
  unfold time_range. intros Hn Ht Hd. unfold advance. rewrite decide_True by done.
  by rewrite i64_id by lia.
Qed.

Lemma gathers_head pm nows g l :
  gathers pm nows = g :: l → pm_nextGatherNs pm ≤ g.
Proof.
  revert pm. induction nows as [|now nows IH]; intros pm; simpl; [done|].
  destruct (decide _) as [Hd|Hd]; [|apply IH]. by intros [= <- _].
Qed.

(** An entry is never gathered twice within its TTL. *)
Lemma gathers_spaced pm nows k g1 g2 :
  Forall time_range nows → time_range (pm_ttlNanos pm) →
  gathers pm nows !! k = Some g1 → gathers pm nows !! S k = Some g2 →
  g1 + pm_ttlNanos pm ≤ g2.
Proof.
  intros Hr Ht. revert pm k Ht. induction Hr as [|now nows Hn Hr IH]; intros pm k Ht; [done|].
  simpl. destruct (decide _) as [Hd|Hd]; [|by apply IH].
  rewrite (advance_next _ _ Hn Ht Hd). destruct k as [|k]; cbn [lookup list_lookup].
  - intros [= <-] Hg. destruct (gathers _ nows) as [|g l] eqn:E; [done|].
    apply gathers_head in E. simpl in *. by simplify_eq.
  - apply (IH (mkPolled _ _ _) k Ht).
Qed.

(** The last reading of a run is a gather or less than a TTL after the last
    gather; before the first gather the entry waits for its time. *)
Lemma gathers_last pm nows now :
  Forall time_range (nows ++ [now]) → time_range (pm_ttlNanos pm) →
  match last (gathers pm (nows ++ [now])) with
  | Some g => now = g ∨ now < g + pm_ttlNanos pm
  | None => now < pm_nextGatherNs pm
  end.
Proof.
  revert pm. induction nows as [|n nows IH]; intros pm Hr Ht.
  - simpl. destruct (decide _) as [Hd|Hd]; [by left|]. unfold due in Hd. simpl. lia.
  - rewrite <- app_comm_cons in *. apply Forall_cons in Hr as [Hn Hr]. cbn [gathers].
    destruct (decide _) as [Hd|Hd]; [|by apply IH].
    specialize (IH (advance n pm) Hr). rewrite (advance_next _ _ Hn Ht Hd) in *.
    specialize (IH Ht). rewrite last_cons. cbn [pm_ttlNanos pm_nextGatherNs] in *.
    destruct (last (gathers _ _)) as [g|]; [done|]. by right.
Qed.

(** The next gather of an entry after a run. *)
Lemma advance_all_next nows pm :
  Forall time_range nows → time_range (pm_ttlNanos pm) →
  pm_nextGatherNs (advance_all nows pm) =
    match last (gathers pm nows) with
    | Some g => g + pm_ttlNanos pm
    | None => pm_nextGatherNs pm
    end.
Proof.
  intros Hr. revert pm. induction Hr as [|now nows Hn Hr IH]; intros pm Ht; [done|].
  unfold advance_all. cbn [foldl gathers]. fold (advance_all nows (advance now pm)).
  destruct (decide (due now pm)) as [Hd|Hd].
  - rewrite IH by (rewrite (advance_next _ _ Hn Ht Hd); done).
    rewrite (advance_next _ _ Hn Ht Hd), last_cons. by destruct (last _).
  - rewrite (advance_idle _ _ Hd). by apply IH.
Qed.

(** Nothing is gathered before its time. *)
Lemma gathers_early pm nows :
  Forall time_range nows → time_range (pm_ttlNanos pm) →
  Forall (λ g, pm_nextGatherNs pm ≤ g) (gathers pm nows) ∧
  (gathers pm nows = [] → Forall (λ now, now < pm_nextGatherNs pm) nows).
Proof.
  intros Hr. revert pm. induction Hr as [|now nows Hn Hr IH]; intros pm Ht; [by split|].
  cbn [gathers]. destruct (decide (due now pm)) as [Hd|Hd].
  - split; [|done]. constructor; [exact Hd|]. specialize (IH (advance now pm)).
    rewrite (advance_next _ _ Hn Ht Hd) in *. destruct (IH Ht) as [Hg _].
    eapply Forall_impl; [exact Hg|]. cbn [pm_nextGatherNs]. unfold due, time_range in *. lia.
  - destruct (IH pm Ht) as [Hg He]. split; [done|]. intros Hnil. constructor; [|by apply He].
    unfold due in Hd. lia.
Qed.

Section Runs.
Context {W : Type} `{SysctlSpec W} `{Host W} `{MapOrder}.

(** A run of ticks, with the clock reading of each. *)
Inductive ticks : list Z → PollSt W → PollSt W → Prop :=
  | ticks_nil st : ticks [] st st
  | ticks_cons st st1 st2 nows :
      tick st = (Ok tt, st1) → ticks nows st1 st2 →
      ticks (clock_at (ps_proc st) :: nows) st st2.

Definition polled_names (st : PollSt W) : list string :=
  pm_name <$> po_polledMetrics (ps_poller st).

(** The poller's state between two ticks. *)
Definition poll_ok (st : PollSt W) : Prop :=
  proc_ok (ps_proc st) ∧ store_ok (po_store (ps_poller st)) ∧ NoDup (polled_names st).

(** What one tick does, on lookups. *)
Lemma tick_effect (st st1 : PollSt W) :
  poll_ok st → tick st = (Ok tt, st1) →
  let now := clock_at (ps_proc st) in
  poll_ok st1 ∧
  po_polledMetrics (ps_poller st1) = advance now <$> po_polledMetrics (ps_poller st) ∧
  (∀ name, name ∉ due_names now (po_polledMetrics (ps_poller st)) →
     po_store (ps_poller st1) !! name = po_store (ps_poller st) !! name).
Proof.
  intros (Hp & Hs & Hnd) Htick now.
  destruct (tick_exact st Hp) as (ms & p' & Hrun & Hms & [Hp' _] & Hex).
  rewrite Hex in Htick. injection Htick as <-. fold now in Hms |- *.
  unfold poll_ok, polled_names. cbn [ps_proc ps_poller po_store po_polledMetrics].
  assert (Hl : length (due_names now (po_polledMetrics (ps_poller st))) = length ms)
    by by eapply Forall2_length.
  split; [split; [exact Hp'|split]|split; [reflexivity|]].
  - by apply store_ok_insert_all.
  - by rewrite pm_name_advance.
  - intros name Hn. apply insert_all_notin. by rewrite fst_zip by lia.
Qed.

Lemma not_due_name now (st : PollSt W) i pm :
  NoDup (polled_names st) → po_polledMetrics (ps_poller st) !! i = Some pm → ¬ due now pm →
  pm_name pm ∉ due_names now (po_polledMetrics (ps_poller st)).
Proof. intros Hnd Hi Hd Hin. apply Hd. by eapply due_names_iff. Qed.

(** A tick from [sta] to [stb] read [name], and left what it read in the
    store. *)
Definition refreshed (name : string) (sta stb : PollSt W) : Prop :=
  let names := due_names (clock_at (ps_proc sta)) (po_polledMetrics (ps_poller sta)) in
  tick sta = (Ok tt, stb) ∧
  ∃ ms k m, mapM readMetricLive names (after_clock (ps_proc sta)) = (Ok ms, ps_proc stb) ∧
    names !! k = Some name ∧ ms !! k = Some m ∧ po_store (ps_poller stb) !! name = Some m.

Lemma due_refreshed (st st1 : PollSt W) i pm :
  poll_ok st → tick st = (Ok tt, st1) → po_polledMetrics (ps_poller st) !! i = Some pm →
  due (clock_at (ps_proc st)) pm → refreshed (pm_name pm) st st1.
Proof.
  intros (Hp & _ & Hnd) Htick Hi Hd. split; [done|].
  destruct (tick_reads st Hp Hnd) as (ms & st' & Ht & _ & Hrun & _ & Hstore & _).
  rewrite Htick in Ht. injection Ht as <-.
  assert (Hin : pm_name pm ∈ due_names (clock_at (ps_proc st)) (po_polledMetrics (ps_poller st)))
    by by eapply due_names_iff.
  apply list_elem_of_lookup in Hin as [k Hk].
  destruct (Forall2_lookup_l _ _ _ _ _ Hstore Hk) as (m & Hm & Hs & _). by exists ms, k, m.
Qed.

(** The tick of a run that last read an entry, and nothing since. *)
Definition last_written (name : string) (g : Z) (nows : list Z) (st st' : PollSt W) : Prop :=
  ∃ nows1 nows2 sta stb, nows = nows1 ++ g :: nows2 ∧
    ticks nows1 st sta ∧ clock_at (ps_proc sta) = g ∧ refreshed name sta stb ∧
    ticks nows2 stb st' ∧
    po_store (ps_poller st') !! name = po_store (ps_poller stb) !! name.

Lemma ticks_entry nows (st st' : PollSt W) i pm :
  poll_ok st → ticks nows st st' → po_polledMetrics (ps_poller st) !! i = Some pm →
  match last (gathers pm nows) with
  | Some g => last_written (pm_name pm) g nows st st'
  | None => po_store (ps_poller st') !! pm_name pm = po_store (ps_poller st) !! pm_name pm
  end.
Proof.
  intros Hok Hrun. revert pm. induction Hrun as [st|st st1 st2 nows Htick Hrun IH];
    intros pm Hi; [done|].
  destruct (tick_effect _ _ Hok Htick) as (Hok1 & Hpm & Hst).
  specialize (IH Hok1 (advance (clock_at (ps_proc st)) pm)).
  rewrite Hpm, list_lookup_fmap, Hi in IH. specialize (IH eq_refl).
  assert (Hname : pm_name (advance (clock_at (ps_proc st)) pm) = pm_name pm)
    by (unfold advance; by destruct (decide _)).
  rewrite Hname in IH. cbn [gathers].
  assert (Hlater : ∀ g, last_written (pm_name pm) g nows st1 st2 →
    last_written (pm_name pm) g (clock_at (ps_proc st) :: nows) st st2).
  { intros g (n1 & n2 & sta & stb & -> & H1' & H2' & H3' & H4' & H5').
    exists (clock_at (ps_proc st) :: n1), n2, sta, stb. split; [done|].
    split; [by eapply ticks_cons|done]. }
  destruct (decide (due _ pm)) as [Hd|Hd].
  - rewrite last_cons. destruct (last (gathers _ nows)) as [g|]; [by apply Hlater|].
    exists [], nows, st, st1. split; [done|]. split; [constructor|]. split; [done|].
    split; [by eapply due_refreshed|done].
  - rewrite (advance_idle _ _ Hd) in IH. destruct (last (gathers pm nows)) as [g|].
    + by apply Hlater.
    + rewrite IH. apply Hst. eapply not_due_name; [apply Hok|done|done].
Qed.

Lemma ticks_ok nows (st st' : PollSt W) :
  poll_ok st → ticks nows st st' →
  poll_ok st' ∧ polled_names st' = polled_names st ∧
  (∀ name, name ∉ polled_names st →
     po_store (ps_poller st') !! name = po_store (ps_poller st) !! name).
Proof.
  intros Hok Hrun. induction Hrun as [st|st st1 st2 nows Htick Hrun IH]; [done|].
  destruct (tick_effect _ _ Hok Htick) as (Hok1 & Hpm & Hst).
  destruct (IH Hok1) as (Hok2 & Hn & Hs).
  assert (Hn1 : polled_names st1 = polled_names st)
    by (unfold polled_names; by rewrite Hpm, pm_name_advance).
  split; [done|]. split; [congruence|]. intros name Hname.
  rewrite Hs by by rewrite Hn1. apply Hst. intros Hdue. apply Hname.
  unfold due_names in Hdue. apply list_elem_of_fmap in Hdue as (pm & -> & Hin).
  apply list_elem_of_fmap. exists pm. split; [done|]. by apply list_elem_of_filter in Hin as [_ ?].
Qed.
(** The batch a tick builds from a state. *)
Definition tick_batch (st : PollSt W) : gmap string Metric :=
  match foldM (tick_step (clock_at (ps_proc st))) (∅, []) (po_polledMetrics (ps_poller st))
          (after_clock (ps_proc st)) with
  | (Ok (batch, _), _) => batch
  | _ => ∅
  end.

Lemma tick_batch_spec (st st1 : PollSt W) :
  proc_ok (ps_proc st) → tick st = (Ok tt, st1) →
  (∀ name, is_Some (tick_batch st !! name)
     ↔ name ∈ due_names (clock_at (ps_proc st)) (po_polledMetrics (ps_poller st))) ∧
  po_store (ps_poller st1) = tick_batch st ∪ po_store (ps_poller st).
Proof.
  intros Hp Htick. destruct (tick_exact st Hp) as (ms & p' & Hrun & Hms & _ & Hex).
  rewrite Hex in Htick. injection Htick as <-. cbn [ps_poller po_store].
  unfold tick_batch. rewrite tick_loop, Hrun. split; [|by rewrite insert_all_union].
  intros name. rewrite insert_all_dom by by eapply Forall2_length. rewrite lookup_empty.
  split; [intros [?|[? ?]]; done|by left].
Qed.

(** A run of ticks with the clock readings of all of them, and of those whose
    batch has the name. *)
Inductive gather_log (name : string) : list Z → list Z → PollSt W → PollSt W → Prop :=
  | gather_log_nil st : gather_log name [] [] st st
  | gather_log_cons st st1 st2 nows gs :
      tick st = (Ok tt, st1) → gather_log name nows gs st1 st2 →
      gather_log name (clock_at (ps_proc st) :: nows)
        ((if decide (is_Some (tick_batch st !! name)) then [clock_at (ps_proc st)] else []) ++ gs)
        st st2.

(** The log of a real run is the one its clock readings call for. *)
Lemma ticks_gather_log nows (st st' : PollSt W) i pm :
  poll_ok st → ticks nows st st' → po_polledMetrics (ps_poller st) !! i = Some pm →
  gather_log (pm_name pm) nows (gathers pm nows) st st' ∧
  po_polledMetrics (ps_poller st') !! i = Some (advance_all nows pm).
Proof.
  intros Hok Hrun. revert pm. induction Hrun as [st|st st1 st2 nows Htick Hrun IH];
    intros pm Hi; [by split; [constructor|]|].
  destruct (tick_effect _ _ Hok Htick) as (Hok1 & Hpm & _).
  specialize (IH Hok1 (advance (clock_at (ps_proc st)) pm)).
  rewrite Hpm, list_lookup_fmap, Hi in IH. specialize (IH eq_refl) as [Hlog Hlast].
  assert (Hname : pm_name (advance (clock_at (ps_proc st)) pm) = pm_name pm)
    by (unfold advance; by destruct (decide _)).
  rewrite Hname in Hlog. split; [|exact Hlast].
  pose proof (gather_log_cons (pm_name pm) _ _ _ _ _ Htick Hlog) as Hcons.
  destruct (tick_batch_spec st st1 (proj1 Hok) Htick) as [Hdom _].
  pose proof (due_names_iff (clock_at (ps_proc st)) _ i pm (proj2 (proj2 Hok)) Hi) as Hdue.
  cbn [gathers]. destruct (decide (is_Some _)) as [Hb|Hb].
  - rewrite decide_True by by apply Hdue, Hdom. exact Hcons.
  - assert (Hd : ¬ due (clock_at (ps_proc st)) pm) by by rewrite <- Hdue, <- Hdom.
    rewrite decide_False by done. by rewrite (advance_idle _ _ Hd) in Hcons.
Qed.
End Runs.

(** ** Theorems *)

Section Theorems.
Context {W : Type} `{SysctlSpec W} `{Host W} `{MapOrder}.

(** C19: [newPoller] reads, once each and in registry order, exactly the metrics
    recommended STATIC, POLLED or CONSTRAINED; afterwards the store holds a
    well-formed metric for each of them and for nothing else, every POLLED
    or CONSTRAINED one is scheduled for the first tick with its TTL (ten
    seconds when it has none), and the logged counts are the numbers of
    metrics of each pattern. *)
Theorem newPoller_correct full freq (p : Proc W) (Hp : proc_ok p) :
  let names := km_Name <$> filter stored (reg_Metrics full) in
  ∃ ms po p', mapM readMetricLive names (after_clock p) = (Ok ms, p') ∧
    newPoller (Some full) freq p
      = (Ok (po, Some (count_recommended STATIC (reg_Metrics full),
                       count_recommended POLLED (reg_Metrics full),
                       count_recommended CONSTRAINED (reg_Metrics full))), p') ∧
    proc_ok p' ∧ store_ok (po_store po) ∧
    (∀ name, is_Some (po_store po !! name) ↔ name ∈ names) ∧
    po_polledMetrics po = schedule (clock_at p) <$> filter polled (reg_Metrics full) ∧
    po_frequencyIncrement po = freq ∧
    po_stopCh_closed po = false ∧ po_doneCh_closed po = false.
Proof.
  intros names. destruct (newPoller_exact full freq p Hp) as (ms & p' & Hrun & Hms & [Hp' _] & Hnew).
  fold names in Hrun, Hms, Hnew. do 3 eexists. split; [exact Hrun|]. split; [exact Hnew|].
  split; [exact Hp'|]. cbn [po_store po_polledMetrics].
  split. { apply store_ok_insert_all; [by intros ? ?|done]. }
  split; [|done]. intros name. rewrite insert_all_dom by by eapply Forall2_length.
  rewrite lookup_empty. split; [|by left]. intros [?|[? ?]]; done.
Qed.

(** C5: one tick: after a single clock reading, exactly the entries that are
    due are read, once each and in schedule order; each one's new value is
    in the store and its next gather is one TTL after this tick's clock
    reading; every other entry of the schedule and of the store is as it
    was.  A tick never fails. *)
Theorem tick_correct (st : PollSt W) (Hp : proc_ok (ps_proc st))
    (Hnd : NoDup (pm_name <$> po_polledMetrics (ps_poller st))) :
  let po := ps_poller st in
  let now := clock_at (ps_proc st) in
  let names := due_names now (po_polledMetrics po) in
  ∃ ms st', tick st = (Ok tt, st') ∧ proc_ok (ps_proc st') ∧
    mapM readMetricLive names (after_clock (ps_proc st)) = (Ok ms, ps_proc st') ∧
    po_polledMetrics (ps_poller st') = advance now <$> po_polledMetrics po ∧
    Forall2 (λ name m, po_store (ps_poller st') !! name = Some m ∧ metric_for name m) names ms ∧
    (∀ name, name ∉ names → po_store (ps_poller st') !! name = po_store po !! name).
Proof.
  exact (tick_reads st Hp Hnd).
Qed.

(** C4: staleness is bounded: over any run of ticks whose first clock reading
    has reached the entry's scheduled time, the stored value of a polled
    metric is the one that some tick of the run read live and that was not
    touched since, and that tick is the last one or its clock reading is less than one TTL
    before the last one's; the values of metrics that are not scheduled (the
    STATIC ones) are never changed, and no entry is lost. *)
Theorem poller_staleness_bounded nows now (st st' : PollSt W) i pm
    (Hok : poll_ok st) (Hrun : ticks (nows ++ [now]) st st')
    (Hi : po_polledMetrics (ps_poller st) !! i = Some pm)
    (Hrange : Forall time_range (nows ++ [now])) (Httl : time_range (pm_ttlNanos pm))
    (Hfirst : ∃ n0, head (nows ++ [now]) = Some n0 ∧ due n0 pm) :
  (∃ g, last_written (pm_name pm) g (nows ++ [now]) st st' ∧
        (now = g ∨ now < g + pm_ttlNanos pm)) ∧
  (∀ name, name ∉ polled_names st →
     po_store (ps_poller st') !! name = po_store (ps_poller st) !! name) ∧
  poll_ok st'.
Proof.
  destruct (ticks_ok _ _ _ Hok Hrun) as (Hok' & _ & Hstatic).
  split; [|by split]. pose proof (ticks_entry _ _ _ _ _ Hok Hrun Hi) as He.
  pose proof (gathers_last pm nows now Hrange Httl) as Hl.
  destruct (last (gathers pm (nows ++ [now]))) as [g|] eqn:E; [by exists g|].
  exfalso. destruct Hfirst as (n0 & Hn0 & Hd). apply last_None in E.
  destruct (nows ++ [now]) as [|n l]; [done|]. simplify_eq/=.
  by rewrite decide_True in E.
Qed.
End Theorems.

Section Schedule.
Context {W : Type} `{SysctlSpec W} `{Host W} `{MapOrder}.

(** C28: the schedule of one entry, in any run of [tick] whose clock readings (and
    the TTL) are below 2^62 nanoseconds, however the clock moves: among the ticks
    whose batch has the entry, two in a row are never less than one TTL apart, and
    none is before the time the entry was scheduled for; if there is one, the
    entry's next gather stands one TTL after the last of them, and the last tick of
    the run is that one or is before that next gather (so no tick that finds the
    entry due leaves it out); if there is none, no tick of the run had reached the
    entry's time, and its schedule and its value in the store are as they were. *)
Theorem gather_schedule nows (st st' : PollSt W) i pm
    (Hok : poll_ok st) (Hrun : ticks nows st st')
    (Hi : po_polledMetrics (ps_poller st) !! i = Some pm)
    (Hrange : Forall time_range nows) (Httl : time_range (pm_ttlNanos pm)) :
  ∃ gs pm', gather_log (pm_name pm) nows gs st st' ∧
    po_polledMetrics (ps_poller st') !! i = Some pm' ∧
    (∀ k g1 g2, gs !! k = Some g1 → gs !! S k = Some g2 → g1 + pm_ttlNanos pm ≤ g2) ∧
    Forall (λ g, pm_nextGatherNs pm ≤ g) gs ∧
    match last gs with
    | Some g => pm_nextGatherNs pm' = g + pm_ttlNanos pm ∧
        ∀ now, last nows = Some now → now = g ∨ now < pm_nextGatherNs pm'
    | None => Forall (λ now, now < pm_nextGatherNs pm) nows ∧
        pm_nextGatherNs pm' = pm_nextGatherNs pm ∧
        po_store (ps_poller st') !! pm_name pm = po_store (ps_poller st) !! pm_name pm
    end.
Proof.
  destruct (ticks_gather_log _ _ _ _ _ Hok Hrun Hi) as [Hlog Hpm].
  destruct (gathers_early pm nows Hrange Httl) as [Hearly Hnone].
  pose proof (advance_all_next nows pm Hrange Httl) as Hnext.
  exists (gathers pm nows), (advance_all nows pm). split; [exact Hlog|]. split; [exact Hpm|].
  split; [intros k g1 g2; by apply gathers_spaced|]. split; [exact Hearly|].
  pose proof (ticks_entry _ _ _ _ _ Hok Hrun Hi) as He. rewrite Hnext.
  destruct (last (gathers pm nows)) as [g|] eqn:E.
  - split; [done|]. intros now [pre ->]%last_Some.
    pose proof (gathers_last pm pre now Hrange Httl) as Hl. by rewrite E in Hl.
  - split; [by apply Hnone, last_None|]. by split.
Qed.
End Schedule.

(** ** The polling goroutine and [stop] *)

(** The goroutine is at its [select] or has returned; the ticker's channel holds
    at most one tick; the caller of [stop] has not called it, waits on
    [doneCh], or has returned. *)
Inductive loop_pc := LSelect | LReturned.
Inductive stop_pc := SNotCalled | SWaiting | SReturned.

#[export] Instance loop_pc_eq_dec : EqDecision loop_pc.
Proof. solve_decision. Defined.
#[export] Instance stop_pc_eq_dec : EqDecision stop_pc.
Proof. solve_decision. Defined.

Section Loop.
Context {W : Type} `{Kernel W} `{Host W} `{MapOrder}.

Record LoopSt := mkLoopSt {
  ls_state : PollSt W;
  ls_loop : loop_pc;
  ls_tick_ready : bool;
  ls_stop : stop_pc;
}.

Definition close_stopCh (po : poller) : poller :=
  mkPoller (po_store po) (po_frequencyIncrement po) (po_polledMetrics po) true (po_doneCh_closed po).
Definition close_doneCh (po : poller) : poller :=
  mkPoller (po_store po) (po_frequencyIncrement po) (po_polledMetrics po) (po_stopCh_closed po) true.
Definition in_poller (f : poller → poller) (st : PollSt W) : PollSt W :=
  mkPollSt (ps_proc st) (f (ps_poller st)).

(** [start] starts [loop] on a new poller. *)
Definition start (st : PollSt W) : LoopSt := mkLoopSt st LSelect false SNotCalled.

Inductive loop_step : LoopSt → LoopSt → Prop :=
  (** The ticker fires; a tick nobody has received is dropped. *)
  | step_ticker st pc b s :
      loop_step (mkLoopSt st pc b s) (mkLoopSt st pc true s)
  (** [case <-ticker.C: p.tick()]. *)
  | step_tick st st' s :
      tick st = (Ok tt, st') →
      loop_step (mkLoopSt st LSelect true s) (mkLoopSt st' LSelect false s)
  (** [case <-p.stopCh: return], and the deferred [close(p.doneCh)]. *)
  | step_return st b s :
      po_stopCh_closed (ps_poller st) = true →
      loop_step (mkLoopSt st LSelect b s) (mkLoopSt (in_poller close_doneCh st) LReturned b s)
  (** [stop]: [close(p.stopCh)], then [<-p.doneCh]. *)
  | step_stop st pc b :
      po_stopCh_closed (ps_poller st) = false →
      loop_step (mkLoopSt st pc b SNotCalled) (mkLoopSt (in_poller close_stopCh st) pc b SWaiting)
  | step_stopped st pc b :
      po_doneCh_closed (ps_poller st) = true →
      loop_step (mkLoopSt st pc b SWaiting) (mkLoopSt st pc b SReturned).

(** The channels' states follow the two goroutines. *)
Definition loop_inv (l : LoopSt) : Prop :=
  let po := ps_poller (ls_state l) in
  po_stopCh_closed po = bool_decide (ls_stop l ≠ SNotCalled) ∧
  po_doneCh_closed po = bool_decide (ls_loop l = LReturned) ∧
  (ls_loop l = LReturned → ls_stop l ≠ SNotCalled) ∧
  (ls_stop l = SReturned → ls_loop l = LReturned).
End Loop.
Arguments LoopSt : clear implicits.

Section LoopTheorems.
Context {W : Type} `{SysctlSpec W} `{Host W} `{MapOrder}.

Lemma tick_channels (st st' : PollSt W) :
  proc_ok (ps_proc st) → tick st = (Ok tt, st') →
  proc_ok (ps_proc st') ∧
  po_stopCh_closed (ps_poller st') = po_stopCh_closed (ps_poller st) ∧
  po_doneCh_closed (ps_poller st') = po_doneCh_closed (ps_poller st).
Proof.
  intros Hp Htick. destruct (tick_exact st Hp) as (ms & p' & _ & _ & [Hp' _] & Hex).
  rewrite Hex in Htick. injection Htick as <-. done.
Qed.

Lemma loop_step_inv (l l' : LoopSt W) :
  loop_step l l' → proc_ok (ps_proc (ls_state l)) ∧ loop_inv l →
  proc_ok (ps_proc (ls_state l')) ∧ loop_inv l'.
Proof.
  unfold loop_inv. intros Hstep [Hp (H1' & H2' & H3' & H4')].
  destruct Hstep as [st pc b s|st st' s Htick|st b s Hs|st pc b Hs|st pc b Hs];
    cbn [ls_state ls_loop ls_stop in_poller close_doneCh close_stopCh ps_proc ps_poller
      po_stopCh_closed po_doneCh_closed] in *.
  - done.
  - destruct (tick_channels _ _ Hp Htick) as (Hp' & -> & ->). done.
  - split; [done|]. split_and!; [done|done| |done]. intros _. rewrite H1' in Hs.
    by apply bool_decide_eq_true in Hs.
  - done.
  - split; [done|]. rewrite H2' in Hs. apply bool_decide_eq_true in Hs as ->. done.
Qed.

Lemma loop_reachable (l l' : LoopSt W) :
  rtc loop_step l l' → proc_ok (ps_proc (ls_state l)) ∧ loop_inv l →
  proc_ok (ps_proc (ls_state l')) ∧ loop_inv l'.
Proof. induction 1 as [|l l1 l2 Hs Hr IH]; [done|]. intros Hi. by apply IH, (loop_step_inv l). Qed.

(** Once the goroutine has returned, nothing writes the poller's data. *)
Lemma loop_returned_frozen (l l' : LoopSt W) :
  rtc loop_step l l' → ls_loop l = LReturned →
  ls_loop l' = LReturned ∧
  po_store (ps_poller (ls_state l')) = po_store (ps_poller (ls_state l)) ∧
  po_polledMetrics (ps_poller (ls_state l')) = po_polledMetrics (ps_poller (ls_state l)).
Proof.
  induction 1 as [|l l1 l2 Hs Hr IH]; [done|]. intros Hl.
  assert (Hone : ls_loop l1 = LReturned ∧
    po_store (ps_poller (ls_state l1)) = po_store (ps_poller (ls_state l)) ∧
    po_polledMetrics (ps_poller (ls_state l1)) = po_polledMetrics (ps_poller (ls_state l)))
    by (destruct Hs; simplify_eq/=; done).
  destruct Hone as (Hl1 & <- & <-). by apply IH.
Qed.

(** The stop protocol: in every state reachable from [start], the channels
    are closed exactly by the goroutine that owns them; the polling goroutine
    never returns before [stop] is called and a tick it takes never fails; a
    waiting [stop] is never stuck: the goroutine's [return] is enabled (or
    done) and then so is [stop]'s; and once [stop] has returned the goroutine
    has too, and the store and the schedule never change again. *)
Theorem stop_correct (st : PollSt W) (l : LoopSt W) (Hp : proc_ok (ps_proc st))
    (Hopen : po_stopCh_closed (ps_poller st) = false ∧ po_doneCh_closed (ps_poller st) = false)
    (Hrun : rtc loop_step (start st) l) :
  loop_inv l ∧
  (ls_loop l = LSelect → ∃ st', tick (ls_state l) = (Ok tt, st')) ∧
  (ls_stop l = SWaiting → ∃ l', rtc loop_step l l' ∧ ls_stop l' = SReturned ∧
     po_store (ps_poller (ls_state l')) = po_store (ps_poller (ls_state l))) ∧
  (ls_stop l = SReturned → ls_loop l = LReturned ∧
     ∀ l', rtc loop_step l l' →
       po_store (ps_poller (ls_state l')) = po_store (ps_poller (ls_state l)) ∧
       po_polledMetrics (ps_poller (ls_state l')) = po_polledMetrics (ps_poller (ls_state l))).
Proof.
  destruct Hopen as [Hs Hd].
  destruct (loop_reachable _ _ Hrun) as [Hp' Hinv].
  { split; [done|]. unfold loop_inv. cbn. by rewrite Hs, Hd. }
  split; [done|]. split; [|split].
  - intros _. destruct (tick_exact _ Hp') as (? & ? & _ & _ & _ & Hex). eauto.
  - destruct l as [st1 pc b s]. unfold loop_inv in Hinv. cbn in *. intros ->.
    destruct Hinv as (H1' & H2' & _). destruct pc.
    + eexists. split; [|split].
      * eapply rtc_l; [by apply step_return|]. eapply rtc_l; [by apply step_stopped|]. apply rtc_refl.
      * done.
      * done.
    + eexists. split; [|split].
      * eapply rtc_l; [by apply step_stopped|]. apply rtc_refl.
      * done.
      * done.
  - intros Hret. assert (Hl : ls_loop l = LReturned) by by apply Hinv.
    split; [done|]. intros l' Hr. by apply (loop_returned_frozen l l').
Qed.
End LoopTheorems.

(** ** The shipped registry *)

Definition shipped_full : KernelMetricRegistry := buildFullRegistry (Some textproto_24_6_0).

Lemma shipped_stored : km_Name <$> filter stored (reg_Metrics shipped_full) = info_Name <$> Known.
Proof. vm_compute. reflexivity. Qed.

(** The times between two reads the registry recommends. *)
Definition shipped_ttl (ttl : Z) : Prop := ttl ∈ [10 * Second; 30 * Second; 60 * Second].

Lemma shipped_schedule now :
  let pms := schedule now <$> filter polled (reg_Metrics shipped_full) in
  length pms = 169%nat ∧ Forall (λ pm, shipped_ttl (pm_ttlNanos pm)) pms ∧ NoDup (pm_name <$> pms).
Proof.
  cbv zeta. split; [|split].
  - rewrite length_fmap. vm_compute. reflexivity.
  - apply Forall_fmap. unfold compose, shipped_ttl. cbn [schedule pm_ttlNanos]. by_decide.
  - rewrite <- list_fmap_compose. unfold compose. cbn [schedule pm_name]. by_decide.
Qed.

Section Shipped.
Context {W : Type} `{SysctlSpec W} `{Host W} `{MapOrder}.

(** With the checked-in registry the poller covers the whole table: after
    [newPoller] every one of the 250 metrics is in the store and no other
    name is, 81 are static, 118 polled and 51 constrained, and each of the
    169 scheduled ones has a TTL of 10, 30 or 60 seconds. *)
Theorem poller_covers_shipped_registry freq (p : Proc W) (Hp : proc_ok p) :
  ∃ po p', newPoller (Some (buildFullRegistry (Some textproto_24_6_0))) freq p
      = (Ok (po, Some (81, 118, 51)), p') ∧
    (∀ name, is_Some (po_store po !! name) ↔ name ∈ (info_Name <$> Known)) ∧
    length (po_polledMetrics po) = 169%nat ∧
    Forall (λ pm, pm_ttlNanos pm ∈ [10 * Second; 30 * Second; 60 * Second])
      (po_polledMetrics po) ∧
    NoDup (pm_name <$> po_polledMetrics po).
Proof.
  destruct (newPoller_exact shipped_full freq p Hp) as (ms & p' & _ & Hms & _ & Hnew).
  assert (Hcounts : (count_recommended STATIC (reg_Metrics shipped_full),
                     count_recommended POLLED (reg_Metrics shipped_full),
                     count_recommended CONSTRAINED (reg_Metrics shipped_full)) = (81, 118, 51))
    by (vm_compute; reflexivity).
  rewrite Hcounts in Hnew. do 2 eexists. split; [exact Hnew|].
  cbn [po_store po_polledMetrics]. split; [|apply shipped_schedule].
  intros name. rewrite insert_all_dom by by eapply Forall2_length.
  rewrite shipped_stored, lookup_empty. split; [|by left]. intros [?|[? Hx]]; [done|discriminate Hx].
Qed.
End Shipped.

(** ** Witnesses on the concrete kernel *)

Definition demo_config (p : AccessPattern) (ttl : option Z) : AccessConfig :=
  mkAccess p ((λ s, mkDuration s 0) <$> ttl).

Definition demo_full : KernelMetricRegistry :=
  mkRegistry "darwin-arm64" "demo"
    [mkKernelMetric "kern.ostype" EmptyString "string" "kern.identity"
       (Some (demo_config STATIC None)) (Some (demo_config STATIC None)) EmptyString;
     mkKernelMetric "hw.memsize" EmptyString "uint64" "hw.memory"
       (Some (demo_config DYNAMIC None)) (Some (demo_config POLLED (Some 10))) EmptyString;
     mkKernelMetric "hw.ncpu" EmptyString "int32" "hw.cpu"
       (Some (demo_config DYNAMIC None)) (Some (demo_config DYNAMIC None)) EmptyString].

(** One entry that is due at the demo clock. *)
Definition demo_pm : polledMetric :=
  mkPolled "hw.memsize" (10 * Second) 17777217000499999.

Definition demo_poll : PollSt nat :=
  mkPollSt demo_proc (mkPoller ∅ (500 * Millisecond) [demo_pm] false false).

Lemma demo_poll_ok : @poll_ok nat demo_kernel demo_spec demo_poll.
Proof.
  split; [exact demo_proc_ok|]. split.
  - intros name m Hm. discriminate Hm.
  - by_decide.
Qed.

(** The tick of the demo poller. *)
Definition demo_ticked : PollSt nat :=
  (@tick nat demo_kernel demo_host some_order demo_poll).2.

Lemma newPoller_correct_witness :
  ∃ po p', @newPoller nat demo_kernel demo_host (Some demo_full) 500000000 demo_proc
      = (Ok (po, Some (1, 1, 0)), p') ∧
    is_Some (po_store po !! "kern.ostype") ∧ ¬ is_Some (po_store po !! "hw.ncpu").
Proof.
  destruct (@newPoller_correct nat demo_kernel demo_spec demo_host demo_full
    500000000 demo_proc demo_proc_ok) as (ms & po & p' & _ & Hnew & _ & _ & Hdom & _).
  exists po, p'. split; [exact Hnew|]. split.
  - apply Hdom. by_decide.
  - intros Hn. apply Hdom in Hn. revert Hn. by_decide.
Defined.

Lemma tick_correct_witness :
  ∃ st', @tick nat demo_kernel demo_host some_order demo_poll = (Ok tt, st') ∧
    po_polledMetrics (ps_poller st')
      = [mkPolled "hw.memsize" (10 * Second) 17777227000499999].
Proof.
  destruct (@tick_correct nat demo_kernel demo_spec demo_host some_order demo_poll
    demo_proc_ok ltac:(by_decide)) as (ms & st' & Htick & _ & _ & Hpm & _).
  exists st'. split; [exact Htick|]. rewrite Hpm. vm_compute. reflexivity.
Defined.

Lemma demo_ticks :
  @ticks nat demo_kernel demo_host some_order [17777217000499999] demo_poll demo_ticked.
Proof.
  refine (@ticks_cons nat demo_kernel demo_host some_order demo_poll demo_ticked demo_ticked [] _
    (@ticks_nil nat demo_kernel demo_host some_order demo_ticked)).
  destruct (@tick_exact nat demo_kernel demo_spec demo_host some_order demo_poll demo_proc_ok)
    as (ms & p' & _ & _ & _ & Htick). unfold demo_ticked. rewrite Htick. reflexivity.
Qed.

Lemma poller_staleness_bounded_witness :
  ∃ g, @last_written nat demo_kernel demo_host some_order "hw.memsize" g
         [17777217000499999] demo_poll demo_ticked ∧
       (17777217000499999 = g ∨ 17777217000499999 < g + 10 * Second).
Proof.
  refine (proj1 (@poller_staleness_bounded nat demo_kernel demo_spec demo_host some_order []
    17777217000499999 demo_poll demo_ticked 0 demo_pm demo_poll_ok _ eq_refl
    ltac:(by_decide) ltac:(by_decide) (ex_intro _ 17777217000499999 (conj eq_refl _)))).
  - exact demo_ticks.
  - by_decide.
Defined.

(** One tick of the demo poller gathers its entry, which is next due ten seconds
    later. *)
Lemma gather_schedule_witness :
  ∃ gs pm', @gather_log nat demo_kernel demo_host some_order "hw.memsize" [17777217000499999] gs
      demo_poll demo_ticked ∧
    po_polledMetrics (ps_poller demo_ticked) !! 0%nat = Some pm' ∧
    gs ≠ [].
Proof.
  destruct (@gather_schedule nat demo_kernel demo_spec demo_host some_order [17777217000499999]
    demo_poll demo_ticked 0 demo_pm demo_poll_ok demo_ticks eq_refl
    ltac:(by_decide) ltac:(by_decide)) as (gs & pm' & Hlog & Hpm & _ & _ & Hlast).
  exists gs, pm'. split; [exact Hlog|]. split; [exact Hpm|]. intros ->.
  exact (Z.lt_irrefl _ (Forall_inv (proj1 Hlast))).
Defined.

Lemma stop_correct_witness :
  @loop_inv nat (@start nat demo_poll) ∧
  ∃ l', rtc (@loop_step nat demo_kernel demo_host some_order)
          (mkLoopSt (in_poller close_stopCh demo_poll) LSelect false SWaiting) l' ∧
        ls_stop l' = SReturned.
Proof.
  split.
  - exact (proj1 (@stop_correct nat demo_kernel demo_spec demo_host some_order demo_poll
      (start demo_poll) demo_proc_ok (conj eq_refl eq_refl) (rtc_refl _ _))).
  - assert (Hrun : rtc (@loop_step nat demo_kernel demo_host some_order) (start demo_poll)
      (mkLoopSt (in_poller close_stopCh demo_poll) LSelect false SWaiting)).
    { eapply rtc_l; [by apply step_stop|]. apply rtc_refl. }
    destruct (@stop_correct nat demo_kernel demo_spec demo_host some_order demo_poll _
      demo_proc_ok (conj eq_refl eq_refl) Hrun) as (_ & _ & Hw & _).
    destruct (Hw eq_refl) as (l' & Hr & Hs & _). exists l'. split; [exact Hr|exact Hs].
Defined.

Lemma poller_covers_shipped_registry_witness :
  ∃ po p', @newPoller nat demo_kernel demo_host
      (Some (buildFullRegistry (Some textproto_24_6_0))) 500000000 demo_proc
      = (Ok (po, Some (81, 118, 51)), p') ∧ is_Some (po_store po !! "hw.ncpu").
Proof.
  destruct (@poller_covers_shipped_registry nat demo_kernel demo_spec demo_host
    500000000 demo_proc demo_proc_ok) as (po & p' & Hnew & Hdom & _).
  exists po, p'. split; [exact Hnew|]. apply Hdom. by_decide.
Defined.
