(* ===== verification/Server.v ===== *)
(** * The server (internal/server/server.go: New, Stop and the read handlers)

    A server is its two registries and its poller, if it has one; it runs with
    the process state of the metric reads.  The gRPC plumbing around a handler
    (contexts, wire messages) is not part of the model: a handler maps its
    request's fields to its response's. *)

From Stdlib Require Import ZArith Lia.
From S2P Require Import Prelude GoTime Kernel TableKernel MibCache Registry KernelRegistry.
From S2P Require Import Classify Metrics FullRegistry Poller.

Local Open Scope Z_scope.

(** [SysctlServer], its MIB cache apart (the cache lives in the process state). *)
Record Server := mkServer {
  sv_kernelRegistry : option KernelMetricRegistry;
  sv_fullRegistry : KernelMetricRegistry;
  sv_poller : option poller;
}.

Record ServerSt (W : Type) := mkServerSt { ss_proc : Proc W; ss_server : Server }.
Arguments mkServerSt {W}.
Arguments ss_proc {W}.
Arguments ss_server {W}.

Section Server.
Context {W : Type} `{Kernel W} `{Host W}.

(** [cache: macosasmsysctl.NewMIBCache()]. *)
Definition fresh_cache : M (Proc W) unit :=
  modify (λ p, mkProc (mkCacheSt (c_world (p_cache p)) NewMIBCache) (p_index p)).

(** The names of the non-computed metrics of the table. *)
Definition warm_names : list string :=
  info_Name <$> filter (λ info, info_Type info ≠ TypeComputed) Known.

Definition New `{RegistryFiles} (osVersion : string) (pollInterval : Z) : M (Proc W) Server :=
  fresh_cache;;
  kernelRegistry ←
    (if decide (osVersion ≠ EmptyString) then
       try reg ← of_outcome (LoadKernelRegistry osVersion) catch _err ⇒ mret None;
       mret (Some reg)
     else mret None);
  let fullRegistry := buildFullRegistry kernelRegistry in
  on_cache (Warm warm_names);;
  if decide (pollInterval > 0) then
    r ← newPoller (Some fullRegistry) pollInterval;
    mret (mkServer kernelRegistry fullRegistry (Some r.1))
  else mret (mkServer kernelRegistry fullRegistry None).

Definition on_server_proc {A} (m : M (Proc W) A) : M (ServerSt W) A :=
  zoom ss_proc (λ p st, mkServerSt p (ss_server st)) m.

(** [m, ok := s.poller.store.get(name)], when there is a poller. *)
Definition stored_metric (s : Server) (name : string) : option Metric :=
  match sv_poller s with Some po => store_get (po_store po) name | None => None end.

Definition readMetric (name : string) : M (ServerSt W) Metric :=
  hit ← gets (λ st, stored_metric (ss_server st) name);
  match hit with
  | Some m => mret m
  | None => on_server_proc (readMetricLive name)
  end.

Definition GetMetrics (names : list string) : M (ServerSt W) (list Metric) :=
  mapM readMetric names.

Definition GetMetricsByCategory (category : string) : M (ServerSt W) (list Metric) :=
  mapM (λ info, readMetric (info_Name info)) (ByCategory category).

(** [Stop], up to its wait: [close(p.stopCh)], which panics when the channel
    is closed already.  The wait for [doneCh], during which a tick may still
    run, is [step_stopped] of [Poller.loop_step]. *)
Definition Stop (s : Server) : outcome Server :=
  match sv_poller s with
  | None => Ok s
  | Some po =>
      if po_stopCh_closed po then Panic
      else Ok (mkServer (sv_kernelRegistry s) (sv_fullRegistry s) (Some (close_stopCh po)))
  end.
End Server.

(** ** Serving *)

Section Serving.
Context {W : Type} `{SysctlSpec W} `{Host W}.

Definition server_ok (st : ServerSt W) : Prop :=
  proc_ok (ss_proc st) ∧
  match sv_poller (ss_server st) with Some po => store_ok (po_store po) | None => True end.

Lemma stored_metric_ok st name m :
  server_ok st → stored_metric (ss_server st) name = Some m → metric_for name m.
Proof.
  intros [_ Hs]. unfold stored_metric. destruct (sv_poller _) as [po|]; [|done]. apply Hs.
Qed.

(** One read: the stored metric when there is one, untouched process state
    then, and a well-formed live one otherwise. *)
Lemma hoare_readMetric sv name :
  hoare_ok (λ st, server_ok st ∧ ss_server st = sv) (readMetric name)
    (λ m st, (metric_for name m ∧ ∀ m', stored_metric sv name = Some m' → m = m') ∧
             server_ok st ∧ ss_server st = sv).
Proof.
  intros st [Hok Hsv]. unfold readMetric, on_server_proc. run_simpl. subst sv.
  destruct (stored_metric (ss_server st) name) as [m|] eqn:Hm; run_simpl.
  - split; [|by split]. split; [by eapply stored_metric_ok|]. intros m' Hm'. by simplify_eq.
  - destruct Hok as [Hp Hs].
    destruct (readMetricLive_ok name _ Hp) as (m & p & -> & Hmet & Hr).
    split; [split; [exact Hmet|discriminate]|].
    split; [|reflexivity]. split; [exact (proc_at_ok _ _ Hr)|exact Hs].
Qed.

Lemma hoare_reads {X} (f : X → string) sv xs :
  hoare_ok (λ st, server_ok st ∧ ss_server st = sv) (mapM (λ x, readMetric (f x)) xs)
    (λ ms st, Forall2 (λ x m, metric_for (f x) m ∧ ∀ m', stored_metric sv (f x) = Some m' → m = m')
                xs ms ∧ server_ok st ∧ ss_server st = sv).
Proof. apply hoare_mapM. intros x _. apply hoare_readMetric. Qed.

(** Reads of stored metrics make no system call at all. *)
Lemma stored_reads_pure names (st : ServerSt W) :
  (∀ name, name ∈ names → is_Some (stored_metric (ss_server st) name)) →
  (GetMetrics names st).2 = st.
Proof.
  unfold GetMetrics. induction names as [|name names IH]; intros Hs; [done|].
  cbn [mapM]. destruct (Hs name ltac:(left)) as [m Hm].
  assert (Hr : readMetric name st = (Ok m, st)) by (unfold readMetric; run_simpl; by rewrite Hm).
  run_simpl. rewrite Hr. specialize (IH (λ n Hn, Hs n (list_elem_of_further _ _ _ Hn))).
  destruct (mapM readMetric names st) as [[ms|e|] st'] eqn:E; simpl in IH; subst; done.
Qed.

Lemma mapM_fmap {X Y A} (g : X → Y) (f : Y → M (ServerSt W) A) l st :
  mapM f (g <$> l) st = mapM (λ x, f (g x)) l st.
Proof.
  revert st. induction l as [|x l IH]; intros st; [done|].
  rewrite fmap_cons. cbn [mapM]. run_simpl.
  destruct (f (g x) st) as [[a|e|] st']; [|done|done]. by rewrite IH.
Qed.
End Serving.

(** ** Starting *)

Section Starting.
Context {W : Type} `{SysctlSpec W} `{Host W} `{RegistryFiles}.

(** The registry a server of this version loads: none when the version is
    empty or loading fails. *)
Definition loaded_registry (osVersion : string) : option KernelMetricRegistry :=
  if decide (osVersion = EmptyString) then None
  else match LoadKernelRegistry osVersion with Ok reg => Some reg | _ => None end.

Lemma warm_run (c : CacheSt W) :
  cache_ok (c_cache c) → Forall nul_free warm_names →
  ∃ n c', Warm warm_names c = (Ok n, c') ∧ cache_ok (c_cache c') ∧
    ∀ name oid, name ∈ warm_names → oid_of name = Some oid → c_cache c' !! name = Some oid.
Proof.
  intros Hc Hn. destruct (Warm_spec warm_names c Hc Hn) as (c' & Hw & Hc' & _ & Hres).
  by eexists _, c'.
Qed.

Lemma warm_names_nul_free : Forall nul_free warm_names.
Proof. by_decide. Qed.

Lemma load_step osVersion (p : Proc W) :
  LoadKernelRegistry osVersion ≠ Panic →
  (if decide (osVersion ≠ EmptyString) then
     try reg ← of_outcome (LoadKernelRegistry osVersion) catch _err ⇒ mret None;
     mret (Some reg)
   else mret None) p = (Ok (loaded_registry osVersion), p).
Proof.
  intros Hl. unfold loaded_registry.
  destruct (decide (osVersion = EmptyString)) as [->|Hv].
  - by rewrite decide_False by (intros Hn; by apply Hn).
  - rewrite decide_True by done. run_simpl. by destruct (LoadKernelRegistry osVersion).
Qed.

(** What [New] leaves. *)
Lemma New_run osVersion pollInterval (p : Proc W)
    (Hidx : index_ok (p_index p)) (Hload : LoadKernelRegistry osVersion ≠ Panic) :
  let full := buildFullRegistry (loaded_registry osVersion) in
  ∃ sv p', New osVersion pollInterval p = (Ok sv, p') ∧
    sv_kernelRegistry sv = loaded_registry osVersion ∧ sv_fullRegistry sv = full ∧
    server_ok (mkServerSt p' sv) ∧
    (∀ name oid, name ∈ warm_names → oid_of name = Some oid →
       c_cache (p_cache p') !! name = Some oid) ∧
    match sv_poller sv with
    | None => pollInterval ≤ 0
    | Some po =>
        0 < pollInterval ∧ po_frequencyIncrement po = pollInterval ∧
        (∀ name, is_Some (po_store po !! name)
           ↔ name ∈ (km_Name <$> filter stored (reg_Metrics full))) ∧
        (∃ now, po_polledMetrics po = schedule now <$> filter polled (reg_Metrics full)) ∧
        po_stopCh_closed po = false ∧ po_doneCh_closed po = false ∧
        (filter stored (reg_Metrics full) ≠ [] → p_index p' = Some (index_by_name Known))
    end.
Proof.
  intros full. unfold New, fresh_cache, on_cache. run_simpl.
  rewrite (load_step osVersion _ Hload). run_simpl. cbn [p_cache p_index].
  destruct (warm_run (mkCacheSt (c_world (p_cache p)) NewMIBCache) cache_ok_empty
              warm_names_nul_free) as (n & c & Hw & Hc & Hres).
  rewrite Hw. run_simpl. cbn [p_cache p_index]. fold full.
  assert (Hp : proc_ok (mkProc c (p_index p))) by (split; [exact Hc|exact Hidx]).
  destruct (decide (pollInterval > 0)) as [Hpos|Hneg].
  - destruct (newPoller_exact full pollInterval _ Hp) as (ms & p' & Hreads & Hms & [Hp' Hsub] & Hnew).
    rewrite Hnew. do 2 eexists. split; [reflexivity|].
    cbn [sv_kernelRegistry sv_fullRegistry sv_poller fst po_frequencyIncrement po_store
      po_stopCh_closed po_doneCh_closed].
    split; [reflexivity|]. split; [reflexivity|]. split.
    { split; [exact Hp'|]. cbn. apply store_ok_insert_all; [by intros ? ?|done]. }
    split. { intros name oid Hin Ho. eapply lookup_weaken; [by apply Hres|exact Hsub]. }
    split; [lia|]. split; [done|]. split; [|split; [by eexists|do 2 (split; [done|])]].
    2: { intros Hne. eapply live_reads_warm; [apply after_clock_ok, Hp| |exact Hreads].
         by intros ?%fmap_nil_inv. }
    intros name. rewrite insert_all_dom by by eapply Forall2_length.
    rewrite lookup_empty. split; [|by left]. by intros [?|[? ?]].
  - do 2 eexists. split; [reflexivity|]. split; [reflexivity|]. split; [reflexivity|].
    split; [by split|]. split; [exact Hres|]. cbn. lia.
Qed.

(** C18: [New] always returns a server: its registry is the merge of the table
    with the kernel registry of its version (or with none, when that is empty
    or cannot be loaded); the MIB of every non-computed metric the kernel
    knows is resolved; and it has a poller exactly when the interval is
    positive, whose store then holds a metric for every STATIC, POLLED or
    CONSTRAINED recommendation and nothing else, whose schedule is the POLLED and
    CONSTRAINED ones, and whose channels are open. *)
Theorem New_correct osVersion pollInterval (p : Proc W)
    (Hidx : index_ok (p_index p)) (Hload : LoadKernelRegistry osVersion ≠ Panic) :
  let full := buildFullRegistry (loaded_registry osVersion) in
  ∃ sv p', New osVersion pollInterval p = (Ok sv, p') ∧
    sv_kernelRegistry sv = loaded_registry osVersion ∧ sv_fullRegistry sv = full ∧
    server_ok (mkServerSt p' sv) ∧
    (∀ name oid, name ∈ warm_names → oid_of name = Some oid →
       c_cache (p_cache p') !! name = Some oid) ∧
    match sv_poller sv with
    | None => pollInterval ≤ 0
    | Some po =>
        0 < pollInterval ∧ po_frequencyIncrement po = pollInterval ∧
        (∀ name, is_Some (po_store po !! name)
           ↔ name ∈ (km_Name <$> filter stored (reg_Metrics full))) ∧
        (∃ now, po_polledMetrics po = schedule now <$> filter polled (reg_Metrics full)) ∧
        po_stopCh_closed po = false ∧ po_doneCh_closed po = false
    end.
Proof.
  intros full. destruct (New_run osVersion pollInterval p Hidx Hload)
    as (sv & p' & Hnew & Hk & Hf & Hok & Hres & Hpo).
  exists sv, p'. do 5 (split; [done|]). destruct (sv_poller sv) as [po|]; [|exact Hpo].
  destruct Hpo as (? & ? & ? & ? & ? & ? & _). done.
Qed.
End Starting.

(** ** Theorems on the handlers *)

Section Handlers.
Context {W : Type} `{SysctlSpec W} `{Host W}.

Lemma GetMetrics_run names (st : ServerSt W) (Hok : server_ok st) :
  ∃ ms st', GetMetrics names st = (Ok ms, st') ∧ server_ok st' ∧
    ss_server st' = ss_server st ∧
    Forall2 (λ name m, metric_for name m ∧
      ∀ m', stored_metric (ss_server st) name = Some m' → m = m') names ms ∧
    ((∀ name, name ∈ names → is_Some (stored_metric (ss_server st) name)) → st' = st).
Proof.
  pose proof (hoare_reads id (ss_server st) names st (conj Hok eq_refl)) as Hh.
  pose proof (stored_reads_pure names st) as Hpure. unfold GetMetrics in *. unfold id in Hh.
  destruct (mapM readMetric names st) as [[ms|e|] st'] eqn:E;
    change (mapM (λ x, readMetric x) names) with (mapM readMetric names) in Hh;
    rewrite E in Hh; [|done|done].
  destruct Hh as (Hms & Hok' & Hsv). exists ms, st'. done.
Qed.

(** C17: [GetMetrics] never fails: it returns one well-formed metric per
    requested name, in request order, duplicates and unknown names included;
    a name in the poller's store gets exactly the stored metric, and a
    request for stored names alone touches nothing, the kernel included. *)
Theorem GetMetrics_correct names (st : ServerSt W) (Hok : server_ok st) :
  ∃ ms st', GetMetrics names st = (Ok ms, st') ∧ server_ok st' ∧
    ss_server st' = ss_server st ∧
    Forall2 (λ name m, metric_for name m ∧
      ∀ m', stored_metric (ss_server st) name = Some m' → m = m') names ms ∧
    ((∀ name, name ∈ names → is_Some (stored_metric (ss_server st) name)) → st' = st).
Proof. by apply GetMetrics_run. Qed.

(** [GetMetricsByCategory] is [GetMetrics] of the names that
    [ListKnownMetrics] lists for the category, in the same order; an unknown
    category (and the empty one, which [ListKnownMetrics] takes for all)
    gives an empty response and reads nothing. *)
Theorem GetMetricsByCategory_correct kernelRegistry category (st : ServerSt W) :
  (category ≠ EmptyString →
   GetMetricsByCategory category st
     = GetMetrics (km_Name <$> reg_Metrics
         (ListKnownMetrics (buildFullRegistry kernelRegistry) category)) st) ∧
  (category ∉ Categories → GetMetricsByCategory category st = (Ok [], st)).
Proof.
  unfold GetMetricsByCategory, GetMetrics. split.
  - intros Hc. rewrite ListKnownMetrics_category by done. symmetry. apply mapM_fmap.
  - intros Hc. assert (Hnil : ByCategory category = []); [|by rewrite Hnil].
    apply dec_stable. intros Hne. apply Hc.
    by apply categories_nonempty.
Qed.
End Handlers.

(** ** Witnesses on the concrete kernel *)

(** An embedded file system with one file, and a parser that knows it. *)
Definition demo_files : RegistryFiles := {|
  darwinConfigs_ReadFile := λ path,
    if decide (path = "darwin/24.6.0.textproto") then Ok []
    else Err (Errorf "file does not exist" []);
  prototext_Unmarshal := λ _, Ok textproto_24_6_0;
  runtime_GOARCH := "arm64";
  runtime_GOOS := "darwin";
|}.

Lemma demo_files_load v : @LoadKernelRegistry demo_files v ≠ Panic.
Proof.
  unfold LoadKernelRegistry. rewrite decide_False by (simpl; intros [E|E]; by apply E).
  simpl. by destruct (decide _).
Qed.

Lemma New_correct_witness :
  ∃ sv p', @New nat demo_kernel demo_host demo_files "24.6.0" 500000000 demo_proc = (Ok sv, p') ∧
    c_cache (p_cache p') !! "hw.ncpu" = Some [6; 3].
Proof.
  destruct (@New_correct nat demo_kernel demo_spec demo_host demo_files "24.6.0" 500000000 demo_proc
    (or_introl eq_refl) (demo_files_load "24.6.0")) as (sv & p' & Hnew & _ & _ & _ & Hw & _).
  exists sv, p'. split; [exact Hnew|]. apply Hw; [by_decide|reflexivity].
Defined.

(** A server without a poller. *)
Definition demo_server : ServerSt nat :=
  mkServerSt demo_proc (mkServer None (buildFullRegistry None) None).

Lemma demo_server_ok : @server_ok nat demo_kernel demo_spec demo_server.
Proof. split; [exact demo_proc_ok|exact I]. Qed.

Lemma GetMetrics_correct_witness :
  ∃ ms st', @GetMetrics nat demo_kernel demo_host ["hw.ncpu"; "no.such"; "hw.ncpu"] demo_server
      = (Ok ms, st') ∧ length ms = 3%nat.
Proof.
  destruct (@GetMetrics_correct nat demo_kernel demo_spec demo_host
    ["hw.ncpu"; "no.such"; "hw.ncpu"] demo_server demo_server_ok)
    as (ms & st' & Hget & _ & _ & Hms & _).
  exists ms, st'. split; [exact Hget|]. symmetry. exact (Forall2_length _ _ _ Hms).
Defined.
