(* ===== verification/Concurrent.v ===== *)
(** * Requests and the poller together (internal/server)

    The handlers and the polling goroutine of a running server, interleaved.
    The shared variables are the metric store, behind its read-write lock, and
    the process state the live reads use.  A step is one critical section of
    the lock, one live read, or one iteration of the tick's loop, so that a
    tick may be anywhere between two reads of one request and the other way
    round.  [Locks] splits the critical sections into the steps of the mutex and
    refines this system.  (A live read is one step: what it shares with other goroutines is
    the MIB cache, whose interleavings are in [MibCache], and the kernel, whose
    world is free to change at every call.) *)

From Stdlib Require Import ZArith Lia.
From stdpp Require Import sorting.
From S2P Require Import Prelude GoTime Kernel TableKernel MibCache Registry KernelRegistry.
From S2P Require Import Metrics Poller Server.

Local Open Scope Z_scope.

Section System.
Context {W : Type} `{Kernel W} `{Host W} `{MapOrder}.

(** The polling goroutine: at its [select], or in [tick]'s loop, with the
    clock reading, the batch and the two parts of the slice it ranges over
    (which it updates in place, but is alone to use). *)
Inductive poller_pc :=
  | PSelect
  | PVisit (now : Z) (batch : gmap string Metric) (visited todo : list polledMetric).

(** A [GetMetrics] handler: the names left, the metrics found, and whether
    the first name left was just looked up and not found in the store. *)
Record handler := mkHandler {
  h_todo : list string;
  h_done : list Metric;
  h_missed : bool;
}.

Record SysSt := mkSys {
  sy_proc : Proc W;
  sy_store : metricStore;
  sy_polled : list polledMetric;
  sy_pc : poller_pc;
  sy_handlers : list handler;
}.

Definition fresh_handler (names : list string) : handler := mkHandler names [] false.

Definition set_handler (i : nat) (h : handler) (s : SysSt) : SysSt :=
  mkSys (sy_proc s) (sy_store s) (sy_polled s) (sy_pc s) (<[i := h]> (sy_handlers s)).
Definition set_proc (p : Proc W) (s : SysSt) : SysSt :=
  mkSys p (sy_store s) (sy_polled s) (sy_pc s) (sy_handlers s).
Definition set_pc (pc : poller_pc) (s : SysSt) : SysSt :=
  mkSys (sy_proc s) (sy_store s) (sy_polled s) pc (sy_handlers s).

(** The end of a tick: the batch goes to the store in one critical section. *)
Definition finish_tick (batch : gmap string Metric) (visited : list polledMetric) (s : SysSt)
    : SysSt :=
  mkSys (sy_proc s)
    (if decide (0 < size batch)%nat then putBatch (sy_store s) batch else sy_store s)
    visited PSelect (sy_handlers s).

(** One step; the label of a step that ends a tick is the tick's clock reading
    and its batch. *)
Inductive sys_step : SysSt → option (Z * gmap string Metric) → SysSt → Prop :=
  (** A request arrives. *)
  | sys_request s names :
      sys_step s None (mkSys (sy_proc s) (sy_store s) (sy_polled s) (sy_pc s)
                         (sy_handlers s ++ [fresh_handler names]))
  (** [readMetric]: [store.get], found or not, and then the live read. *)
  | sys_hit s i name todo got m :
      sy_handlers s !! i = Some (mkHandler (name :: todo) got false) →
      store_get (sy_store s) name = Some m →
      sys_step s None (set_handler i (mkHandler todo (got ++ [m]) false) s)
  | sys_miss s i name todo got :
      sy_handlers s !! i = Some (mkHandler (name :: todo) got false) →
      store_get (sy_store s) name = None →
      sys_step s None (set_handler i (mkHandler (name :: todo) got true) s)
  | sys_live s i name todo got m p :
      sy_handlers s !! i = Some (mkHandler (name :: todo) got true) →
      readMetricLive name (sy_proc s) = (Ok m, p) →
      sys_step s None (set_handler i (mkHandler todo (got ++ [m]) false) (set_proc p s))
  (** A read of some subscription's round. *)
  | sys_subscriber s name r p :
      on_cache (MIBCache_GetRaw name) (sy_proc s) = (r, p) →
      sys_step s None (set_proc p s)
  (** [tick]: the clock, one entry of the slice, the batch. *)
  | sys_tick s t p :
      sy_pc s = PSelect → proc_now (sy_proc s) = (Ok t, p) →
      sys_step s None (set_pc (PVisit (UnixNano t) ∅ [] (sy_polled s)) (set_proc p s))
  | sys_visit s now batch visited pm todo batch' visited' p :
      sy_pc s = PVisit now batch visited (pm :: todo) →
      tick_step now (batch, visited) pm (sy_proc s) = (Ok (batch', visited'), p) →
      sys_step s None (set_pc (PVisit now batch' visited' todo) (set_proc p s))
  | sys_put s now batch visited :
      sy_pc s = PVisit now batch visited [] →
      sys_step s (Some (now, batch)) (finish_tick batch visited s).

(** A run, and the log of the ticks that ended in it. *)
Inductive sys_run (s : SysSt) : list (Z * gmap string Metric) → SysSt → Prop :=
  | run_nil : sys_run s [] s
  | run_snoc log s1 l s2 :
      sys_run s log s1 → sys_step s1 l s2 → sys_run s (log ++ option_list l) s2.
End System.
Arguments SysSt : clear implicits.

(** ** Versions of the store *)

Definition tick_log := list (Z * gmap string Metric).

(** The store after the first [k] ticks of a log. *)
Definition version (store : metricStore) (log : tick_log) (k : nat) : metricStore :=
  foldl (λ s tick, tick.2 ∪ s) store (take k log).

Lemma version_app store log log' k :
  (k ≤ length log)%nat → version store (log ++ log') k = version store log k.
Proof. intros Hk. unfold version. by rewrite take_app_le. Qed.

Lemma version_snoc store log tick :
  version store (log ++ [tick]) (length (log ++ [tick]))
  = tick.2 ∪ version store log (length log).
Proof. unfold version. rewrite !firstn_all, foldl_app. done. Qed.

Lemma Sorted_snoc_max (ks : list nat) k :
  Sorted le ks → Forall (λ j, j ≤ k)%nat ks → Sorted le (ks ++ [k]).
Proof.
  intros Hs Hk. induction Hs as [|j ks Hs IH Hhd]; [by repeat constructor|].
  apply Forall_cons in Hk as [Hj Hk]. constructor; [by apply IH|].
  destruct ks; constructor; [done|]. by inversion Hhd.
Qed.

Section Invariants.
Context {W : Type} `{SysctlSpec W} `{Host W} `{MapOrder}.

(** [m] was read live, from some sequential state of the process. *)
Definition live_value (name : string) (m : Metric) : Prop :=
  ∃ p p' : Proc W, proc_ok p ∧ readMetricLive name p = (Ok m, p').

(** What the goroutine has done of a tick. *)
Definition gathered (now : Z) (batch : gmap string Metric) (before after : list polledMetric) : Prop :=
  after = advance now <$> before ∧ store_ok batch ∧
  (∀ name m, batch !! name = Some m → live_value name m) ∧
  ∀ name, is_Some (batch !! name) ↔ name ∈ due_names now before.

Definition pc_ok (s : SysSt W) : Prop :=
  match sy_pc s with
  | PSelect => True
  | PVisit now batch visited todo =>
      ∃ before, sy_polled s = before ++ todo ∧ gathered now batch before visited
  end.

Definition handler_ok (h : handler) : Prop := h_missed h = true → h_todo h ≠ [].

Definition sys_ok (s : SysSt W) : Prop :=
  proc_ok (sy_proc s) ∧ store_ok (sy_store s) ∧ pc_ok s ∧ Forall handler_ok (sy_handlers s).

Lemma proc_now_ok (p : Proc W) r p' : proc_ok p → proc_now p = (r, p') → proc_ok p'.
Proof.
  intros Hp Hn. pose proof (after_clock_ok p Hp) as Ha. unfold after_clock in Ha.
  by rewrite Hn in Ha.
Qed.

Lemma subscriber_ok name (p : Proc W) r p' :
  proc_ok p → on_cache (MIBCache_GetRaw name) p = (r, p') → proc_ok p'.
Proof.
  intros [Hc Hi] Hr. pose proof (hoare_cache_GetRaw (c_cache (p_cache p)) name (p_cache p)
    (conj Hc (reflexivity _))) as Hh.
  unfold on_cache, zoom in Hr. destruct (MIBCache_GetRaw name (p_cache p)) as [[raw|e|] c];
    [..|done]; simplify_eq/=.
  - split; [apply Hh|done].
  - split; [apply Hh|done].
Qed.

(** One iteration of the loop. *)
Lemma visit_ok now batch before visited pm batch' visited' (p p' : Proc W) :
  proc_ok p → gathered now batch before visited →
  tick_step now (batch, visited) pm p = (Ok (batch', visited'), p') →
  proc_ok p' ∧ gathered now batch' (before ++ [pm]) visited'.
Proof.
  intros Hp (-> & Hs & Hl & Hdom) Hstep. unfold gathered, due_names, tick_step in *.
  rewrite fmap_app, filter_app, fmap_app. cbn [fmap list_fmap].
  rewrite filter_cons, filter_nil. unfold advance at 2. fold (due now pm) in Hstep |- *.
  destruct (decide (due now pm)) as [Hd|Hd].
  - run_simpl. destruct (readMetricLive_ok (pm_name pm) p Hp) as (m & p1 & Hr & Hm & Hp1).
    rewrite Hr in Hstep. simplify_eq/=. split; [exact (proc_at_ok _ _ Hp1)|]. split; [done|].
    split.
    + intros name m'. rewrite lookup_insert. destruct (decide _) as [<-|]; [|apply Hs].
      by intros [= <-].
    + split.
      { intros name m'. rewrite lookup_insert. destruct (decide _) as [<-|]; [|apply Hl].
        intros [= <-]. exists p, p'. exact (conj Hp Hr). }
      intros name. rewrite lookup_insert_is_Some', elem_of_app, list_elem_of_singleton, Hdom.
      split; (intros [?|?]; [by right|by left]).
  - injection Hstep as <- <- <-. split; [done|]. split; [done|]. do 2 (split; [done|]).
    intros name. by rewrite Hdom, app_nil_r.
Qed.

Lemma handler_next_ok (hs : list handler) i h :
  Forall handler_ok hs → handler_ok h → Forall handler_ok (<[i := h]> hs).
Proof. intros. by apply Forall_insert. Qed.

(** The effect of a step on the store, the schedule and the log. *)
Definition step_effect (s : SysSt W) (l : option (Z * gmap string Metric)) (s' : SysSt W) : Prop :=
  match l with
  | None => sy_store s' = sy_store s ∧ sy_polled s' = sy_polled s
  | Some (now, batch) =>
      sy_store s' = batch ∪ sy_store s ∧ gathered now batch (sy_polled s) (sy_polled s')
  end.

Lemma finish_store batch (store : metricStore) :
  (if decide (0 < size batch)%nat then putBatch store batch else store) = batch ∪ store.
Proof.
  destruct (decide _) as [|Hz]; [apply putBatch_union|].
  assert (batch = ∅) as -> by (apply map_size_empty_iff; lia). by rewrite (left_id_L ∅ _).
Qed.

Lemma sys_step_ok (s : SysSt W) l s' :
  sys_ok s → sys_step s l s' → sys_ok s' ∧ step_effect s l s'.
Proof.
  intros (Hp & Hs & Hpc & Hh) Hstep. unfold sys_ok, pc_ok in *.
  destruct Hstep as [s names|s i name todo got m Hi Hm|s i name todo got Hi Hm
    |s i name todo got m p Hi Hm|s name r p Hr|s t p Hsel Hr
    |s now batch visited pm todo batch' visited' p Hv Hr|s now batch visited Hv];
    cbn [set_handler set_proc set_pc finish_tick sy_proc sy_store sy_polled sy_pc sy_handlers
      step_effect] in *.
  - split; [|done]. do 3 (split; [done|]). apply Forall_app. split; [done|].
    by apply Forall_singleton.
  - split; [|done]. do 3 (split; [done|]). by apply handler_next_ok.
  - split; [|done]. do 3 (split; [done|]). by apply handler_next_ok.
  - split; [|done]. destruct (readMetricLive_ok name _ Hp) as (m' & p' & Hl & _ & Hp').
    rewrite Hl in Hm. injection Hm as <- <-.
    split; [exact (proc_at_ok _ _ Hp')|]. do 2 (split; [done|]). by apply handler_next_ok.
  - split; [|done]. split; [by eapply subscriber_ok|done].
  - split; [|done]. split; [by eapply proc_now_ok|]. split; [done|]. split; [|done].
    exists []. split; [done|]. split; [done|]. do 2 (split; [by intros ? ?|]).
    intros name. unfold due_names. rewrite filter_nil. simpl. rewrite lookup_empty, elem_of_nil.
    split; [by intros []|done].
  - split; [|done]. rewrite Hv in Hpc. destruct Hpc as (before & Hb & Hg).
    destruct (visit_ok _ _ _ _ _ _ _ _ _ Hp Hg Hr) as [Hp' Hg'].
    split; [exact Hp'|]. split; [done|]. split; [|done].
    exists (before ++ [pm]). split; [by rewrite <- app_assoc|exact Hg'].
  - rewrite Hv in Hpc. destruct Hpc as (before & Hb & Hg). rewrite app_nil_r in Hb. subst before.
    rewrite finish_store. split; [|done]. split; [done|]. split; [|done].
    intros name m [Hm|[_ Hm]]%lookup_union_Some_raw; [by apply Hg|by apply Hs].
Qed.

(** ** Runs *)

Lemma sys_run_ok (s : SysSt W) log s' :
  sys_ok s → sys_run s log s' →
  sys_ok s' ∧ sy_store s' = version (sy_store s) log (length log).
Proof.
  intros Hok Hrun. induction Hrun as [|log s1 l s2 Hrun [Hok1 Hst] Hstep]; [done|].
  destruct (sys_step_ok _ _ _ Hok1 Hstep) as [Hok2 He]. split; [done|].
  destruct l as [[now batch]|]; simpl in He |- *.
  - destruct He as [-> _]. by rewrite version_snoc, Hst.
  - destruct He as [-> _]. by rewrite app_nil_r.
Qed.

(** The answer to a request for [name], when it was looked up in the [k]-th
    version of the store: that version's metric, or a live one. *)
Definition answer (store : metricStore) (log : tick_log) (name : string) (m : Metric) (k : nat)
    : Prop :=
  metric_for name m ∧
  match version store log k !! name with Some m' => m = m' | None => live_value name m end.

(** A handler that was asked for [names] has answered a first part of them,
    from versions that never go back. *)
Definition answered (store : metricStore) (log : tick_log) (names : list string) (h : handler)
    (ks : list nat) : Prop :=
  (∃ asked, names = asked ++ h_todo h ∧ Forall3 (answer store log) asked (h_done h) ks) ∧
  Sorted le ks ∧ Forall (λ k, k ≤ length log)%nat ks.

Definition missed (store : metricStore) (log : tick_log) (h : handler) (ks : list nat) : Prop :=
  h_missed h = true → ∃ k, Forall (λ j, j ≤ k)%nat ks ∧ (k ≤ length log)%nat ∧
    ∀ name, head (h_todo h) = Some name → version store log k !! name = None.

Lemma answer_app store log log' name m k :
  (k ≤ length log)%nat → answer store log name m k → answer store (log ++ log') name m k.
Proof. intros Hk [Hm Ha]. split; [done|]. by rewrite version_app. Qed.

Lemma answered_app store log log' names h ks :
  answered store log names h ks → answered store (log ++ log') names h ks.
Proof.
  intros [(asked & -> & H3) [Hs Hk]]. split; [|split; [done|]].
  - exists asked. split; [done|]. clear Hs.
    induction H3 as [|name m k l1 l2 l3 Ha H3 IH]; [constructor|].
    apply Forall_cons in Hk as [Hk Hks]. constructor; [by apply answer_app|by apply IH].
  - rewrite length_app. eapply Forall_impl; [exact Hk|]. intros k; simpl; lia.
Qed.

Lemma missed_app store log log' h ks :
  missed store log h ks → missed store (log ++ log') h ks.
Proof.
  intros Hm Hh. destruct (Hm Hh) as (k & Hks & Hk & Hn). exists k. rewrite length_app.
  split; [done|]. split; [lia|]. intros name Hname. rewrite version_app by done. by apply Hn.
Qed.

(** One more answer. *)
Lemma answered_snoc store log names name todo got b ks m k :
  answered store log names (mkHandler (name :: todo) got b) ks →
  Forall (λ j, j ≤ k)%nat ks → (k ≤ length log)%nat → answer store log name m k →
  answered store log names (mkHandler todo (got ++ [m]) false) (ks ++ [k]).
Proof.
  intros [(asked & -> & H3) [Hs Hks]] Hmax Hk Ha. split; [|split].
  - exists (asked ++ [name]). cbn [h_todo h_done]. rewrite <- app_assoc. split; [reflexivity|].
    apply Forall3_app; [exact H3|]. repeat constructor; apply Ha.
  - by apply Sorted_snoc_max.
  - apply Forall_app. split; [exact Hks|]. by apply Forall_singleton.
Qed.

Definition progress_of (store : metricStore) (log : tick_log) (names : list string)
    (oh : option handler) : Prop :=
  ∃ h ks, oh = Some h ∧ answered store log names h ks ∧ missed store log h ks.

Lemma progress_other store log names i j h (hs : list handler) :
  i ≠ j → progress_of store log names (hs !! i) → progress_of store log names (<[j := h]> hs !! i).
Proof. intros. by rewrite list_lookup_insert_ne. Qed.

Lemma progress_step names i store log (s1 s2 : SysSt W) l :
  sys_ok s1 → sy_store s1 = version store log (length log) → sys_step s1 l s2 →
  progress_of store log names (sy_handlers s1 !! i) →
  progress_of store (log ++ option_list l) names (sy_handlers s2 !! i).
Proof.
  intros (Hp & Hso & _) Hst Hstep Hpr.
  destruct Hstep as [s ns|s j name todo got m Hj Hm|s j name todo got Hj Hm
    |s j name todo got m p Hj Hm|s name r p Hr|s t p Hsel Hr
    |s now batch visited pm todo batch' visited' p Hv Hr|s now batch visited Hv];
    cbn [set_handler set_proc set_pc finish_tick sy_proc sy_store sy_polled sy_pc sy_handlers
      option_list] in *; rewrite ?app_nil_r; [| | | |done|done|done|].
  - destruct Hpr as (h & ks & Hi & Hpr). exists h, ks. split; [|done]. by apply lookup_app_l_Some.
  - destruct (decide (i = j)) as [->|Hne]; [|by apply progress_other].
    destruct Hpr as (h & ks & Hi & Ha & _). rewrite Hj in Hi. injection Hi as <-.
    eexists _, _. split; [apply list_lookup_insert_eq; by eapply lookup_lt_Some|]. split.
    + eapply answered_snoc; [exact Ha|apply Ha|reflexivity|]. split; [exact (Hso name m Hm)|].
      rewrite <- Hst. unfold store_get in Hm. by rewrite Hm.
    + intros Hh. discriminate Hh.
  - destruct (decide (i = j)) as [->|Hne]; [|by apply progress_other].
    destruct Hpr as (h & ks & Hi & Ha & _). rewrite Hj in Hi. injection Hi as <-.
    eexists _, _. split; [apply list_lookup_insert_eq; by eapply lookup_lt_Some|].
    split; [exact Ha|]. intros _. exists (length log). split; [apply Ha|]. split; [done|].
    intros ? [= <-]. by rewrite <- Hst.
  - destruct (decide (i = j)) as [->|Hne]; [|by apply progress_other].
    destruct Hpr as (h & ks & Hi & Ha & Hmiss). rewrite Hj in Hi. injection Hi as <-.
    destruct (Hmiss eq_refl) as (k & Hks & Hk & Hn). specialize (Hn name eq_refl).
    eexists _, _. split; [apply list_lookup_insert_eq; by eapply lookup_lt_Some|]. split.
    + eapply answered_snoc; [exact Ha|exact Hks|exact Hk|]. unfold answer. rewrite Hn. split.
      * destruct (readMetricLive_ok name _ Hp) as (m' & p' & Hl & Hmet & _).
        rewrite Hl in Hm. by injection Hm as <- <-.
      * eexists _, _. exact (conj Hp Hm).
    + intros Hh. discriminate Hh.
  - destruct Hpr as (h & ks & Hi & Ha & Hm). exists h, ks. split; [done|].
    split; [by apply answered_app|by apply missed_app].
Qed.

Lemma progress_run names i (s s' : SysSt W) log :
  sys_ok s → sy_handlers s !! i = Some (fresh_handler names) → sys_run s log s' →
  progress_of (sy_store s) log names (sy_handlers s' !! i).
Proof.
  intros Hok Hi Hrun. induction Hrun as [|log s1 l s2 Hrun IH Hstep].
  - exists (fresh_handler names), []. split; [done|]. split; [|by intros ?].
    split; [|split; constructor]. exists []. split; [done|constructor].
  - destruct (sys_run_ok _ _ _ Hok Hrun) as [Hok1 Hst]. by eapply progress_step.
Qed.

(** Runs of steps of which none ends a tick. *)
Lemma run_quiet (s s1 s2 : SysSt W) : sys_step s None s1 → sys_run s1 [] s2 → sys_run s [] s2.
Proof.
  intros Hstep Hrun. remember [] as log eqn:El. induction Hrun as [|log s2 l s3 Hrun IH Hs].
  - apply (run_snoc s [] s None); [constructor|done].
  - destruct log; [|done]. destruct l; [done|]. apply (run_snoc s [] s2 None); [by apply IH|done].
Qed.

(** A step that leaves the polling goroutine and the store where they are. *)
Definition handler_move (s s' : SysSt W) : Prop :=
  sys_step s None s' ∧ sy_pc s' = sy_pc s ∧ sy_store s' = sy_store s.

Lemma handler_moves_run (s s' : SysSt W) :
  rtc handler_move s s' → sys_run s [] s' ∧ sy_pc s' = sy_pc s ∧ sy_store s' = sy_store s.
Proof.
  induction 1 as [s|s s1 s2 (Hstep & Hpc & Hst) _ (Hrun & Hpc' & Hst')]; [by repeat constructor|].
  split; [by eapply run_quiet|]. by rewrite Hpc', Hst'.
Qed.

(** With critical sections as single steps, a handler can end by its own steps
    alone, one for a name found in the store and two for another. *)
Lemma handler_finishes i h (s : SysSt W) :
  sys_ok s → sy_handlers s !! i = Some h →
  ∃ n s' h', nsteps handler_move n s s' ∧ (n ≤ 2 * length (h_todo h))%nat ∧
    sy_handlers s' !! i = Some h' ∧ h_todo h' = [].
Proof.
  destruct h as [todo got b]. revert s got b.
  induction todo as [|name todo IH]; intros s got b Hok Hi.
  { exists 0%nat, s. eexists. split; [constructor|]. split; [simpl; lia|]. split; [exact Hi|done]. }
  (* the rest, after a step from [s0] that answers the name *)
  assert (Hnext : ∀ (s0 : SysSt W) p m, sys_ok s0 → (i < length (sy_handlers s0))%nat →
    let s1 := set_handler i (mkHandler todo (got ++ [m]) false) (set_proc p s0) in
    sys_step s0 None s1 →
    ∃ n s' h', nsteps handler_move n s0 s' ∧ (n ≤ 1 + 2 * length todo)%nat ∧
      sy_handlers s' !! i = Some h' ∧ h_todo h' = []).
  { intros s0 p m Hok0 Hlt s1 Hstep. destruct (sys_step_ok _ _ _ Hok0 Hstep) as [Hok1 _].
    destruct (IH s1 (got ++ [m]) false Hok1) as (n & s' & h' & Hrun & Hn & Hh).
    { by apply list_lookup_insert_eq. }
    exists (S n), s', h'. split; [by eapply nsteps_l|]. split; [simpl in Hn; lia|done]. }
  assert (Hlive : ∀ s0 : SysSt W, sys_ok s0 →
    sy_handlers s0 !! i = Some (mkHandler (name :: todo) got true) →
    ∃ n s' h', nsteps handler_move n s0 s' ∧ (n ≤ 1 + 2 * length todo)%nat ∧
      sy_handlers s' !! i = Some h' ∧ h_todo h' = []).
  { intros s0 Hok0 Hi0. pose proof Hok0 as [Hp0 _].
    destruct (readMetricLive_ok name _ Hp0) as (m & p & Hl & _ & _).
    apply (Hnext s0 p m Hok0); [by eapply lookup_lt_Some|by eapply sys_live]. }
  assert (Hlt : (i < length (sy_handlers s))%nat) by by eapply lookup_lt_Some.
  cbn [h_todo length]. destruct b.
  { destruct (Hlive s Hok Hi) as (n & s' & h' & Hrun & Hn & Hh).
    exists n, s', h'. split; [done|]. split; [lia|done]. }
  destruct (store_get (sy_store s) name) as [m|] eqn:Hm.
  - destruct (Hnext s (sy_proc s) m Hok Hlt) as (n & s' & h' & Hrun & Hn & Hh).
    { destruct s as [p st pol pc hs]. by eapply (sys_hit (mkSys p st pol pc hs)). }
    exists n, s', h'. split; [done|]. split; [lia|done].
  - pose proof (sys_miss s i name todo got Hi Hm) as Hstep.
    destruct (sys_step_ok _ _ _ Hok Hstep) as [Hok1 _].
    edestruct (Hlive _ Hok1) as (n & s' & h' & Hrun & Hn & Hh).
    { by apply list_lookup_insert_eq. }
    exists (S n), s', h'. split; [by eapply nsteps_l|]. split; [lia|done].
Qed.

(** ** The schedule under interleaving *)

(** The schedule after the ticks of a log. *)
Lemma run_schedule (s s' : SysSt W) log :
  sys_ok s → sys_run s log s' → sy_polled s' = advance_all log.*1 <$> sy_polled s.
Proof.
  intros Hok Hrun. induction Hrun as [|log s1 l s2 Hrun IH Hstep].
  { symmetry. apply list_fmap_id. }
  destruct (sys_run_ok _ _ _ Hok Hrun) as [Hok1 _].
  destruct (sys_step_ok _ _ _ Hok1 Hstep) as [_ He]. destruct l as [[now batch]|]; simpl in He |- *.
  - destruct He as (_ & -> & _). rewrite IH, fmap_app, <- list_fmap_compose.
    apply list_fmap_ext. intros _ pm _. unfold advance_all, compose. by rewrite foldl_app.
  - destruct He as [_ ->]. by rewrite app_nil_r.
Qed.

Lemma advance_all_name nows pm : pm_name (advance_all nows pm) = pm_name pm.
Proof.
  revert pm. induction nows as [|now nows IH]; intros pm; [done|]. unfold advance_all in *.
  cbn [foldl]. rewrite IH. unfold advance. by destruct (decide _).
Qed.

(** [m] is what the tick of the log that read its clock at [g] stored. *)
Definition stored_by (log : tick_log) (g : Z) (name : string) (m : Metric) : Prop :=
  metric_for name m ∧ live_value name m ∧
  ∃ batch, (g, batch) ∈ log ∧ batch !! name = Some m.

Lemma stored_by_app log log' g name m :
  stored_by log g name m → stored_by (log ++ log') g name m.
Proof.
  intros (Hm & Hl & batch & Hin & Hb). split; [done|]. split; [done|]. exists batch.
  split; [|done]. apply elem_of_app. by left.
Qed.

Lemma run_entry (s s' : SysSt W) log i pm :
  sys_ok s → NoDup (pm_name <$> sy_polled s) → sys_run s log s' → sy_polled s !! i = Some pm →
  match last (gathers pm log.*1) with
  | Some g => ∃ m, sy_store s' !! pm_name pm = Some m ∧ stored_by log g (pm_name pm) m
  | None => sy_store s' !! pm_name pm = sy_store s !! pm_name pm
  end.
Proof.
  intros Hok Hnd Hrun Hi. induction Hrun as [|log s1 l s2 Hrun IH Hstep]; [done|].
  destruct (sys_run_ok _ _ _ Hok Hrun) as [Hok1 _].
  destruct (sys_step_ok _ _ _ Hok1 Hstep) as [_ He]. destruct l as [[now batch]|]; simpl in He |- *.
  2: { destruct He as [-> _]. by rewrite app_nil_r. }
  destruct He as (Hst & _ & Hbs & Hbl & Hdom). rewrite fmap_app. cbn [fmap list_fmap fst].
  rewrite gathers_snoc. pose proof (run_schedule _ _ _ Hok Hrun) as Hsched.
  assert (Hi1 : sy_polled s1 !! i = Some (advance_all log.*1 pm))
    by (rewrite Hsched, list_lookup_fmap, Hi; reflexivity).
  assert (Hnd1 : NoDup (pm_name <$> sy_polled s1)).
  { rewrite Hsched, <- list_fmap_compose.
    rewrite (list_fmap_ext (pm_name ∘ advance_all log.*1) pm_name); [done|].
    intros _ x _. apply advance_all_name. }
  pose proof (due_names_iff now _ _ _ Hnd1 Hi1) as Hdue. rewrite advance_all_name in Hdue.
  rewrite Hst. destruct (decide (due now (advance_all log.*1 pm))) as [Hd|Hd].
  - rewrite last_snoc. apply Hdue, Hdom in Hd as [m Hm]. exists m.
    split; [by apply lookup_union_Some_l|]. split; [by apply Hbs|]. split; [by apply Hbl|].
    exists batch. split; [|done]. apply elem_of_app. right. by left.
  - rewrite app_nil_r, lookup_union_r.
    + destruct (last (gathers pm log.*1)) as [g|]; [|done].
      destruct IH as (m & Hm & Hb). exists m. split; [done|]. by apply stored_by_app.
    + apply eq_None_not_Some. by rewrite Hdom, Hdue.
Qed.

Lemma run_unscheduled (s s' : SysSt W) log name :
  sys_ok s → sys_run s log s' → name ∉ pm_name <$> sy_polled s →
  sy_store s' !! name = sy_store s !! name.
Proof.
  intros Hok Hrun Hn. induction Hrun as [|log s1 l s2 Hrun IH Hstep]; [done|].
  destruct (sys_run_ok _ _ _ Hok Hrun) as [Hok1 _].
  destruct (sys_step_ok _ _ _ Hok1 Hstep) as [_ He]. destruct l as [[now batch]|]; simpl in He.
  2: { by destruct He as [-> _]. }
  destruct He as (Hst & _ & _ & _ & Hdom). rewrite Hst, lookup_union_r; [done|].
  apply eq_None_not_Some. rewrite Hdom. intros Hin. apply Hn.
  unfold due_names in Hin. apply list_elem_of_fmap in Hin as (pm & -> & [_ Hpm]%list_elem_of_filter).
  rewrite (run_schedule _ _ _ Hok Hrun) in Hpm.
  apply list_elem_of_fmap in Hpm as (pm' & -> & Hpm'). rewrite advance_all_name.
  by apply list_elem_of_fmap_2.
Qed.

(** ** The sequential handler *)

(** The system of a server that nothing runs on. *)
Definition sys_of (st : ServerSt W) : SysSt W :=
  match sv_poller (ss_server st) with
  | Some po => mkSys (ss_proc st) (po_store po) (po_polledMetrics po) PSelect []
  | None => mkSys (ss_proc st) newMetricStore [] PSelect []
  end.

Lemma sys_of_ok (st : ServerSt W) : server_ok st → sys_ok (sys_of st).
Proof.
  intros [Hp Hs]. unfold sys_of. destruct (sv_poller _) as [po|]; split; try exact Hp.
  - split; [exact Hs|]. by split.
  - split; [by intros ? ?|]. by split.
Qed.

Lemma sys_of_store (st : ServerSt W) name :
  store_get (sy_store (sys_of st)) name = stored_metric (ss_server st) name.
Proof. unfold sys_of, stored_metric. by destruct (sv_poller _) as [po|]. Qed.

Lemma readMetric_run name (st : ServerSt W) :
  readMetric name st =
    match stored_metric (ss_server st) name with
    | Some m => (Ok m, st)
    | None => let '(o, p) := readMetricLive name (ss_proc st) in (o, mkServerSt p (ss_server st))
    end.
Proof. unfold readMetric, on_server_proc. run_simpl. by destruct (stored_metric _ _). Qed.

Lemma handler_alone todo got ms (st st' : ServerSt W) (s : SysSt W) :
  mapM readMetric todo st = (Ok ms, st') → sy_proc s = ss_proc st →
  sy_store s = sy_store (sys_of st) → sy_handlers s = [mkHandler todo got false] →
  ∃ s', sys_run s [] s' ∧ sy_proc s' = ss_proc st' ∧
    sy_handlers s' = [mkHandler [] (got ++ ms) false].
Proof.
  revert got ms st s. induction todo as [|name todo IH]; intros got ms st s Hrun Hp Hst Hh.
  { cbn [mapM] in Hrun. run_simpl. injection Hrun as <- <-. exists s. rewrite app_nil_r.
    split; [constructor|done]. }
  cbn [mapM] in Hrun. run_simpl. rewrite readMetric_run in Hrun.
  assert (Hget : store_get (sy_store s) name = stored_metric (ss_server st) name)
    by by rewrite Hst, sys_of_store.
  assert (Hi : sy_handlers s !! 0%nat = Some (mkHandler (name :: todo) got false)) by by rewrite Hh.
  destruct (stored_metric (ss_server st) name) as [m|] eqn:Hm; run_simpl.
  - destruct (mapM readMetric todo st) as [[ms'|e|] st1] eqn:Hrest; [|done..]. injection Hrun as <- <-.
    destruct (IH (got ++ [m]) ms' st (set_handler 0 (mkHandler todo (got ++ [m]) false) s) Hrest)
      as (s' & Hs & Hp' & Hh'); [done|done|cbn; by rewrite Hh|].
    exists s'. split; [eapply run_quiet; [by eapply sys_hit|done]|].
    by rewrite <- app_assoc in Hh'.
  - destruct (readMetricLive name (ss_proc st)) as [[m|e|] p] eqn:Hl; run_simpl; [|done..].
    destruct (mapM readMetric todo _) as [[ms'|e|] st1] eqn:Hrest; [|done..]. injection Hrun as <- <-.
    set (s1 := set_handler 0 (mkHandler (name :: todo) got true) s).
    destruct (IH (got ++ [m]) ms' _ (set_handler 0 (mkHandler todo (got ++ [m]) false) (set_proc p s1))
      Hrest) as (s' & Hs & Hp' & Hh'); [done| |cbn; by rewrite Hh|].
    { cbn. rewrite Hst. unfold sys_of. cbn. by destruct (sv_poller _). }
    exists s'. split; [|by rewrite <- app_assoc in Hh'].
    eapply run_quiet; [by eapply sys_miss|]. eapply run_quiet; [|exact Hs].
    eapply sys_live; [cbn; rewrite Hh; reflexivity|]. cbn. by rewrite Hp.
Qed.

(** ** Theorems *)

(** The interleaved handler is the sequential one when nothing else runs: its
    steps alone lead to [GetMetrics]'s response and process state. *)
Theorem GetMetrics_alone names ms (st st' : ServerSt W)
    (Hget : GetMetrics names st = (Ok ms, st')) :
  ∃ s', sys_run (mkSys (sy_proc (sys_of st)) (sy_store (sys_of st)) (sy_polled (sys_of st)) PSelect
                   [fresh_handler names]) [] s' ∧
    sy_proc s' = ss_proc st' ∧ sy_handlers s' = [mkHandler [] ms false].
Proof.
  apply (handler_alone names [] ms st st'); [exact Hget| |done|done].
  unfold sys_of. by destruct (sv_poller _).
Qed.

(** C8: the staleness bound holds under interleaving: in any run of the
    handlers and the goroutine, a polled metric's stored value is the one read
    live by the last tick that gathered it (unchanged if none did), at most one
    TTL before the last tick once the first tick has reached its scheduled
    time; metrics that are not scheduled keep their value. *)
Theorem staleness_interleaved (s s' : SysSt W) log i pm (Hok : sys_ok s)
    (Hnd : NoDup (pm_name <$> sy_polled s)) (Hrun : sys_run s log s')
    (Hi : sy_polled s !! i = Some pm) :
  match last (gathers pm log.*1) with
  | Some g => ∃ m, sy_store s' !! pm_name pm = Some m ∧ stored_by log g (pm_name pm) m
  | None => sy_store s' !! pm_name pm = sy_store s !! pm_name pm
  end ∧
  (∀ nows now n0, log.*1 = nows ++ [now] → Forall time_range (nows ++ [now]) →
     time_range (pm_ttlNanos pm) → head (nows ++ [now]) = Some n0 → due n0 pm →
     ∃ g, last (gathers pm log.*1) = Some g ∧ (now = g ∨ now < g + pm_ttlNanos pm)) ∧
  (∀ name, name ∉ pm_name <$> sy_polled s → sy_store s' !! name = sy_store s !! name).
Proof.
  split; [by apply (run_entry s s' log i)|]. split.
  - intros nows now n0 -> Hrange Httl Hhead Hd. pose proof (gathers_last pm nows now Hrange Httl) as Hl.
    destruct (last (gathers pm (nows ++ [now]))) as [g|] eqn:E; [by exists g|].
    exfalso. apply last_None in E. destruct (nows ++ [now]) as [|n l]; [done|]. simplify_eq/=.
    by rewrite decide_True in E.
  - intros name. by eapply run_unscheduled.
Qed.
End Invariants.

(** ** Witnesses on the concrete kernel *)

(** A request for a polled metric and a live one, as a tick is due. *)
Definition demo_old : Metric :=
  mkMetric "hw.memsize" "hw.memory" (Some (Metric_Uint64Value 1)) None.

Definition demo_sys : SysSt nat :=
  mkSys demo_proc {["hw.memsize" := demo_old]} [demo_pm] PSelect
    [fresh_handler ["hw.memsize"; "hw.ncpu"]].

Lemma memsize_entry : info_Category <$> registry_entry "hw.memsize" = Some "hw.memory" ∧
  info_Type <$> registry_entry "hw.memsize" = Some TypeUint64.
Proof. by_decide. Qed.

Lemma demo_sys_ok : @sys_ok nat demo_kernel demo_spec demo_host demo_sys.
Proof.
  split; [exact demo_proc_ok|]. split; [|split].
  - intros name m Hm. cbn [sy_store demo_sys] in Hm.
    apply lookup_singleton_Some in Hm as [<- <-]. unfold metric_for.
    destruct memsize_entry as [Hc Ht]. destruct (registry_entry "hw.memsize"); [|done].
    injection Hc as ->. injection Ht as ->. split; [done|]. split; [done|]. by split.
  - exact I.
  - apply Forall_singleton. by intros ?.
Qed.

(** The first name is answered while the tick is under way, from the version
    before it; then the tick ends. *)
Lemma demo_sys_run : ∃ batch s',
  @sys_run nat demo_kernel demo_host some_order demo_sys [(17777217000499999, batch)] s'.
Proof.
  destruct (@readMetricLive_ok nat demo_kernel demo_spec demo_host "hw.memsize"
    (@after_clock nat demo_host demo_proc)
    (@after_clock_ok nat demo_kernel demo_spec demo_host _ demo_proc_ok)) as (m & p & Hl & _).
  eexists _, _. eapply (run_snoc _ [] _ (Some (_, _))).
  - eapply (run_snoc _ [] _ None).
    + eapply (run_snoc _ [] _ None).
      * eapply (run_snoc _ [] _ None); [constructor|]. eapply sys_tick; reflexivity.
      * eapply sys_visit; [reflexivity|]. cbn [set_pc set_proc sy_proc].
        change (mkProc _ _) with (@after_clock nat demo_host demo_proc).
        unfold tick_step. rewrite (decide_True (P := _ ≤ _)) by by_decide.
        change (pm_name demo_pm) with "hw.memsize". run_simpl. rewrite Hl. reflexivity.
    + eapply sys_hit with (i := 0%nat); reflexivity.
  - eapply sys_put; reflexivity.
Qed.

Lemma staleness_interleaved_witness : ∃ log s' m,
  @sys_run nat demo_kernel demo_host some_order demo_sys log s' ∧
  sy_store s' !! "hw.memsize" = Some m ∧
  @stored_by nat demo_kernel demo_spec demo_host log 17777217000499999 "hw.memsize" m.
Proof.
  destruct demo_sys_run as (batch & s' & Hrun).
  pose proof (proj1 (@staleness_interleaved nat demo_kernel demo_spec demo_host some_order
    demo_sys s' _ 0 demo_pm demo_sys_ok ltac:(by_decide) Hrun eq_refl)) as Hs.
  change (last (gathers demo_pm _)) with (Some 17777217000499999) in Hs.
  destruct Hs as (m & Hm & Hb). exists [(17777217000499999, batch)], s', m.
  exact (conj Hrun (conj Hm Hb)).
Defined.
