(* ===== verification/Locks.v ===== *)
(** * The metric store's lock (internal/server/poller.go, metricStore)

    [Concurrent] takes a critical section of the store as one step.  Here the
    [sync.RWMutex] is a variable of its own, every Lock, RLock, RUnlock, Unlock
    and every access of the map under it is a step, readers block while a
    writer is announced or inside, [putBatch] writes the batch entry by entry,
    and a handler's live read looks its name up in the index in a step of its
    own, before the kernel is read.  The steps refine those of [Concurrent] when
    the name index is warm (the look-up then only reads it): a goroutine that
    finds it cold fills it without synchronisation, which [RegistryRace] shows
    to be a race. *)

From Stdlib Require Import ZArith Lia.
From stdpp Require Import sorting.
From S2P Require Import Prelude GoTime Kernel TableKernel MibCache Registry KernelRegistry.
From S2P Require Import Metrics FullRegistry Poller Server Concurrent.

(** ** [sync.RWMutex] *)

(** A writer is absent, waits for the readers inside to leave (new readers
    block from then on), or is inside. *)
Inductive writer := WNone | WPending | WInside.

#[export] Instance writer_eq_dec : EqDecision writer.
Proof. solve_decision. Defined.

Record RWMutex := mkMutex {
  rw_readers : nat;
  rw_waiting : nat;
  rw_writer : writer;
}.

Definition unlocked : RWMutex := mkMutex 0 0 WNone.

(** [RLock]: whether the reader is inside or blocked. *)
Definition RLock (mu : RWMutex) : bool * RWMutex :=
  match rw_writer mu with
  | WNone => (true, mkMutex (S (rw_readers mu)) (rw_waiting mu) WNone)
  | w => (false, mkMutex (rw_readers mu) (S (rw_waiting mu)) w)
  end.
Definition RUnlock (mu : RWMutex) : RWMutex :=
  mkMutex (pred (rw_readers mu)) (rw_waiting mu) (rw_writer mu).
(** [Lock]: the announcement, and the entry once the readers have left. *)
Definition Lock_announce (mu : RWMutex) : RWMutex :=
  mkMutex (rw_readers mu) (rw_waiting mu) WPending.
Definition Lock_enter (mu : RWMutex) : RWMutex :=
  mkMutex (rw_readers mu) (rw_waiting mu) WInside.
(** [Unlock]: the readers that waited are inside. *)
Definition Unlock (mu : RWMutex) : RWMutex :=
  mkMutex (rw_readers mu + rw_waiting mu) 0 WNone.

Section Fine.
Context {W : Type} `{Kernel W} `{Host W} `{MapOrder}.

(** The rest of [readMetricLive] after [info := metrics.ByName(name)]. *)
Definition read_entry (name : string) (info : option Info) : M (Proc W) Metric :=
  match info with
  | None =>
      let m := mkMetric name EmptyString None None in
      read_value m (MIBCache_GetRaw name) Metric_RawValue
  | Some info =>
      let m := mkMetric name (info_Category info) None None in
      if decide (info_Type info = TypeComputed) then readComputed name m
      else read_by_type name (info_Type info) m
  end.

Lemma readMetricLive_split name :
  readMetricLive name = (info ← on_index (ByName name); read_entry name info).
Proof. reflexivity. Qed.

(** A handler in [store.get] and [readMetric]: before [RLock], blocked in it,
    inside, with the map's answer before [RUnlock], before the live read, and in
    it with the index's answer. *)
Inductive reader_pc :=
  | RStart
  | RBlocked
  | RInside
  | RGot (found : option Metric)
  | RLive
  | RNamed (info : option Info).

Record reader := mkReader {
  r_todo : list string;
  r_done : list Metric;
  r_pc : reader_pc;
}.

(** The polling goroutine: as in [Concurrent], and in [putBatch]'s [Lock], and
    under the lock with the entries left to write. *)
Inductive goroutine_pc :=
  | GSelect
  | GVisit (now : Z) (batch : gmap string Metric) (visited todo : list polledMetric)
  | GLocking (now : Z) (batch : gmap string Metric) (visited : list polledMetric)
  | GWriting (entries : list (string * Metric)).

Record FineSt := mkFine {
  fi_proc : Proc W;
  fi_mu : RWMutex;
  fi_values : metricStore;
  fi_polled : list polledMetric;
  fi_pc : goroutine_pc;
  fi_readers : list reader;
}.

Definition fresh_reader (names : list string) : reader := mkReader names [] RStart.

Definition set_reader (i : nat) (r : reader) (mu : RWMutex) (p : Proc W) (s : FineSt) : FineSt :=
  mkFine p mu (fi_values s) (fi_polled s) (fi_pc s) (<[i := r]> (fi_readers s)).

(** [Unlock] lets the blocked readers in. *)
Definition admit_reader (r : reader) : reader :=
  match r_pc r with RBlocked => mkReader (r_todo r) (r_done r) RInside | _ => r end.

(** One step; the label of the one that ends a tick's effect on the readers
    (the writer's entry, or the end of a tick with an empty batch) is the
    tick's clock reading and its batch. *)
Inductive fine_step : FineSt → option (Z * gmap string Metric) → FineSt → Prop :=
  | fine_request s names :
      fine_step s None (mkFine (fi_proc s) (fi_mu s) (fi_values s) (fi_polled s) (fi_pc s)
                          (fi_readers s ++ [fresh_reader names]))
  (** [s.mu.RLock()] *)
  | fine_rlock s i name todo got inside mu :
      fi_readers s !! i = Some (mkReader (name :: todo) got RStart) →
      RLock (fi_mu s) = (inside, mu) →
      fine_step s None
        (set_reader i (mkReader (name :: todo) got (if inside then RInside else RBlocked)) mu
           (fi_proc s) s)
  (** [m, ok := s.values[name]] *)
  | fine_get s i name todo got :
      fi_readers s !! i = Some (mkReader (name :: todo) got RInside) →
      fine_step s None
        (set_reader i (mkReader (name :: todo) got (RGot (fi_values s !! name))) (fi_mu s)
           (fi_proc s) s)
  (** [s.mu.RUnlock()], and [return m] or the live read *)
  | fine_runlock s i name todo got found :
      fi_readers s !! i = Some (mkReader (name :: todo) got (RGot found)) →
      fine_step s None
        (set_reader i
           (match found with
            | Some m => mkReader todo (got ++ [m]) RStart
            | None => mkReader (name :: todo) got RLive
            end) (RUnlock (fi_mu s)) (fi_proc s) s)
  (** [readMetricLive]: [metrics.ByName(name)], and the reading *)
  | fine_byname s i name todo got info p :
      fi_readers s !! i = Some (mkReader (name :: todo) got RLive) →
      on_index (ByName name) (fi_proc s) = (Ok info, p) →
      fine_step s None (set_reader i (mkReader (name :: todo) got (RNamed info)) (fi_mu s) p s)
  | fine_live s i name todo got info m p :
      fi_readers s !! i = Some (mkReader (name :: todo) got (RNamed info)) →
      read_entry name info (fi_proc s) = (Ok m, p) →
      fine_step s None (set_reader i (mkReader todo (got ++ [m]) RStart) (fi_mu s) p s)
  | fine_subscriber s name r p :
      on_cache (MIBCache_GetRaw name) (fi_proc s) = (r, p) →
      fine_step s None
        (mkFine p (fi_mu s) (fi_values s) (fi_polled s) (fi_pc s) (fi_readers s))
  | fine_tick s t p :
      fi_pc s = GSelect → proc_now (fi_proc s) = (Ok t, p) →
      fine_step s None
        (mkFine p (fi_mu s) (fi_values s) (fi_polled s)
           (GVisit (UnixNano t) ∅ [] (fi_polled s)) (fi_readers s))
  | fine_visit s now batch visited pm todo batch' visited' p :
      fi_pc s = GVisit now batch visited (pm :: todo) →
      tick_step now (batch, visited) pm (fi_proc s) = (Ok (batch', visited'), p) →
      fine_step s None
        (mkFine p (fi_mu s) (fi_values s) (fi_polled s) (GVisit now batch' visited' todo)
           (fi_readers s))
  (** [if len(batch) > 0] fails *)
  | fine_skip s now batch visited :
      fi_pc s = GVisit now batch visited [] → size batch = 0%nat →
      fine_step s (Some (now, batch))
        (mkFine (fi_proc s) (fi_mu s) (fi_values s) visited GSelect (fi_readers s))
  (** [s.mu.Lock()] *)
  | fine_lock s now batch visited :
      fi_pc s = GVisit now batch visited [] → (0 < size batch)%nat →
      fine_step s None
        (mkFine (fi_proc s) (Lock_announce (fi_mu s)) (fi_values s) (fi_polled s)
           (GLocking now batch visited) (fi_readers s))
  | fine_enter s now batch visited entries :
      fi_pc s = GLocking now batch visited → rw_readers (fi_mu s) = 0%nat →
      entries ≡ₚ map_to_list batch →
      fine_step s (Some (now, batch))
        (mkFine (fi_proc s) (Lock_enter (fi_mu s)) (fi_values s) visited
           (GWriting entries) (fi_readers s))
  (** [s.values[name] = m] *)
  | fine_write s name m entries :
      fi_pc s = GWriting ((name, m) :: entries) →
      fine_step s None
        (mkFine (fi_proc s) (fi_mu s) (<[name := m]> (fi_values s)) (fi_polled s)
           (GWriting entries) (fi_readers s))
  (** [s.mu.Unlock()] *)
  | fine_unlock s :
      fi_pc s = GWriting [] →
      fine_step s None
        (mkFine (fi_proc s) (Unlock (fi_mu s)) (fi_values s) (fi_polled s) GSelect
           (admit_reader <$> fi_readers s)).

Inductive fine_run (s : FineSt) : list (Z * gmap string Metric) → FineSt → Prop :=
  | fine_nil : fine_run s [] s
  | fine_snoc log s1 l s2 :
      fine_run s log s1 → fine_step s1 l s2 → fine_run s (log ++ option_list l) s2.

(** ** The system it refines *)

(** A handler has its answer from the moment it reads the map. *)
Definition erase_reader (r : reader) : handler :=
  match r_pc r with
  | RGot (Some m) => mkHandler (tail (r_todo r)) (r_done r ++ [m]) false
  | RGot None | RLive | RNamed _ => mkHandler (r_todo r) (r_done r) true
  | _ => mkHandler (r_todo r) (r_done r) false
  end.

(** The store is the new one from the moment the writer is inside. *)
Definition erase_values (s : FineSt) : metricStore :=
  match fi_pc s with GWriting entries => insert_all (fi_values s) entries | _ => fi_values s end.

Definition erase_pc (pc : goroutine_pc) : poller_pc :=
  match pc with
  | GSelect | GWriting _ => PSelect
  | GVisit now batch visited todo => PVisit now batch visited todo
  | GLocking now batch visited => PVisit now batch visited []
  end.

Definition erase (s : FineSt) : SysSt W :=
  mkSys (fi_proc s) (erase_values s) (fi_polled s) (erase_pc (fi_pc s))
    (erase_reader <$> fi_readers s).
End Fine.
Arguments FineSt : clear implicits.

(** ** Counting readers *)

Definition inside (r : reader) : nat := match r_pc r with RInside | RGot _ => 1 | _ => 0 end.
Definition blocked (r : reader) : nat := match r_pc r with RBlocked => 1 | _ => 0 end.
(** The steps a reader inside has before it has left. *)
Definition to_leave (r : reader) : nat := match r_pc r with RInside => 2 | RGot _ => 1 | _ => 0 end.

Definition total (f : reader → nat) (rs : list reader) : nat := sum_list_with f rs.

Lemma total_insert f rs i r r' :
  rs !! i = Some r → (total f (<[i := r']> rs) + f r = total f rs + f r')%nat.
Proof.
  unfold total. revert i. induction rs as [|x rs IH]; intros [|i] Hi; simplify_eq/=; [lia|].
  specialize (IH _ Hi). lia.
Qed.

Lemma total_snoc f rs r : total f (rs ++ [r]) = (total f rs + f r)%nat.
Proof. unfold total. rewrite sum_list_with_app. simpl. lia. Qed.

Lemma total_positive f rs : (0 < total f rs)%nat → ∃ i r, rs !! i = Some r ∧ (0 < f r)%nat.
Proof.
  unfold total. induction rs as [|r rs IH]; simpl; [lia|]. intros Hpos.
  destruct (decide (0 < f r)%nat) as [|Hz]; [by exists 0%nat, r|].
  destruct (IH ltac:(lia)) as (i & r' & Hi & Hr). by exists (S i), r'.
Qed.

Lemma total_lookup f rs i r : rs !! i = Some r → (f r ≤ total f rs)%nat.
Proof.
  unfold total. revert i. induction rs as [|x rs IH]; intros [|i] Hi; simplify_eq/=; [lia|].
  specialize (IH _ Hi). lia.
Qed.

Lemma total_to_leave rs : (total inside rs ≤ total to_leave rs)%nat.
Proof.
  unfold total, inside, to_leave. induction rs as [|r rs IH]; simpl; [lia|].
  destruct (r_pc r); lia.
Qed.

Lemma total_admit rs :
  total inside (admit_reader <$> rs) = (total inside rs + total blocked rs)%nat ∧
  total blocked (admit_reader <$> rs) = 0%nat.
Proof.
  unfold total, inside, blocked, admit_reader. induction rs as [|[todo got pc] rs [IH1 IH2]]; [done|].
  cbn [fmap list_fmap sum_list_with r_pc]. destruct pc; cbn [r_pc]; lia.
Qed.

(** ** Invariant *)

Section Invariant.
Context {W : Type} `{SysctlSpec W} `{Host W} `{MapOrder}.

Definition index_warm (p : Proc W) : Prop := p_index p = Some (index_by_name Known).

(** A reader that has begun has a name, and what the index said of it. *)
Definition reader_ok (r : reader) : Prop :=
  (r_pc r ≠ RStart → r_todo r ≠ []) ∧
  ∀ info, r_pc r = RNamed info → ∃ name, head (r_todo r) = Some name ∧ info = registry_entry name.

Lemma warm_ByName name (p : Proc W) :
  index_warm p → on_index (ByName name) p = (Ok (registry_entry name), p).
Proof.
  intros Hw. unfold on_index, zoom. rewrite (ByName_run name (p_index p)) by by right.
  unfold index_warm in Hw. destruct p as [c idx]. cbn in *. by rewrite Hw.
Qed.

Lemma warm_ByName_inv name (p p' : Proc W) info :
  index_warm p → on_index (ByName name) p = (Ok info, p') → info = registry_entry name ∧ p' = p.
Proof.
  intros Hw. rewrite (warm_ByName name _ Hw). generalize (registry_entry name).
  by intros e [= -> ->].
Qed.

Lemma warm_read name (p : Proc W) :
  index_warm p → readMetricLive name p = read_entry name (registry_entry name) p.
Proof. intros Hw. rewrite readMetricLive_split. run_simpl. by rewrite warm_ByName. Qed.

(** The mutex counts the readers; a writer that is inside is alone. *)
Definition lock_ok (s : FineSt W) : Prop :=
  rw_readers (fi_mu s) = total inside (fi_readers s) ∧
  rw_waiting (fi_mu s) = total blocked (fi_readers s) ∧
  Forall reader_ok (fi_readers s) ∧
  match fi_pc s with
  | GLocking _ batch _ => rw_writer (fi_mu s) = WPending ∧ (0 < size batch)%nat
  | GWriting _ => rw_writer (fi_mu s) = WInside ∧ rw_readers (fi_mu s) = 0%nat
  | _ => rw_writer (fi_mu s) = WNone ∧ rw_waiting (fi_mu s) = 0%nat
  end.

Definition fine_ok (s : FineSt W) : Prop :=
  sys_ok (erase s) ∧ lock_ok s ∧ index_warm (fi_proc s).

Lemma reader_ok_insert rs i (r : reader) :
  Forall reader_ok rs → reader_ok r → Forall reader_ok (<[i := r]> rs).
Proof. intros. by apply Forall_insert. Qed.

(** A step of a reader keeps the counts, whatever the writer does. *)
Lemma lock_ok_reader (s : FineSt W) i r r' mu p :
  lock_ok s → fi_readers s !! i = Some r → reader_ok r' →
  (rw_readers mu + inside r = rw_readers (fi_mu s) + inside r')%nat →
  (rw_waiting mu + blocked r = rw_waiting (fi_mu s) + blocked r')%nat →
  rw_writer mu = rw_writer (fi_mu s) →
  (rw_writer mu = WNone → blocked r' = 0%nat) →
  (rw_writer mu = WInside → inside r' = 0%nat) →
  lock_ok (set_reader i r' mu p s).
Proof.
  intros (Hr & Hw & Hall & Hpc) Hi Hok Hin Hbl Hwr Hnone Hinside. unfold lock_ok.
  cbn [set_reader fi_mu fi_readers fi_pc].
  pose proof (total_insert inside _ i r r' Hi) as H1'.
  pose proof (total_insert blocked _ i r r' Hi) as H2'.
  split; [lia|]. split; [lia|]. split; [by apply reader_ok_insert|]. rewrite Hwr in *.
  destruct (fi_pc s); [| |done|]; destruct Hpc as [Hp1 Hp2]; rewrite Hp1 in *; split; try done.
  - specialize (Hnone eq_refl). lia.
  - specialize (Hnone eq_refl). lia.
  - specialize (Hinside eq_refl). lia.
Qed.

Lemma RLock_counts (mu mu' : RWMutex) b :
  RLock mu = (b, mu') →
  rw_writer mu' = rw_writer mu ∧ (b = true ↔ rw_writer mu = WNone) ∧
  rw_readers mu' = (rw_readers mu + Nat.b2n b)%nat ∧
  rw_waiting mu' = (rw_waiting mu + Nat.b2n (negb b))%nat.
Proof.
  unfold RLock. destruct (rw_writer mu); intros [= <- <-]; cbn; split_and!; try done; lia.
Qed.

Lemma lock_step (s : FineSt W) l s' :
  lock_ok s → index_warm (fi_proc s) → fine_step s l s' → lock_ok s'.
Proof.
  intros Hok Hwarm Hstep. pose proof Hok as (Hr & Hw & Hall & Hpc).
  destruct Hstep as [s names|s i name todo got b mu Hi Hmu|s i name todo got Hi
    |s i name todo got found Hi|s i name todo got info p Hi Hm|s i name todo got info m p Hi Hm
    |s name r p Hm|s t p Hsel Hm
    |s now batch visited pm todo batch' visited' p Hv Hm|s now batch visited Hv Hz
    |s now batch visited Hv Hz|s now batch visited entries Hv Hz Hperm|s name m entries Hv|s Hv].
  - unfold lock_ok. cbn [fi_mu fi_readers fi_pc]. rewrite !total_snoc. cbn [inside blocked fresh_reader r_pc].
    split; [lia|]. split; [lia|]. split; [|exact Hpc]. apply Forall_app. split; [exact Hall|].
    apply Forall_singleton. split; [intros Hne; by destruct Hne|by intros ?].
  - destruct (RLock_counts _ _ _ Hmu) as (Hwr & Hb & H1' & H2').
    eapply lock_ok_reader; [done|exact Hi|by split; [|destruct b]| | |done|..];
      rewrite ?H1', ?H2', ?Hwr; destruct b; cbn [inside blocked r_pc Nat.b2n negb]; try lia.
    + intros Hn. by apply Hb in Hn.
    + destruct Hb as [Hb _]. rewrite (Hb eq_refl). done.
  - eapply lock_ok_reader; [done|exact Hi|by split|done..| |].
    + done.
    + intros Hin. pose proof (total_lookup inside _ _ _ Hi) as Hle. cbn [inside r_pc] in Hle.
      destruct (fi_pc s); destruct Hpc as [Hp1 Hp2]; rewrite Hp1 in Hin; try done. lia.
  - pose proof (total_lookup inside _ _ _ Hi) as Hle. cbn [inside r_pc] in Hle.
    eapply lock_ok_reader; [done|exact Hi|by destruct found; split|..]; destruct found;
      cbn [RUnlock rw_readers rw_waiting rw_writer inside blocked r_pc]; try done; lia.
  - destruct (warm_ByName_inv _ _ _ _ Hwarm Hm) as [-> ->].
    eapply lock_ok_reader; [done|exact Hi| |done..].
    split; [done|]. cbn [r_pc]. intros info Heq. exists name. split; [done|].
    revert Heq. generalize (registry_entry name). by intros e [= ->].
  - eapply lock_ok_reader; [done|exact Hi|by split|done..].
  - done.
  - unfold lock_ok. cbn [fi_mu fi_readers fi_pc]. rewrite Hsel in Hpc.
    exact (conj Hr (conj Hw (conj Hall Hpc))).
  - unfold lock_ok. cbn [fi_mu fi_readers fi_pc]. rewrite Hv in Hpc.
    exact (conj Hr (conj Hw (conj Hall Hpc))).
  - unfold lock_ok. cbn [fi_mu fi_readers fi_pc]. rewrite Hv in Hpc.
    exact (conj Hr (conj Hw (conj Hall Hpc))).
  - unfold lock_ok. cbn [fi_mu fi_readers fi_pc Lock_announce rw_readers rw_waiting rw_writer].
    exact (conj Hr (conj Hw (conj Hall (conj eq_refl Hz)))).
  - unfold lock_ok. cbn [fi_mu fi_readers fi_pc Lock_enter rw_readers rw_waiting rw_writer].
    exact (conj Hr (conj Hw (conj Hall (conj eq_refl Hz)))).
  - unfold lock_ok. cbn [fi_mu fi_readers fi_pc]. rewrite Hv in Hpc.
    exact (conj Hr (conj Hw (conj Hall Hpc))).
  - unfold lock_ok. cbn [fi_mu fi_readers fi_pc Unlock rw_readers rw_waiting rw_writer].
    destruct (total_admit (fi_readers s)) as [-> ->]. split; [lia|]. split; [done|]. split; [|done].
    apply Forall_fmap. eapply Forall_impl; [exact Hall|]. intros [todo got pc] Hro. unfold compose.
    unfold reader_ok, admit_reader in *. cbn [r_pc r_todo] in *.
    destruct pc; try exact Hro. split; [|by intros ?]. intros _. by apply Hro.
Qed.

(** ** Refinement *)

Lemma erase_set_reader (s : FineSt W) i r mu p :
  erase (set_reader i r mu p s) = set_handler i (erase_reader r) (set_proc p (erase s)).
Proof.
  unfold erase, set_handler, set_proc, set_reader, erase_values.
  cbn [fi_proc fi_values fi_polled fi_pc fi_readers sy_proc sy_store sy_polled sy_pc sy_handlers].
  by rewrite list_fmap_insert.
Qed.

(** A step of a reader that its handler does not see. *)
Lemma erase_same (s : FineSt W) i r r' mu :
  fi_readers s !! i = Some r → erase_reader r' = erase_reader r →
  erase (set_reader i r' mu (fi_proc s) s) = erase s.
Proof.
  intros Hi He. rewrite erase_set_reader, He. unfold set_handler, set_proc, erase.
  cbn [sy_proc sy_store sy_polled sy_pc sy_handlers]. f_equal.
  apply list_insert_id. by rewrite list_lookup_fmap, Hi.
Qed.

Lemma insert_all_entries entries (batch store : gmap string Metric) :
  entries ≡ₚ map_to_list batch → insert_all store entries = batch ∪ store.
Proof.
  intros Hperm. rewrite <- insert_all_union. f_equal. unfold insert_all.
  assert (Hnd : NoDup entries.*1) by (rewrite Hperm; apply NoDup_fst_map_to_list).
  rewrite <- (list_to_map_to_list batch), <- (list_to_map_proper _ _ Hnd Hperm).
  clear Hperm. induction entries as [|[k m] entries IH] using rev_ind; [done|].
  rewrite fmap_app in Hnd. apply NoDup_app in Hnd as (Hnd & Hk & _).
  rewrite foldl_app. cbn [foldl fst snd]. rewrite IH by done.
  rewrite list_to_map_snoc; [done|]. intros Hin. apply (Hk k Hin). by left.
Qed.

(** The two ends of a critical section, and what it looks like outside: every
    step is one of the coarse system, or none. *)
Lemma fine_simulates (s : FineSt W) l s' :
  lock_ok s → index_warm (fi_proc s) → fine_step s l s' →
  (l = None ∧ erase s' = erase s) ∨ sys_step (erase s) l (erase s').
Proof.
  intros (Hr & Hw & Hall & Hpc) Hwarm Hstep.
  destruct Hstep as [s names|s i name todo got b mu Hi Hmu|s i name todo got Hi
    |s i name todo got found Hi|s i name todo got info p Hi Hm|s i name todo got info m p Hi Hm
    |s name r p Hm|s t p Hsel Hm
    |s now batch visited pm todo batch' visited' p Hv Hm|s now batch visited Hv Hz
    |s now batch visited Hv Hz|s now batch visited entries Hv Hz Hperm|s name m entries Hv|s Hv].
  - right. pose proof (sys_request (erase s) names) as Hs. unfold erase in Hs |- *.
    cbn [fi_proc fi_polled fi_pc fi_readers sy_proc sy_store sy_polled sy_pc sy_handlers] in *.
    by rewrite fmap_app.
  - left. split; [done|].
    eapply erase_same; [exact Hi|by destruct b].
  - right. rewrite erase_set_reader.
    assert (Hh : sy_handlers (erase s) !! i = Some (mkHandler (name :: todo) got false))
      by (unfold erase; cbn [sy_handlers]; by rewrite list_lookup_fmap, Hi).
    assert (Hval : sy_store (erase s) = fi_values s).
    { unfold erase, erase_values. cbn [sy_store]. destruct (fi_pc s); try done. exfalso.
      pose proof (total_lookup inside _ _ _ Hi) as Hle. cbn [inside r_pc] in Hle. lia. }
    destruct (fi_values s !! name) as [m|] eqn:Hm; unfold erase_reader; cbn [r_pc r_todo r_done tail].
    + apply (sys_hit (erase s) i name todo got m Hh). unfold store_get. by rewrite Hval.
    + apply (sys_miss (erase s) i name todo got Hh). unfold store_get. by rewrite Hval.
  - left. split; [done|]. eapply erase_same; [exact Hi|by destruct found].
  - left. split; [done|]. destruct (warm_ByName_inv _ _ _ _ Hwarm Hm) as [-> ->].
    by eapply erase_same.
  - right. rewrite erase_set_reader.
    pose proof (Forall_lookup_1 _ _ _ _ Hall Hi) as [_ Hname].
    destruct (Hname info eq_refl) as (name' & [= <-] & ->).
    apply (sys_live (erase s) i name todo got m p); [|exact (eq_trans (warm_read name _ Hwarm) Hm)].
    unfold erase. cbn [sy_handlers]. by rewrite list_lookup_fmap, Hi.
  - right. apply (sys_subscriber (erase s) name r p Hm).
  - right. unfold erase, erase_values.
    cbn [fi_pc fi_proc fi_values fi_polled fi_readers erase_pc]. rewrite Hsel. cbn [erase_pc].
    exact (sys_tick (mkSys (fi_proc s) (fi_values s) (fi_polled s) PSelect
      (erase_reader <$> fi_readers s)) t p eq_refl Hm).
  - right. unfold erase, erase_values.
    cbn [fi_pc fi_proc fi_values fi_polled fi_readers erase_pc]. rewrite Hv. cbn [erase_pc].
    exact (sys_visit (mkSys (fi_proc s) (fi_values s) (fi_polled s)
      (PVisit now batch visited (pm :: todo)) (erase_reader <$> fi_readers s))
      now batch visited pm todo batch' visited' p eq_refl Hm).
  - right. unfold erase, erase_values.
    cbn [fi_pc fi_proc fi_values fi_polled fi_readers erase_pc]. rewrite Hv. cbn [erase_pc].
    pose proof (sys_put (mkSys (fi_proc s) (fi_values s) (fi_polled s)
      (PVisit now batch visited []) (erase_reader <$> fi_readers s)) now batch visited eq_refl) as Hs.
    unfold finish_tick in Hs. by rewrite decide_False in Hs by lia.
  - left. split; [done|]. unfold erase, erase_values.
    cbn [fi_pc fi_proc fi_values fi_polled fi_readers erase_pc]. by rewrite Hv.
  - right. unfold erase, erase_values.
    cbn [fi_pc fi_proc fi_values fi_polled fi_readers erase_pc]. rewrite Hv. cbn [erase_pc].
    rewrite (insert_all_entries _ _ _ Hperm).
    pose proof (sys_put (mkSys (fi_proc s) (fi_values s) (fi_polled s)
      (PVisit now batch visited []) (erase_reader <$> fi_readers s)) now batch visited eq_refl) as Hs.
    unfold finish_tick in Hs. rewrite finish_store in Hs. exact Hs.
  - left. split; [done|]. unfold erase, erase_values.
    cbn [fi_pc fi_proc fi_values fi_polled fi_readers erase_pc]. by rewrite Hv.
  - left. split; [done|]. unfold erase, erase_values.
    cbn [fi_pc fi_proc fi_values fi_polled fi_readers erase_pc]. rewrite Hv. cbn [erase_pc].
    f_equal. rewrite <- list_fmap_compose. apply list_fmap_ext. intros _ [todo got pc] _.
    by destruct pc.
Qed.

(** No step touches a warm index. *)
Lemma live_warm name (p p' : Proc W) r :
  proc_ok p → readMetricLive name p = (r, p') → index_warm p'.
Proof.
  intros Hp Hr. destruct (readMetricLive_ok name p Hp) as (m & q & Hq & _ & [_ Hi]).
  rewrite Hq in Hr. injection Hr as _ <-. exact Hi.
Qed.

Lemma fine_step_warm (s : FineSt W) l s' :
  fine_ok s → fine_step s l s' → index_warm (fi_proc s').
Proof.
  intros ([Hp _] & (_ & _ & Hall & _) & Hwarm) Hstep. cbn [erase sy_proc] in Hp.
  destruct Hstep as [| | | |s i name todo got info p Hi Hm|s i name todo got info m p Hi Hm
    |s name r p Hm|s t p Hsel Hm
    |s now batch visited pm todo batch' visited' p Hv Hm| | | | |]; cbn [set_reader fi_proc] in *;
    try exact Hwarm.
  - by destruct (warm_ByName_inv _ _ _ _ Hwarm Hm) as [_ ->].
  - pose proof (Forall_lookup_1 _ _ _ _ Hall Hi) as [_ Hname].
    destruct (Hname info eq_refl) as (name' & [= <-] & ->).
    rewrite <- (warm_read name _ Hwarm) in Hm. by eapply live_warm.
  - unfold on_cache, zoom in Hm. destruct (MIBCache_GetRaw name (p_cache (fi_proc s))).
    by injection Hm as _ <-.
  - unfold proc_now in Hm. destruct (time_Now _). by injection Hm as _ <-.
  - unfold tick_step in Hm. destruct (decide _); run_simpl.
    + destruct (readMetricLive (pm_name pm) (fi_proc s)) as [[m|e|] q] eqn:Hr; simplify_eq.
      by eapply live_warm.
    + by simplify_eq.
Qed.

Lemma fine_step_ok (s : FineSt W) l s' : fine_ok s → fine_step s l s' → fine_ok s'.
Proof.
  intros Hok Hstep. pose proof (fine_step_warm _ _ _ Hok Hstep) as Hwarm.
  destruct Hok as (Hsys & Hlock & Hw). split; [|split; [by eapply lock_step|exact Hwarm]].
  destruct (fine_simulates _ _ _ Hlock Hw Hstep) as [[_ ->]|Hs]; [exact Hsys|by eapply sys_step_ok].
Qed.

Lemma fine_run_refines (s s' : FineSt W) log :
  fine_ok s → fine_run s log s' → fine_ok s' ∧ sys_run (erase s) log (erase s').
Proof.
  intros Hok Hrun. induction Hrun as [|log s1 l s2 Hrun [Hok1 Hs] Hstep]; [by split; [|constructor]|].
  split; [by eapply fine_step_ok|]. destruct Hok1 as (_ & Hlock & Hw).
  destruct (fine_simulates _ _ _ Hlock Hw Hstep) as [[-> ->]|Hstep']; [by rewrite app_nil_r|].
  by eapply run_snoc.
Qed.

(** ** Waiting *)

(** The steps until a writer that is announced or inside has left: those of the
    readers inside, its entry, its writes and its [Unlock]. *)
Definition wait_left (s : FineSt W) : nat :=
  match fi_pc s with
  | GLocking _ batch _ => total to_leave (fi_readers s) + size batch + 2
  | GWriting entries => length entries + 1
  | _ => 0
  end.

(** Every step brings the writer's leaving nearer, or leaves it where it is: no
    step of another goroutine can put it off. *)
Lemma wait_left_step (s : FineSt W) l s' :
  lock_ok s → fine_step s l s' → (0 < wait_left s)%nat → (wait_left s' ≤ wait_left s)%nat.
Proof.
  intros (_ & _ & _ & Hpc) Hstep Hpos. unfold wait_left in *.
  destruct Hstep as [s names|s i name todo got b mu Hi Hmu|s i name todo got Hi
    |s i name todo got found Hi|s i name todo got info p Hi Hm|s i name todo got info m p Hi Hm
    |s name r p Hm|s t p Hsel Hm
    |s now batch visited pm todo batch' visited' p Hv Hm|s now batch visited Hv Hz
    |s now batch visited Hv Hz|s now batch visited entries Hv Hz Hperm|s name m entries Hv|s Hv];
    cbn [set_reader fi_pc fi_readers] in *; rewrite ?Hsel, ?Hv in *; try lia.
  - rewrite total_snoc. cbn. destruct (fi_pc s); lia.
  - destruct (fi_pc s); try lia. destruct Hpc as [Hw _].
    unfold RLock in Hmu. rewrite Hw in Hmu. injection Hmu as <- <-.
    match goal with |- context [total to_leave (<[i := ?r']> _)] =>
      pose proof (total_insert to_leave _ i _ r' Hi) as Ht end. cbn in Ht. lia.
  - destruct (fi_pc s); try lia.
    match goal with |- context [total to_leave (<[i := ?r']> _)] =>
      pose proof (total_insert to_leave _ i _ r' Hi) as Ht end. cbn in Ht. lia.
  - destruct (fi_pc s); try lia.
    match goal with |- context [total to_leave (<[i := ?r']> _)] =>
      pose proof (total_insert to_leave _ i _ r' Hi) as Ht end. destruct found; cbn in Ht; lia.
  - destruct (fi_pc s); try lia.
    match goal with |- context [total to_leave (<[i := ?r']> _)] =>
      pose proof (total_insert to_leave _ i _ r' Hi) as Ht end. cbn in Ht. lia.
  - destruct (fi_pc s); try lia.
    match goal with |- context [total to_leave (<[i := ?r']> _)] =>
      pose proof (total_insert to_leave _ i _ r' Hi) as Ht end. cbn in Ht. lia.
  - rewrite Hperm. rewrite length_map_to_list. lia.
  - simpl in *. lia.
Qed.

(** And some step does bring it nearer. *)
Lemma wait_left_progress (s : FineSt W) :
  lock_ok s → (0 < wait_left s)%nat →
  ∃ l s', fine_step s l s' ∧ (wait_left s' < wait_left s)%nat.
Proof.
  intros (Hr & _ & Hall & Hpc) Hpos. unfold wait_left in Hpos |- *.
  destruct (fi_pc s) as [|now batch visited todo|now batch visited|[|[name m] entries]] eqn:Hv;
    try lia.
  - destruct (decide (0 < total to_leave (fi_readers s))%nat) as [Hin|Hout].
    + destruct (total_positive _ _ Hin) as (i & [todo got pc] & Hi & Hleave).
      pose proof (Forall_lookup_1 _ _ _ _ Hall Hi) as [Hro _].
      destruct todo as [|name todo]; [by destruct pc; try (cbn in Hleave; lia); destruct Hro|].
      destruct pc as [| | |found| |]; cbn in Hleave; try lia.
      * eexists None, _. split; [by eapply fine_get|]. cbn [set_reader fi_pc fi_readers].
        rewrite Hv. match goal with |- context [total to_leave (<[i := ?r']> _)] =>
          pose proof (total_insert to_leave _ i _ r' Hi) as Ht end. cbn in Ht. lia.
      * eexists None, _. split; [by eapply fine_runlock|]. cbn [set_reader fi_pc fi_readers].
        rewrite Hv. match goal with |- context [total to_leave (<[i := ?r']> _)] =>
          pose proof (total_insert to_leave _ i _ r' Hi) as Ht end. destruct found; cbn in Ht; lia.
    + pose proof (total_to_leave (fi_readers s)).
      eexists (Some _), _. split; [eapply fine_enter; [done|lia|reflexivity]|]. cbn [fi_pc].
      rewrite length_map_to_list. lia.
  - eexists None, _. split; [by apply fine_unlock|]. cbn. lia.
  - eexists None, _. split; [by eapply fine_write|]. cbn. lia.
Qed.

(** ** A request ends *)

(** A step of a reader, or one that brings the writer's leaving nearer: the
    goroutine moves only from a [Lock] it has called to its [Unlock]. *)
Definition serving_move (s s' : FineSt W) : Prop :=
  ∃ l, fine_step s l s' ∧ (fi_pc s' = fi_pc s ∨ (wait_left s' < wait_left s)%nat).

Lemma todo_insert (i j : nat) (r r1 : reader) (rs : list reader) :
  rs !! i = Some r1 → rs !! j = Some r →
  ∀ r2, (length (r_todo r2) ≤ length (r_todo r1))%nat →
  ∃ r', <[i := r2]> rs !! j = Some r' ∧ (length (r_todo r') ≤ length (r_todo r))%nat.
Proof.
  intros Hi Hj r2 Hle. destruct (decide (i = j)) as [->|Hne].
  - exists r2. simplify_eq. split; [|done]. apply list_lookup_insert_eq. by eapply lookup_lt_Some.
  - exists r. by rewrite list_lookup_insert_ne.
Qed.

(** No step gives a request names back. *)
Lemma todo_step (s : FineSt W) l s' j r :
  fine_step s l s' → fi_readers s !! j = Some r →
  ∃ r', fi_readers s' !! j = Some r' ∧ (length (r_todo r') ≤ length (r_todo r))%nat.
Proof.
  intros Hstep Hj. destruct Hstep; cbn [set_reader fi_readers]; try by (exists r).
  - exists r. split; [by apply lookup_app_l_Some|done].
  - by eapply todo_insert.
  - by eapply todo_insert.
  - eapply todo_insert; [done|done|]. destruct found; simpl; lia.
  - by eapply todo_insert.
  - eapply todo_insert; [done|done|]. simpl. lia.
  - exists (admit_reader r). split; [by rewrite list_lookup_fmap, Hj|].
    unfold admit_reader. by destruct (r_pc r).
Qed.

(** The writer leaves. *)
Lemma lock_drains (s : FineSt W) j r :
  fine_ok s → fi_readers s !! j = Some r →
  ∃ n s' r', nsteps serving_move n s s' ∧ (n ≤ wait_left s)%nat ∧ fine_ok s' ∧
    wait_left s' = 0%nat ∧ fi_readers s' !! j = Some r' ∧
    (length (r_todo r') ≤ length (r_todo r))%nat.
Proof.
  remember (wait_left s) as k eqn:Ek. revert s r Ek.
  induction (lt_wf k) as [k _ IH]. intros s r -> Hok Hj.
  destruct (decide (wait_left s = 0%nat)) as [Hz|Hnz].
  { exists 0%nat, s, r. split; [constructor|]. split; [lia|done]. }
  destruct (wait_left_progress s (proj1 (proj2 Hok)) ltac:(lia)) as (l & s1 & Hstep & Hlt).
  destruct (todo_step _ _ _ _ _ Hstep Hj) as (r1 & Hj1 & Hle1).
  destruct (IH (wait_left s1) Hlt s1 r1 eq_refl (fine_step_ok _ _ _ Hok Hstep) Hj1)
    as (n & s' & r' & Hn & Hle & Hok' & Hz & Hj' & Hle').
  exists (S n), s', r'. split.
  { eapply nsteps_l; [|exact Hn]. exists l. split; [exact Hstep|by right]. }
  split; [lia|]. do 2 (split; [done|]). split; [done|lia].
Qed.

(** What a reader has left, with no writer about. *)
Definition reader_left (r : reader) : nat :=
  5 * length (r_todo r)
  - match r_pc r with RInside => 1 | RGot _ => 2 | RLive => 3 | RNamed _ => 4 | _ => 0 end.

Lemma reader_moves (s : FineSt W) i r :
  fine_ok s → wait_left s = 0%nat → fi_readers s !! i = Some r → r_todo r ≠ [] →
  ∃ s' r', serving_move s s' ∧ fine_ok s' ∧ wait_left s' = 0%nat ∧
    fi_readers s' !! i = Some r' ∧ (reader_left r' < reader_left r)%nat.
Proof.
  intros Hok Hz Hi Ht. destruct r as [[|name todo] got pc]; [done|].
  assert (Hgo : ∀ r' mu p, fine_step s None (set_reader i r' mu p s) →
    (reader_left r' < reader_left (mkReader (name :: todo) got pc))%nat →
    ∃ s' r', serving_move s s' ∧ fine_ok s' ∧ wait_left s' = 0%nat ∧
      fi_readers s' !! i = Some r' ∧
      (reader_left r' < reader_left (mkReader (name :: todo) got pc))%nat).
  { intros r' mu p Hstep Hlt. exists (set_reader i r' mu p s), r'.
    split; [exists None; split; [exact Hstep|by left]|]. split; [by eapply fine_step_ok|].
    split; [|split; [|exact Hlt]].
    - unfold wait_left in *. cbn [set_reader fi_pc fi_readers] in *. destruct (fi_pc s); lia.
    - cbn [set_reader fi_readers]. apply list_lookup_insert_eq. by eapply lookup_lt_Some. }
  pose proof Hok as ([Hp _] & (Hr & Hw & Hall & Hpc) & Hwarm). cbn [erase sy_proc] in Hp.
  assert (Hnone : rw_writer (fi_mu s) = WNone ∧ rw_waiting (fi_mu s) = 0%nat).
  { unfold wait_left in Hz. destruct (fi_pc s); try done; lia. }
  destruct Hnone as [Hnone Hwait]. destruct pc as [| | |found| |info].
  - destruct (RLock (fi_mu s)) as [b mu] eqn:Hmu. unfold RLock in Hmu. rewrite Hnone in Hmu.
    injection Hmu as <- <-. eapply Hgo; [eapply fine_rlock; [exact Hi|]|].
    + unfold RLock. by rewrite Hnone.
    + unfold reader_left. simpl. lia.
  - pose proof (total_lookup blocked _ _ _ Hi) as Hle. cbn in Hle. lia.
  - eapply Hgo; [by apply fine_get|]. unfold reader_left. simpl. lia.
  - eapply Hgo; [by apply fine_runlock|]. unfold reader_left. destruct found; simpl; lia.
  - eapply Hgo; [by eapply fine_byname, warm_ByName|]. unfold reader_left. simpl. lia.
  - pose proof (Forall_lookup_1 _ _ _ _ Hall Hi) as [_ Hname].
    destruct (Hname info eq_refl) as (name' & [= <-] & ->).
    destruct (readMetricLive_ok name _ Hp) as (m & p & Hl & _). rewrite (warm_read name _ Hwarm) in Hl.
    eapply Hgo; [by eapply fine_live|]. unfold reader_left. simpl. lia.
Qed.

Lemma reader_ends (s : FineSt W) i r :
  fine_ok s → wait_left s = 0%nat → fi_readers s !! i = Some r →
  ∃ n s' r', nsteps serving_move n s s' ∧ (n ≤ reader_left r)%nat ∧
    fi_readers s' !! i = Some r' ∧ r_todo r' = [].
Proof.
  remember (reader_left r) as k eqn:Ek. revert s r Ek.
  induction (lt_wf k) as [k _ IH]. intros s r -> Hok Hz Hi.
  destruct (decide (r_todo r = [])) as [Ht|Ht].
  { exists 0%nat, s, r. split; [constructor|]. split; [lia|done]. }
  destruct (reader_moves s i r Hok Hz Hi Ht) as (s1 & r1 & Hm & Hok1 & Hz1 & Hi1 & Hlt).
  destruct (IH (reader_left r1) Hlt s1 r1 eq_refl Hok1 Hz1 Hi1) as (n & s' & r' & Hn & Hle & Hr).
  exists (S n), s', r'. split; [by eapply nsteps_l|]. split; [lia|exact Hr].
Qed.

Lemma reader_finishes (s : FineSt W) i r :
  fine_ok s → fi_readers s !! i = Some r →
  ∃ n s' r', nsteps serving_move n s s' ∧ (n ≤ wait_left s + 5 * length (r_todo r))%nat ∧
    fi_readers s' !! i = Some r' ∧ r_todo r' = [].
Proof.
  intros Hok Hi. destruct (lock_drains s i r Hok Hi) as (n1 & s1 & r1 & Hn1 & Hle1 & Hok1 & Hz & Hi1 & Ht).
  destruct (reader_ends s1 i r1 Hok1 Hz Hi1) as (n2 & s2 & r2 & Hn2 & Hle2 & Hi2 & Ht2).
  exists (n1 + n2)%nat, s2, r2. split; [by eapply nsteps_trans|]. split; [|done].
  unfold reader_left in Hle2. lia.
Qed.

(** Only a writer makes a reader wait. *)
Lemma blocked_waits (s : FineSt W) i r :
  lock_ok s → fi_readers s !! i = Some r → r_pc r = RBlocked → (0 < wait_left s)%nat.
Proof.
  intros (_ & Hw & _ & Hpc) Hi Hb. pose proof (total_lookup blocked _ _ _ Hi) as Hle.
  unfold blocked in Hle at 1. rewrite Hb in Hle. unfold wait_left.
  destruct (fi_pc s); destruct Hpc as [? ?]; lia.
Qed.

(** ** Theorem *)

(** C6: requests and ticks do not disturb each other, lock and all: with the name
    index warm, however the handlers' RLocks, reads and RUnlocks, their look-ups
    in the index and readings of the kernel, the subscriptions and the goroutine's Lock, writes and Unlock interleave:
    - the mutex excludes (a writer that is inside is alone), the index stays
      warm, and the run is one of the system whose critical sections are single
      steps, so that outside the writer's section the map is always the last
      version of the store (the store as a prefix of the run's ticks left it);
    - a request's answers so far are one well-formed metric per name, in order;
      each is the metric a version of the store held, never a batch half written,
      or, for a name that version did not hold, a live read; the versions a
      request sees never go back;
    - a reader can be blocked only by a writer that is announced or inside, whose
      remaining steps, with those of the readers inside ([wait_left]), no step of
      anyone can increase, and some step decreases: no deadlock and no starvation;
    - from any state a handler can end with at most five steps for each name left
      and [wait_left] more, during which the goroutine moves only from the [Lock]
      it has called to its [Unlock]: elsewhere it may stand still. *)
Theorem requests_interleaved names i (s s' : FineSt W) log (Hok : fine_ok s)
    (Hreq : fi_readers s !! i = Some (fresh_reader names)) (Hrun : fine_run s log s') :
  fine_ok s' ∧ sys_run (erase s) log (erase s') ∧
  (rw_writer (fi_mu s') ≠ WInside →
     fi_values s' = version (erase_values s) log (length log)) ∧
  (∃ r ks, fi_readers s' !! i = Some r ∧
     answered (erase_values s) log names (erase_reader r) ks) ∧
  (∀ j r, fi_readers s' !! j = Some r → r_pc r = RBlocked → (0 < wait_left s')%nat) ∧
  ((0 < wait_left s')%nat →
     (∀ l s'', fine_step s' l s'' → (wait_left s'' ≤ wait_left s')%nat) ∧
     ∃ l s'', fine_step s' l s'' ∧ (wait_left s'' < wait_left s')%nat) ∧
  (∀ j r, fi_readers s' !! j = Some r → ∃ n s'' r', nsteps serving_move n s' s'' ∧
     (n ≤ wait_left s' + 5 * length (r_todo r))%nat ∧
     fi_readers s'' !! j = Some r' ∧ r_todo r' = []).
Proof.
  destruct (fine_run_refines _ _ _ Hok Hrun) as [Hok' Hsys].
  pose proof Hok as [Hsok _]. pose proof Hok' as (_ & Hlock & _).
  destruct (sys_run_ok _ _ _ Hsok Hsys) as [_ Hst].
  assert (Hh : sy_handlers (erase s) !! i = Some (fresh_handler names))
    by (unfold erase; cbn [sy_handlers]; by rewrite list_lookup_fmap, Hreq).
  destruct (progress_run _ _ _ _ _ Hsok Hh Hsys) as (h & ks & Hi & Ha & _).
  split; [exact Hok'|]. split; [exact Hsys|]. split; [|split; [|split; [|split]]].
  - intros Hout. unfold erase in Hst. cbn [sy_store] in Hst. rewrite <- Hst. unfold erase_values.
    destruct Hlock as (_ & _ & _ & Hpc). destruct (fi_pc s'); [done..|].
    destruct Hpc as [Hin _]. done.
  - unfold erase in Hi. cbn [sy_handlers] in Hi. rewrite list_lookup_fmap in Hi.
    destruct (fi_readers s' !! i) as [r|]; [|done]. injection Hi as <-. exists r, ks. by split.
  - intros j r. by apply blocked_waits.
  - intros Hpos. split; [|by apply wait_left_progress].
    intros l s'' Hstep. by eapply wait_left_step.
  - intros j r. by apply reader_finishes.
Qed.
End Invariant.

(** ** A server with a poller *)

(** Its poller started, before any request. *)
Definition fine_of {W} (p : Proc W) (po : poller) : FineSt W :=
  mkFine p unlocked (po_store po) (po_polledMetrics po) GSelect [].

Section Started.
Context {W : Type} `{SysctlSpec W} `{Host W} `{MapOrder} `{RegistryFiles}.

(** [New] with a poller that stores anything has filled the name index before
    the first request: the hypothesis of [requests_interleaved]. *)
Theorem New_starts_warm osVersion pollInterval (p : Proc W)
    (Hidx : index_ok (p_index p)) (Hload : LoadKernelRegistry osVersion ≠ Panic)
    (Hpos : (0 < pollInterval)%Z)
    (Hne : filter stored (reg_Metrics (buildFullRegistry (loaded_registry osVersion))) ≠ []) :
  ∃ sv po p', New osVersion pollInterval p = (Ok sv, p') ∧ sv_poller sv = Some po ∧
    fine_ok (fine_of p' po).
Proof.
  destruct (New_run osVersion pollInterval p Hidx Hload) as (sv & p' & Hnew & _ & _ & Hok & _ & Hpo).
  destruct (sv_poller sv) as [po|] eqn:Epo; [|lia]. destruct Hpo as (_ & _ & _ & _ & _ & _ & Hwarm).
  exists sv, po, p'. split; [exact Hnew|]. split; [exact Epo|]. split; [|split; [|by apply Hwarm]].
  - pose proof (sys_of_ok _ Hok) as Hs. unfold sys_of in Hs. cbn [ss_server ss_proc] in Hs.
    by rewrite Epo in Hs.
  - do 2 (split; [done|]). split; [constructor|done].
Qed.
End Started.

(** ** Witness on the concrete kernel *)

(** The demo server with its index built; a request for a polled metric and a
    live one, as a tick is due. *)
Definition demo_warm : Proc nat := mkProc demo_cold (Some (index_by_name Known)).

Lemma demo_warm_ok : @proc_ok nat demo_kernel demo_spec demo_warm.
Proof. split; [exact (@cache_ok_empty nat demo_kernel demo_spec)|by right]. Qed.

Definition demo_fine (p : Proc nat) : FineSt nat :=
  mkFine p unlocked {["hw.memsize" := demo_old]} [demo_pm] GSelect
    [fresh_reader ["hw.memsize"; "hw.ncpu"]].

Lemma demo_fine_ok : @fine_ok nat demo_kernel demo_spec demo_host (demo_fine demo_warm).
Proof.
  split; [|split; [|reflexivity]].
  - destruct (demo_sys_ok) as (_ & Hs & _ & _).
    split; [exact demo_warm_ok|]. split; [exact Hs|]. split; [exact I|].
    apply Forall_singleton. by intros ?.
  - do 2 (split; [reflexivity|]). split; [|by split]. apply Forall_singleton.
    split; [intros Hn; by destruct Hn|by intros ?].
Qed.

Definition demo_batch (m : Metric) : gmap string Metric := {["hw.memsize" := m]}.

(** The goroutine announces itself before the reader's [RLock], which blocks; the
    batch is written, and the reader answers from the new version. *)
Section DemoRun.
Context (p0 p1 p2 : Proc nat) (t : Time) (m : Metric).
Hypothesis demo_clock : @proc_now nat demo_host p0 = (Ok t, p1).
Hypothesis demo_now : UnixNano t = 17777217000499999%Z.
Hypothesis demo_read : @readMetricLive nat demo_kernel demo_host "hw.memsize" p1 = (Ok m, p2).

Definition demo_visited : list polledMetric :=
  [mkPolled "hw.memsize" (10 * Second) (17777217000499999 + 10 * Second)].

(** The states of the run, from the tick's last read on. *)
Definition demo_at (mu : RWMutex) (values : metricStore) (polled : list polledMetric)
    (pc : goroutine_pc) (todo : list string) (got : list Metric) (rpc : reader_pc) : FineSt nat :=
  mkFine p2 mu values polled pc [mkReader todo got rpc].

Lemma demo_visit :
  @tick_step nat demo_kernel demo_host 17777217000499999 (∅, []) demo_pm p1
  = (Ok (demo_batch m, demo_visited), p2).
Proof.
  unfold tick_step. rewrite (decide_True (P := (_ ≤ _)%Z)) by by_decide.
  change (pm_name demo_pm) with "hw.memsize". run_simpl. rewrite demo_read. reflexivity.
Qed.

Let old : metricStore := {["hw.memsize" := demo_old]}.
Let new : metricStore := <["hw.memsize" := m]> old.
Let both : list string := ["hw.memsize"; "hw.ncpu"].
Let now : Z := 17777217000499999.

Lemma demo_gathers :
  @fine_run nat demo_kernel demo_host (demo_fine p0) []
    (demo_at unlocked old [demo_pm] (GVisit now (demo_batch m) demo_visited []) both [] RStart).
Proof.
  eapply (fine_snoc _ [] _ None);
    [eapply (fine_snoc _ [] _ None); [constructor|exact (fine_tick (demo_fine p0) t p1 eq_refl demo_clock)]|].
  rewrite demo_now. eapply fine_visit; [reflexivity|exact demo_visit].
Qed.

Lemma demo_writes :
  @fine_run nat demo_kernel demo_host (demo_fine p0) [(now, demo_batch m)]
    (demo_at (mkMutex 0 1 WInside) new demo_visited (GWriting []) both [] RBlocked).
Proof.
  eapply (fine_snoc _ [_] _ None); [|eapply (fine_write (demo_at (mkMutex 0 1 WInside) old
    demo_visited (GWriting [("hw.memsize", m)]) both [] RBlocked)); reflexivity].
  eapply (fine_snoc _ [] _ (Some _)).
  - eapply (fine_snoc _ [] _ None); [eapply (fine_snoc _ [] _ None); [exact demo_gathers|]|].
    + eapply fine_lock; [reflexivity|]. unfold demo_batch. rewrite map_size_singleton. lia.
    + eapply fine_rlock with (i := 0%nat); reflexivity.
  - eapply (fine_enter (demo_at (mkMutex 0 1 WPending) old [demo_pm]
      (GLocking now (demo_batch m) demo_visited) both [] RBlocked)); [reflexivity|reflexivity|].
    unfold demo_batch. by rewrite map_to_list_singleton.
Qed.

Lemma demo_fine_run :
  @fine_run nat demo_kernel demo_host (demo_fine p0) [(now, demo_batch m)]
    (demo_at unlocked new demo_visited GSelect ["hw.ncpu"] [m] RStart).
Proof.
  eapply (fine_snoc _ [_] _ None); [eapply (fine_snoc _ [_] _ None);
    [eapply (fine_snoc _ [_] _ None); [exact demo_writes|apply fine_unlock; reflexivity]|]|].
  - eapply fine_get with (i := 0%nat); reflexivity.
  - assert (Hm : new !! "hw.memsize" = Some m) by apply lookup_insert_eq.
    cbn [set_reader fi_values demo_at]. rewrite Hm.
    apply (fine_runlock (demo_at (mkMutex 1 0 WNone) new demo_visited GSelect both []
      (RGot (Some m))) 0 "hw.memsize" ["hw.ncpu"] [] (Some m)). reflexivity.
Qed.
End DemoRun.

Lemma requests_interleaved_witness : ∃ log s' r ks,
  @fine_run nat demo_kernel demo_host (demo_fine demo_warm) log s' ∧ length log = 1%nat ∧
  fi_readers s' !! 0%nat = Some r ∧ r_todo r = ["hw.ncpu"] ∧
  @answered nat demo_kernel demo_spec demo_host (erase_values (demo_fine demo_warm)) log
    ["hw.memsize"; "hw.ncpu"] (erase_reader r) ks.
Proof.
  destruct (@readMetricLive_ok nat demo_kernel demo_spec demo_host "hw.memsize"
    (@after_clock nat demo_host demo_warm)
    (@after_clock_ok nat demo_kernel demo_spec demo_host _ demo_warm_ok)) as (m & p & Hl & _).
  pose proof (demo_fine_run demo_warm _ p (mkTime 17777217 499999) m eq_refl eq_refl Hl) as Hrun.
  destruct (@requests_interleaved nat demo_kernel demo_spec demo_host some_order
    ["hw.memsize"; "hw.ncpu"] 0 (demo_fine demo_warm) _ _ demo_fine_ok eq_refl Hrun)
    as (_ & _ & _ & (r & ks & Hr & Ha) & _).
  eexists _, _, r, ks. split; [exact Hrun|]. split; [reflexivity|]. split; [exact Hr|].
  split; [by injection Hr as <-|exact Ha].
Defined.
