(* ===== verification/Service.v ===== *)
(** * The running service (internal/server/poller.go, cmd/server/main.go)

    The system of [Concurrent] with the polling goroutine's [select], its
    ticker and its stop channel, and the caller of [stop]; an account of the
    moves a stop takes; and the server command's [main], from its flags to its
    exit.  The [select] is Go's: with a tick ready and [stopCh] closed, either
    case may be taken. *)

From Stdlib Require Import ZArith Lia.
From stdpp Require Import sorting.
From S2P Require Import Prelude GoTime Kernel TableKernel MibCache Registry KernelRegistry.
From S2P Require Import Classify Metrics FullRegistry Poller Server Concurrent.

Local Open Scope Z_scope.

Section Service.
Context {W : Type} `{Kernel W} `{Host W} `{MapOrder}.

(** The channels are open or closed; [ticker.C] holds a tick or not. *)
Record SrvSt := mkSrv {
  v_sys : SysSt W;
  v_ticker : bool;
  v_stopCh : bool;
  v_doneCh : bool;
  v_stop : stop_pc;
}.

Definition started (s : SysSt W) : SrvSt := mkSrv s false false false SNotCalled.

(** The goroutine leaves its [select] for a tick. *)
Definition starts_tick (s s' : SysSt W) : Prop := sy_pc s = PSelect ∧ sy_pc s' ≠ PSelect.

Inductive serve_step : SrvSt → option (Z * gmap string Metric) → SrvSt → Prop :=
  (** The ticker fires; a tick nobody has received is dropped. *)
  | serve_ticker s t c d st :
      serve_step (mkSrv s t c d st) None (mkSrv s true c d st)
  (** A step of a handler, of a subscription, or inside a tick. *)
  | serve_other s l s' t c d st :
      sys_step s l s' → ¬ starts_tick s s' →
      serve_step (mkSrv s t c d st) l (mkSrv s' t c d st)
  (** [case <-ticker.C: p.tick()]. *)
  | serve_tick s s' c st :
      sys_step s None s' → starts_tick s s' →
      serve_step (mkSrv s true c false st) None (mkSrv s' false c false st)
  (** [case <-p.stopCh: return], and the deferred [close(p.doneCh)]. *)
  | serve_return s t st :
      sy_pc s = PSelect →
      serve_step (mkSrv s t true false st) None (mkSrv s t true true st)
  (** [stop]: [close(p.stopCh)], then [<-p.doneCh]. *)
  | serve_stop s t d :
      serve_step (mkSrv s t false d SNotCalled) None (mkSrv s t true d SWaiting)
  | serve_stopped s t c :
      serve_step (mkSrv s t c true SWaiting) None (mkSrv s t c true SReturned).

Inductive serve_run (v : SrvSt) : list (Z * gmap string Metric) → SrvSt → Prop :=
  | serve_nil : serve_run v [] v
  | serve_snoc log v1 l v2 :
      serve_run v log v1 → serve_step v1 l v2 → serve_run v (log ++ option_list l) v2.

(** A step of the goroutine or of the caller of [stop]: no request moves. *)
Definition stop_move (v v' : SrvSt) : Prop :=
  (∃ l, serve_step v l v') ∧ sy_handlers (v_sys v') = sy_handlers (v_sys v).

(** The channels and the goroutines agree. *)
Definition srv_inv (v : SrvSt) : Prop :=
  v_stopCh v = bool_decide (v_stop v ≠ SNotCalled) ∧
  (v_doneCh v = true → v_stopCh v = true ∧ sy_pc (v_sys v) = PSelect) ∧
  (v_stop v = SReturned → v_doneCh v = true).

(** What is left of a stop: the rest of the tick under way, the two steps of
    the goroutine that end it, and the caller's. *)
Definition stop_left (v : SrvSt) : nat :=
  match v_stop v with
  | SReturned => 0
  | _ =>
      if v_doneCh v then 1
      else match sy_pc (v_sys v) with
           | PSelect => 2
           | PVisit _ _ _ todo => length todo + 3
           end
  end.

(** A step of the goroutine or of the caller of [stop]; the others leave their
    control points alone. *)
Definition moved (v v' : SrvSt) : Prop :=
  sy_pc (v_sys v') ≠ sy_pc (v_sys v) ∨ v_doneCh v' ≠ v_doneCh v ∨ v_stop v' ≠ v_stop v.

(** A run, counting the times the ticker put a tick in its channel, the ticks
    the goroutine began, and its other moves and the caller's. *)
Inductive stopping (v : SrvSt) : nat → nat → nat → SrvSt → Prop :=
  | stopping_nil : stopping v 0 0 0 v
  | stopping_fire f k n v1 l v2 :
      stopping v f k n v1 → serve_step v1 l v2 →
      v_ticker v1 = false → v_ticker v2 = true → stopping v (S f) k n v2
  | stopping_tick f k n v1 l v2 :
      stopping v f k n v1 → serve_step v1 l v2 →
      starts_tick (v_sys v1) (v_sys v2) → stopping v f (S k) n v2
  | stopping_move f k n v1 l v2 :
      stopping v f k n v1 → serve_step v1 l v2 →
      ¬ starts_tick (v_sys v1) (v_sys v2) → moved v1 v2 → stopping v f k (S n) v2
  | stopping_other f k n v1 l v2 :
      stopping v f k n v1 → serve_step v1 l v2 →
      ¬ moved v1 v2 → v_ticker v2 = v_ticker v1 → stopping v f k n v2.
End Service.
Arguments SrvSt : clear implicits.

Section StopTheorems.
Context {W : Type} `{SysctlSpec W} `{Host W} `{MapOrder}.

Lemma serve_step_inv (v : SrvSt W) l v' : serve_step v l v' → srv_inv v → srv_inv v'.
Proof.
  unfold srv_inv. intros Hstep (H1' & H2' & H3').
  destruct Hstep as [s t c d st|s l s' t c d st Hs Hn|s s' c st Hs [Hp _]|s t st Hp|s t d|s t c];
    cbn [v_sys v_stopCh v_doneCh v_stop] in *; try done.
  - split; [done|]. split; [|done]. intros Hd. destruct (H2' Hd) as [Hc Hpc]. split; [done|].
    destruct (sy_pc s') eqn:E; [done|]. exfalso. apply Hn. split; [done|by rewrite E].
  - split; [done|]. split; [|done]. intros Hd. split; [done|]. by apply H2'.
Qed.

Lemma serve_run_inv (v v' : SrvSt W) log : serve_run v log v' → srv_inv v → srv_inv v'.
Proof. induction 1 as [|log v1 l v2 _ IH Hstep]; [done|]. intros Hi. by eapply serve_step_inv, IH. Qed.

(** The channels change nothing of the system: its runs are runs of [sys_step]. *)
Lemma serve_run_sys (v v' : SrvSt W) log : serve_run v log v' → sys_run (v_sys v) log (v_sys v').
Proof.
  induction 1 as [|log v1 l v2 _ IH Hstep]; [constructor|].
  destruct Hstep; cbn [v_sys] in *; [|by eapply run_snoc|by eapply (run_snoc _ _ _ None)|..];
    by rewrite app_nil_r.
Qed.

(** At its [select], the goroutine changes nothing but by a tick. *)
Lemma sys_step_select (s s' : SysSt W) l :
  sy_pc s = PSelect → sys_step s l s' → ¬ starts_tick s s' →
  l = None ∧ sy_store s' = sy_store s ∧ sy_polled s' = sy_polled s.
Proof.
  intros Hpc Hstep Hn. destruct Hstep; first [done|congruence|by exfalso; apply Hn].
Qed.

(** Once the goroutine has returned, nothing writes the store again. *)
Lemma returned_frozen (v v' : SrvSt W) log :
  serve_run v log v' → srv_inv v → v_doneCh v = true →
  log = [] ∧ v_doneCh v' = true ∧ sy_store (v_sys v') = sy_store (v_sys v) ∧
  sy_polled (v_sys v') = sy_polled (v_sys v).
Proof.
  intros Hrun Hinv Hd. induction Hrun as [|log v1 l v2 Hrun IH Hstep]; [done|].
  destruct IH as (-> & Hd1 & Hst & Hpol).
  assert (Hpc : sy_pc (v_sys v1) = PSelect) by by apply (serve_run_inv _ _ _ Hrun Hinv).
  destruct Hstep as [| |s s' c st Hs Hn| | |]; cbn [v_sys v_doneCh] in *; try done.
  destruct (sys_step_select s s' l Hpc) as (-> & Hst' & Hpol'); [done..|].
  by rewrite Hst', Hpol'.
Qed.

Lemma tick_step_ok now batch visited pm (p : Proc W) :
  proc_ok p → ∃ batch' visited' p', tick_step now (batch, visited) pm p = (Ok (batch', visited'), p').
Proof.
  intros Hp. unfold tick_step. run_simpl. destruct (decide _) as [_|_]; [|by eexists _, _, _].
  destruct (readMetricLive_ok (pm_name pm) p Hp) as (m & p' & -> & _). by eexists _, _, _.
Qed.

(** The steps of a service that is being stopped: the beginning of a tick, a
    move, the ticker, or a step of others. *)
Definition tick_begins (v v' : SrvSt W) : Prop :=
  starts_tick (v_sys v) (v_sys v') ∧ v_ticker v = true ∧ v_ticker v' = false ∧
  stop_left v' = (stop_left v + length (sy_polled (v_sys v)) + 1)%nat.
Definition stop_advances (v v' : SrvSt W) : Prop :=
  ¬ starts_tick (v_sys v) (v_sys v') ∧ moved v v' ∧ v_ticker v' = v_ticker v ∧
  S (stop_left v') = stop_left v.
Definition stop_waits (v v' : SrvSt W) : Prop :=
  ¬ starts_tick (v_sys v) (v_sys v') ∧ ¬ moved v v' ∧ stop_left v' = stop_left v ∧
  (v_ticker v = false ∧ v_ticker v' = true ∨ v_ticker v' = v_ticker v).

Lemma no_start (s s' : SysSt W) : sy_pc s' = sy_pc s → ¬ starts_tick s s'.
Proof. intros Hpc [Hs Hn]. by rewrite Hpc in Hn. Qed.

Lemma unmoved (v v' : SrvSt W) :
  sy_pc (v_sys v') = sy_pc (v_sys v) → v_doneCh v' = v_doneCh v → v_stop v' = v_stop v →
  (v_ticker v = false ∧ v_ticker v' = true ∨ v_ticker v' = v_ticker v) → stop_waits v v'.
Proof.
  intros Hpc Hd Hs Ht. split; [by apply no_start|]. split; [by intros [?|[?|?]]|].
  split; [|exact Ht]. unfold stop_left. by rewrite Hpc, Hd, Hs.
Qed.

Lemma polled_length (s s' : SysSt W) l :
  sys_ok s → sys_step s l s' → length (sy_polled s') = length (sy_polled s).
Proof.
  intros Hok Hstep. destruct (sys_step_ok _ _ _ Hok Hstep) as [_ He].
  destruct l as [[now batch]|]; simpl in He.
  - destruct He as (_ & -> & _). apply length_fmap.
  - by destruct He as [_ ->].
Qed.

Lemma run_polled_length (s s' : SysSt W) log :
  sys_ok s → sys_run s log s' → length (sy_polled s') = length (sy_polled s).
Proof.
  intros Hok Hrun. rewrite (run_schedule _ _ _ Hok Hrun). apply length_fmap.
Qed.

(** Inside a tick, [stop] waits for one entry or the batch less. *)
Lemma inside_tick (s s' : SysSt W) l t c st :
  sys_step s l s' → ¬ starts_tick s s' → st ≠ SReturned →
  let v := mkSrv s t c false st in let v' := mkSrv s' t c false st in
  stop_advances v v' ∨ stop_waits v v'.
Proof.
  intros Hstep Hn Hst v v'. pose proof Hn as Hn0.
  destruct Hstep as [s names|s i name todo got m Hi Hm|s i name todo got Hi Hm
    |s i name todo got m p Hi Hm|s name r p Hr|s u p Hsel Hr
    |s now batch visited pm todo batch' visited' p Hv Hr|s now batch visited Hv];
    try by right; apply unmoved; [..|right].
  - exfalso. apply Hn0. by split.
  - left. split; [exact Hn0|]. unfold moved, stop_left, v, v'. cbn [v_sys v_stop v_doneCh v_ticker].
    rewrite Hv. cbn [set_pc set_proc sy_pc length]. split; [|split; [done|destruct st; [simpl; lia..|done]]].
    left. intros [= _ _ Htodo]. apply (f_equal length) in Htodo. simpl in Htodo. lia.
  - left. split; [exact Hn0|]. unfold moved, stop_left, v, v'. cbn [v_sys v_stop v_doneCh v_ticker].
    rewrite Hv. cbn [finish_tick sy_pc length]. split; [by left|]. split; [done|by destruct st].
Qed.

Lemma stop_step (v : SrvSt W) l v' :
  sys_ok (v_sys v) → srv_inv v → v_stop v ≠ SNotCalled → serve_step v l v' →
  v_stop v' ≠ SNotCalled ∧ sys_ok (v_sys v') ∧
  length (sy_polled (v_sys v')) = length (sy_polled (v_sys v)) ∧
  (tick_begins v v' ∨ stop_advances v v' ∨ stop_waits v v').
Proof.
  intros Hok (Hc & Hd & Hr) Hst Hstep.
  destruct Hstep as [s t c d st|s l s' t c d st Hs Hn|s s' c st Hs Hst'|s t st Hp|s t d|s t c];
    cbn [v_sys v_stopCh v_doneCh v_stop] in *; [| | | |done|].
  - do 3 (split; [done|]). do 2 right. apply unmoved; [done..|]. cbn. destruct t; [by right|by left].
  - split; [done|]. split; [by eapply sys_step_ok|]. split; [by eapply polled_length|]. right.
    destruct d.
    + right. destruct (Hd eq_refl) as [_ Hpc]. apply unmoved; [|done|done|by right]. cbn [v_sys].
      rewrite Hpc. destruct (sy_pc s') eqn:E; [done|]. exfalso. apply Hn. split; [exact Hpc|by rewrite E].
    + apply (inside_tick s s' l t c st Hs Hn). intros ->. by specialize (Hr eq_refl).
  - split; [done|]. split; [by eapply sys_step_ok|]. split; [by eapply polled_length|]. left.
    split; [exact Hst'|]. do 2 (split; [done|]). destruct Hst' as [Hsel Hne].
    assert (Hleft : sy_pc s' = PSelect ∨
      ∃ now batch, sy_pc s' = PVisit now batch [] (sy_polled s)).
    { destruct Hs; cbn [set_handler set_proc set_pc finish_tick sy_pc] in *; eauto; congruence. }
    destruct Hleft as [?|(now & batch & Hpc)]; [done|]. unfold stop_left.
    cbn [v_stop v_doneCh v_sys]. rewrite Hsel, Hpc. destruct st; [lia|lia|].
    by specialize (Hr eq_refl).
  - do 3 (split; [done|]). right. left. split; [by intros [? ?]|]. split; [by right; left|].
    split; [done|]. unfold stop_left. cbn [v_stop v_doneCh v_sys]. rewrite Hp.
    destruct st; [done|done|by specialize (Hr eq_refl)].
  - do 3 (split; [done|]). right. left. split; [by intros [? ?]|]. split; [by right; right|].
    by split.
Qed.

(** The account of a run of a service that is being stopped. *)
Lemma stopping_account (v v' : SrvSt W) f k n :
  sys_ok (v_sys v) → srv_inv v → v_stop v ≠ SNotCalled → stopping v f k n v' →
  (sys_ok (v_sys v') ∧ srv_inv v' ∧ v_stop v' ≠ SNotCalled ∧
   length (sy_polled (v_sys v')) = length (sy_polled (v_sys v))) ∧
  (n + stop_left v' = stop_left v + k * (length (sy_polled (v_sys v)) + 1))%nat ∧
  (k + Nat.b2n (v_ticker v') = f + Nat.b2n (v_ticker v))%nat.
Proof.
  intros Hok Hinv Hst Hrun.
  induction Hrun as [|f k n v1 l v2 _ IH Hs Ht1 Ht2|f k n v1 l v2 _ IH Hs Hstart
    |f k n v1 l v2 _ IH Hs Hns Hm|f k n v1 l v2 _ IH Hs Hm Ht]; 
    [split; [exact (conj Hok (conj Hinv (conj Hst eq_refl)))|lia]|..];
    destruct IH as ((Hok1 & Hinv1 & Hst1 & Hl1) & Hn & Hk);
    destruct (stop_step v1 l v2 Hok1 Hinv1 Hst1 Hs) as (Hst2 & Hok2 & Hl2 & Hkind);
    (split; [split; [done|split; [by eapply serve_step_inv|split; [done|congruence]]]|]).
  - destruct Hkind as [(_ & Ht & _)|[(_ & _ & Ht & _)|(_ & _ & Hl & _)]]; [congruence..|].
    rewrite Ht1 in Hk. rewrite Ht2, Hl. simpl in *. lia.
  - destruct Hkind as [(_ & Ht1 & Ht2 & Hl)|[(Hns & _)|(Hns & _)]]; [|done|done].
    rewrite Ht1 in Hk. rewrite Ht2, Hl, Hl1. simpl in *. lia.
  - destruct Hkind as [(Hstart & _)|[(_ & _ & Ht & Hl)|(_ & Hnm & _)]]; [done| |done].
    rewrite Ht. lia.
  - destruct Hkind as [(Hstart & _)|[(_ & Hmv & _)|(_ & _ & Hl & _)]]; [|done|].
    + exfalso. apply Hm. left. destruct Hstart as [Hsel Hne]. by rewrite Hsel.
    + rewrite Ht, Hl. lia.
Qed.

(** Every run is counted. *)
Lemma serve_run_stopping (v v' : SrvSt W) log :
  sys_ok (v_sys v) → srv_inv v → v_stop v ≠ SNotCalled → serve_run v log v' →
  ∃ f k n, stopping v f k n v'.
Proof.
  intros Hok Hinv Hst Hrun.
  induction Hrun as [|log v1 l v2 Hrun (f & k & n & Hs) Hstep]; [by exists 0%nat, 0%nat, 0%nat; constructor|].
  destruct (stopping_account v v1 f k n Hok Hinv Hst Hs) as ((Hok1 & Hinv1 & Hst1 & _) & _).
  destruct (stop_step v1 l v2 Hok1 Hinv1 Hst1 Hstep) as (_ & _ & _ & Hkind).
  destruct Hkind as [(Hstart & _)|[(Hns & Hm & _)|(_ & Hm & _ & [[Ht1 Ht2]|Ht])]].
  - exists f, (S k), n. by eapply stopping_tick.
  - exists f, k, (S n). by eapply stopping_move.
  - exists (S f), k, n. by eapply stopping_fire.
  - exists f, k, n. by eapply stopping_other.
Qed.

(** The goroutine, or else the caller, can always move on without a new tick. *)
Lemma stop_moves (v : SrvSt W) :
  sys_ok (v_sys v) → srv_inv v → v_stop v = SWaiting →
  ∃ v', stop_move v v' ∧ stop_advances v v' ∧ sys_ok (v_sys v') ∧ srv_inv v'.
Proof.
  intros Hok Hinv Hw. destruct v as [s t c d st]. cbn [v_sys v_stop] in *. subst st.
  set (v := mkSrv s t c d SWaiting) in *.
  assert (Hgo : ∀ l v', serve_step v l v' → sy_handlers (v_sys v') = sy_handlers s →
    stop_advances v v' →
    ∃ v', stop_move v v' ∧ stop_advances v v' ∧ sys_ok (v_sys v') ∧ srv_inv v').
  { intros l v' Hstep Hh Hadv. exists v'. split; [split; [by exists l|done]|]. split; [done|].
    destruct (stop_step v l v' Hok Hinv ltac:(done) Hstep) as (_ & Hok' & _).
    split; [done|by eapply serve_step_inv]. }
  pose proof Hinv as (Hc & _). cbn [v v_stopCh v_stop] in Hc. subst c.
  destruct d.
  { eapply Hgo; [apply serve_stopped|done|]. split; [by intros [? ?]|].
    split; [by right; right|]. by split. }
  destruct (sy_pc s) as [|now batch visited todo] eqn:Hpc.
  { eapply Hgo; [by apply serve_return|done|]. split; [by intros [? ?]|].
    split; [by right; left|]. split; [done|]. unfold stop_left, v. cbn. by rewrite Hpc. }
  assert (Hin : ∀ l s', sys_step s l s' → sy_handlers s' = sy_handlers s → sy_pc s' ≠ sy_pc s →
    ∃ v', stop_move v v' ∧ stop_advances v v' ∧ sys_ok (v_sys v') ∧ srv_inv v').
  { intros l s' Hs Hh Hne.
    assert (Hns : ¬ starts_tick s s') by (intros [Hsel _]; by rewrite Hpc in Hsel).
    eapply Hgo; [apply serve_other; [exact Hs|exact Hns]|exact Hh|].
    destruct (inside_tick s s' l t true SWaiting Hs Hns ltac:(done)) as [Ha|(_ & Hm & _)]; [exact Ha|].
    exfalso. apply Hm. by left. }
  destruct todo as [|pm todo].
  - apply (Hin _ _ (sys_put s now batch visited Hpc)); [done|]. rewrite Hpc. done.
  - destruct Hok as [Hp _].
    destruct (tick_step_ok now batch visited pm (sy_proc s) Hp) as (b' & v' & p' & Hs).
    apply (Hin _ _ (sys_visit s now batch visited pm todo b' v' p' Hpc Hs)); [done|].
    rewrite Hpc. cbn [set_pc set_proc sy_pc]. intros [= _ _ Ht].
    apply (f_equal length) in Ht. simpl in Ht. lia.
Qed.

Lemma stop_finishes (v : SrvSt W) :
  sys_ok (v_sys v) → srv_inv v → v_stop v = SWaiting →
  ∃ n v', nsteps stop_move n v v' ∧ (n ≤ stop_left v)%nat ∧ v_stop v' = SReturned.
Proof.
  remember (stop_left v) as k eqn:Ek. revert v Ek.
  induction (lt_wf k) as [k _ IH]. intros v -> Hok Hinv Hw.
  destruct (stop_moves v Hok Hinv Hw) as (v1 & Hm & (_ & _ & _ & Hlt) & Hok1 & Hinv1).
  destruct Hm as [[l Hstep] Hh].
  destruct (stop_step v l v1 Hok Hinv ltac:(by rewrite Hw) Hstep) as (Hw1 & _).
  destruct (v_stop v1) eqn:E; [done| |].
  - destruct (IH (stop_left v1) ltac:(lia) v1 eq_refl Hok1 Hinv1 E) as (n & v' & Hn & Hle & Hr).
    exists (S n), v'. split; [eapply nsteps_l; [|done]; by split; [exists l|]|]. split; [lia|done].
  - exists 1%nat, v1. split; [apply nsteps_once; by split; [exists l|]|]. split; [lia|done].
Qed.

Lemma serve_quiet (v v1 v2 : SrvSt W) log :
  serve_step v None v1 → serve_run v1 log v2 → serve_run v log v2.
Proof.
  intros Hstep Hrun. induction Hrun as [|log v2 l v3 Hrun IH Hs].
  - apply (serve_snoc v [] v None); [constructor|done].
  - by eapply serve_snoc.
Qed.

(** A tick that has begun can be finished, and leaves the requests alone. *)
Lemma tick_completes (s : SysSt W) t c st now batch visited todo :
  sys_ok s → sy_pc s = PVisit now batch visited todo →
  ∃ batch' s', serve_run (mkSrv s t c false st) [(now, batch')] (mkSrv s' t c false st) ∧
    sys_ok s' ∧ sy_handlers s' = sy_handlers s ∧ sy_pc s' = PSelect.
Proof.
  revert s batch visited. induction todo as [|pm todo IH]; intros s batch visited Hok Hpc.
  - pose proof (sys_put s now batch visited Hpc) as Hs. exists batch. eexists. split; [|split].
    + eapply (serve_snoc _ [] _ (Some (now, batch))); [constructor|]. apply serve_other; [exact Hs|].
      intros [Hsel _]. by rewrite Hpc in Hsel.
    + by eapply sys_step_ok.
    + done.
  - destruct (tick_step_ok now batch visited pm (sy_proc s) (proj1 Hok)) as (b' & v' & p' & Hs).
    pose proof (sys_visit s now batch visited pm todo b' v' p' Hpc Hs) as Hstep.
    edestruct (IH _ b' v' (proj1 (sys_step_ok _ _ _ Hok Hstep))) as (batch' & s' & Hrun & Hok' & Hh & Hsel).
    { reflexivity. }
    exists batch', s'. split; [|split; [exact Hok'|split; [exact Hh|exact Hsel]]].
    eapply serve_quiet; [|exact Hrun]. apply serve_other; [exact Hstep|].
    intros [Hpc' _]. by rewrite Hpc in Hpc'.
Qed.

(** The moves of a handler are moves of the service. *)
Lemma handler_moves_serve (v : SrvSt W) n s' :
  nsteps handler_move n (v_sys v) s' →
  serve_run v [] (mkSrv s' (v_ticker v) (v_stopCh v) (v_doneCh v) (v_stop v)).
Proof.
  intros Hn. remember (v_sys v) as s eqn:Es. revert v Es.
  induction Hn as [s|n s s1 s2 (Hstep & Hpc & _) _ IH]; intros v ->; [destruct v; constructor|].
  specialize (IH (mkSrv s1 (v_ticker v) (v_stopCh v) (v_doneCh v) (v_stop v)) eq_refl).
  assert (H1' : serve_step v None (mkSrv s1 (v_ticker v) (v_stopCh v) (v_doneCh v) (v_stop v))).
  { destruct v as [s t c d st]. apply serve_other; [done|]. intros [Hsel Hne]. cbn in *. congruence. }
  by eapply serve_quiet.
Qed.

(** C7: stopping under load: in every interleaving of requests, subscriptions,
    ticks and a call of [stop], the service is still the system of
    [staleness_interleaved]; and from any state in which [stop] waits:
    - the goroutine, or else the caller, can move on, without a request's help
      and without a new tick, and the best that can happen is that [stop]
      returns within [stop_left] such moves (the rest of the tick under way and
      three more);
    - but Go's [select] may prefer a tick that is ready to the closed channel,
      so what holds of every run is an account: with [k] more ticks begun,
      each costing one move per scheduled metric and one more, the moves made
      and those left add up to [stop_left] plus that cost, whatever requests and
      subscriptions do meanwhile; and a tick begins only for one that the
      ticker put in its channel (one at most before the stop).
    Once the goroutine has returned no tick ever runs and the store never
    changes; and requests, also those that arrive later, can still be
    answered. *)
Theorem stop_under_load (s : SysSt W) log (v : SrvSt W)
    (Hok : sys_ok s) (Hrun : serve_run (started s) log v) :
  sys_run s log (v_sys v) ∧ srv_inv v ∧
  (v_stop v = SWaiting →
     (∃ v', stop_move v v' ∧ ¬ starts_tick (v_sys v) (v_sys v') ∧
        S (stop_left v') = stop_left v) ∧
     (∃ n v', nsteps stop_move n v v' ∧ (n ≤ stop_left v)%nat ∧ v_stop v' = SReturned) ∧
     (∀ log' v', serve_run v log' v' → ∃ f k n, stopping v f k n v') ∧
     (∀ f k n v', stopping v f k n v' →
        (n + stop_left v' = stop_left v + k * (length (sy_polled s) + 1))%nat ∧
        (k ≤ f + Nat.b2n (v_ticker v))%nat)) ∧
  (v_doneCh v = true → ∀ log' v', serve_run v log' v' →
     log' = [] ∧ sy_store (v_sys v') = sy_store (v_sys v)) ∧
  (∀ i h, sy_handlers (v_sys v) !! i = Some h → ∃ v' h', serve_run v [] v' ∧
     v_stop v' = v_stop v ∧ sy_handlers (v_sys v') !! i = Some h' ∧ h_todo h' = []).
Proof.
  pose proof (serve_run_sys _ _ _ Hrun) as Hsys. cbn [v_sys started] in Hsys.
  assert (Hinv : srv_inv v) by by eapply serve_run_inv.
  destruct (sys_run_ok _ _ _ Hok Hsys) as [Hok' _].
  split; [exact Hsys|]. split; [exact Hinv|]. split; [|split].
  - intros Hw. assert (Hst : v_stop v ≠ SNotCalled) by by rewrite Hw.
    destruct (stop_moves v Hok' Hinv Hw) as (v' & Hm & (Hns & _ & _ & Hl) & _).
    split; [by exists v'|]. split; [by apply stop_finishes|].
    split; [intros log' v''; by apply serve_run_stopping|]. intros f k n v'' Hs.
    destruct (stopping_account v v'' f k n Hok' Hinv Hst Hs) as (_ & Hn & Hk).
    rewrite (run_polled_length _ _ _ Hok Hsys) in Hn. split; [exact Hn|lia].
  - intros Hd log' v' Hrun'. destruct (returned_frozen _ _ _ Hrun' Hinv Hd) as (-> & _ & Hst & _).
    by split.
  - intros i h Hi. destruct (handler_finishes i h _ Hok' Hi) as (n & s' & h' & Hn & _ & Hh & Ht).
    eexists _, h'. split; [by eapply handler_moves_serve|]. by split.
Qed.
End StopTheorems.

(** ** The age of an answer *)

Section Freshness.
Context {W : Type} `{SysctlSpec W} `{Host W} `{MapOrder}.

(** Every version of the store is the store of some moment of the run. *)
Lemma run_prefix (s s' : SysSt W) log k :
  sys_run s log s' → ∃ sk, sys_run s (take k log) sk.
Proof.
  induction 1 as [|log s1 l s2 Hrun [sk IH] Hstep]; [exists s; rewrite take_nil; constructor|].
  destruct (decide (k ≤ length log)%nat) as [Hk|Hk].
  - exists sk. by rewrite take_app_le.
  - exists s2. rewrite take_ge; [by eapply run_snoc|].
    rewrite length_app. destruct l; simpl; lia.
Qed.

Lemma version_take store (log : tick_log) k :
  version store log k = version store (take k log) (length (take k log)).
Proof. unfold version. by rewrite firstn_all. Qed.

(** [m], of the scheduled metric [pm], is the live reading of the last of the
    first [k] ticks that gathered it, less than one TTL older than the last
    of them; or the value of the store before the run, if none did. *)
Definition fresh_answer (store : metricStore) (log : tick_log) (pm : polledMetric) (k : nat)
    (m : Metric) : Prop :=
  match last (gathers pm (take k log).*1) with
  | Some g => stored_by log g (pm_name pm) m ∧
      ∀ now, last (take k log).*1 = Some now → now = g ∨ now < g + pm_ttlNanos pm
  | None => store !! pm_name pm = Some m
  end.

Lemma version_fresh (s s' : SysSt W) log i pm k m :
  sys_ok s → NoDup (pm_name <$> sy_polled s) → sys_run s log s' →
  sy_polled s !! i = Some pm → Forall time_range log.*1 → time_range (pm_ttlNanos pm) →
  version (sy_store s) log k !! pm_name pm = Some m →
  fresh_answer (sy_store s) log pm k m.
Proof.
  intros Hok Hnd Hrun Hi Hrange Httl Hv. destruct (run_prefix _ _ _ k Hrun) as [sk Hk].
  destruct (sys_run_ok _ _ _ Hok Hk) as [_ Hst]. rewrite version_take, <- Hst in Hv.
  pose proof (run_entry _ _ _ _ _ Hok Hnd Hk Hi) as He. unfold fresh_answer.
  destruct (last (gathers pm (take k log).*1)) as [g|] eqn:Eg; [|by rewrite He in Hv].
  destruct He as (m' & Hm' & Hb). rewrite Hm' in Hv. injection Hv as ->. split.
  - rewrite <- (take_drop k log). by apply stored_by_app.
  - intros now Hnow. assert (Hr : Forall time_range (take k log).*1).
    { rewrite fmap_take. by apply Forall_take. }
    apply last_Some in Hnow as [nows Hnows]. rewrite Hnows in Eg, Hr.
    pose proof (gathers_last pm nows now Hr Httl) as Hl. by rewrite Eg in Hl.
Qed.

(** A name that is in the store stays in it. *)
Lemma version_dom store (log : tick_log) k name :
  is_Some (store !! name) → is_Some (version store log k !! name).
Proof.
  unfold version. revert store. induction (take k log) as [|tick l IH]; intros store Hs; [done|].
  cbn [foldl]. apply IH. apply lookup_union_is_Some. by right.
Qed.

(** A metric that is not scheduled keeps its first value. *)
Lemma version_static (s s' : SysSt W) log k name :
  sys_ok s → sys_run s log s' → name ∉ pm_name <$> sy_polled s →
  version (sy_store s) log k !! name = sy_store s !! name.
Proof.
  intros Hok Hrun Hn. destruct (run_prefix _ _ _ k Hrun) as [sk Hk].
  destruct (sys_run_ok _ _ _ Hok Hk) as [_ Hst]. rewrite version_take, <- Hst.
  by eapply run_unscheduled.
Qed.

(** The answer to a request for one name. *)
Definition served_answer (s : SysSt W) (log : tick_log) (name : string) (m : Metric) (k : nat)
    : Prop :=
  metric_for name m ∧ (k ≤ length log)%nat ∧
  version (sy_store s) log k !! name = Some m ∧
  (name ∉ pm_name <$> sy_polled s → sy_store s !! name = Some m) ∧
  (∀ pm, pm ∈ sy_polled s → pm_name pm = name → fresh_answer (sy_store s) log pm k m).

Lemma sys_run_trans (s s1 s2 : SysSt W) log1 log2 :
  sys_run s log1 s1 → sys_run s1 log2 s2 → sys_run s (log1 ++ log2) s2.
Proof.
  intros H1'. induction 1 as [|log2 s2 l s3 _ IH Hstep]; [by rewrite app_nil_r|].
  rewrite app_assoc. by eapply run_snoc.
Qed.

(** The versions after a moment of the run. *)
Lemma version_after (s s1 : SysSt W) log1 log2 k :
  sys_ok s → sys_run s log1 s1 →
  version (sy_store s1) log2 k = version (sy_store s) (log1 ++ log2) (length log1 + k).
Proof.
  intros Hok Hrun. destruct (sys_run_ok _ _ _ Hok Hrun) as [_ ->]. unfold version.
  by rewrite firstn_all, take_app_add, foldl_app.
Qed.

(** A request that arrives after the ticks of [log1], all of whose names are in
    the store. *)
Lemma answered_served (s s1 s2 : SysSt W) log1 log2 names h ks :
  sys_ok s → NoDup (pm_name <$> sy_polled s) → sys_run s log1 s1 → sys_run s1 log2 s2 →
  Forall time_range (log1 ++ log2).*1 →
  Forall (λ pm, time_range (pm_ttlNanos pm)) (sy_polled s) →
  (∀ name, name ∈ names → is_Some (sy_store s !! name)) →
  answered (sy_store s1) log2 names h ks →
  ∃ asked, names = asked ++ h_todo h ∧
    Forall3 (served_answer s (log1 ++ log2)) asked (h_done h) (Nat.add (length log1) <$> ks).
Proof.
  intros Hok Hnd Hrun1 Hrun2 Hrange Httls Hin [(asked & -> & H3) [_ Hks]].
  exists asked. split; [done|]. pose proof (sys_run_trans _ _ _ _ _ Hrun1 Hrun2) as Hrun.
  assert (Hin' : ∀ name, name ∈ asked → is_Some (sy_store s !! name))
    by (intros; apply Hin, elem_of_app; by left).
  clear Hin. induction H3 as [|name m k l1 l2 l3 [Hm Ha] H3 IH]; [constructor|].
  apply Forall_cons in Hks as [Hk Hks]. rewrite fmap_cons.
  constructor; [|by apply IH; [done|intros; apply Hin'; right]].
  rewrite (version_after _ _ _ _ _ Hok Hrun1) in Ha.
  set (log := log1 ++ log2) in *. set (k' := (length log1 + k)%nat) in *.
  destruct (version_dom (sy_store s) log k' name (Hin' name ltac:(left))) as [m' Hv].
  rewrite Hv in Ha. subst m'. split; [done|].
  split; [unfold k', log; rewrite length_app; lia|]. split; [done|]. split.
  - intros Hn. by rewrite <- Hv, (version_static _ _ _ _ _ Hok Hrun Hn).
  - intros pm Hpm <-. apply list_elem_of_lookup in Hpm as [i Hi].
    eapply version_fresh; [done..| |done]. by eapply (Forall_lookup_1 _ _ _ _ Httls).
Qed.
End Freshness.

(** ** The shipped service *)

Section Shipped.
Context {W : Type} `{SysctlSpec W} `{Host W} `{MapOrder} `{RegistryFiles}.

(** What [New] leaves with the checked-in registry: every metric of the table
    in the store, and the schedule of 169 of them. *)
Lemma New_shipped osVersion pollInterval (p : Proc W) :
  index_ok (p_index p) → osVersion ≠ EmptyString →
  LoadKernelRegistry osVersion = Ok textproto_24_6_0 → 0 < pollInterval →
  ∃ sv p', New osVersion pollInterval p = (Ok sv, p') ∧
    let s := sys_of (mkServerSt p' sv) in
    sys_ok s ∧ sy_pc s = PSelect ∧ NoDup (pm_name <$> sy_polled s) ∧
    length (sy_polled s) = 169%nat ∧
    Forall (λ pm, shipped_ttl (pm_ttlNanos pm)) (sy_polled s) ∧
    (∀ name, is_Some (sy_store s !! name) ↔ name ∈ info_Name <$> Known).
Proof.
  intros Hidx Hv Hload Hpos.
  destruct (New_run osVersion pollInterval p Hidx) as (sv & p' & Hnew & _ & _ & Hok & _ & Hpo);
    [by rewrite Hload|].
  assert (Hreg : loaded_registry osVersion = Some textproto_24_6_0)
    by (unfold loaded_registry; by rewrite decide_False, Hload).
  exists sv, p'. split; [exact Hnew|]. cbv zeta.
  pose proof (sys_of_ok _ Hok) as Hsok. unfold sys_of in *. cbn [ss_server ss_proc] in *.
  destruct (sv_poller sv) as [po|]; [|lia].
  destruct Hpo as (_ & _ & Hdom & (now & Hpms) & _). rewrite Hreg in Hdom, Hpms.
  fold shipped_full in Hdom, Hpms. rewrite shipped_stored in Hdom.
  cbn [sy_pc sy_polled sy_store]. rewrite Hpms.
  destruct (shipped_schedule now) as (Hlen & Httl & Hnd).
  split; [exact Hsok|]. split; [done|]. split; [exact Hnd|]. split; [exact Hlen|].
  split; [exact Httl|exact Hdom].
Qed.

Lemma shipped_ttl_range ttl : shipped_ttl ttl → time_range ttl ∧ 10 * Second ≤ ttl ≤ 60 * Second.
Proof.
  unfold shipped_ttl. rewrite !elem_of_cons, elem_of_nil. unfold time_range, Second. lia.
Qed.

(** C2: end to end, from start-up to an answer: a server started with the
    checked-in registry and a positive interval answers every request for
    metrics of the table from the store, never from the kernel; under any
    interleaving of requests, subscriptions, ticks and [stop], each answer is a
    well-formed metric from a version of the store no older than the request
    (versions never go back within it); a STATIC metric's is the value read at
    start-up, and a scheduled one's the live reading of the last tick that
    gathered it, less than its TTL of 10, 30 or 60 seconds before the last tick
    of that version (or the value read at start-up, before the first). *)
Theorem shipped_service_fresh osVersion pollInterval (p : Proc W)
    (Hidx : index_ok (p_index p)) (Hv : osVersion ≠ EmptyString)
    (Hload : LoadKernelRegistry osVersion = Ok textproto_24_6_0) (Hpos : 0 < pollInterval) :
  ∃ sv p', New osVersion pollInterval p = (Ok sv, p') ∧
    let s := sys_of (mkServerSt p' sv) in
    length (sy_polled s) = 169%nat ∧
    Forall (λ pm, shipped_ttl (pm_ttlNanos pm)) (sy_polled s) ∧
    ∀ log1 v1 log2 v2 i names,
      serve_run (started s) log1 v1 → serve_run v1 log2 v2 →
      sy_handlers (v_sys v1) !! i = Some (fresh_handler names) →
      names ⊆ info_Name <$> Known → Forall time_range (log1 ++ log2).*1 →
      ∃ h ks asked, sy_handlers (v_sys v2) !! i = Some h ∧ names = asked ++ h_todo h ∧
        Forall3 (served_answer s (log1 ++ log2)) asked (h_done h) ks ∧
        Sorted le ks ∧ Forall (λ k, length log1 ≤ k)%nat ks.
Proof.
  destruct (New_shipped osVersion pollInterval p Hidx Hv Hload Hpos)
    as (sv & p' & Hnew & Hok & Hpc & Hnd & Hlen & Httl & Hdom).
  exists sv, p'. split; [exact Hnew|]. cbv zeta. set (s := sys_of _) in *.
  split; [exact Hlen|]. split; [exact Httl|].
  intros log1 v1 log2 v2 i names Hrun1 Hrun2 Hreq Hnames Hrange.
  apply serve_run_sys in Hrun1, Hrun2. cbn [v_sys started] in Hrun1.
  destruct (sys_run_ok _ _ _ Hok Hrun1) as [Hok1 _].
  destruct (progress_run _ _ _ _ _ Hok1 Hreq Hrun2) as (h & ks & Hh & Ha & _).
  assert (Htr : Forall (λ pm, time_range (pm_ttlNanos pm)) (sy_polled s)).
  { eapply Forall_impl; [exact Httl|]. intros pm Hpm. by apply shipped_ttl_range. }
  assert (Hin : ∀ name, name ∈ names → is_Some (sy_store s !! name)).
  { intros name Hn. apply Hdom, Hnames, Hn. }
  destruct (answered_served s (v_sys v1) (v_sys v2) log1 log2 names h ks Hok Hnd Hrun1 Hrun2
    Hrange Htr Hin Ha) as (asked & Hasked & Hall).
  exists h, (Nat.add (length log1) <$> ks), asked. split; [exact Hh|]. split; [exact Hasked|].
  split; [exact Hall|]. destruct Ha as (_ & Hsorted & _). split.
  - clear -Hsorted. induction Hsorted as [|k ks Hs IH Hhd]; [constructor|].
    rewrite fmap_cons. constructor; [done|]. destruct ks; constructor. inversion Hhd. lia.
  - apply Forall_fmap, Forall_true. intros k. simpl. lia.
Qed.
End Shipped.

(** ** The server command *)

(** The operating system and gRPC: [net.Listen] on an address. *)
Class Network := { net_Listen : string → outcome unit }.

Record ServerFlags := mkServerFlags {
  sf_port : Z;
  sf_osVersion : string;
  sf_pollInterval : Z;
}.

(** The defaults of the three flags. *)
Definition default_server_flags : ServerFlags :=
  mkServerFlags 50051 "24.6.0" (500 * Millisecond).

Definition listen_addr (f : ServerFlags) : string := ":" +:+ fmt_d (sf_port f).

Section Main.
Context {W : Type} `{Kernel W} `{Host W} `{MapOrder}.

(** [main] serves, waits in the deferred [srv.Stop()], or has exited. *)
Inductive main_pc :=
  | MServing
  | MStopping
  | MExited (status : Z).

Record MainSt := mkMain {
  mn_service : SrvSt W;
  mn_has_poller : bool;
  mn_pc : main_pc;
  mn_log : list goerror;
}.

(** Up to [s.Serve]: the address is taken first, so that a server that cannot
    listen reads nothing. *)
Definition server_main `{RegistryFiles} `{Network} (f : ServerFlags) : M (Proc W) MainSt :=
  let addr := listen_addr f in
  let idle p := started (mkSys p newMetricStore [] PSelect []) in
  match net_Listen addr with
  | Ok _ =>
      srv ← New (sf_osVersion f) (sf_pollInterval f);
      p ← gets id;
      mret (mkMain (started (sys_of (mkServerSt p srv)))
              (bool_decide (is_Some (sv_poller srv))) MServing
              [Errorf "sysctl gRPC server listening on %s" [AStr addr]])
  | Err err =>
      p ← gets id;
      mret (mkMain (idle p) false (MExited 1)
              [Errorf "failed to listen on %s: %v" [AStr addr; AErr err]])
  | Panic => panic
  end.

Inductive main_step : MainSt → MainSt → Prop :=
  (** The service works, until the process exits. *)
  | main_work v l v' b pc lg :
      serve_step v l v' → (v_stop v' = v_stop v ∨ v_stop v' = SReturned) →
      pc = MServing ∨ pc = MStopping →
      main_step (mkMain v b pc lg) (mkMain v' b pc lg)
  (** [s.Serve] fails: [log.Fatalf] exits at once, deferred calls unrun. *)
  | main_fatal v b lg err :
      main_step (mkMain v b MServing lg)
        (mkMain v b (MExited 1) (lg ++ [Errorf "server error: %v" [AErr err]]))
  (** [s.Serve] returns nil: the deferred [srv.Stop()] runs. *)
  | main_stop v v' lg :
      serve_step v None v' → v_stop v = SNotCalled → v_stop v' = SWaiting →
      main_step (mkMain v true MServing lg) (mkMain v' true MStopping lg)
  | main_stop_nothing v lg :
      main_step (mkMain v false MServing lg) (mkMain v false (MExited 0) lg)
  | main_return v lg :
      v_stop v = SReturned →
      main_step (mkMain v true MStopping lg) (mkMain v true (MExited 0) lg).

(** [stop] has been called exactly in the deferred call and after it. *)
Definition main_inv (m : MainSt) : Prop :=
  match mn_pc m with
  | MServing => v_stop (mn_service m) = SNotCalled
  | MStopping => mn_has_poller m = true ∧ v_stop (mn_service m) ≠ SNotCalled
  | MExited status =>
      (status = 1 ∧ v_stop (mn_service m) = SNotCalled ∨
       status = 0 ∧ (mn_has_poller m = true → v_stop (mn_service m) = SReturned))
  end.
End Main.
Arguments MainSt : clear implicits.

Section MainTheorems.
Context {W : Type} `{SysctlSpec W} `{Host W} `{MapOrder} `{RegistryFiles} `{Network}.

Lemma main_step_inv (m m' : MainSt W) :
  main_step m m' → srv_inv (mn_service m) → main_inv m →
  srv_inv (mn_service m') ∧ main_inv m'.
Proof.
  unfold main_inv. intros Hstep Hs Hm.
  destruct Hstep as [v l v' b pc lg Hv Hst Hpc|v b lg err|v v' lg Hv Hst Hst'|v lg|v lg Hst];
    cbn [mn_service mn_pc mn_has_poller] in *.
  - split; [by eapply serve_step_inv|]. destruct Hpc as [-> | ->].
    + destruct Hst as [->|Hr]; [done|]. exfalso. destruct Hv; cbn in *; congruence.
    + destruct Hm as [-> Hne]. split; [done|]. destruct Hst as [-> | ->]; done.
  - split; [done|]. by left.
  - split; [by eapply serve_step_inv|]. split; [done|]. by rewrite Hst'.
  - split; [done|]. by right.
  - split; [done|]. by right.
Qed.

Lemma main_reachable (m m' : MainSt W) :
  rtc main_step m m' → srv_inv (mn_service m) → main_inv m →
  srv_inv (mn_service m') ∧ main_inv m'.
Proof.
  induction 1 as [|m m1 m2 Hs _ IH]; [done|]. intros Hi Hm.
  destruct (main_step_inv _ _ Hs Hi Hm). by apply IH.
Qed.

Lemma started_inv (s : SysSt W) : srv_inv (started s).
Proof. by split. Qed.

(** C20: the server command: it never panics; when it cannot listen it exits
    with status 1 and has read nothing; otherwise it serves what [New] built,
    with a poller exactly when the interval is positive.  It then exits with
    status 0 only after the poller has stopped (the goroutine has returned);
    and when serving fails, with status 1 and [Stop] never called: the
    deferred call does not survive [log.Fatalf]. *)
Theorem server_main_correct f (p : Proc W)
    (Hidx : index_ok (p_index p)) (Hload : LoadKernelRegistry (sf_osVersion f) ≠ Panic)
    (Hlisten : net_Listen (listen_addr f) ≠ Panic) :
  ∃ m p', server_main f p = (Ok m, p') ∧
    match net_Listen (listen_addr f) with
    | Ok _ => mn_pc m = MServing ∧
        (∃ sv, New (sf_osVersion f) (sf_pollInterval f) p = (Ok sv, p') ∧
           mn_service m = started (sys_of (mkServerSt p' sv)) ∧ sys_ok (v_sys (mn_service m)) ∧
           (mn_has_poller m = true ↔ 0 < sf_pollInterval f))
    | _ => mn_pc m = MExited 1 ∧ p' = p
    end ∧
    ∀ m', rtc main_step m m' → srv_inv (mn_service m') ∧
      match mn_pc m' with
      | MExited 0 => mn_has_poller m' = true → v_doneCh (mn_service m') = true
      | MExited _ => v_stop (mn_service m') = SNotCalled
      | MStopping => mn_has_poller m' = true
      | MServing => v_stop (mn_service m') = SNotCalled
      end.
Proof.
  assert (Hreach : ∀ m : MainSt W, srv_inv (mn_service m) → main_inv m →
    ∀ m', rtc main_step m m' → srv_inv (mn_service m') ∧
      match mn_pc m' with
      | MExited 0 => mn_has_poller m' = true → v_doneCh (mn_service m') = true
      | MExited _ => v_stop (mn_service m') = SNotCalled
      | MStopping => mn_has_poller m' = true
      | MServing => v_stop (mn_service m') = SNotCalled
      end).
  { intros m Hi Hm m' Hrun. destruct (main_reachable _ _ Hrun Hi Hm) as [Hi' Hm'].
    split; [exact Hi'|]. destruct Hi' as (_ & _ & Hdone). unfold main_inv in Hm'.
    destruct (mn_pc m') as [| |status]; [done|by destruct Hm'|].
    destruct Hm' as [[-> ?]|[-> Hr]]; [done|]. intros Hp. by apply Hdone, Hr. }
  unfold server_main. destruct (net_Listen (listen_addr f)) as [[]|err|] eqn:El; [| |done].
  - destruct (New_run _ (sf_pollInterval f) p Hidx Hload) as (sv & p' & Hnew & _ & _ & Hok & _ & Hpo).
    run_simpl. rewrite Hnew. do 2 eexists. split; [reflexivity|].
    split; [|apply Hreach; [apply started_inv|done]].
    split; [done|]. exists sv. cbn [mn_service mn_has_poller]. split; [done|]. split; [done|].
    split; [by apply sys_of_ok|]. rewrite bool_decide_eq_true.
    destruct (sv_poller sv) as [po|]; [|split; [by intros []|lia]].
    split; [by intros _; apply Hpo|by eexists].
  - run_simpl. do 2 eexists. split; [reflexivity|]. split; [done|].
    apply Hreach; [apply started_inv|by left].
Qed.
End MainTheorems.

(** ** Witnesses on the concrete kernel *)

(** The ticker fires, the tick begins, and [stop] is called before its first
    read: the stop has four steps to wait for at most. *)
Lemma demo_stopping : ∃ v, @serve_run nat demo_kernel demo_host some_order (started demo_sys) [] v ∧
  v_stop v = SWaiting ∧ stop_left v = 4%nat.
Proof.
  eexists. split; [|split].
  - eapply (serve_snoc _ [] _ None); [|apply serve_stop].
    eapply (serve_snoc _ [] _ None).
    + eapply (serve_snoc _ [] _ None); [constructor|apply serve_ticker].
    + apply serve_tick; [eapply sys_tick; reflexivity|by split].
  - reflexivity.
  - reflexivity.
Qed.

Lemma stop_under_load_witness : ∃ n v v',
  nsteps (@stop_move nat demo_kernel demo_host some_order) n v v' ∧ (n ≤ 4)%nat ∧
  v_stop v = SWaiting ∧ v_stop v' = SReturned ∧
  ∀ f k m v2, @stopping nat demo_kernel demo_host some_order v f k m v2 →
    v_stop v2 = SReturned → m = (4 + k * 2)%nat.
Proof.
  destruct demo_stopping as (v & Hrun & Hw & Hl).
  destruct (@stop_under_load nat demo_kernel demo_spec demo_host some_order demo_sys [] v
    demo_sys_ok Hrun) as (_ & _ & Hstop & _).
  destruct (Hstop Hw) as (_ & (n & v' & Hn & Hle & Hr) & _ & Hacc). rewrite Hl in Hle, Hacc.
  exists n, v, v'. refine (conj Hn (conj Hle (conj Hw (conj Hr _)))).
  intros f k m v2 Hs Hret. destruct (Hacc f k m v2 Hs) as [Hm _].
  unfold stop_left in Hm. rewrite Hret in Hm.
  change (length (sy_polled demo_sys)) with 1%nat in Hm. lia.
Defined.

Lemma demo_files_shipped : @LoadKernelRegistry demo_files "24.6.0" = Ok textproto_24_6_0.
Proof. vm_compute. reflexivity. Qed.

#[local] Existing Instances demo_kernel demo_spec demo_host some_order.

(** The first tick gathers the 169 scheduled metrics; then a request for a static
    and a scheduled metric arrives and is answered, from that tick's store. *)
Lemma shipped_service_fresh_witness : ∃ sv p' batch h ks,
  @New nat demo_kernel demo_host demo_files "24.6.0" 500000000 demo_proc = (Ok sv, p') ∧
  h_todo h = [] ∧ Forall (λ k, 1 ≤ k)%nat ks ∧
  Forall3 (@served_answer nat demo_kernel demo_spec demo_host (sys_of (mkServerSt p' sv))
             [(17777217000499999, batch)])
    ["kern.ostype"; "kern.num_files"] (h_done h) ks.
Proof.
  destruct (@shipped_service_fresh nat demo_kernel demo_spec demo_host some_order demo_files
    "24.6.0" 500000000 demo_proc (or_introl eq_refl) ltac:(by_decide) demo_files_shipped
    ltac:(by_decide)) as (sv & p' & Hnew & _ & _ & Hall).
  destruct (@New_shipped nat demo_kernel demo_spec demo_host demo_files "24.6.0" 500000000 demo_proc
    (or_introl eq_refl) ltac:(by_decide) demo_files_shipped ltac:(by_decide))
    as (sv' & q & Hnew' & Hok & Hsel & _).
  rewrite Hnew in Hnew'. injection Hnew' as <- <-.
  set (s := sys_of (mkServerSt p' sv)) in *. cbv zeta in Hall. fold s in Hall.
  set (names := ["kern.ostype"; "kern.num_files"]) in *.
  (* the tick *)
  assert (Htick : ∃ s1, @sys_step nat demo_kernel demo_host some_order s None s1 ∧
    sy_pc s1 = PVisit 17777217000499999 ∅ [] (sy_polled s) ∧ sy_handlers s1 = sy_handlers s).
  { eexists. split; [by eapply (sys_tick s (mkTime 17777217 499999)); [|reflexivity]|]. by split. }
  destruct Htick as (s1 & Hs1 & Hpc1 & Hh1).
  pose proof (proj1 (sys_step_ok _ _ _ Hok Hs1)) as Hok1.
  destruct (tick_completes s1 false false SNotCalled _ _ _ _ Hok1 Hpc1)
    as (batch & s2 & Hrun & Hok2 & Hh2 & _).
  assert (Hnil : sy_handlers s = []) by (unfold s, sys_of; by destruct (sv_poller _)).
  rewrite Hh1, Hnil in Hh2.
  (* the request *)
  pose proof (sys_request s2 names) as Hreq. rewrite Hh2 in Hreq. cbn [app] in Hreq.
  set (s3 := mkSys _ _ _ _ [fresh_handler names]) in *.
  pose proof (proj1 (sys_step_ok _ _ _ Hok2 Hreq)) as Hok3.
  destruct (handler_finishes 0 (fresh_handler names) s3 Hok3 eq_refl)
    as (n & s4 & h & Hmoves & _ & Hh4 & Htodo).
  destruct (Hall [(17777217000499999, batch)] (mkSrv s3 false false false SNotCalled) []
    (mkSrv s4 false false false SNotCalled) 0%nat names) as (h' & ks & asked & Hh' & Hn & Hserved & _ & Hks).
  - eapply serve_quiet; [apply serve_ticker|].
    eapply serve_quiet; [apply serve_tick; [exact Hs1|split; [exact Hsel|by rewrite Hpc1]]|].
    eapply (serve_snoc _ [_] _ None); [exact Hrun|]. apply serve_other; [exact Hreq|].
    intros [Hp Hne]. apply Hne, Hp.
  - by eapply (handler_moves_serve (mkSrv s3 false false false SNotCalled)).
  - reflexivity.
  - by_decide.
  - apply Forall_singleton. by_decide.
  - cbn [v_sys] in Hh'. rewrite Hh4 in Hh'. injection Hh' as <-. rewrite Htodo, app_nil_r in Hn.
    rewrite app_nil_r in Hserved. rewrite <- Hn in Hserved.
    exists sv, p', batch, h, ks. split; [exact Hnew|]. split; [exact Htodo|].
    split; [exact Hks|exact Hserved].
Defined.

(** A machine on which every port is free. *)
Definition demo_network : Network := {| net_Listen := λ _, Ok tt |}.

Lemma server_main_correct_witness : ∃ m p',
  @server_main nat demo_kernel demo_host demo_files demo_network default_server_flags demo_proc
    = (Ok m, p') ∧ mn_pc m = MServing ∧ mn_has_poller m = true.
Proof.
  destruct (@server_main_correct nat demo_kernel demo_spec demo_host some_order demo_files
    demo_network default_server_flags demo_proc (or_introl eq_refl)
    (demo_files_load "24.6.0") ltac:(discriminate)) as (m & p' & Hrun & Hm & _).
  cbn [net_Listen demo_network] in Hm. destruct Hm as [Hpc (sv & _ & _ & _ & Hb)].
  exists m, p'. split; [exact Hrun|]. split; [exact Hpc|]. apply Hb. by_decide.
Defined.
