(* ===== verification/Subscribe.v ===== *)
(** * Delta streaming (internal/server/server.go, Subscribe)

    The interval check, the validation of the requested names, one round of
    reads and the stream's loop.  The transport is an input: for every round,
    what [stream.Send] returned, whether the context was done before the ticker
    fired, and how long the round had taken when the handler came to wait for
    the ticker.  The client's side is the fold that rebuilds values from deltas. *)

From Stdlib Require Import ZArith Lia.
From Stdlib Require Import Strings.Byte.
From S2P Require Import Prelude GoTime Kernel TableKernel Sysctl MibCache Registry.
From S2P Require Import KernelRegistry Classify Metrics FullRegistry Poller Server.

Local Open Scope Z_scope.

(** ** Messages *)

Record MetricDelta := mkDelta { md_Name : string; md_Value : list byte }.

Record SubscribeResponse := mkResponse {
  sr_TimestampNs : Z;
  sr_Deltas : list MetricDelta;
  sr_Errors : list goerror;
}.

(** What the transport did with a response: [Send]'s error, or else the branch
    of the [select] that follows; for the ticker's, with the nanoseconds the
    round took, up to the [select]. *)
Inductive transport :=
  | SendFailed (e : goerror)
  | ContextDone (e : goerror)
  | Ticked (took : Z).

(** How the handler stands after the given transport events. *)
Inductive sub_status :=
  | Returned (e : goerror)
  | Streaming.

(** The loop's variables. *)
Record SubSt := mkSub {
  sb_prev : gmap string (list byte);
  sb_first : bool;
  sb_errors : list goerror;
}.

Definition unknown_error (name : string) : goerror := Errorf "%s: unknown metric" [AStr name].
Definition computed_error (name : string) : goerror :=
  Errorf "%s: computed metrics not supported in Subscribe; use GetMetrics" [AStr name].
Definition read_error (name : string) (err : goerror) : goerror :=
  Errorf "%s: %v" [AStr name; AErr err].

Section Subscribe.
Context {W : Type} `{Kernel W} `{Host W}.

(** The interval a request asks for, or the error for one below the floor. *)
Definition sub_interval (full : KernelMetricRegistry) (IntervalNs : Z) : outcome Z :=
  let minInterval := minSubscribeInterval (Some full) in
  let interval := if decide (IntervalNs ≤ 0) then minInterval else IntervalNs in
  if decide (interval < minInterval) then
    Err (Errorf "interval %v is faster than server minimum %v; check GetKernelRegistry.min_interval_ns"
           [AInt interval; AInt minInterval])
  else Ok interval.

(** The loop over [req.Names]: the errors for the first response and the names
    to stream. *)
Definition validate_step (acc : list goerror * list string) (name : string)
    : M (Proc W) (list goerror * list string) :=
  let '(errors, validNames) := acc in
  info ← on_index (ByName name);
  match info with
  | None => mret (errors ++ [unknown_error name], validNames)
  | Some info =>
      if decide (info_Type info = TypeComputed)
      then mret (errors ++ [computed_error name], validNames)
      else mret (errors, validNames ++ [name])
  end.

Definition validate_names (names : list string) : M (Proc W) (list goerror * list string) :=
  foldM validate_step ([], []) names.

(** One name of a round. *)
Definition sub_read (acc : list MetricDelta * SubSt) (name : string)
    : M (Proc W) (list MetricDelta * SubSt) :=
  let '(deltas, sub) := acc in
  try raw ← on_cache (MIBCache_GetRaw name)
  catch err ⇒
    (if sb_first sub
     then mret (deltas, mkSub (sb_prev sub) (sb_first sub) (sb_errors sub ++ [read_error name err]))
     else mret (deltas, sub));
  if decide (raw ≠ default [] (sb_prev sub !! name))
  then mret (deltas ++ [mkDelta name raw],
             mkSub (<[name := raw]> (sb_prev sub)) (sb_first sub) (sb_errors sub))
  else mret (deltas, sub).

(** The body of the outer loop up to [stream.Send]. *)
Definition round (validNames : list string) (sub : SubSt)
    : M (Proc W) (SubscribeResponse * SubSt) :=
  t ← proc_now;
  r ← foldM sub_read ([], sub) validNames;
  let '(deltas, sub) := r in
  if sb_first sub
  then mret (mkResponse (UnixNano t) deltas (sb_errors sub),
             mkSub (sb_prev sub) false (sb_errors sub))
  else mret (mkResponse (UnixNano t) deltas [], sub).

(** The responses handed to [Send], each with the instant its round began. *)
Fixpoint stream_loop (validNames : list string) (sub : SubSt) (ticker : Ticker) (now : Z)
    (events : list transport) : M (Proc W) (list (Z * SubscribeResponse) * sub_status) :=
  match events with
  | [] => mret ([], Streaming)
  | ev :: events' =>
      r ← round validNames sub;
      match ev with
      | SendFailed e => mret ([(now, r.1)], Returned e)
      | ContextDone e => mret ([(now, r.1)], Returned e)
      | Ticked took =>
          let '(now', ticker') := Ticker_receive ticker (now + took) in
          rest ← stream_loop validNames r.2 ticker' now' events';
          mret ((now, r.1) :: rest.1, rest.2)
      end
  end.

(** Instants are counted from the creation of the ticker. *)
Definition Subscribe (full : KernelMetricRegistry) (names : list string) (IntervalNs : Z)
    (events : list transport) : M (Proc W) (list (Z * SubscribeResponse) * sub_status) :=
  match sub_interval full IntervalNs with
  | Err e => mret ([], Returned e)
  | Panic => panic
  | Ok interval =>
      r ← validate_names names;
      let '(errors, validNames) := r in
      match NewTicker interval 0 with
      | Ok ticker => stream_loop validNames (mkSub ∅ true errors) ticker 0 events
      | _ => panic
      end
  end.
End Subscribe.

(** ** The client, and what the server observed *)

(** Rebuilding values from deltas. *)
Definition client_apply (m : gmap string (list byte)) (deltas : list MetricDelta)
    : gmap string (list byte) :=
  foldl (λ m d, <[md_Name d := md_Value d]> m) m deltas.

(** The value a map of bytes shows for a name: empty when it has none. *)
Definition view (m : gmap string (list byte)) (name : string) : list byte := default [] (m !! name).

(** One round's readings, and the last successful reading of each name. *)
Abbreviation readings := (list (string * outcome (list byte))).

Definition observe (m : gmap string (list byte)) (reads : readings) : gmap string (list byte) :=
  foldl (λ m r, match r.2 with Ok raw => <[r.1 := raw]> m | _ => m end) m reads.

(** The deltas a round of readings calls for. *)
Fixpoint deltas_of (prev : gmap string (list byte)) (reads : readings) : list MetricDelta :=
  match reads with
  | [] => []
  | (name, Ok raw) :: reads' =>
      if decide (raw ≠ view prev name)
      then mkDelta name raw :: deltas_of (<[name := raw]> prev) reads'
      else deltas_of prev reads'
  | _ :: reads' => deltas_of prev reads'
  end.

(** The errors of a round of readings. *)
Fixpoint errors_of (reads : readings) : list goerror :=
  match reads with
  | [] => []
  | (name, Err e) :: reads' => read_error name e :: errors_of reads'
  | _ :: reads' => errors_of reads'
  end.

(** A delta is only ever sent for a value the client does not have. *)
Fixpoint all_news (m : gmap string (list byte)) (deltas : list MetricDelta) : Prop :=
  match deltas with
  | [] => True
  | d :: deltas' => md_Value d ≠ view m (md_Name d) ∧
                    all_news (<[md_Name d := md_Value d]> m) deltas'
  end.

Lemma deltas_of_news prev reads : all_news prev (deltas_of prev reads).
Proof.
  revert prev. induction reads as [|[name [raw|e|]] reads IH]; intros prev; simpl; auto.
  destruct (decide _) as [Hn|Hn]; simpl; auto.
Qed.

(** The client that starts with the server's [prev] ends with what the server
    observed. *)
Lemma client_observes prev obs reads :
  (∀ name, view prev name = view obs name) →
  ∀ name, view (client_apply prev (deltas_of prev reads)) name = view (observe obs reads) name.
Proof.
  revert prev obs. induction reads as [|[n r] reads IH]; intros prev obs Heq name; [apply Heq|].
  destruct r as [raw|e|]; [|by apply IH|by apply IH]. cbn [deltas_of observe foldl fst snd].
  destruct (decide (raw ≠ view prev n)) as [Hn|Hn].
  - cbn [client_apply foldl md_Name md_Value]. apply IH. intros name'. unfold view.
    rewrite !lookup_insert. case_decide; [done|apply Heq].
  - apply dec_stable in Hn. apply IH. intros name'. unfold view at 2. rewrite lookup_insert.
    case_decide as E; [subst name'; by rewrite Hn|]. apply Heq.
Qed.

(** ** Validation *)

Definition streamable (name : string) : bool :=
  match registry_entry name with
  | Some info => bool_decide (info_Type info ≠ TypeComputed)
  | None => false
  end.

#[global] Typeclasses Opaque streamable.

Definition name_error (name : string) : option goerror :=
  match registry_entry name with
  | None => Some (unknown_error name)
  | Some info => if decide (info_Type info = TypeComputed) then Some (computed_error name) else None
  end.

Definition index_built {W} (p : Proc W) : Proc W :=
  mkProc (p_cache p) (Some (index_by_name Known)).

Section Validation.
Context {W : Type} `{SysctlSpec W} `{Host W}.

Lemma validate_loop names errors valid (p : Proc W) :
  index_ok (p_index p) →
  ∃ p', foldM validate_step (errors, valid) names p
      = (Ok (errors ++ omap name_error names, valid ++ filter streamable names), p') ∧
    p_cache p' = p_cache p ∧ index_ok (p_index p').
Proof.
  revert errors valid p. induction names as [|name names IH]; intros errors valid p Hi.
  { exists p. rewrite filter_nil. simpl. by rewrite !app_nil_r. }
  cbn [foldM validate_step]. unfold on_index. run_simpl. rewrite (ByName_run _ _ Hi). run_simpl.
  assert (Hi' : index_ok (p_index (index_built p))) by by right.
  rewrite filter_cons. unfold name_error, streamable. cbn [omap list_omap].
  destruct (registry_entry name) as [info|].
  - destruct (decide (info_Type info = TypeComputed)) as [Ht|Ht]; run_simpl.
    + rewrite (decide_False (P := Is_true _)) by (rewrite bool_decide_spec; tauto).
      destruct (IH (errors ++ [computed_error name]) valid _ Hi') as (p' & Hr & Hc & Hx).
      exists p'. fold (index_built p). rewrite Hr, <- app_assoc. by split.
    + rewrite (decide_True (P := Is_true _)) by (by rewrite bool_decide_spec).
      destruct (IH errors (valid ++ [name]) _ Hi') as (p' & Hr & Hc & Hx).
      exists p'. fold (index_built p). rewrite Hr, <- app_assoc. by split.
  - rewrite (decide_False (P := Is_true false)) by (by intros []).
    destruct (IH (errors ++ [unknown_error name]) valid _ Hi') as (p' & Hr & Hc & Hx).
    run_simpl. exists p'. fold (index_built p). rewrite Hr, <- app_assoc. by split.
Qed.
End Validation.

(** ** Rounds *)

Section Rounds.
Context {W : Type} `{SysctlSpec W} `{Host W}.

(** The reading of one name, kept as a value. *)
Definition try_read (name : string) : M (Proc W) (string * outcome (list byte)) :=
  try raw ← on_cache (MIBCache_GetRaw name) catch err ⇒ mret (name, Err err);
  mret (name, Ok raw).

Lemma sub_loop names deltas sub (p : Proc W) :
  foldM sub_read (deltas, sub) names p =
    match mapM try_read names p with
    | (Ok rs, p') =>
        (Ok (deltas ++ deltas_of (sb_prev sub) rs,
             mkSub (client_apply (sb_prev sub) (deltas_of (sb_prev sub) rs)) (sb_first sub)
               (sb_errors sub ++ if sb_first sub then errors_of rs else [])), p')
    | (Err e, p') => (Err e, p')
    | (Panic, p') => (Panic, p')
    end.
Proof.
  revert deltas sub p. induction names as [|name names IH]; intros deltas sub p.
  { run_simpl. simpl. rewrite app_nil_r. destruct sub as [prev [] errs]; simpl; by rewrite app_nil_r. }
  cbn [foldM mapM]. set (reads := mapM try_read) in *. unfold try_read. cbn [sub_read]. run_simpl.
  destruct (on_cache (MIBCache_GetRaw name) p) as [[raw|e|] p1]; [| |done].
  - run_simpl. fold (view (sb_prev sub) name).
    destruct (decide (raw ≠ view (sb_prev sub) name)) as [Hn|Hn]; run_simpl; rewrite IH;
      (destruct (reads names p1) as [[rs|e|] p2]; [|done|done]); run_simpl;
      cbn [sb_prev sb_first sb_errors deltas_of errors_of].
    + rewrite decide_True by done. by rewrite <- app_assoc.
    + by rewrite decide_False.
  - destruct sub as [prev [] errs]; cbn [sb_first sb_prev sb_errors]; run_simpl; rewrite IH;
      (destruct (reads names p1) as [[rs|e'|] p2]; [|done|done]); run_simpl;
      cbn [sb_prev sb_first sb_errors deltas_of errors_of]; [|done].
    by rewrite <- app_assoc.
Qed.

Lemma hoare_try_read p name :
  hoare_ok (proc_after p) (try_read name)
    (λ r p', (r.1 = name ∧ r.2 ≠ Panic) ∧ proc_after p p').
Proof.
  intros q [[Hc Hi] Hsub]. unfold try_read, on_cache. run_simpl.
  pose proof (hoare_cache_GetRaw (c_cache (p_cache q)) name (p_cache q)
    (conj Hc (reflexivity _))) as Hh.
  destruct (MIBCache_GetRaw name (p_cache q)) as [[raw|e|] c]; run_simpl; [| |done];
    destruct Hh as [Hc' Hs']; (split; [done|]); (split; [by split|by etrans]).
Qed.

Lemma try_reads_ok names (p : Proc W) :
  proc_ok p → ∃ rs p', mapM try_read names p = (Ok rs, p') ∧ rs.*1 = names ∧
    Forall (λ r, r.2 ≠ Panic) rs ∧ proc_ok p'.
Proof.
  intros Hp. pose proof (hoare_mapM try_read names (proc_after p)
    (λ name r, r.1 = name ∧ r.2 ≠ Panic) (λ _ _, False)
    (λ name _, hoare_try_read p name) p (conj Hp (reflexivity _))) as Hh.
  destruct (mapM try_read names p) as [[rs|e|] p']; [|done|done].
  destruct Hh as [Hall [Hp' _]]. exists rs, p'. split; [done|]. split; [|split; [|done]].
  - clear -Hall. induction Hall as [|x r l k [Hx _] _ IH]; [done|].
    rewrite fmap_cons. by f_equal.
  - clear -Hall. induction Hall as [|x r l k [_ Hx] _ IH]; by constructor.
Qed.

(** One round, exactly. *)
Definition response_of (now : Z) (sub : SubSt) (rs : readings) : SubscribeResponse :=
  mkResponse now (deltas_of (sb_prev sub) rs)
    (if sb_first sub then sb_errors sub ++ errors_of rs else []).

Lemma round_exact names sub (p : Proc W) :
  proc_ok p → ∃ rs p', mapM try_read names (after_clock p) = (Ok rs, p') ∧ rs.*1 = names ∧
    Forall (λ r, r.2 ≠ Panic) rs ∧ proc_ok p' ∧
    ∃ errs, round names sub p
      = (Ok (response_of (clock_at p) sub rs,
             mkSub (client_apply (sb_prev sub) (deltas_of (sb_prev sub) rs)) false errs), p').
Proof.
  intros Hp. destruct (try_reads_ok names _ (after_clock_ok _ Hp)) as (rs & p' & Hrun & Hn & Hnp & Hp').
  exists rs, p'. split; [done|]. split; [done|]. split; [done|]. split; [exact Hp'|].
  unfold round. run_simpl. pose proof (proc_now_run p) as Hnow. unfold after_clock in Hrun.
  destruct (proc_now p) as [o p1]. cbn [fst snd] in Hnow, Hrun. subst o. run_simpl.
  rewrite sub_loop, Hrun. run_simpl. unfold response_of. fold (clock_at p).
  destruct sub as [prev [] errs]; cbn [sb_first sb_prev sb_errors app]; run_simpl; eauto.
Qed.

(** The readings of a stream's rounds. *)
Inductive stream_reads (names : list string) : list readings → Proc W → Proc W → Prop :=
  | stream_reads_nil p : stream_reads names [] p p
  | stream_reads_cons rs rss p p1 p2 :
      mapM try_read names (after_clock p) = (Ok rs, p1) →
      stream_reads names rss p1 p2 → stream_reads names (rs :: rss) p p2.
End Rounds.

(** ** Streams *)

(** The deltas of consecutive rounds of readings. *)
Fixpoint stream_deltas (prev : gmap string (list byte)) (rss : list readings)
    : list (list MetricDelta) :=
  match rss with
  | [] => []
  | rs :: rss' =>
      deltas_of prev rs :: stream_deltas (client_apply prev (deltas_of prev rs)) rss'
  end.

Lemma client_apply_app m l k : client_apply m (l ++ k) = client_apply (client_apply m l) k.
Proof. apply foldl_app. Qed.

Lemma observe_app m l k : observe m (l ++ k) = observe (observe m l) k.
Proof. apply foldl_app. Qed.

Lemma all_news_app m l k : all_news m (l ++ k) ↔ all_news m l ∧ all_news (client_apply m l) k.
Proof.
  revert m. induction l as [|d l IH]; intros m; simpl; [tauto|]. rewrite IH. tauto.
Qed.

Lemma stream_deltas_news prev rss : all_news prev (mjoin (stream_deltas prev rss)).
Proof.
  revert prev. induction rss as [|rs rss IH]; intros prev; simpl; [done|].
  apply all_news_app. split; [apply deltas_of_news|apply IH].
Qed.

Lemma stream_deltas_observed prev obs rss k name :
  (∀ name, view prev name = view obs name) →
  view (client_apply prev (mjoin (take k (stream_deltas prev rss)))) name
  = view (observe obs (mjoin (take k rss))) name.
Proof.
  revert prev obs k. induction rss as [|rs rss IH]; intros prev obs [|k] Heq; [apply Heq..|].
  cbn [stream_deltas take mjoin list_join]. rewrite client_apply_app, observe_app.
  apply IH. intros name'. by apply client_observes.
Qed.

(** When a stream ends: with the first event that ends it, one response per
    event up to there. *)
Fixpoint stream_end (events : list transport) : nat * sub_status :=
  match events with
  | [] => (0%nat, Streaming)
  | SendFailed e :: _ => (1%nat, Returned e)
  | ContextDone e :: _ => (1%nat, Returned e)
  | Ticked _ :: events' => let '(n, s) := stream_end events' in (S n, s)
  end.

(** Errors are sent with the first response only. *)
Definition stream_errors (first : bool) (errors : list goerror) (rss : list readings)
    : list (list goerror) :=
  match rss with
  | [] => []
  | rs :: rss' => (if first then errors ++ errors_of rs else []) :: ((λ _, []) <$> rss')
  end.

Section Streams.
Context {W : Type} `{SysctlSpec W} `{Host W}.

(** The rounds begin a period apart or more; exactly a period, when none takes
    longer. *)
Definition paced (tk : Ticker) (now : Z) (events : list transport) (instants : list Z) : Prop :=
  (∀ k t, instants !! k = Some t → k ≠ 0%nat → tk_next tk + (Z.of_nat k - 1) * tk_period tk ≤ t) ∧
  (Forall (λ ev, ∀ took, ev = Ticked took → took ≤ tk_period tk) events →
   tk_next tk = now + tk_period tk →
   ∀ k t, instants !! k = Some t → t = now + Z.of_nat k * tk_period tk).

Lemma paced_one tk now events : paced tk now events [now].
Proof.
  split.
  - intros [|k] t Hk Hne; [done|discriminate Hk].
  - intros _ _ [|k] t Hk; [|discriminate Hk]. injection Hk as <-. lia.
Qed.

Lemma paced_cons tk now took events instants :
  0 < tk_period tk →
  let '(now', tk') := Ticker_receive tk (now + took) in
  (head instants = None ∨ head instants = Some now') → paced tk' now' events instants →
  paced tk now (Ticked took :: events) (now :: instants).
Proof.
  intros Hd. pose proof (Ticker_receive_spaced tk (now + took) Hd) as Hr.
  destruct (Ticker_receive tk (now + took)) as [now' tk'].
  destruct Hr as (Hat & _ & Hper & Hnext & Hexact). intros Hhead [Hle Heq]. split.
  - intros [|k] t Hk Hne; [done|]. cbn in Hk. destruct k as [|k].
    + destruct instants; [done|]. destruct Hhead as [Hn|Hn]; [done|]. simplify_eq/=. lia.
    + specialize (Hle (S k) t Hk ltac:(done)). rewrite Hper in Hle. nia.
  - intros [Htook Hall]%Forall_cons Hn k t Hk. specialize (Htook took eq_refl).
    destruct (Hexact ltac:(lia)) as [Ha Hx]. destruct k as [|k]; [cbn in Hk; simplify_eq; lia|].
    rewrite (Heq ltac:(by rewrite Hper) ltac:(lia) k t Hk), Hper. nia.
Qed.

(** The responses of a stream, from the readings of its rounds. *)
Definition streamed (names : list string) (sub : SubSt) (tk : Ticker) (now : Z)
    (events : list transport) (p : Proc W) (stream : list (Z * SubscribeResponse))
    (rss : list readings) (p' : Proc W) : Prop :=
  proc_ok p' ∧ stream_reads names rss p p' ∧ length stream = (stream_end events).1 ∧
  length rss = length stream ∧
  Forall (λ rs, rs.*1 = names ∧ Forall (λ r, r.2 ≠ Panic) rs) rss ∧
  (sr_Deltas <$> stream.*2) = stream_deltas (sb_prev sub) rss ∧
  (sr_Errors <$> stream.*2) = stream_errors (sb_first sub) (sb_errors sub) rss ∧
  (head stream.*1 = None ∨ head stream.*1 = Some now) ∧ paced tk now events stream.*1.

Lemma streamed_one names sub tk now ev events (p p' : Proc W) rs t :
  (stream_end (ev :: events)).1 = 1%nat →
  rs.*1 = names → Forall (λ r, r.2 ≠ Panic) rs → proc_ok p' → stream_reads names [rs] p p' →
  streamed names sub tk now (ev :: events) p [(now, response_of t sub rs)] [rs] p'.
Proof.
  intros Hend Hn Hnp Hp' Hreads. split; [exact Hp'|]. split; [exact Hreads|].
  split; [by rewrite Hend|]. split; [done|]. split; [by repeat constructor|].
  do 2 (split; [done|]). split; [by right|apply paced_one].
Qed.

Lemma stream_exact names sub tk now events (p : Proc W) :
  proc_ok p → 0 < tk_period tk →
  ∃ stream rss p', stream_loop names sub tk now events p = (Ok (stream, (stream_end events).2), p') ∧
    streamed names sub tk now events p stream rss p'.
Proof.
  revert sub tk now p. induction events as [|ev events IH]; intros sub tk now p Hp Hd.
  { exists [], [], p. run_simpl. split; [done|]. split; [exact Hp|].
    split; [constructor|]. do 5 (split; [done|]). split; [by left|]. by split. }
  cbn [stream_loop]. run_simpl.
  destruct (round_exact names sub p Hp) as (rs & p1 & Hreads & Hn & Hnp & Hp1 & errs & Hround).
  rewrite Hround. run_simpl.
  assert (Hlast : stream_reads names [rs] p p1)
    by (eapply stream_reads_cons; [exact Hreads|constructor]).
  destruct ev as [e|e|took]; run_simpl;
    [by eexists _, [rs], p1; split; [reflexivity|apply streamed_one]..|].
  pose proof (paced_cons tk now took events) as Hpace.
  pose proof (Ticker_receive_spaced tk (now + took) Hd) as Hsp.
  destruct (Ticker_receive tk (now + took)) as [now' tk'].
  destruct (IH (mkSub (client_apply (sb_prev sub) (deltas_of (sb_prev sub) rs)) false errs)
      tk' now' p1 Hp1 ltac:(lia))
    as (stream & rss & p' & Hloop & Hp' & Hr & Hl & Hl' & Hall & Hdl & He & Hhd & Hpc).
  rewrite Hloop. run_simpl. unfold streamed. cbn [stream_end].
  destruct (stream_end events) as [n s].
  exists ((now, response_of (clock_at p) sub rs) :: stream), (rs :: rss), p'.
  cbn [fst snd length] in *. split; [done|]. split; [done|].
  split; [by eapply stream_reads_cons|]. split; [by f_equal|]. split; [by f_equal|].
  split; [by constructor|]. rewrite !fmap_cons, Hdl, He. split; [done|].
  cbn [sb_first stream_errors response_of sr_Errors fst snd]. split.
  { f_equal. destruct rss as [|rs' rss]; [done|]. by rewrite fmap_cons. }
  split; [by right|]. by apply Hpace.
Qed.

Lemma sub_interval_cases full IntervalNs :
  let min := minSubscribeInterval (Some full) in
  (0 < IntervalNs < min ∧ is_ok (sub_interval full IntervalNs) = false ∧
     ∃ e, sub_interval full IntervalNs = Err e) ∨
  (¬ (0 < IntervalNs < min) ∧
     sub_interval full IntervalNs = Ok (if decide (IntervalNs ≤ 0) then min else IntervalNs)).
Proof.
  intros min. unfold sub_interval. fold min.
  destruct (decide (IntervalNs ≤ 0)) as [Hle|Hgt].
  - right. rewrite decide_False by lia. split; [lia|done].
  - destruct (decide (IntervalNs < min)); [left|right]; split; try lia; [|done].
    split; [done|by eexists].
Qed.

Definition valid_names (names : list string) : list string := filter streamable names.

(** Validation, and the loop it leads to. *)
Lemma Subscribe_streams full names IntervalNs interval events (p : Proc W) :
  proc_ok p → sub_interval full IntervalNs = Ok interval → 0 < interval →
  ∃ p0, p_cache p0 = p_cache p ∧ proc_ok p0 ∧
    Subscribe full names IntervalNs events p
    = stream_loop (valid_names names) (mkSub ∅ true (omap name_error names))
        (mkTicker interval interval) 0 events p0.
Proof.
  intros [Hc Hi] Hint Hpos. unfold Subscribe. rewrite Hint. run_simpl. unfold validate_names.
  destruct (validate_loop names [] [] p Hi) as (p0 & Hv & Hc0 & Hi0).
  rewrite Hv. run_simpl. unfold NewTicker. rewrite decide_False by lia.
  exists p0. split; [done|]. split; [|done]. split; [by rewrite Hc0|exact Hi0].
Qed.

Lemma sub_interval_pos full IntervalNs interval :
  sub_interval full IntervalNs = Ok interval →
  0 < interval ∧ minSubscribeInterval (Some full) ≤ interval.
Proof.
  pose proof (minSubscribeInterval_pos full) as Hpos.
  destruct (sub_interval_cases full IntervalNs) as [(_ & _ & e & ->)|[Hn ->]]; [done|].
  set (min := minSubscribeInterval (Some full)) in *. clearbody min.
  intros [= <-]. destruct (decide (IntervalNs ≤ 0)); lia.
Qed.

(** C26: [Subscribe] and its interval: a request for a positive interval below the
    floor gets that error, with both durations, and nothing is read, sent or
    changed.  Any other request streams, at the interval it asked for, or at the
    floor when it asked for none (a non-positive one), so at one never below the
    floor, and [time.NewTicker] never panics: the handler sends one response per
    transport event until the first that ends the stream; the k-th round after
    the first begins at least k intervals after the stream began, and exactly
    then when no round takes longer than the interval. *)
Theorem subscribe_interval_correct full names IntervalNs events (p : Proc W) (Hp : proc_ok p) :
  let min := minSubscribeInterval (Some full) in
  let interval := if decide (IntervalNs ≤ 0) then min else IntervalNs in
  if decide (interval < min) then
    Subscribe full names IntervalNs events p
    = (Ok ([], Returned (Errorf
        "interval %v is faster than server minimum %v; check GetKernelRegistry.min_interval_ns"
        [AInt interval; AInt min])), p)
  else
    0 < interval ∧
    ∃ stream p', Subscribe full names IntervalNs events p
        = (Ok (stream, (stream_end events).2), p') ∧
      length stream = (stream_end events).1 ∧
      (∀ k t, stream.*1 !! k = Some t → Z.of_nat k * interval ≤ t) ∧
      (Forall (λ ev, ∀ took, ev = Ticked took → took ≤ interval) events →
       ∀ k t, stream.*1 !! k = Some t → t = Z.of_nat k * interval).
Proof.
  intros min interval. destruct (decide (interval < min)) as [Hlt|Hge].
  { unfold Subscribe, sub_interval. fold min. fold interval. by rewrite decide_True. }
  assert (Hint : sub_interval full IntervalNs = Ok interval).
  { unfold sub_interval. fold min. fold interval. by rewrite decide_False. }
  destruct (sub_interval_pos _ _ _ Hint) as [Hpos _]. split; [exact Hpos|].
  destruct (Subscribe_streams full names IntervalNs interval events p Hp Hint Hpos)
    as (p0 & _ & Hp0 & ->).
  destruct (stream_exact (valid_names names) (mkSub ∅ true (omap name_error names))
    (mkTicker interval interval) 0 events p0 Hp0 Hpos)
    as (stream & rss & p' & Hrun & _ & _ & Hl & _ & _ & _ & _ & Hhd & Hle & Heq).
  exists stream, p'. split; [exact Hrun|]. split; [exact Hl|]. cbn [tk_next tk_period] in *. split.
  - intros [|k] t Hk; [|specialize (Hle (S k) t Hk ltac:(done)); clear -Hle; nia].
    destruct (stream.*1); [done|]. simplify_eq/=. destruct Hhd; simplify_eq. lia.
  - intros Htook k t Hk. by rewrite (Heq Htook eq_refl k t Hk).
Qed.

(** C3: delta streaming is lossless and minimal: the handler reads the valid
    names (the non-computed metrics of the table, in request order) once per
    round; after any number of responses a client that applies the deltas
    holds, for every name, the bytes of the last successful reading (empty
    if none); no delta repeats what the client has; the first response alone
    carries errors, one per rejected name and then one per reading that failed
    in the first round; and the handler sends one response per transport event
    until the first one that ends the stream, whose error it returns. *)
Theorem subscribe_stream_correct full names IntervalNs interval events (p : Proc W)
    (Hp : proc_ok p) (Hinterval : sub_interval full IntervalNs = Ok interval) :
  let valid := filter streamable names in
  ∃ stream rss p0 p', Subscribe full names IntervalNs events p
      = (Ok (stream, (stream_end events).2), p') ∧
    let resps := stream.*2 in
    length resps = (stream_end events).1 ∧ length rss = length resps ∧
    p_cache p0 = p_cache p ∧ stream_reads valid rss p0 p' ∧ proc_ok p' ∧
    Forall (λ rs, rs.*1 = valid) rss ∧
    (∀ k name, view (client_apply ∅ (mjoin (take k (sr_Deltas <$> resps)))) name
               = view (observe ∅ (mjoin (take k rss))) name) ∧
    all_news ∅ (mjoin (sr_Deltas <$> resps)) ∧
    sr_Errors <$> resps = stream_errors true (omap name_error names) rss.
Proof.
  intros valid. destruct (sub_interval_pos _ _ _ Hinterval) as [Hpos _].
  destruct (Subscribe_streams full names IntervalNs interval events p Hp Hinterval Hpos)
    as (p0 & Hc0 & Hp0 & ->). change (valid_names names) with valid. clearbody valid.
  destruct (stream_exact valid (mkSub ∅ true (omap name_error names)) (mkTicker interval interval)
    0 events p0 Hp0 Hpos)
    as (stream & rss & p' & Hrun & Hp' & Hr & Hl & Hl' & Hall & Hd & He & _).
  cbn [sb_prev sb_first sb_errors] in *.
  exists stream, rss, p0, p'. cbv zeta. rewrite Hd, length_fmap. do 4 (split; [done|]).
  split; [done|]. split; [exact Hp'|].
  split; [eapply Forall_impl; [exact Hall|]; by intros rs [? _]|].
  split; [intros k name; by apply stream_deltas_observed|].
  split; [apply stream_deltas_news|exact He].
Qed.
End Streams.

(** ** Witness on the concrete kernel *)

Lemma subscribe_stream_correct_witness :
  ∃ stream p', @Subscribe nat demo_kernel demo_host (buildFullRegistry None)
      ["hw.ncpu"; "no.such"; "computed.uptime_seconds"] 0 [Ticked 1000; SendFailed (Errno 32)] demo_proc
    = (Ok (stream, Returned (Errno 32)), p') ∧ length stream.*2 = 2%nat.
Proof.
  destruct (@subscribe_stream_correct nat demo_kernel demo_spec demo_host (buildFullRegistry None)
    ["hw.ncpu"; "no.such"; "computed.uptime_seconds"] 0 (100 * Millisecond)
    [Ticked 1000; SendFailed (Errno 32)] demo_proc demo_proc_ok ltac:(vm_compute; reflexivity))
    as (stream & rss & p0 & p' & Hrun & Hl & _).
  exists stream, p'. split; [exact Hrun|exact Hl].
Defined.

(** A request for a second: its third response is two seconds after the first,
    though the rounds take a millisecond and a whole second. *)
Lemma subscribe_interval_correct_witness :
  ∃ stream p', @Subscribe nat demo_kernel demo_host (buildFullRegistry None) ["hw.ncpu"] Second
      [Ticked Millisecond; Ticked Second; SendFailed (Errno 32)] demo_proc
    = (Ok (stream, Returned (Errno 32)), p') ∧ length stream = 3%nat ∧
    ∀ t, stream.*1 !! 2%nat = Some t → t = 2 * Second.
Proof.
  pose proof (@subscribe_interval_correct nat demo_kernel demo_spec demo_host (buildFullRegistry None)
    ["hw.ncpu"] Second [Ticked Millisecond; Ticked Second; SendFailed (Errno 32)] demo_proc
    demo_proc_ok) as Hs.
  cbv zeta in Hs. rewrite (decide_False (P := Second ≤ 0)) in Hs by by_decide.
  rewrite (decide_False (P := Second < _)) in Hs by (vm_compute; discriminate).
  destruct Hs as (_ & stream & p' & Hrun & Hl & _ & Ht).
  exists stream, p'. split; [exact Hrun|]. split; [exact Hl|]. intros t Hk.
  refine (Ht _ _ t Hk). repeat constructor; intros took [= <-]; by_decide.
Defined.
