(* ===== verification/Name2Int.v ===== *)
(** * Names to MIBs (cmd/darwin-name2int/main.go)

    The tool resolves every registered name, cross-references its MIB with the
    constants of the XNU headers, validates the two ways of reading it, and
    studies whether a MIB can be packed in one integer.  Its reports are in
    [Report], its [main] and the JSON output in [Name2IntMain]. *)

From Stdlib Require Import ZArith Lia.
From Stdlib Require Import Strings.Byte.
From S2P Require Import Prelude Bytes Kernel TableKernel Sysctl MibCache Registry.
From S2P Require Import KernelRegistry.

Local Open Scope Z_scope.

(** ** The header constants *)

Definition knownTopLevel : gmap string Z := list_to_map
  [("kern", 1); ("vm", 2); ("vfs", 3); ("net", 4); ("debug", 5); ("hw", 6);
   ("machdep", 7); ("user", 8)].

Definition knownKern : gmap string Z := list_to_map
  [("kern.ostype", 1); ("kern.osrelease", 2); ("kern.osrev", 3); ("kern.version", 4);
   ("kern.maxvnodes", 5); ("kern.maxproc", 6); ("kern.maxfiles", 7); ("kern.argmax", 8);
   ("kern.securelevel", 9); ("kern.hostname", 10); ("kern.hostid", 11);
   ("kern.clockrate", 12); ("kern.boottime", 21); ("kern.nisdomainname", 22);
   ("kern.maxfilesperproc", 29); ("kern.maxprocperuid", 30); ("kern.ipc", 32);
   ("kern.aiomax", 46); ("kern.aioprocmax", 47); ("kern.corefile", 50);
   ("kern.coredump", 51); ("kern.osversion", 65); ("kern.safeboot", 66)].

Definition knownHW : gmap string Z := list_to_map
  [("hw.machine", 1); ("hw.model", 2); ("hw.ncpu", 3); ("hw.byteorder", 4);
   ("hw.pagesize", 7); ("hw.memsize", 24); ("hw.availcpu", 25)].

Definition knownVM : gmap string Z := list_to_map [("vm.loadavg", 2); ("vm.swapusage", 5)].

Definition knownKIPC : gmap string Z := list_to_map
  [("kern.ipc.maxsockbuf", 1); ("kern.ipc.somaxconn", 3)].

(** ** Formatting *)

(** [fmt]'s [%v] of a [[]uint32] and of a [[]string]. *)
Definition fmt_v_mib (mib : list Z) : string :=
  "[" +:+ String.concat " " (fmt_d <$> mib) +:+ "]".
Definition fmt_v_names (names : list string) : string := "[" +:+ String.concat " " names +:+ "]".

Definition formatMIB (mib : list Z) : string :=
  if decide (length mib = 0)%nat then EmptyString
  else "{" +:+ String.concat "," (fmt_d <$> mib) +:+ "}".

(** ** Cross-referencing *)

(** [len(mib) > i && mib[i] == v] for each index of a prefix. *)
Definition mib_is2 (mib : list Z) (a b : Z) : bool :=
  bool_decide (2 ≤ length mib)%nat && bool_decide (mib !! 0%nat = Some a)
    && bool_decide (mib !! 1%nat = Some b).
Definition mib_is3 (mib : list Z) (a b c : Z) : bool :=
  bool_decide (3 ≤ length mib)%nat && bool_decide (mib !! 0%nat = Some a)
    && bool_decide (mib !! 1%nat = Some b) && bool_decide (mib !! 2%nat = Some c).

Definition matchXNU (name : string) (mib : list Z) : string :=
  match knownKern !! name with
  | Some sub =>
      if mib_is2 mib 1 sub then "CTL_KERN(" +:+ fmt_d 1 +:+ ")+KERN_(" +:+ fmt_d sub +:+ ")"
      else "MISMATCH: expected {1," +:+ fmt_d sub +:+ "}, got " +:+ fmt_v_mib mib
  | None =>
  match knownHW !! name with
  | Some sub =>
      if mib_is2 mib 6 sub then "CTL_HW(" +:+ fmt_d 6 +:+ ")+HW_(" +:+ fmt_d sub +:+ ")"
      else "MISMATCH: expected {6," +:+ fmt_d sub +:+ "}, got " +:+ fmt_v_mib mib
  | None =>
  match knownVM !! name with
  | Some sub =>
      if mib_is2 mib 2 sub then "CTL_VM(" +:+ fmt_d 2 +:+ ")+VM_(" +:+ fmt_d sub +:+ ")"
      else "MISMATCH: expected {2," +:+ fmt_d sub +:+ "}, got " +:+ fmt_v_mib mib
  | None =>
  match knownKIPC !! name with
  | Some sub =>
      if mib_is3 mib 1 32 sub then "CTL_KERN+KERN_IPC+KIPC_(" +:+ fmt_d sub +:+ ")"
      else "MISMATCH: expected {1,32," +:+ fmt_d sub +:+ "}, got " +:+ fmt_v_mib mib
  | None => EmptyString
  end end end end.

(** ** Flattening *)

(** [flat |= uint64(v) << (48 - uint(i)*16)], from index [i]; the shift count is
    an unsigned 64-bit number, and a count of 64 or more gives 0. *)
Definition shl64 (v count : Z) : Z := if decide (64 ≤ count) then 0 else u64 (Z.shiftl v count).

Fixpoint flatten_from (i : Z) (flat : Z) (mib : list Z) : Z :=
  match mib with
  | [] => flat
  | v :: mib' => flatten_from (i + 1) (Z.lor flat (shl64 v (u64 (48 - i * 16)))) mib'
  end.

Definition flattenMIB (mib : list Z) : Z * bool :=
  if decide (4 < length mib)%nat then (0, false)
  else if decide (Exists (λ v, v > 65535) mib) then (0, false)
  else (flatten_from 0 0 mib, true).

(** ** Validation *)

Section Validation.
Context {W : Type} `{Kernel W}.

Definition size_mismatch (m n : nat) : goerror :=
  Errorf "size mismatch: mib=%d bytes, name=%d bytes" [AInt (Z.of_nat m); AInt (Z.of_nat n)].
Definition volatile : goerror := Errorf "volatile" [].

(** The loop of [validateReads] from [attempt], with [fuel] attempts left; the
    text is an option ([None] is the empty string). *)
Fixpoint validate_attempts (name : string) (attempt : Z) (fuel : nat)
    : M (CacheSt W) (bool * option goerror) :=
  match fuel with
  | O => mret (true, Some volatile)
  | S fuel' =>
      try mibRaw ← MIBCache_GetRaw name
      catch err ⇒ mret (false, Some (Errorf "mib read: %v" [AErr err]));
      try nameRaw ← on_kernel (GetRaw name)
      catch err ⇒ mret (false, Some (Errorf "name read: %v" [AErr err]));
      if decide (mibRaw = nameRaw) then mret (true, None)
      else if decide (length mibRaw = length nameRaw ∧ attempt = 2) then mret (true, Some volatile)
      else if decide (length mibRaw ≠ length nameRaw)
      then mret (false, Some (size_mismatch (length mibRaw) (length nameRaw)))
      else validate_attempts name (attempt + 1) fuel'
  end.

(** [for attempt := 0; attempt < 3; attempt++]. *)
Definition validateReads (name : string) : M (CacheSt W) (bool * option goerror) :=
  validate_attempts name 0 3.

(** ** Resolving the table *)

Record MetricMIB := mkMetricMIB {
  mm_Name : string;
  mm_MIB : list Z;
  mm_MIBDepth : Z;
  mm_TopLevel : string;
  mm_XNUMatch : string;
  mm_Validated : bool;
  mm_ValidErr : option goerror;
  mm_ResolveErr : option goerror;
}.

(** [for name, id := range knownTopLevel { if mib[0] == id { ...; break } }]. *)
Definition top_level `{MapOrder} (top : Z) : string :=
  match filter (λ name, knownTopLevel !! name = Some top) (range_keys knownTopLevel) with
  | name :: _ => name
  | [] => "unknown(" +:+ fmt_d top +:+ ")"
  end.

(** One iteration of [main]'s loop; [mib[0]] panics on an empty MIB. *)
Definition resolve_row `{MapOrder} (validate : bool) (name : string) : M (CacheSt W) MetricMIB :=
  try mib ← Resolve name
  catch err ⇒ mret (mkMetricMIB name [] 0 EmptyString EmptyString false None (Some err));
  match mib with
  | [] => panic
  | top :: _ =>
      let row := mkMetricMIB name mib (Z.of_nat (length mib)) (top_level top) (matchXNU name mib) in
      if validate then
        v ← validateReads name; mret (row v.1 v.2 None)
      else mret (row false None None)
  end.

(** [main], up to its output. *)
Definition resolve_all `{MapOrder} (validate : bool) : M (CacheSt W) (list MetricMIB) :=
  foldM (λ results info,
           if decide (info_Type info = TypeComputed) then mret results
           else r ← resolve_row validate (info_Name info); mret (results ++ [r]))
        [] Known.
End Validation.

(** ** Flattening: what the packed integer is *)

(** Four 16-bit fields, most significant first; missing levels are zero. *)
Fixpoint packed (weight : Z) (mib : list Z) : Z :=
  match mib with
  | [] => 0
  | v :: mib' => v * 2 ^ weight + packed (weight - 16) mib'
  end.

Definition level16 (v : Z) : Prop := 0 ≤ v < 2 ^ 16.

(** A MIB padded to four levels. *)
Definition pad4 (mib : list Z) : list Z := mib ++ replicate (4 - length mib) 0.

Lemma lor_disjoint a v k :
  0 ≤ k → level16 v → (2 ^ (k + 16) | a) → Z.lor a (v * 2 ^ k) = a + v * 2 ^ k.
Proof.
  intros Hk [Hv0 Hv] [b ->].
  assert (Hland : Z.land (b * 2 ^ (k + 16)) (v * 2 ^ k) = 0).
  { apply Z.bits_inj'. intros n Hn. rewrite Z.land_spec, Z.bits_0.
    destruct (decide (n < k + 16)) as [Hlt|Hge].
    - rewrite Z.mul_pow2_bits_low by lia. done.
    - rewrite (Z.mul_pow2_bits v) by lia.
      rewrite <- (Z.mod_small v (2 ^ 16)) by lia.
      rewrite Z.mod_pow2_bits_high by lia. apply andb_false_r. }
  rewrite <- Z.lxor_lor by done. symmetry. by apply Z.add_nocarry_lxor.
Qed.

Lemma shl64_level v w : level16 v → 0 ≤ w ≤ 48 → shl64 v w = v * 2 ^ w.
Proof.
  intros [Hv0 Hv] Hw. unfold shl64. rewrite decide_False by lia.
  rewrite Z.shiftl_mul_pow2 by lia. apply u64_id. split; [nia|].
  assert (2 ^ w ≤ 2 ^ 48) by (apply Z.pow_le_mono_r; lia). nia.
Qed.

Lemma flatten_from_packed mib i flat :
  Forall level16 mib → 0 ≤ i → i + Z.of_nat (length mib) ≤ 4 →
  (2 ^ (64 - i * 16) | flat) →
  flatten_from i flat mib = flat + packed (48 - i * 16) mib.
Proof.
  intros Hall. revert i flat. induction Hall as [|v mib Hv Hall IH]; intros i flat Hi Hl Hd; simpl.
  { lia. }
  simpl in Hl. rewrite u64_id by lia.
  rewrite (shl64_level v (48 - i * 16)) by (done || lia).
  rewrite lor_disjoint; [|lia|done|].
  2: { replace (48 - i * 16 + 16) with (64 - i * 16) by lia. done. }
  rewrite IH; [|lia|lia|].
  - replace (48 - (i + 1) * 16) with (48 - i * 16 - 16) by lia. lia.
  - replace (64 - (i + 1) * 16) with (48 - i * 16) by lia. apply Z.divide_add_r.
    + etrans; [|exact Hd]. exists (2 ^ 16). rewrite <- Z.pow_add_r by lia. f_equal. lia.
    + by exists v.
Qed.

Lemma packed_app w a b :
  packed w (a ++ b) = packed w a + packed (w - 16 * Z.of_nat (length a)) b.
Proof.
  revert w. induction a as [|v a IH]; intros w; cbn [app packed length].
  { rewrite Z.mul_0_r, Z.sub_0_r. lia. }
  rewrite IH. replace (w - 16 * Z.of_nat (S (length a)))
    with (w - 16 - 16 * Z.of_nat (length a)) by lia. lia.
Qed.

Lemma packed_pad4 mib : packed 48 (pad4 mib) = packed 48 mib.
Proof.
  unfold pad4. rewrite packed_app.
  assert (Hz : ∀ n w, packed w (replicate n 0) = 0).
  { intros n. induction n as [|n IH]; intros w; simpl; [done|]. by rewrite IH. }
  rewrite Hz. lia.
Qed.

Lemma length_pad4 mib : (length mib ≤ 4)%nat → length (pad4 mib) = 4%nat.
Proof. intros H. unfold pad4. rewrite length_app, length_replicate. lia. Qed.

Lemma pad4_levels mib : Forall level16 mib → Forall level16 (pad4 mib).
Proof.
  intros H. apply Forall_app. split; [done|]. apply Forall_replicate. unfold level16. lia.
Qed.

(** Four-level MIBs are told apart by their packed value. *)
Lemma packed_inj4 a b :
  length a = 4%nat → length b = 4%nat → Forall level16 a → Forall level16 b →
  packed 48 a = packed 48 b → a = b.
Proof.
  intros Ha Hb Hla Hlb.
  destruct a as [|a0 [|a1 [|a2 [|a3 [|]]]]]; try done.
  destruct b as [|b0 [|b1 [|b2 [|b3 [|]]]]]; try done.
  rewrite !Forall_cons in *. unfold level16 in *. cbn [packed].
  change (48 - 16) with 32. change (32 - 16) with 16. change (16 - 16) with 0.
  intros Heq. assert (a0 = b0) by lia. assert (a1 = b1) by lia. assert (a2 = b2) by lia.
  assert (a3 = b3) by lia. congruence.
Qed.

Lemma packed_bound mib :
  length mib = 4%nat → Forall level16 mib → 0 ≤ packed 48 mib < 2 ^ 64.
Proof.
  intros Hl Hall. destruct mib as [|a0 [|a1 [|a2 [|a3 [|]]]]]; try done.
  rewrite !Forall_cons in Hall. unfold level16 in Hall. cbn [packed].
  change (48 - 16) with 32. change (32 - 16) with 16. change (16 - 16) with 0. lia.
Qed.

Definition flattenable (mib : list Z) : Prop := (length mib ≤ 4)%nat ∧ Forall level16 mib.

Lemma flattenMIB_cases mib :
  Forall word32 mib →
  (flattenable mib ∧ flattenMIB mib = (packed 48 (pad4 mib), true)) ∨
  (¬ flattenable mib ∧ flattenMIB mib = (0, false)).
Proof.
  intros Hw. unfold flattenMIB, flattenable.
  destruct (decide (4 < length mib)%nat) as [Hl|Hl]; [right; split; [lia|done]|].
  destruct (decide (Exists (λ v, v > 65535) mib)) as [He|He].
  - right. split; [|done]. intros [_ Hall]. rewrite Exists_exists in He. rewrite Forall_forall in Hall.
    destruct He as (v & Hin & Hv). specialize (Hall v Hin). unfold level16 in Hall. lia.
  - assert (Hall : Forall level16 mib).
    { rewrite Forall_forall in *. intros v Hin. rewrite Exists_exists in He.
      specialize (Hw v Hin). unfold word32 in Hw. unfold level16.
      assert (¬ v > 65535) by (intros ?; apply He; eauto). lia. }
    left. split; [split; [lia|done]|]. rewrite packed_pad4.
    rewrite (flatten_from_packed mib 0 0) by (done || lia || apply Z.divide_0_r). done.
Qed.

(** ** Resolution of the table *)

(** The MIB prefix the headers give a name. *)
Definition header_prefix (name : string) : option (list Z) :=
  match knownKern !! name, knownHW !! name, knownVM !! name, knownKIPC !! name with
  | Some sub, _, _, _ => Some [1; sub]
  | None, Some sub, _, _ => Some [6; sub]
  | None, None, Some sub, _ => Some [2; sub]
  | None, None, None, Some sub => Some [1; 32; sub]
  | None, None, None, None => None
  end.

Definition is_mismatch (s : string) : bool := String.prefix "MISMATCH" s.

Lemma mib_is2_spec mib a b : mib_is2 mib a b = bool_decide ([a; b] `prefix_of` mib).
Proof.
  unfold mib_is2.
  assert (Hp : [a; b] `prefix_of` mib ↔
    ((2 ≤ length mib)%nat ∧ mib !! 0%nat = Some a) ∧ mib !! 1%nat = Some b).
  { split.
    - intros [k ->]. simpl. split; [split; [lia|done]|done].
    - intros ((_ & H0) & H1). destruct mib as [|x [|y l]]; simplify_eq/=. by exists l. }
  by rewrite (bool_decide_ext _ _ Hp), !bool_decide_and.
Qed.

Lemma mib_is3_spec mib a b c : mib_is3 mib a b c = bool_decide ([a; b; c] `prefix_of` mib).
Proof.
  unfold mib_is3.
  assert (Hp : [a; b; c] `prefix_of` mib ↔
    (((3 ≤ length mib)%nat ∧ mib !! 0%nat = Some a) ∧ mib !! 1%nat = Some b)
    ∧ mib !! 2%nat = Some c).
  { split.
    - intros [k ->]. simpl. repeat (split; [|done]). lia.
    - intros (((_ & H0) & H1) & H2). destruct mib as [|x [|y [|z l]]]; simplify_eq/=. by exists l. }
  by rewrite (bool_decide_ext _ _ Hp), !bool_decide_and.
Qed.

(** A top-level identifier has one name, so the order in which the map is
    searched does not matter. *)
Lemma top_level_name `{MapOrder} name top :
  knownTopLevel !! name = Some top → top_level top = name.
Proof.
  intros Hn. unfold top_level.
  assert (Hin : name ∈ filter (λ name, knownTopLevel !! name = Some top) (range_keys knownTopLevel)).
  { apply list_elem_of_filter. split; [done|]. apply elem_of_range_keys. eauto. }
  destruct (filter _ _) as [|name' l] eqn:E; [by apply elem_of_nil in Hin|].
  assert (Hn' : knownTopLevel !! name' = Some top).
  { assert (Hin' : name' ∈ name' :: l) by left. rewrite <- E in Hin'.
    by apply list_elem_of_filter in Hin' as [? _]. }
  assert (Hinj : map_Forall (λ n1 v1, map_Forall (λ n2 v2, v1 = v2 → n1 = n2) knownTopLevel)
            knownTopLevel) by by_decide.
  exact (Hinj _ _ Hn' _ _ Hn eq_refl).
Qed.

Lemma top_level_unknown `{MapOrder} top :
  (∀ name, knownTopLevel !! name ≠ Some top) → top_level top = "unknown(" +:+ fmt_d top +:+ ")".
Proof.
  intros Hn. unfold top_level. destruct (filter _ _) as [|name l] eqn:E; [done|].
  assert (Hin : name ∈ name :: l) by left. rewrite <- E in Hin.
  apply list_elem_of_filter in Hin as [Hin _]. by destruct (Hn name).
Qed.

Section Rows.
Context {W : Type} `{SysctlSpec W} `{MapOrder}.

Lemma hoare_validate_attempts name attempt fuel c0 :
  hoare_ok (cache_from c0) (validate_attempts name attempt fuel) (λ _, cache_from c0).
Proof.
  revert attempt. induction fuel as [|fuel IH]; intros attempt; cbn [validate_attempts].
  { apply hoare_ret. auto. }
  eapply hoare_errcase; [apply hoare_cache_GetRaw|intros e; apply hoare_ret; auto|].
  intros mibRaw. eapply hoare_errcase.
  - apply (hoare_on_kernel (GetRaw name) (λ c, cache_ok c ∧ c0 ⊆ c)), GetRaw_safe.
  - intros e. apply hoare_ret. auto.
  - intros nameRaw. cbv beta.
    destruct (decide _); [apply hoare_ret; auto|].
    destruct (decide _); [apply hoare_ret; auto|].
    destruct (decide _); [apply hoare_ret; auto|]. apply IH.
Qed.

(** What a row says of a name. *)
Definition row_for (validate : bool) (name : string) (r : MetricMIB) : Prop :=
  mm_Name r = name ∧
  match oid_of name with
  | None =>
      mm_MIB r = [] ∧ mm_MIBDepth r = 0 ∧ mm_TopLevel r = EmptyString ∧ mm_XNUMatch r = EmptyString ∧
      is_Some (mm_ResolveErr r) ∧ mm_Validated r = false ∧ mm_ValidErr r = None
  | Some oid =>
      mm_MIB r = oid ∧ mm_MIBDepth r = Z.of_nat (length oid) ∧
      (∃ top, head oid = Some top ∧ mm_TopLevel r = top_level top) ∧
      mm_XNUMatch r = matchXNU name oid ∧ mm_ResolveErr r = None ∧
      (validate = false → mm_Validated r = false ∧ mm_ValidErr r = None)
  end.

Lemma hoare_resolve_row validate name :
  nul_free name →
  hoare_ok (cache_from ∅) (resolve_row validate name)
    (λ r c, row_for validate name r ∧ cache_from ∅ c).
Proof.
  intros Hn c Hc. unfold resolve_row. run_simpl.
  pose proof (Resolve_answer name c (proj1 Hc) Hn) as Ha.
  pose proof (hoare_Resolve name ∅ c Hc) as Hh. unfold row_for.
  destruct (oid_of name) as [oid|] eqn:Ho.
  - destruct (Resolve name c) as [[mib|e|] c']; simplify_eq/=.
    destruct Hh as (_ & Hc'). destruct (oid_shape name oid Ho) as [Hl _].
    destruct oid as [|top oid]; [simpl in Hl; lia|]. destruct validate; run_simpl.
    + pose proof (hoare_validate_attempts name 0 3 ∅ c' Hc') as Hv. fold (validateReads name) in Hv.
      destruct (validateReads name c') as [[[b err]|e|] c'']; [|done|done]. split; [|done].
      simpl. split_and!; try done. by exists top.
    + split; [|done]. simpl. split_and!; try done. by exists top.
  - destruct Ha as [e Ha]. destruct (Resolve name c) as [[mib|e'|] c']; simplify_eq/=.
    split; [|done]. split_and!; try done.
Qed.

Lemma resolve_loop validate l acc :
  Forall (λ info, nul_free (info_Name info)) l →
  hoare_ok (cache_from ∅)
    (foldM (λ results info,
       if decide (info_Type info = TypeComputed) then mret results
       else r ← resolve_row validate (info_Name info); mret (results ++ [r])) acc l)
    (λ rows c, cache_from ∅ c ∧ ∃ new, rows = acc ++ new ∧
       Forall2 (row_for validate)
         (info_Name <$> filter (λ info, info_Type info ≠ TypeComputed) l) new).
Proof.
  revert acc. induction l as [|info l IH]; intros acc Hn.
  { apply hoare_ret. intros c Hc. split; [done|]. exists []. by rewrite app_nil_r. }
  apply Forall_cons in Hn as [Hi Hn]. cbn [foldM]. rewrite filter_cons.
  destruct (decide (info_Type info = TypeComputed)) as [Ht|Ht].
  - rewrite decide_False by (intros Hne; by apply Hne). intros c Hc. run_simpl. by apply IH.
  - rewrite decide_True by done. eapply hoare_bind with (R := λ acc' c,
      (∃ r, acc' = acc ++ [r] ∧ row_for validate (info_Name info) r) ∧ cache_from ∅ c).
    + eapply hoare_bind; [by apply hoare_resolve_row|]. intros r. apply hoare_ret.
      intros c [Hr Hc]. split; [by exists r|done].
    + intros acc' c [(r & -> & Hr) Hc].
      pose proof (IH (acc ++ [r]) Hn c Hc) as Hh.
      destruct (foldM _ (acc ++ [r]) l c) as [[rows|e|] c']; [|done|done].
      destruct Hh as (Hc' & new & -> & Hall). split; [done|]. exists (r :: new).
      rewrite <- app_assoc, fmap_cons. split; [done|]. by constructor.
Qed.
Lemma resolve_all_rows validate (w : W) :
  ∃ rows st', resolve_all validate (mkCacheSt w NewMIBCache) = (Ok rows, st') ∧
    Forall2 (row_for validate)
      (info_Name <$> filter (λ info, info_Type info ≠ TypeComputed) Known) rows.
Proof.
  assert (Hn : Forall (λ info, nul_free (info_Name info)) Known) by by_decide.
  pose proof (resolve_loop validate Known [] Hn (mkCacheSt w NewMIBCache)) as Hh.
  unfold resolve_all.
  destruct (foldM _ [] Known (mkCacheSt w NewMIBCache)) as [[rows|e|] st'].
  - destruct Hh as (_ & new & -> & Hall).
    { split; [apply cache_ok_empty|apply map_empty_subseteq]. }
    exists new, st'. split; [reflexivity|exact Hall].
  - exfalso. apply Hh. split; [apply cache_ok_empty|apply map_empty_subseteq].
  - exfalso. apply Hh. split; [apply cache_ok_empty|apply map_empty_subseteq].
Qed.
End Rows.

(** ** Validation of nodes of a fixed size *)

Section Fixed.
Context {W : Type} `{SysctlSpec W}.
Context (name : string) (oid : list Z) (P : list byte → Prop) (n : nat).
Context (Hname : nul_free name) (Hoid : oid_of name = Some oid).
(** The node always holds [n] bytes satisfying [P]. *)
Context (Hfixed : ∀ w, ∃ v, value_of w oid = Some v ∧ length v = n ∧ P v).

Lemma GetRawMIB_fixed w :
  ∃ b w', GetRawMIB oid w = (Ok b, w') ∧ length b = n ∧ P b.
Proof using Hfixed.
  pose proof (GetRawMIB_cases oid w) as Hc. cbv zeta in Hc.
  destruct (Hfixed w) as (v0 & Hv0 & Hl0 & HP0).
  destruct (Hfixed (libc_sysctl oid None 0 None 0 w).2) as (v1 & Hv1 & Hl1 & HP1).
  rewrite Hv0, Hv1 in Hc. destruct (GetRawMIB oid w) as [o w']. cbn [fst] in Hc.
  destruct v0 as [|b0 v0]; cbn [read_spec] in Hc.
  - exists [], w'. by subst o.
  - rewrite decide_True in Hc by lia. exists v1, w'. by subst o.
Qed.

Lemma GetRaw_fixed w :
  ∃ b w', GetRaw name w = (Ok b, w') ∧ length b = n ∧ P b.
Proof using Hfixed Hname Hoid.
  destruct (GetRawMIB_fixed w) as (b & w' & Hb & Hl & HP).
  destruct (GetRaw_GetRawMIB name oid w Hname Hoid) as [Ha _]. rewrite Hb in Ha.
  destruct (GetRaw name w) as [[b'|e|] w'']; simpl in Ha; try done. subst b'. by exists b, w''.
Qed.

Lemma cache_GetRaw_fixed (st : CacheSt W) :
  cache_ok (c_cache st) →
  ∃ b st', MIBCache_GetRaw name st = (Ok b, st') ∧ cache_ok (c_cache st') ∧ length b = n ∧ P b.
Proof using Hfixed Hname Hoid.
  intros Hc. pose proof (Resolve_answer name st Hc Hname) as Ha. rewrite Hoid in Ha.
  pose proof (hoare_Resolve name ∅ st (conj Hc (map_empty_subseteq _))) as Hh.
  unfold MIBCache_GetRaw, on_kernel. run_simpl.
  destruct (Resolve name st) as [[mib|e|] st1]; simplify_eq/=.
  destruct (GetRawMIB_fixed (c_world st1)) as (b & w' & -> & Hl & HP).
  eexists b, _. split; [reflexivity|]. split; [apply Hh|done].
Qed.

Lemma validate_attempts_fixed attempt fuel (st : CacheSt W) :
  cache_ok (c_cache st) →
  ∃ e st', validate_attempts name attempt fuel st = (Ok (true, e), st') ∧
    (e = None ∨ e = Some volatile) ∧
    ((0 < fuel)%nat → (∀ v1 v2, P v1 → P v2 → v1 = v2) → e = None).
Proof using Hfixed Hname Hoid.
  revert attempt st. induction fuel as [|fuel IH]; intros attempt st Hc; cbn [validate_attempts].
  { exists (Some volatile), st. split; [done|]. split; [by right|lia]. }
  run_simpl. destruct (cache_GetRaw_fixed st Hc) as (b1 & st1 & -> & Hc1 & Hl1 & HP1). run_simpl.
  unfold on_kernel. run_simpl.
  destruct (GetRaw_fixed (c_world st1)) as (b2 & w2 & -> & Hl2 & HP2). run_simpl.
  destruct (decide (b1 = b2)) as [|Hne].
  { eexists None, _. split; [reflexivity|]. split; [by left|done]. }
  destruct (decide _).
  { eexists (Some volatile), _. split; [reflexivity|]. split; [by right|].
    intros _ Huniq. by destruct Hne, (Huniq b1 b2). }
  rewrite decide_False by lia. destruct (IH (attempt + 1) (mkCacheSt w2 (c_cache st1)) Hc1)
    as (e & st' & Hr & He & _).
  exists e, st'. split; [exact Hr|]. split; [done|].
  intros _ Huniq. by destruct Hne, (Huniq b1 b2).
Qed.
End Fixed.

(** ** Theorems *)

(** C36: [flattenMIB] succeeds exactly on MIBs of at most four levels of sixteen
    bits; the result is then the four fields packed most significant first, a
    64-bit number.  Two flattenable MIBs get the same integer exactly when they
    differ only by trailing zeros: packing is injective on MIBs of equal depth,
    and MIBs of different depths can collide. *)
Theorem flattenMIB_correct a b (Ha : Forall word32 a) (Hb : Forall word32 b) :
  ((flattenMIB a).2 = true ↔ flattenable a) ∧
  ((flattenMIB a).2 = true → (flattenMIB a).1 = packed 48 (pad4 a) ∧ 0 ≤ (flattenMIB a).1 < 2 ^ 64) ∧
  ((flattenMIB a).2 = true → (flattenMIB b).2 = true →
     ((flattenMIB a).1 = (flattenMIB b).1 ↔ pad4 a = pad4 b) ∧
     (length a = length b → (flattenMIB a).1 = (flattenMIB b).1 → a = b)).
Proof.
  destruct (flattenMIB_cases a Ha) as [[[Hla Hva] Ea]|[Hna Ea]]; rewrite Ea; cbn [fst snd].
  2: { split; [done|]. split; [done|]. done. }
  split; [done|]. split.
  { intros _. split; [done|]. apply packed_bound; [by apply length_pad4|by apply pad4_levels]. }
  destruct (flattenMIB_cases b Hb) as [[[Hlb Hvb] Eb]|[_ Eb]]; rewrite Eb; cbn [fst snd]; [|done].
  intros _ _. assert (Hiff : packed 48 (pad4 a) = packed 48 (pad4 b) ↔ pad4 a = pad4 b).
  { split; [|by intros ->]. apply packed_inj4; auto using length_pad4, pad4_levels. }
  split; [exact Hiff|]. intros Hl Heq. apply Hiff in Heq. unfold pad4 in Heq.
  by apply app_inj_1 in Heq as [? _].
Qed.

(** [{1}] and [{1, 0}] collide. *)
Lemma flattenMIB_correct_witness :
  (flattenMIB [1]).2 = true ∧ (flattenMIB [1]).1 = (flattenMIB [1; 0]).1.
Proof.
  destruct (flattenMIB_correct [1] [1; 0] ltac:(by_decide) ltac:(by_decide)) as (Hok & _ & Hcol).
  assert (Ht : (flattenMIB [1]).2 = true) by (apply Hok; split; [simpl; lia|by_decide]).
  split; [exact Ht|]. apply (Hcol Ht eq_refl). reflexivity.
Defined.

(** C38: [matchXNU] reports a match exactly when the MIB starts with the prefix
    the XNU headers give the name, a mismatch when there is such a prefix and
    the MIB does not start with it, and nothing for a name without one; the four
    tables give no name two prefixes. *)
Theorem matchXNU_correct name mib :
  match header_prefix name with
  | None => matchXNU name mib = EmptyString
  | Some pre =>
      matchXNU name mib ≠ EmptyString ∧
      is_mismatch (matchXNU name mib) = negb (bool_decide (pre `prefix_of` mib))
  end ∧
  dom knownKern ## dom knownHW ∧ dom knownKern ## dom knownVM ∧ dom knownKern ## dom knownKIPC ∧
  dom knownHW ## dom knownVM ∧ dom knownHW ## dom knownKIPC ∧ dom knownVM ## dom knownKIPC.
Proof.
  split.
  - unfold header_prefix, matchXNU, is_mismatch.
    destruct (knownKern !! name) as [sub|].
    { rewrite mib_is2_spec. by destruct (bool_decide _). }
    destruct (knownHW !! name) as [sub|].
    { rewrite mib_is2_spec. by destruct (bool_decide _). }
    destruct (knownVM !! name) as [sub|].
    { rewrite mib_is2_spec. by destruct (bool_decide _). }
    destruct (knownKIPC !! name) as [sub|]; [|done].
    rewrite mib_is3_spec. by destruct (bool_decide _).
  - split_and!; by_decide.
Qed.

Section Theorems.
Context {W : Type} `{SysctlSpec W} `{MapOrder}.

(** The tool makes one row per non-computed metric of the table (243), in
    table order, whatever the kernel and the order of map iteration: for a
    name the kernel knows, its OID, depth, top-level name and header
    cross-reference; for any other, the resolution error and no MIB.  It
    never panics ([mib[0]] is always there). *)
Theorem name2int_rows validate (w : W) :
  let names := info_Name <$> filter (λ info, info_Type info ≠ TypeComputed) Known in
  length names = 243%nat ∧
  ∃ rows st', resolve_all validate (mkCacheSt w NewMIBCache) = (Ok rows, st') ∧
    Forall2 (row_for validate) names rows.
Proof. intros names. split; [vm_compute; reflexivity|]. apply resolve_all_rows. Qed.

(** C37: validation accepts every node whose data has a fixed size, calling it
    volatile at worst, and without that remark when the data never changes;
    it rejects a name the kernel does not know. *)
Theorem validateReads_correct name (st : CacheSt W)
    (Hc : cache_ok (c_cache st)) (Hname : nul_free name) :
  (∀ oid n, oid_of name = Some oid →
     (∀ w, ∃ v, value_of w oid = Some v ∧ length v = n) →
     ∃ e st', validateReads name st = (Ok (true, e), st') ∧ (e = None ∨ e = Some volatile)) ∧
  (∀ oid v, oid_of name = Some oid → (∀ w, value_of w oid = Some v) →
     ∃ st', validateReads name st = (Ok (true, None), st')) ∧
  (oid_of name = None → ∃ e st', validateReads name st = (Ok (false, Some e), st')).
Proof.
  split_and!.
  - intros oid n Ho Hfix.
    destruct (validate_attempts_fixed name oid (λ _, True) n Hname Ho
      (λ w, let '(ex_intro _ v (conj Hv Hl)) := Hfix w in ex_intro _ v (conj Hv (conj Hl I)))
      0 3 st Hc) as (e & st' & Hr & He & _). eauto.
  - intros oid v Ho Hfix.
    destruct (validate_attempts_fixed name oid (λ b, b = v) (length v) Hname Ho
      (λ w, ex_intro _ v (conj (Hfix w) (conj eq_refl eq_refl))) 0 3 st Hc)
      as (e & st' & Hr & _ & He).
    rewrite He in Hr by (lia || congruence). eauto.
  - intros Ho. pose proof (Resolve_answer name st Hc Hname) as Ha. rewrite Ho in Ha.
    destruct Ha as [e Ha]. unfold validateReads. cbn [validate_attempts].
    unfold MIBCache_GetRaw. run_simpl.
    destruct (Resolve name st) as [[]]; simplify_eq/=. eauto.
Qed.
End Theorems.

(** [demo.rate] is volatile, [hw.memsize] constant. *)
Lemma validateReads_correct_witness :
  (∃ e st', @validateReads nat demo_kernel "demo.rate" demo_cold = (Ok (true, e), st')) ∧
  (∃ st', @validateReads nat demo_kernel "hw.memsize" demo_cold = (Ok (true, None), st')).
Proof.
  split.
  - destruct (proj1 (@validateReads_correct nat demo_kernel demo_spec "demo.rate" demo_cold
      (@cache_ok_empty nat demo_kernel demo_spec) ltac:(by_decide)) [99; 1] 8%nat eq_refl)
      as (e & st' & Hr & _).
    + intros w. exists (le_split 8 (Z.of_nat w)). split; [reflexivity|]. apply length_le_split.
    + exists e, st'. exact Hr.
  - exact (proj1 (proj2 (@validateReads_correct nat demo_kernel demo_spec "hw.memsize" demo_cold
      (@cache_ok_empty nat demo_kernel demo_spec) ltac:(by_decide))) [6; 24]
      (le_split 8 17179869184) eq_refl (λ w, eq_refl)).
Defined.
