(* ===== verification/Flags.v ===== *)
(** * Command-line flags (the standard package flag, as the commands use it)

    [flag.Parse] over the flags a command defines: boolean flags, which take no
    argument but may be given [=value], and flags that take a value, after
    [=] or as the next argument.  Parsing stops at the first argument that is no
    flag, or after two dashes; an error or [-h] ends the program. *)

From Stdlib Require Import ZArith Lia.
From S2P Require Import Prelude.

Local Open Scope Z_scope.

(** [strconv.ParseBool]. *)
Definition ParseBool (s : string) : option bool :=
  if decide (s ∈ ["1"; "t"; "T"; "true"; "TRUE"; "True"]) then Some true
  else if decide (s ∈ ["0"; "f"; "F"; "false"; "FALSE"; "False"]) then Some false
  else None.

(** A flag that stores into [F]. *)
Inductive flag_value (F : Type) :=
  | BoolFlag (set : bool → F → F)
  | ValueFlag (set : string → F → F + goerror).
Arguments BoolFlag {F} set.
Arguments ValueFlag {F} set.

(** [flag.String]: any text is a value. *)
Definition StringFlag {F} (set : string → F → F) : flag_value F := ValueFlag (λ s f, inl (set s f)).

(** What [flag.Parse] ends in: the values and [flag.Args()], the help message
    (exit status 0) or a message on an error (exit status 2). *)
Inductive parsed (F : Type) :=
  | Parsed (f : F) (args : list string)
  | Help
  | Usage (message : goerror).
Arguments Parsed {F} f args.
Arguments Help {F}.
Arguments Usage {F} message.

Definition exit_status {F} (r : parsed F) : Z :=
  match r with Usage _ => 2 | _ => 0 end.

Definition dash : Ascii.ascii := Ascii.ascii_of_nat 45.
Definition equals : Ascii.ascii := Ascii.ascii_of_nat 61.

(** The text before and after the first equals sign. *)
Fixpoint cut_equals (s : string) : string * option string :=
  match s with
  | EmptyString => (EmptyString, None)
  | String c s' =>
      if decide (c = equals) then (EmptyString, Some s')
      else let '(a, b) := cut_equals s' in (String c a, b)
  end.

(** What one argument is. *)
Inductive arg_kind :=
  | NotFlag
  | Terminator
  | BadSyntax
  | Flag (name : string) (value : option string).

Definition flag_name (s : string) : arg_kind :=
  match s with
  | EmptyString => BadSyntax
  | String c s' =>
      if decide (c = dash ∨ c = equals) then BadSyntax
      else let '(n, v) := cut_equals s' in Flag (String c n) v
  end.

Definition classify_arg (s : string) : arg_kind :=
  match s with
  | String c (String c2 s') =>
      if decide (c = dash) then
        if decide (c2 = dash) then
          match s' with EmptyString => Terminator | _ => flag_name s' end
        else flag_name (String c2 s')
      else NotFlag
  | _ => NotFlag
  end.

Section Parse.
Context {F : Type} (formal : list (string * flag_value F)).

Definition find_flag (name : string) : option (flag_value F) :=
  found ← list_find (λ flag : string * flag_value F, flag.1 = name) formal; Some found.2.2.

Definition invalid_value (value name : string) (err : goerror) : goerror :=
  Errorf "invalid value %q for flag -%s: %v" [AStr value; AStr name; AErr err].

(** [Parse], with [parseOne] inlined. *)
Fixpoint flag_Parse (f : F) (args : list string) : parsed F :=
  match args with
  | [] => Parsed f []
  | s :: args' =>
      match classify_arg s with
      | NotFlag => Parsed f args
      | Terminator => Parsed f args'
      | BadSyntax => Usage (Errorf "bad flag syntax: %s" [AStr s])
      | Flag name value =>
          match find_flag name with
          | None =>
              if decide (name = "help" ∨ name = "h") then Help
              else Usage (Errorf "flag provided but not defined: -%s" [AStr name])
          | Some (BoolFlag set) =>
              match value with
              | None => flag_Parse (set true f) args'
              | Some v =>
                  match ParseBool v with
                  | Some b => flag_Parse (set b f) args'
                  | None => Usage (Errorf "invalid boolean value %q for -%s: %v"
                                    [AStr v; AStr name; AErr (Errorf "parse error" [])])
                  end
              end
          | Some (ValueFlag set) =>
              match value, args' with
              | Some v, _ =>
                  match set v f with
                  | inl f' => flag_Parse f' args'
                  | inr err => Usage (invalid_value v name err)
                  end
              | None, v :: args'' =>
                  match set v f with
                  | inl f' => flag_Parse f' args''
                  | inr err => Usage (invalid_value v name err)
                  end
              | None, [] => Usage (Errorf "flag needs an argument: -%s" [AStr name])
              end
          end
      end
  end.
End Parse.

(** ** Arguments that set flags *)

(** [-name=value]. *)
Definition flag_arg (name value : string) : string :=
  String dash (name +:+ String equals value).

(** A name a flag can have: it does not start with a dash and has no equals
    sign. *)
Definition flag_ident (name : string) : Prop :=
  match name with
  | EmptyString => False
  | String c _ => c ≠ dash ∧ Forall (λ c, c ≠ equals) (String.list_ascii_of_string name)
  end.

#[export] Instance flag_ident_dec name : Decision (flag_ident name).
Proof. unfold flag_ident. destruct name; apply _. Defined.

Lemma cut_equals_arg name value :
  Forall (λ c, c ≠ equals) (String.list_ascii_of_string name) →
  cut_equals (name +:+ String equals value) = (name, Some value).
Proof.
  induction name as [|c name IH]; cbn [String.list_ascii_of_string]; [done|].
  intros [Hc Hn]%Forall_cons. change (String c name +:+ ?x) with (String c (name +:+ x)).
  cbn [cut_equals]. rewrite decide_False by done. by rewrite IH.
Qed.

(** It is read as that flag with that value, whatever the value is. *)
Lemma classify_flag_arg name value :
  flag_ident name → classify_arg (flag_arg name value) = Flag name (Some value).
Proof.
  destruct name as [|c name]; [done|]. intros [Hd Hall].
  cbn [String.list_ascii_of_string] in Hall. apply Forall_cons in Hall as [He Hall].
  unfold flag_arg. change (String c name +:+ ?x) with (String c (name +:+ x)).
  cbn [classify_arg]. rewrite decide_True by done. rewrite decide_False by done.
  unfold flag_name. rewrite decide_False by tauto. by rewrite cut_equals_arg.
Qed.

Lemma ParseBool_bool (b : bool) : ParseBool (if b then "true" else "false") = Some b.
Proof. by destruct b. Qed.

Section Steps.
Context {F : Type} (formal : list (string * flag_value F)).

Lemma flag_Parse_bool name set b f args :
  flag_ident name → find_flag formal name = Some (BoolFlag set) →
  flag_Parse formal f (flag_arg name (if b : bool then "true" else "false") :: args)
  = flag_Parse formal (set b f) args.
Proof.
  intros Hn Hf. cbn [flag_Parse]. by rewrite classify_flag_arg, Hf, ParseBool_bool.
Qed.

Lemma flag_Parse_value name set v f f' args :
  flag_ident name → find_flag formal name = Some (ValueFlag set) → set v f = inl f' →
  flag_Parse formal f (flag_arg name v :: args) = flag_Parse formal f' args.
Proof. intros Hn Hf Hs. cbn [flag_Parse]. by rewrite classify_flag_arg, Hf, Hs. Qed.

Lemma flag_Parse_end f args : flag_Parse formal f ("--" :: args) = Parsed f args.
Proof. reflexivity. Qed.
End Steps.
