(* ===== verification/Tabwriter.v ===== *)
(** * Aligned columns (text/tabwriter, as cmd/darwin-name2int/main.go uses it)

    [tabwriter.NewWriter(os.Stdout, 0, 4, 2, ' ', 0)] and its [Flush]: text is
    cut into lines and tab-terminated cells; a column is a run of consecutive
    lines that have a cell to terminate there, and is as wide as its widest
    cell and two more.  The writer's other control characters (vertical tab,
    form feed and its escape byte) are text here: the tool's rows have none. *)

From Stdlib Require Import ZArith Lia.
From Stdlib Require Import Strings.Byte.
From S2P Require Import Prelude Bytes Utf8.

Local Open Scope nat_scope.

Definition tab : string := String (Ascii.ascii_of_nat 9) EmptyString.
Definition nl : string := String (Ascii.ascii_of_nat 10) EmptyString.

Fixpoint split_on (c : Ascii.ascii) (s : string) : list string :=
  match s with
  | EmptyString => [EmptyString]
  | String a s' =>
      if decide (a = c) then EmptyString :: split_on c s'
      else match split_on c s' with
           | p :: ps => String a p :: ps
           | [] => [String a EmptyString]
           end
  end.

(** [minwidth] and [padding]. *)
Definition minwidth : nat := 0.
Definition padding : nat := 2.

(** The cells of a line all but the last of which a tab terminates. *)
Definition has_column (column : nat) (line : list string) : bool :=
  bool_decide (column < length line - 1).

Definition column_width (column : nat) (block : list (list string)) : nat :=
  foldr (λ line w, Nat.max (rune_count (nth column line EmptyString) + padding) w) minwidth block.

(** Consecutive elements with the same answer. *)
Fixpoint runs {A} (P : A → bool) (l : list A) : list (bool * list A) :=
  match l with
  | [] => []
  | x :: l' =>
      match runs P l' with
      | (b, r) :: rs => if decide (b = P x) then (b, x :: r) :: rs else (P x, [x]) :: (b, r) :: rs
      | [] => [(P x, [x])]
      end
  end.

(** [writeLines]: cells are padded up to the widths in force. *)
Fixpoint write_line (widths : list nat) (cells : list string) : string :=
  match cells, widths with
  | [], _ => EmptyString
  | c :: cs, w :: ws => pad_right w c +:+ write_line ws cs
  | c :: cs, [] => c +:+ write_line [] cs
  end.

(** [format]: the lines that end before the next column are written, a block
    that has it is formatted with its width added; [n] bounds the columns. *)
Fixpoint format (n : nat) (widths : list nat) (lines : list (list string)) : list string :=
  match n with
  | O => write_line widths <$> lines
  | S n =>
      concat ((λ '(has, block),
                 if has : bool
                 then format n (widths ++ [column_width (length widths) block]) block
                 else write_line widths <$> block)
              <$> runs (has_column (length widths)) lines)
  end.

(** What [Flush] leaves on the output for the text written. *)
Definition Flush (text : string) : string :=
  let lines := split_on (Ascii.ascii_of_nat 9) <$> split_on (Ascii.ascii_of_nat 10) text in
  String.concat nl (format (list_max (length <$> lines)) [] lines).

(** ** Tables whose rows have the same number of cells *)

Definition column_widths (k : nat) (rows : list (list string)) : list nat :=
  (λ j, column_width j rows) <$> seq 0 k.

Lemma runs_all {A} (P : A → bool) x l b :
  Forall (λ y, P y = b) (x :: l) → runs P (x :: l) = [(b, x :: l)].
Proof.
  revert x. induction l as [|y l IH]; intros x Hall; apply Forall_cons in Hall as [Hx Hall].
  - cbn [runs]. by rewrite Hx.
  - change (runs P (x :: y :: l)) with
      (match runs P (y :: l) with
       | (b, r) :: rs => if decide (b = P x) then (b, x :: r) :: rs else (P x, [x]) :: (b, r) :: rs
       | [] => [(P x, [x])]
       end).
    rewrite IH by done. by rewrite decide_True.
Qed.

(** Two blocks of different kinds do not merge. *)
Lemma runs_app {A} (P : A → bool) x l y m b c :
  b ≠ c → Forall (λ y, P y = b) (x :: l) → Forall (λ y, P y = c) (y :: m) →
  runs P ((x :: l) ++ y :: m) = [(b, x :: l); (c, y :: m)].
Proof.
  intros Hbc Hall Hm. revert x Hall.
  induction l as [|z l IH]; intros x Hall; apply Forall_cons in Hall as [Hx Hall].
  - change (runs P ([x] ++ y :: m)) with
      (match runs P (y :: m) with
       | (b, r) :: rs => if decide (b = P x) then (b, x :: r) :: rs else (P x, [x]) :: (b, r) :: rs
       | [] => [(P x, [x])]
       end).
    rewrite (runs_all _ _ _ c Hm). rewrite decide_False by congruence. by rewrite Hx.
  - change (runs P ((x :: z :: l) ++ y :: m)) with
      (match runs P ((z :: l) ++ y :: m) with
       | (b, r) :: rs => if decide (b = P x) then (b, x :: r) :: rs else (P x, [x]) :: (b, r) :: rs
       | [] => [(P x, [x])]
       end).
    rewrite IH by done. by rewrite decide_True.
Qed.

(** Every remaining column is laid over the whole table. *)
Lemma format_uniform k rows n widths :
  rows ≠ [] → Forall (λ row, length row = S k) rows → length widths ≤ k →
  k - length widths < n →
  format n widths rows
  = write_line (widths ++ ((λ j, column_width j rows) <$> seq (length widths) (k - length widths))) <$> rows.
Proof.
  intros Hne Hall. destruct rows as [|row rows]; [done|]. clear Hne.
  remember (k - length widths) as m eqn:Hm. revert n widths Hm.
  induction m as [|m IH]; intros n widths Hm Hk Hn; (destruct n as [|n]; [lia|]); cbn [format].
  - rewrite (runs_all _ _ _ false).
    + cbn [fmap list_fmap concat seq]. by rewrite !app_nil_r.
    + eapply Forall_impl; [exact Hall|]. intros r Hr; cbv beta in Hr; apply bool_decide_eq_false; lia.
  - rewrite (runs_all _ _ _ true).
    + change ((λ '(has, block), _) <$> [(true, row :: rows)]) with
        [format n (widths ++ [column_width (length widths) (row :: rows)]) (row :: rows)].
      cbn [concat]. rewrite app_nil_r.
      rewrite IH by (rewrite ?length_app; simpl; lia).
      cbn [seq]. rewrite fmap_cons, <- app_assoc, length_app, Nat.add_1_r. done.
    + eapply Forall_impl; [exact Hall|]. intros r Hr; cbv beta in Hr; apply bool_decide_eq_true; lia.
Qed.

(** ** The text and its cells *)

(** No tab and no line break inside a cell. *)
Definition plain_char (a : Ascii.ascii) : Prop :=
  a ≠ Ascii.ascii_of_nat 9 ∧ a ≠ Ascii.ascii_of_nat 10.
Definition cell_text (s : string) : Prop := Forall plain_char (String.list_ascii_of_string s).

Definition free_of (c : Ascii.ascii) (s : string) : Prop :=
  Forall (λ a, a ≠ c) (String.list_ascii_of_string s).

Lemma free_of_app c s t : free_of c (s +:+ t) ↔ free_of c s ∧ free_of c t.
Proof.
  unfold free_of. induction s as [|a s IH]; [simpl; naive_solver|].
  change (String a s +:+ t) with (String a (s +:+ t)).
  cbn [String.list_ascii_of_string]. rewrite !Forall_cons. tauto.
Qed.

(** A separator splits there; text without it is one part. *)
Lemma split_on_free c s : free_of c s → split_on c s = [s].
Proof.
  unfold free_of. induction s as [|a s IH]; [done|]. cbn [String.list_ascii_of_string].
  intros [Ha Hs]%Forall_cons. cbn [split_on]. by rewrite decide_False, IH.
Qed.

Lemma split_on_sep c s t :
  free_of c s → split_on c (s +:+ String c EmptyString +:+ t) = s :: split_on c t.
Proof.
  unfold free_of. induction s as [|a s IH].
  { intros _. cbn [split_on String.append]. simpl. by rewrite decide_True. }
  cbn [String.list_ascii_of_string]. intros [Ha Hs]%Forall_cons.
  change (String a s +:+ ?x) with (String a (s +:+ x)). cbn [split_on].
  rewrite decide_False by done. by rewrite IH.
Qed.

(** The text of a list of lines, each ended by a line break. *)
Definition unlines (l : list string) : string := foldr (λ s t, s +:+ nl +:+ t) EmptyString l.

Lemma split_unlines l :
  Forall (free_of (Ascii.ascii_of_nat 10)) l →
  split_on (Ascii.ascii_of_nat 10) (unlines l) = l ++ [EmptyString].
Proof.
  induction 1 as [|s l Hs _ IH]; [done|]. unfold unlines. cbn [foldr]. fold (unlines l).
  unfold nl. rewrite split_on_sep, IH by done. done.
Qed.

Lemma split_concat c cells :
  cells ≠ [] → Forall (free_of c) cells →
  split_on c (String.concat (String c EmptyString) cells) = cells.
Proof.
  intros Hne Hall. destruct cells as [|s cells]; [done|]. clear Hne. revert s Hall.
  induction cells as [|t cells IH]; intros s Hall; apply Forall_cons in Hall as [Hs Hall].
  - by apply split_on_free.
  - change (String.concat ?sep (s :: t :: cells)) with (s +:+ sep +:+ String.concat sep (t :: cells)).
    rewrite split_on_sep by done. by rewrite IH.
Qed.

Lemma concat_nl_unlines l : String.concat nl (l ++ [EmptyString]) = unlines l.
Proof.
  induction l as [|s l IH]; [done|]. unfold unlines. cbn [foldr app]. fold (unlines l).
  rewrite <- IH. destruct l; reflexivity.
Qed.

(** ** A table is aligned *)

(** The cells of a table's row: no tab and no line break. *)
Definition plain_row (row : list string) : Prop := Forall cell_text row.

Lemma plain_free c s : cell_text s → c = Ascii.ascii_of_nat 9 ∨ c = Ascii.ascii_of_nat 10 → free_of c s.
Proof.
  unfold cell_text, free_of. intros Hs Hc. eapply Forall_impl; [exact Hs|].
  intros a [? ?]. by destruct Hc as [-> | ->].
Qed.

Lemma free_of_concat c sep cells :
  free_of c sep → Forall (free_of c) cells → free_of c (String.concat sep cells).
Proof.
  intros Hsep. induction 1 as [|s cells Hs Hall IH]; [constructor|].
  destruct cells as [|t cells]; [done|].
  change (String.concat sep (s :: t :: cells)) with (s +:+ sep +:+ String.concat sep (t :: cells)).
  by rewrite !free_of_app.
Qed.

Lemma split_row row :
  row ≠ [] → plain_row row → split_on (Ascii.ascii_of_nat 9) (String.concat tab row) = row.
Proof.
  intros Hne Hp. apply split_concat; [done|]. eapply Forall_impl; [exact Hp|].
  intros s Hs. apply plain_free; auto.
Qed.

Lemma list_max_ge l x : x ∈ l → x ≤ list_max l.
Proof.
  intros Hx. pose proof (proj1 (list_max_le l (list_max l)) (le_n _)) as Hall.
  rewrite List.Forall_forall in Hall. apply Hall. by apply list_elem_of_In.
Qed.

(** Every row of a table of at least two columns is written with the same
    column widths. *)
Lemma Flush_table k rows :
  0 < k → rows ≠ [] → Forall (λ row, length row = S k) rows → Forall plain_row rows →
  Flush (unlines (String.concat tab <$> rows)) = unlines (write_line (column_widths k rows) <$> rows).
Proof.
  intros Hk Hne Hlen Hplain. unfold Flush.
  rewrite split_unlines.
  2: { apply Forall_fmap. eapply Forall_impl; [exact Hplain|]. intros row Hrow.
       apply free_of_concat; [repeat constructor; done|]. eapply Forall_impl; [exact Hrow|].
       intros s Hs. apply plain_free; auto. }
  rewrite fmap_app, <- list_fmap_compose.
  assert (Hrows : (split_on (Ascii.ascii_of_nat 9) ∘ String.concat tab <$> rows) = rows).
  { transitivity (id <$> rows); [|apply list_fmap_id]. apply list_fmap_ext. intros i row Hi.
    apply split_row; [|by eapply Forall_lookup_1].
    unfold id. intros Hr. subst row. by pose proof (Forall_lookup_1 _ _ _ _ Hlen Hi). }
  rewrite Hrows. clear Hrows. change (split_on _ <$> [EmptyString]) with [[EmptyString]].
  destruct rows as [|row rows]; [done|]. clear Hne.
  set (n := list_max _). assert (Hn : S k ≤ n).
  { apply list_max_ge. apply list_elem_of_fmap. exists row.
    apply Forall_cons in Hlen as [Hr _]. split; [done|]. left. }
  clearbody n. destruct n as [|n]; [lia|]. cbn [format length].
  change ((row :: rows) ++ [[EmptyString]]) with ((row :: rows) ++ [EmptyString] :: []).
  rewrite (runs_app _ _ _ _ _ true false); [|done| |by repeat constructor].
  2: { eapply Forall_impl; [exact Hlen|]. intros r Hr; cbv beta in Hr.
       apply bool_decide_eq_true. lia. }
  rewrite fmap_cons, fmap_cons. cbn [fmap list_fmap concat app].
  rewrite (format_uniform k) by (done || simpl; lia).
  change (write_line [] [EmptyString]) with EmptyString. rewrite concat_nl_unlines.
  replace ([column_width 0 (row :: rows)] ++ _) with (column_widths k (row :: rows)); [done|].
  unfold column_widths. cbn [length]. destruct k as [|k]; [lia|]. by rewrite Nat.sub_1_r.
Qed.

Lemma column_width_ge j rows row :
  row ∈ rows → rune_count (nth j row EmptyString) + padding ≤ column_width j rows.
Proof.
  unfold column_width. induction 1 as [row rows|row r rows _ IH]; cbn [foldr]; lia.
Qed.

(** Where the [j]-th cell of a written line starts. *)
Lemma write_line_offset widths cells j cell :
  length cells ≤ S (length widths) →
  (∀ i w, widths !! i = Some w → rune_count (nth i cells EmptyString) < w) →
  cells !! j = Some cell →
  ∃ pre post, write_line widths cells = pre +:+ cell +:+ post ∧
    rune_count pre = list_sum (take j widths).
Proof.
  revert cells j. induction widths as [|w ws IH]; intros [|c cs] j Hl Hw Hj; [done| |done|].
  - destruct cs; [|simpl in Hl; lia]. destruct j as [|j]; [|done]. simplify_eq/=.
    exists EmptyString, EmptyString. by split.
  - destruct j as [|j]; cbn [lookup list_lookup] in Hj.
    { simplify_eq. cbn [write_line]. unfold pad_right.
      exists EmptyString. rewrite <- append_assoc. eexists. by split. }
    destruct (IH cs j) as (pre & post & Heq & Hn); [simpl in Hl; lia| |done|].
    { intros i w' Hi. exact (Hw (S i) w' Hi). }
    specialize (Hw 0 w eq_refl). cbn [nth] in Hw. cbn [write_line take]. rewrite Heq.
    exists (pad_right w c +:+ pre), post. split; [by rewrite append_assoc|].
    unfold pad_right. rewrite <- append_assoc, rune_count_spaces, Hn by lia.
    unfold list_sum. cbn [foldr]. lia.
Qed.
