(* ===== verification/Report.v ===== *)
(** * The reports of darwin-name2int (cmd/darwin-name2int/main.go: outputTable,
    outputCSV, printSummary, analyzeFlattenability)

    A report is the list of lines written, the table's as they are given to the
    writer of [Tabwriter], which aligns them.  Maps are iterated in the order the
    language leaves open, except where the code sorts the keys. *)

From Stdlib Require Import ZArith Lia.
From stdpp Require Import sorting.
From S2P Require Import Prelude Kernel TableKernel Sysctl MibCache Registry KernelRegistry.
From S2P Require Import Name2Int Tabwriter.

Local Open Scope Z_scope.

(** ** Formatting *)

(** The text of an error: the tool only tests whether it is empty and prints
    it, so the text is a parameter. *)
Class ErrorText := { error_text : goerror → string; error_text_nonempty : ∀ e, error_text e ≠ EmptyString }.

Definition text_of `{ErrorText} (e : option goerror) : string :=
  match e with Some e => error_text e | None => EmptyString end.

Definition fmt_bool (b : bool) : string := if b then "true" else "false".

Definition hex_digit (z : Z) : string :=
  if decide (z = 10) then "a" else if decide (z = 11) then "b" else if decide (z = 12) then "c"
  else if decide (z = 13) then "d" else if decide (z = 14) then "e"
  else if decide (z = 15) then "f" else fmt_d z.

(** [%0<n>x]. *)
Fixpoint fmt_hex (n : nat) (z : Z) : string :=
  match n with
  | O => EmptyString
  | S n' => fmt_hex n' (z / 16) +:+ hex_digit (z mod 16)
  end.

(** [range] over a map with integer keys. *)
Class MapOrderZ := {
  range_keysZ : ∀ {A}, gmap Z A → list Z;
  range_keysZ_perm : ∀ {A} (m : gmap Z A), range_keysZ m ≡ₚ (map_to_list m).*1;
}.

(** [strings.Join(parts, ", ")] written by a loop that prints the separator
    before all but the first. *)
Definition comma_separated (parts : list string) : string := String.concat ", " parts.

Section Report.
Context `{ErrorText} `{MapOrder} `{MapOrderZ}.

Definition is_resolved (r : MetricMIB) : Prop := text_of (mm_ResolveErr r) = EmptyString.
#[global] Instance is_resolved_dec r : Decision (is_resolved r).
Proof. unfold is_resolved. apply _. Defined.

(** ** Tables *)

Definition outputTable (results : list MetricMIB) (showValid : bool) : list string :=
  (if showValid then
     [String.concat tab ["NAME"; "MIB"; "DEPTH"; "TOP"; "XNU"; "VALID"];
      String.concat tab ["----"; "---"; "-----"; "---"; "---"; "-----"]]
   else
     [String.concat tab ["NAME"; "MIB"; "DEPTH"; "TOP"; "XNU"];
      String.concat tab ["----"; "---"; "-----"; "---"; "---"]]) ++
  ((λ r,
    let mibStr := if decide (is_resolved r) then formatMIB (mm_MIB r)
                  else "ERROR: " +:+ text_of (mm_ResolveErr r) in
    let xnu := if decide (mm_XNUMatch r = EmptyString) then "-" else mm_XNUMatch r in
    let columns := [mm_Name r; mibStr; fmt_d (mm_MIBDepth r); mm_TopLevel r; xnu] in
    if showValid then
      let validStr :=
        if decide (is_resolved r) then
          if mm_Validated r then "OK"
          else if decide (text_of (mm_ValidErr r) ≠ EmptyString) then text_of (mm_ValidErr r)
          else "-"
        else "-" in
      String.concat tab (columns ++ [validStr])
    else String.concat tab columns) <$> results).

Definition outputCSV (results : list MetricMIB) : list string :=
  "name,mib,depth,top_level,xnu_match,validated,error" ::
  ((λ r,
    let errStr := if decide (text_of (mm_ResolveErr r) = EmptyString)
                  then text_of (mm_ValidErr r) else text_of (mm_ResolveErr r) in
    String.concat "," [mm_Name r; formatMIB (mm_MIB r); fmt_d (mm_MIBDepth r); mm_TopLevel r;
                       mm_XNUMatch r; fmt_bool (mm_Validated r); errStr]) <$> results).

(** ** Collisions and ranges *)

(** [m[k] = append(m[k], v)]. *)
Definition append_at `{Countable K} {A} (k : K) (v : A) (m : gmap K (list A)) : gmap K (list A) :=
  <[k := default [] (m !! k) ++ [v]]> m.

Definition keyMap (results : list MetricMIB) : gmap string (list string) :=
  foldl (λ m r, if decide (is_resolved r) then append_at (formatMIB (mm_MIB r)) (mm_Name r) m else m)
    ∅ results.

(** The flat map and the count of MIBs that do not fit. *)
Definition flatMap (results : list MetricMIB) : gmap Z (list string) * Z :=
  foldl (λ '(m, unflattenable) r,
           if decide (¬ is_resolved r ∨ length (mm_MIB r) = 0%nat) then (m, unflattenable)
           else let '(flat, ok) := flattenMIB (mm_MIB r) in
                if ok : bool then (append_at flat (mm_Name r) m, unflattenable)
                else (m, unflattenable + 1))
    (∅, 0) results.

Record rangeInfo := mkRange { ri_min : Z; ri_max : Z; ri_count : Z }.

Definition widen (ri : rangeInfo) (v : Z) : rangeInfo :=
  mkRange (if decide (v < ri_min ri) then v else ri_min ri)
          (if decide (v > ri_max ri) then v else ri_max ri) (ri_count ri + 1).

Definition topRanges (results : list MetricMIB) : gmap Z rangeInfo :=
  foldl (λ m r,
           if decide (is_resolved r) then
             match mm_MIB r with
             | top :: v :: _ =>
                 let ri := match m !! top with Some ri => ri | None => mkRange v v 0 end in
                 <[top := widen ri v]> m
             | _ => m
             end
           else m)
    ∅ results.

Definition range_line (label : string) (topID : Z) (ri : rangeInfo) : string :=
  "  " +:+ label +:+ "(MIB[0]=" +:+ fmt_d topID +:+ "): MIB[1] range " +:+ fmt_d (ri_min ri)
    +:+ ".." +:+ fmt_d (ri_max ri) +:+ " (" +:+ fmt_d (ri_count ri) +:+ " metrics)".

Definition analyzeFlattenability (results : list MetricMIB) : list string :=
  let km := keyMap results in
  let colliding := filter (λ key, (1 < length (default [] (km !! key)))%nat) (range_keys km) in
  let '(fm, unflattenable) := flatMap results in
  let flatColliding := filter (λ flat, (1 < length (default [] (fm !! flat)))%nat) (range_keysZ fm) in
  let tr := topRanges results in
  ((λ key, "  COLLISION: MIB " +:+ key +:+ " -> " +:+ fmt_v_names (default [] (km !! key))) <$> colliding)
  ++ (if decide (length colliding = 0%nat)
      then ["  No MIB collisions — all names resolve to unique MIB arrays ✓"] else [])
  ++ ((λ flat, "  FLAT COLLISION: 0x" +:+ fmt_hex 16 flat +:+ " -> "
                 +:+ fmt_v_names (default [] (fm !! flat))) <$> flatColliding)
  ++ ["  Flat uint64: " +:+ fmt_d (Z.of_nat (size fm)) +:+ " flattenable, " +:+ fmt_d unflattenable
        +:+ " unflattenable, " +:+ fmt_d (Z.of_nat (length flatColliding)) +:+ " collisions";
      "  Sequential enum: 0.." +:+ fmt_d (Z.of_nat (length results) - 1)
        +:+ " — always collision-free, no MIB relationship";
      EmptyString; "=== MIB Value Ranges ==="]
  ++ omap (λ topName, topID ← knownTopLevel !! topName; ri ← tr !! topID;
             Some (range_line (topName +:+ " ") topID ri))
       ["kern"; "vm"; "net"; "hw"; "debug"; "machdep"]
  ++ omap (λ topID,
             if decide (Exists (λ name, knownTopLevel !! name = Some topID) (range_keys knownTopLevel))
             then None
             else ri ← tr !! topID; Some (range_line "unknown" topID ri))
       (range_keysZ tr).

(** ** The summary *)

Definition count_if (P : MetricMIB → Prop) `{∀ r, Decision (P r)} (results : list MetricMIB) : Z :=
  foldl (λ n r, if decide (P r) then n + 1 else n) 0 results.

(** [m[k]++] over the resolved rows. *)
Definition tally `{Countable K} (key : MetricMIB → K) (results : list MetricMIB) : gmap K Z :=
  foldl (λ m r, if decide (is_resolved r) then <[key r := default 0 (m !! key r) + 1]> m else m)
    ∅ results.

Definition xnu_mismatch (r : MetricMIB) : Prop := is_mismatch (mm_XNUMatch r) = true.
Definition xnu_matched (r : MetricMIB) : Prop :=
  is_mismatch (mm_XNUMatch r) = false ∧ mm_XNUMatch r ≠ EmptyString.
#[global] Instance xnu_mismatch_dec r : Decision (xnu_mismatch r).
Proof. unfold xnu_mismatch. apply _. Defined.
#[global] Instance xnu_matched_dec r : Decision (xnu_matched r).
Proof. unfold xnu_matched. apply _. Defined.

Definition printSummary (results : list MetricMIB) (showValid : bool) : list string :=
  let resolved := count_if is_resolved results in
  let failed := count_if (λ r, ¬ is_resolved r) results in
  let depthCounts := tally mm_MIBDepth results in
  let depths := merge_sort (≤) (range_keysZ depthCounts) in
  let topCounts := tally mm_TopLevel results in
  let tops := merge_sort String.le (range_keys topCounts) in
  let xnuMismatch := count_if xnu_mismatch results in
  let xnuMatched := count_if xnu_matched results in
  [EmptyString;
   "Resolved: " +:+ fmt_d resolved +:+ "/" +:+ fmt_d (Z.of_nat (length results))
     +:+ (if decide (failed > 0) then " (" +:+ fmt_d failed +:+ " failed)" else EmptyString);
   "MIB depths: " +:+ comma_separated
     ((λ d, "depth=" +:+ fmt_d d +:+ ": " +:+ fmt_d (default 0 (depthCounts !! d))) <$> depths);
   "Top-level: " +:+ comma_separated
     ((λ t, t +:+ "=" +:+ fmt_d (default 0 (topCounts !! t))) <$> tops);
   "XNU header matches: " +:+ fmt_d xnuMatched +:+ " matched, " +:+ fmt_d xnuMismatch
     +:+ " mismatched, " +:+ fmt_d (resolved - xnuMatched - xnuMismatch) +:+ " no constant"]
  ++ (if showValid then
        ["Validation: " +:+ fmt_d (count_if (λ r, is_resolved r ∧ mm_Validated r = true) results)
           +:+ " OK, "
           +:+ fmt_d (count_if (λ r, is_resolved r ∧ mm_Validated r = false ∧
                                     text_of (mm_ValidErr r) ≠ EmptyString) results)
           +:+ " failed"]
      else [])
  ++ [EmptyString; "=== Flat ID Analysis ==="]
  ++ analyzeFlattenability results.
End Report.

(** ** Formatting a MIB loses nothing *)

Definition chars (s : string) : list Ascii.ascii := String.list_ascii_of_string s.

Lemma chars_app s t : chars (s +:+ t) = chars s ++ chars t.
Proof. induction s as [|c s IH]; [done|]. cbn [chars]. simpl. f_equal. exact IH. Qed.

Lemma chars_inj s t : chars s = chars t → s = t.
Proof.
  intros H. rewrite <- (String.string_of_list_ascii_of_string s),
    <- (String.string_of_list_ascii_of_string t). by f_equal.
Qed.

Definition comma : Ascii.ascii := Ascii.ascii_of_nat 44.

Lemma pretty_N_go_comma x s : comma ∉ chars s → comma ∉ chars (pretty_N_go x s).
Proof.
  revert s. induction (N.lt_wf_0 x) as [x _ IH]; intros s Hs.
  destruct (decide (x = 0%N)) as [->|Hx]; [by rewrite pretty_N_go_0|].
  rewrite pretty_N_go_step by lia. apply IH; [apply N.div_lt; lia|].
  unfold chars in *. cbn [String.list_ascii_of_string]. apply not_elem_of_cons. split; [|done].
  unfold pretty_N_char, comma. intros Hc. by repeat case_match.
Qed.

Lemma fmt_d_comma z : comma ∉ chars (fmt_d z).
Proof.
  assert (Hn : ∀ n : N, comma ∉ chars (pretty n)).
  { intros n. unfold pretty, pretty_N. destruct (decide _); [by_decide|].
    apply pretty_N_go_comma. by_decide. }
  unfold fmt_d, pretty, pretty_Z. destruct z as [|p|p]; [by_decide|apply Hn|].
  rewrite chars_app. apply not_elem_of_app. split; [by_decide|apply Hn].
Qed.

(** Two comma-free words followed by a comma are equal when the lists are. *)
Lemma split_at_comma a b k l :
  comma ∉ a → comma ∉ b → a ++ comma :: k = b ++ comma :: l → a = b ∧ k = l.
Proof.
  revert b. induction a as [|x a IH]; intros [|y b] Ha Hb Heq; simplify_eq/=.
  - done.
  - exfalso. apply Hb. left.
  - exfalso. apply Ha. left.
  - apply not_elem_of_cons in Ha as [_ Ha]. apply not_elem_of_cons in Hb as [_ Hb].
    destruct (IH b Ha Hb) as [-> ->]; done.
Qed.

Lemma no_comma_split a b l : comma ∉ a → a ≠ b ++ comma :: l.
Proof. intros Ha ->. apply Ha. set_solver. Qed.

Lemma concat_cons2 a b l :
  chars (String.concat "," (a :: b :: l)) = chars a ++ comma :: chars (String.concat "," (b :: l)).
Proof. cbn [String.concat]. by rewrite !chars_app. Qed.

Lemma join_inj k l :
  k ≠ [] → l ≠ [] → Forall (λ s, comma ∉ chars s) k → Forall (λ s, comma ∉ chars s) l →
  String.concat "," k = String.concat "," l → k = l.
Proof.
  intros Hk Hl Hck Hcl Heq. apply (f_equal chars) in Heq. revert l Hk Hl Hcl Heq.
  induction Hck as [|a k Ha Hck IH]; intros l Hk Hl Hcl Heq; [done|].
  destruct Hcl as [|b l Hb Hcl]; [done|]. clear Hk Hl.
  destruct k as [|a' k], l as [|b' l].
  - cbn [String.concat] in Heq. by rewrite (chars_inj _ _ Heq).
  - rewrite concat_cons2 in Heq. cbn [String.concat] in Heq. by destruct (no_comma_split _ _ _ Ha Heq).
  - rewrite concat_cons2 in Heq. cbn [String.concat] in Heq. symmetry in Heq.
    by destruct (no_comma_split _ _ _ Hb Heq).
  - rewrite !concat_cons2 in Heq. apply split_at_comma in Heq as [Hab Heq]; [|done..].
    rewrite (chars_inj _ _ Hab). f_equal. by apply IH.
Qed.

Lemma formatMIB_inj a b : formatMIB a = formatMIB b → a = b.
Proof.
  unfold formatMIB. destruct a as [|x a], b as [|y b]; simpl length;
    rewrite ?(decide_True (P := 0%nat = 0%nat)), ?(decide_False (P := S _ = 0%nat)) by done;
    try done.
  intros Heq.
  assert (Hj : String.concat "," (fmt_d <$> x :: a) = String.concat "," (fmt_d <$> y :: b)).
  { apply chars_inj. apply (f_equal chars) in Heq. rewrite !chars_app in Heq.
    apply app_inj_1 in Heq as [_ Heq]; [|done]. by apply app_inj_2 in Heq as [Heq _]. }
  apply join_inj in Hj; [|done|done|apply Forall_fmap, Forall_true; intros; apply fmt_d_comma..].
  apply (list_fmap_eq_inj fmt_d); [intros ??; apply fmt_d_inj|done].
Qed.

(** ** Tallies and collisions *)

Lemma count_if_acc (P : MetricMIB → Prop) `{∀ r, Decision (P r)} results n :
  foldl (λ n r, if decide (P r) then n + 1 else n) n results
  = n + Z.of_nat (length (filter P results)).
Proof.
  revert n. induction results as [|r results IH]; intros n; [simpl; lia|].
  cbn [foldl]. rewrite IH, filter_cons. destruct (decide (P r)); simpl; lia.
Qed.

Lemma count_if_filter (P : MetricMIB → Prop) `{∀ r, Decision (P r)} results :
  count_if P results = Z.of_nat (length (filter P results)).
Proof. unfold count_if. by rewrite count_if_acc. Qed.

Section Tally.
Context `{ErrorText}.

Lemma tally_acc `{Countable K} (key : MetricMIB → K) results (m : gmap K Z) k :
  default 0 (foldl (λ m r, if decide (is_resolved r)
                           then <[key r := default 0 (m !! key r) + 1]> m else m) m results !! k)
  = default 0 (m !! k)
    + Z.of_nat (length (filter (λ r, is_resolved r ∧ key r = k) results)).
Proof.
  revert m. induction results as [|r results IH]; intros m; [simpl; lia|].
  cbn [foldl]. rewrite IH, filter_cons. clear IH.
  destruct (decide (is_resolved r)) as [Hr|Hr].
  - rewrite lookup_insert. destruct (decide (key r = k)) as [->|Hk].
    + rewrite decide_True by done. simpl. lia.
    + rewrite decide_False by tauto. done.
  - rewrite decide_False by tauto. done.
Qed.

(** Each key's count is the number of resolved rows with that key. *)
Lemma tally_spec `{Countable K} (key : MetricMIB → K) results k :
  default 0 (tally key results !! k)
  = Z.of_nat (length (filter (λ r, is_resolved r ∧ key r = k) results)).
Proof. unfold tally. rewrite tally_acc, lookup_empty. simpl. lia. Qed.

Lemma keyMap_acc results (m : gmap string (list string)) key :
  default [] (foldl (λ m r, if decide (is_resolved r)
                            then append_at (formatMIB (mm_MIB r)) (mm_Name r) m else m)
                m results !! key)
  = default [] (m !! key)
    ++ (mm_Name <$> filter (λ r, is_resolved r ∧ formatMIB (mm_MIB r) = key) results).
Proof.
  revert m. induction results as [|r results IH]; intros m; [simpl; by rewrite app_nil_r|].
  cbn [foldl]. rewrite IH, filter_cons. clear IH. unfold append_at.
  destruct (decide (is_resolved r)) as [Hr|Hr].
  - rewrite lookup_insert. destruct (decide (formatMIB (mm_MIB r) = key)) as [->|Hk].
    + rewrite (decide_True (P := _ ∧ _)) by done. simpl. by rewrite <- app_assoc.
    + rewrite (decide_False (P := _ ∧ _)) by tauto. done.
  - rewrite (decide_False (P := _ ∧ _)) by tauto. done.
Qed.
End Tally.

(** A list has no duplicate images exactly when no image has two preimages. *)
Lemma NoDup_fmap_filter {A B} `{EqDecision B} (f : A → B) (l : list A) :
  NoDup (f <$> l) ↔ ∀ y, (length (filter (λ x, f x = y) l) ≤ 1)%nat.
Proof.
  induction l as [|x l IH]; [split; [intros _ y; simpl; lia|constructor]|].
  rewrite fmap_cons, NoDup_cons, IH. split.
  - intros [Hx Hl] y. rewrite filter_cons. destruct (decide (f x = y)) as [<-|]; [|apply Hl].
    assert (Hnil : filter (λ x0, f x0 = f x) l = []).
    { destruct (filter _ l) as [|z k] eqn:E; [done|]. exfalso. apply Hx.
      assert (Hz : z ∈ filter (λ x0, f x0 = f x) l) by (rewrite E; left).
      apply list_elem_of_filter in Hz as [Hz Hin]. apply list_elem_of_fmap. by exists z. }
    rewrite Hnil. simpl. lia.
  - intros Hall. split.
    + intros (z & Hz & Hin)%list_elem_of_fmap. specialize (Hall (f x)).
      rewrite filter_cons, decide_True in Hall by done. simpl in Hall.
      assert (Hzin : z ∈ filter (λ x0, f x0 = f x) l) by (by apply list_elem_of_filter).
      destruct (filter _ l); [by apply elem_of_nil in Hzin|simpl in Hall; lia].
    + intros y. specialize (Hall y). rewrite filter_cons in Hall.
      destruct (decide _); simpl in Hall; lia.
Qed.

(** ** Theorems *)

Definition sum_counts {K} (count : K → Z) (ks : list K) : Z := foldr Z.add 0 (count <$> ks).

(** Counting by key over every key counts everything once. *)
Lemma sum_by_key {K} `{EqDecision K} (P : MetricMIB → Prop) `{∀ r, Decision (P r)}
    (key : MetricMIB → K) (ks : list K) results :
  NoDup ks → (∀ r, r ∈ results → P r → key r ∈ ks) →
  sum_counts (λ k, Z.of_nat (length (filter (λ r, P r ∧ key r = k) results))) ks
  = Z.of_nat (length (filter P results)).
Proof.
  intros Hnd. induction results as [|r results IH]; intros Hin.
  { unfold sum_counts. induction ks as [|k ks IH]; [done|].
    rewrite fmap_cons. cbn [foldr]. apply NoDup_cons in Hnd as [_ Hnd]. rewrite IH; [done|done|].
    intros r Hr. by apply elem_of_nil in Hr. }
  rewrite filter_cons. specialize (IH (λ r' Hr', Hin r' (list_elem_of_further _ _ _ Hr'))).
  assert (Hstep : ∀ ks', NoDup ks' →
    sum_counts (λ k, Z.of_nat (length (filter (λ r, P r ∧ key r = k) (r :: results)))) ks'
    = sum_counts (λ k, Z.of_nat (length (filter (λ r, P r ∧ key r = k) results))) ks'
      + (if decide (P r ∧ key r ∈ ks') then 1 else 0)).
  { clear. intros ks'. unfold sum_counts. induction ks' as [|k ks' IH]; intros Hnd.
    { simpl. rewrite decide_False; [done|]. by intros [_ ?%elem_of_nil]. }
    apply NoDup_cons in Hnd as [Hk Hnd]. rewrite !fmap_cons. cbn [foldr]. rewrite (IH Hnd).
    rewrite filter_cons. destruct (decide (P r)) as [HP|HP].
    - destruct (decide (key r = k)) as [<-|Hne].
      + rewrite (decide_True (P := _ ∧ _)) by done.
        rewrite (decide_False (P := P r ∧ key r ∈ ks')) by tauto.
        rewrite decide_True by (split; [done|left]). simpl. lia.
      + rewrite (decide_False (P := P r ∧ key r = k)) by tauto.
        destruct (decide (P r ∧ key r ∈ ks')) as [Hd|Hd].
        * rewrite decide_True by (split; [done|right; tauto]). lia.
        * rewrite decide_False; [lia|]. intros [_ [?|?]%elem_of_cons]; tauto.
    - rewrite !decide_False by tauto. lia. }
  rewrite (Hstep ks Hnd), IH. destruct (decide (P r)) as [HP|HP].
  - rewrite decide_True by (split; [done|by apply Hin; [left|]]). simpl. lia.
  - rewrite decide_False by tauto. lia.
Qed.

Section Theorems.
Context `{ErrorText} `{MapOrder} `{MapOrderZ}.

Lemma tally_key_in `{Countable K} (key : MetricMIB → K) results r :
  r ∈ results → is_resolved r → is_Some (tally key results !! key r).
Proof.
  intros Hin Hr. pose proof (tally_spec key results (key r)) as Ht.
  destruct (tally key results !! key r) as [n|] eqn:E; [by eexists|]. exfalso. simpl in Ht.
  assert (Hf : r ∈ filter (λ r0, is_resolved r0 ∧ key r0 = key r) results)
    by (by apply list_elem_of_filter).
  destruct (filter _ results); [by apply elem_of_nil in Hf|simpl in Ht; lia].
Qed.

(** The summary adds up, whatever the rows: resolved and failed rows make up
    the total, the counts per depth and per top-level name each add up to the
    resolved rows, and each is the number of resolved rows of that depth or
    name. *)
Theorem summary_adds_up results :
  count_if is_resolved results + count_if (λ r, ¬ is_resolved r) results
    = Z.of_nat (length results) ∧
  sum_counts (λ d, default 0 (tally mm_MIBDepth results !! d))
    (merge_sort (≤) (range_keysZ (tally mm_MIBDepth results))) = count_if is_resolved results ∧
  sum_counts (λ t, default 0 (tally mm_TopLevel results !! t))
    (merge_sort String.le (range_keys (tally mm_TopLevel results))) = count_if is_resolved results ∧
  (∀ d, default 0 (tally mm_MIBDepth results !! d)
    = Z.of_nat (length (filter (λ r, is_resolved r ∧ mm_MIBDepth r = d) results))).
Proof.
  rewrite !count_if_filter. split_and!.
  - clear. induction results as [|r results IH]; [done|]. rewrite !filter_cons.
    destruct (decide (is_resolved r)) as [Hr|Hr].
    + rewrite decide_False by (intros Hn; by apply Hn). simpl. lia.
    + rewrite decide_True by done. simpl. lia.
  - assert (Hperm : merge_sort (≤) (range_keysZ (tally mm_MIBDepth results))
      ≡ₚ (map_to_list (tally mm_MIBDepth results)).*1)
      by (rewrite merge_sort_Permutation; apply range_keysZ_perm).
    rewrite <- (sum_by_key is_resolved mm_MIBDepth
      (merge_sort (≤) (range_keysZ (tally mm_MIBDepth results)))).
    + unfold sum_counts. f_equal. apply list_fmap_ext. intros i d _. apply tally_spec.
    + rewrite Hperm. apply NoDup_fst_map_to_list.
    + intros r Hin Hr. rewrite Hperm. apply list_elem_of_fmap.
      destruct (tally_key_in mm_MIBDepth results r Hin Hr) as [n Hn].
      exists (mm_MIBDepth r, n). split; [done|]. by apply elem_of_map_to_list.
  - assert (Hperm : merge_sort String.le (range_keys (tally mm_TopLevel results))
      ≡ₚ (map_to_list (tally mm_TopLevel results)).*1)
      by (rewrite merge_sort_Permutation; apply range_keys_perm).
    rewrite <- (sum_by_key is_resolved mm_TopLevel
      (merge_sort String.le (range_keys (tally mm_TopLevel results)))).
    + unfold sum_counts. f_equal. apply list_fmap_ext. intros i d _. apply tally_spec.
    + rewrite Hperm. apply NoDup_fst_map_to_list.
    + intros r Hin Hr. rewrite Hperm. apply list_elem_of_fmap.
      destruct (tally_key_in mm_TopLevel results r Hin Hr) as [n Hn].
      exists (mm_TopLevel r, n). split; [done|]. by apply elem_of_map_to_list.
  - intros d. apply tally_spec.
Qed.

(** The names under one key of [keyMap]. *)
Lemma keyMap_spec results key :
  default [] (keyMap results !! key)
  = mm_Name <$> filter (λ r, is_resolved r ∧ formatMIB (mm_MIB r) = key) results.
Proof. unfold keyMap. by rewrite keyMap_acc, lookup_empty. Qed.

(** Distinct MIBs have distinct keys. *)
Lemma distinct_mibs_iff results :
  NoDup (mm_MIB <$> filter is_resolved results)
  ↔ ∀ key, (length (default [] (keyMap results !! key)) ≤ 1)%nat.
Proof.
  transitivity (NoDup (formatMIB <$> (mm_MIB <$> filter is_resolved results))).
  { split; [apply NoDup_fmap_2; intros ??; apply formatMIB_inj|apply NoDup_fmap_1]. }
  rewrite <- list_fmap_compose, NoDup_fmap_filter. unfold compose.
  apply forall_proper. intros key. rewrite keyMap_spec, length_fmap.
  rewrite list_filter_filter.
  assert (Hf : filter (λ x, formatMIB (mm_MIB x) = key ∧ is_resolved x) results
    = filter (λ x, is_resolved x ∧ formatMIB (mm_MIB x) = key) results).
  { apply list_filter_iff. tauto. }
  by rewrite Hf.
Qed.

(** The keys that the report lists as collisions. *)
Lemma no_colliding_key `{MapOrder} (m : gmap string (list string)) :
  filter (λ key, (1 < length (default [] (m !! key)))%nat) (range_keys m) = []
  ↔ ∀ key, (length (default [] (m !! key)) ≤ 1)%nat.
Proof.
  split.
  - intros Hnil key. destruct (decide (1 < length (default [] (m !! key)))%nat) as [Hlt|]; [|lia].
    assert (Hin : key ∈ filter (λ key, (1 < length (default [] (m !! key)))%nat) (range_keys m)).
    { apply list_elem_of_filter. split; [done|]. apply elem_of_range_keys.
      destruct (m !! key); [by eexists|simpl in Hlt; lia]. }
    rewrite Hnil in Hin. by apply elem_of_nil in Hin.
  - intros Hall. destruct (filter _ _) as [|key l] eqn:E; [done|]. exfalso.
    assert (Hin : key ∈ key :: l) by left. rewrite <- E in Hin.
    apply list_elem_of_filter in Hin as [Hlt _]. specialize (Hall key). lia.
Qed.

Definition no_collision_line : string :=
  "  No MIB collisions — all names resolve to unique MIB arrays ✓".

(** C39: the analysis prints its no-collision line exactly when the resolved names
    have pairwise distinct MIBs (the text key identifies the MIB), whatever
    the order in which the maps are iterated. *)
Theorem collision_report_correct results :
  no_collision_line ∈ analyzeFlattenability results
  ↔ NoDup (mm_MIB <$> filter is_resolved results).
Proof.
  rewrite distinct_mibs_iff, <- no_colliding_key. unfold analyzeFlattenability.
  set (colliding := filter _ (range_keys (keyMap results))).
  destruct (flatMap results) as [fm u]. rewrite !elem_of_app.
  split.
  - intros [Hin|[Hin|[Hin|[Hin|[Hin|Hin]]]]].
    + apply list_elem_of_fmap in Hin as (k & Hk & _). by cbn in Hk.
    + destruct (decide _) as [Hl|]; [by apply length_zero_iff_nil|by apply elem_of_nil in Hin].
    + apply list_elem_of_fmap in Hin as (k & Hk & _). by cbn in Hk.
    + rewrite !elem_of_cons, elem_of_nil in Hin. by destruct Hin as [Hk|[Hk|[Hk|[Hk|[]]]]].
    + apply list_elem_of_omap in Hin as (t & Ht & Hl).
      rewrite !elem_of_cons, elem_of_nil in Ht.
      destruct (knownTopLevel !! t) as [id|]; simpl in Hl; [|done].
      destruct (topRanges results !! id); simpl in Hl; [|done]. injection Hl as Hl.
      by destruct Ht as [->|[->|[->|[->|[->|[->|[]]]]]]].
    + apply list_elem_of_omap in Hin as (t & _ & Hl).
      destruct (decide _); [done|]. by destruct (topRanges results !! t).
  - intros ->. right. left. rewrite decide_True by done. left.
Qed.
End Theorems.

(** ** Witness instances *)

Definition demo_text : ErrorText :=
  {| error_text := λ _, "error"; error_text_nonempty := λ _ H, ltac:(discriminate H) |}.

Definition some_orderZ : MapOrderZ :=
  {| range_keysZ := λ A m, (map_to_list m).*1; range_keysZ_perm := λ A m, reflexivity _ |}.

Definition demo_row (name : string) (mib : list Z) : MetricMIB :=
  mkMetricMIB name mib (Z.of_nat (length mib)) "kern" EmptyString false None None.

(** Two names of one MIB are reported; distinct MIBs are not. *)
Example collision_reported :
  @analyzeFlattenability demo_text some_order some_orderZ [demo_row "a" [1; 2]; demo_row "b" [1; 2]]
  = ["  COLLISION: MIB {1,2} -> [a b]";
     "  FLAT COLLISION: 0x0001000200000000 -> [a b]";
     "  Flat uint64: 1 flattenable, 0 unflattenable, 1 collisions";
     "  Sequential enum: 0..1 — always collision-free, no MIB relationship";
     EmptyString; "=== MIB Value Ranges ===";
     "  kern (MIB[0]=1): MIB[1] range 2..2 (2 metrics)"].
Proof. vm_compute. reflexivity. Qed.
