(* ===== verification/Json.v ===== *)
(** * JSON text (encoding/json, as cmd/darwin-name2int/main.go uses it)

    The encoder the tool calls, [json.NewEncoder(os.Stdout)] with
    [SetIndent(EmptyString, two spaces)] and HTML escaping on: strings are cut into the
    code points of their UTF-8, escaped, and replaced where they are not valid
    UTF-8; arrays and objects are laid out one element a line.  A parser of JSON
    text gives the encoding a meaning: what it reads back is the value that was
    encoded. *)

From Stdlib Require Import ZArith Lia.
From Stdlib Require Import Strings.Byte.
From S2P Require Import Prelude Bytes Utf8.

Local Open Scope Z_scope.

(** ** Strings *)

Definition hex_char (z : Z) : byte :=
  nth (Z.to_nat z) [x30; x31; x32; x33; x34; x35; x36; x37; x38; x39; x61; x62; x63; x64; x65; x66] x30.

(** [appendString]: what a byte below 128 is written as; [escapeHTML] is on. *)
Definition escape_byte (b : byte) : list byte :=
  let c := byte_to_Z b in
  if decide (b = x22 ∨ b = x5c) then [x5c; b]
  else if decide (b = x08) then [x5c; x62]
  else if decide (b = x0c) then [x5c; x66]
  else if decide (b = x0a) then [x5c; x6e]
  else if decide (b = x0d) then [x5c; x72]
  else if decide (b = x09) then [x5c; x74]
  else if decide (c < 32 ∨ b = x3c ∨ b = x3e ∨ b = x26)
  then [x5c; x75; x30; x30; hex_char (c / 16); hex_char (c mod 16)]
  else [b].

(** U+2028 and U+2029 are escaped for JSONP. *)
Definition escape_segment (s : segment) : list byte :=
  match s with
  | BadByte _ => bytes_of_string "\ufffd"
  | Rune [b] => escape_byte b
  | Rune bs =>
      if decide (bs = [xe2; x80; xa8]) then bytes_of_string "\u2028"
      else if decide (bs = [xe2; x80; xa9]) then bytes_of_string "\u2029"
      else bs
  end.

Definition quote (l : list byte) : list byte :=
  x22 :: concat (escape_segment <$> segments l) ++ [x22].

(** ** Values *)

#[warnings="-register-all"]
Inductive json :=
  | JNull
  | JBool (b : bool)
  | JInt (z : Z)
  | JStr (s : list byte)
  | JArr (l : list json)
  | JObj (l : list (list byte * json)).

Fixpoint join_bytes (sep : byte) (parts : list (list byte)) : list byte :=
  match parts with
  | [] => []
  | [p] => p
  | p :: parts' => p ++ sep :: join_bytes sep parts'
  end.

(** A new line at depth [d]. *)
Definition newline (d : nat) : list byte := x0a :: replicate (2 * d) x20.

(** The elements between the brackets; an empty array or object is written
    without a line break. *)
Definition block (d : nat) (parts : list (list byte)) : list byte :=
  match parts with
  | [] => []
  | _ => join_bytes x2c ((λ p, newline (S d) ++ p) <$> parts) ++ newline d
  end.

Fixpoint print_json (d : nat) (j : json) : list byte :=
  match j with
  | JNull => bytes_of_string "null"
  | JBool b => bytes_of_string (if b then "true" else "false")
  | JInt z => bytes_of_string (fmt_d z)
  | JStr s => quote s
  | JArr l => x5b :: block d (print_json (S d) <$> l) ++ [x5d]
  | JObj l =>
      x7b :: block d ((λ '(k, v), quote k ++ x3a :: x20 :: print_json (S d) v) <$> l) ++ [x7d]
  end.

(** [Encode]: the value, and a final newline. *)
Definition Encode (j : json) : list byte := print_json 0 j ++ [x0a].

(** ** Reading JSON back *)

Definition is_space (b : byte) : Prop := b = x20 ∨ b = x09 ∨ b = x0a ∨ b = x0d.
#[export] Instance is_space_dec b : Decision (is_space b).
Proof. unfold is_space. apply _. Defined.

Fixpoint skip (l : list byte) : list byte :=
  match l with
  | b :: l' => if decide (is_space b) then skip l' else l
  | [] => []
  end.

Definition hex_value (b : byte) : option Z :=
  let c := byte_to_Z b in
  if decide (48 ≤ c ≤ 57) then Some (c - 48)
  else if decide (97 ≤ c ≤ 102) then Some (c - 87)
  else if decide (65 ≤ c ≤ 70) then Some (c - 55)
  else None.

(** The UTF-8 of a code point below U+10000 that is no surrogate. *)
Definition encode_rune (r : Z) : option (list byte) :=
  if decide (r < 128) then Some [byte_of_Z r]
  else if decide (r < 2048) then Some [byte_of_Z (192 + r / 64); byte_of_Z (128 + r mod 64)]
  else if decide (55296 ≤ r ≤ 57343) then None
  else Some [byte_of_Z (224 + r / 4096); byte_of_Z (128 + r / 64 mod 64); byte_of_Z (128 + r mod 64)].

Definition unescape (b : byte) : option byte :=
  if decide (b = x22 ∨ b = x5c ∨ b = x2f) then Some b
  else if decide (b = x62) then Some x08
  else if decide (b = x66) then Some x0c
  else if decide (b = x6e) then Some x0a
  else if decide (b = x72) then Some x0d
  else if decide (b = x74) then Some x09
  else None.

Definition prepend (bs : list byte) (r : option (list byte * list byte))
    : option (list byte * list byte) :=
  match r with Some (s, l) => Some (bs ++ s, l) | None => None end.

(** The rest of a string after its opening quote, and what follows it. *)
Fixpoint unquote (l : list byte) : option (list byte * list byte) :=
  match l with
  | [] => None
  | b :: l1 =>
      if decide (b = x22) then Some ([], l1)
      else if decide (b = x5c) then
        match l1 with
        | [] => None
        | e :: l2 =>
            if decide (e = x75) then
              match l2 with
              | h1 :: h2 :: h3 :: h4 :: l3 =>
                  match hex_value h1, hex_value h2, hex_value h3, hex_value h4 with
                  | Some d1, Some d2, Some d3, Some d4 =>
                      match encode_rune (((d1 * 16 + d2) * 16 + d3) * 16 + d4) with
                      | Some bs => prepend bs (unquote l3)
                      | None => None
                      end
                  | _, _, _, _ => None
                  end
              | _ => None
              end
            else
              match unescape e with
              | Some c => prepend [c] (unquote l2)
              | None => None
              end
        end
      else if decide (byte_to_Z b < 32) then None
      else prepend [b] (unquote l1)
  end.

Definition read_int (l : list byte) : option (Z * list byte) :=
  match l with
  | b :: l' =>
      if decide (is_digit b) then Some (read_digits 0 l)
      else if decide (b = x2d) then
        match l' with
        | b' :: _ => if decide (is_digit b') then let '(n, r) := read_digits 0 l' in Some (- n, r)
                     else None
        | [] => None
        end
      else None
  | [] => None
  end.

(** [expect w l]: [l] after the literal [w]. *)
Fixpoint expect (w l : list byte) : option (list byte) :=
  match w, l with
  | [], _ => Some l
  | b :: w', c :: l' => if decide (b = c) then expect w' l' else None
  | _ :: _, [] => None
  end.

(** Values, the elements of an array after the first bracket, and the members
    of an object; [n] bounds the nesting and the lengths. *)
Fixpoint parse_value (n : nat) (l : list byte) : option (json * list byte) :=
  match n with
  | O => None
  | S n =>
      match skip l with
      | [] => None
      | b :: l1 =>
          if decide (b = x22) then '(s, r) ← unquote l1; Some (JStr s, r)
          else if decide (b = x5b) then
            match skip l1 with
            | c :: r => if decide (c = x5d) then Some (JArr [], r)
                        else '(vs, r) ← parse_elements n l1; Some (JArr vs, r)
            | [] => None
            end
          else if decide (b = x7b) then
            match skip l1 with
            | c :: r => if decide (c = x7d) then Some (JObj [], r)
                        else '(ms, r) ← parse_members n l1; Some (JObj ms, r)
            | [] => None
            end
          else if decide (b = x6e) then r ← expect (bytes_of_string "ull") l1; Some (JNull, r)
          else if decide (b = x74) then r ← expect (bytes_of_string "rue") l1; Some (JBool true, r)
          else if decide (b = x66) then r ← expect (bytes_of_string "alse") l1; Some (JBool false, r)
          else '(z, r) ← read_int (b :: l1); Some (JInt z, r)
      end
  end
with parse_elements (n : nat) (l : list byte) : option (list json * list byte) :=
  match n with
  | O => None
  | S n =>
      '(v, r) ← parse_value n l;
      match skip r with
      | c :: r' =>
          if decide (c = x2c) then '(vs, r'') ← parse_elements n r'; Some (v :: vs, r'')
          else if decide (c = x5d) then Some ([v], r')
          else None
      | [] => None
      end
  end
with parse_members (n : nat) (l : list byte) : option (list (list byte * json) * list byte) :=
  match n with
  | O => None
  | S n =>
      match skip l with
      | q :: l1 =>
          if decide (q = x22) then
            '(k, r) ← unquote l1;
            match skip r with
            | c :: r' =>
                if decide (c = x3a) then
                  '(v, r'') ← parse_value n r';
                  match skip r'' with
                  | c' :: r3 =>
                      if decide (c' = x2c) then '(ms, r4) ← parse_members n r3; Some ((k, v) :: ms, r4)
                      else if decide (c' = x7d) then Some ([(k, v)], r3)
                      else None
                  | [] => None
                  end
                else None
            | [] => None
            end
          else None
      | [] => None
      end
  end.

(** A whole text: one value and nothing but spaces after it. *)
Definition parse_json (l : list byte) : option json :=
  '(v, r) ← parse_value (length l) l;
  match skip r with [] => Some v | _ :: _ => None end.

(** The value a reader sees: every string with its invalid bytes replaced. *)
Fixpoint json_clean (j : json) : json :=
  match j with
  | JStr s => JStr (to_valid s)
  | JArr l => JArr (json_clean <$> l)
  | JObj l => JObj ((λ '(k, v), (to_valid k, json_clean v)) <$> l)
  | _ => j
  end.

(** ** Strings read back *)

Lemma prepend_prepend a b r : prepend a (prepend b r) = prepend (a ++ b) r.
Proof. destruct r as [[s l]|]; [|done]. simpl. by rewrite app_assoc. Qed.

Lemma unquote_escape_byte b rest :
  is_ascii b → unquote (escape_byte b ++ rest) = prepend [b] (unquote rest).
Proof. destruct b; intros Ha; try reflexivity; by vm_compute in Ha. Qed.

(** A byte of a longer code point stands for itself. *)
Lemma unquote_high bs rest :
  Forall (λ b, ¬ is_ascii b) bs → unquote (bs ++ rest) = prepend bs (unquote rest).
Proof.
  induction 1 as [|b bs Hb _ IH]; [simpl; by destruct (unquote rest) as [[]|]|].
  unfold is_ascii in Hb. cbn [app unquote].
  rewrite decide_False by (intros ->; vm_compute in Hb; by apply Hb).
  rewrite decide_False by (intros ->; vm_compute in Hb; by apply Hb).
  rewrite decide_False by lia. rewrite IH, prepend_prepend. done.
Qed.

Lemma unquote_segment s rest :
  seg_ok s → unquote (escape_segment s ++ rest) = prepend (seg_clean s) (unquote rest).
Proof.
  destruct s as [bs|b]; [|reflexivity]. intros [(b & -> & Hb)|[Hl Hhigh]].
  { by apply unquote_escape_byte. }
  destruct bs as [|b1 [|b2 bs]]; [simpl in Hl; lia..|]. cbn [escape_segment seg_clean].
  destruct (decide (b1 :: b2 :: bs = _)) as [->|_]; [reflexivity|].
  destruct (decide (b1 :: b2 :: bs = _)) as [->|_]; [reflexivity|].
  by apply unquote_high.
Qed.

Lemma unquote_quote l rest :
  unquote (concat (escape_segment <$> segments l) ++ x22 :: rest) = Some (to_valid l, rest).
Proof.
  unfold to_valid. induction (proj1 (segments_spec l)) as [|s ss Hs _ IH]; [reflexivity|].
  rewrite !fmap_cons. cbn [concat]. rewrite <- app_assoc, unquote_segment by exact Hs.
  by rewrite IH.
Qed.

(** ** Numbers read back *)

(** An integer: its first byte opens nothing else, and it reads back. *)
Lemma fmt_d_read z r :
  no_digit r →
  (∃ b l, bytes_of_string (fmt_d z) = b :: l ∧ (is_digit b ∨ b = x2d)) ∧
  read_int (bytes_of_string (fmt_d z) ++ r) = Some (z, r).
Proof.
  intros Hr. unfold fmt_d, pretty, pretty_Z. destruct z as [|p|p].
  - split; [exists x30, []; split; [done|by left]|].
    change (Some (read_digits 0 r) = Some (0, r)). by rewrite read_digits_stop.
  - destruct (pretty_read (N.pos p) r Hr) as [(b & l & Hb & Hd) Hread].
    change (pretty p) with (pretty (N.pos p)).
    rewrite Hb in Hread |- *. split; [exists b, l; by auto|]. cbn [app read_int].
    rewrite decide_True by done. cbn [app] in Hread. by rewrite Hread.
  - destruct (pretty_read (N.pos p) r Hr) as [(b & l & Hb & Hd) Hread].
    change (pretty p) with (pretty (N.pos p)).
    rewrite bytes_of_string_app, Hb. rewrite Hb in Hread.
    change (bytes_of_string "-") with [x2d]. split; [exists x2d, (b :: l); by auto|].
    cbn [app read_int]. rewrite decide_False by (unfold is_digit; vm_compute; tauto).
    rewrite decide_True by done. rewrite decide_True by done. cbn [app] in Hread. by rewrite Hread.
Qed.

(** ** Values read back *)

Section Induction.
Variable P : json → Prop.
Hypothesis HNull : P JNull.
Hypothesis HBool : ∀ b, P (JBool b).
Hypothesis HInt : ∀ z, P (JInt z).
Hypothesis HStr : ∀ s, P (JStr s).
Hypothesis HArr : ∀ l, Forall P l → P (JArr l).
Hypothesis HObj : ∀ l, Forall (λ kv, P kv.2) l → P (JObj l).

(** Induction with the hypothesis for every element and member. *)
Lemma json_nested_ind : ∀ j, P j.
Proof.
  fix IH 1. intros [|b|z|s|l|l]; [done|done|done|done| |].
  - apply HArr. induction l as [|j l IHl]; constructor; [apply IH|exact IHl].
  - apply HObj. induction l as [|[k j] l IHl]; constructor; [apply IH|exact IHl].
Qed.
End Induction.

(** The fuel that parsing [j] takes. *)
Fixpoint json_size (j : json) : nat :=
  match j with
  | JArr l => S (sum_list_with (λ x, S (json_size x)) l)
  | JObj l => S (sum_list_with (λ '(_, x), S (json_size x)) l)
  | _ => 1%nat
  end.

Lemma skip_newline d l : skip (newline d ++ l) = skip l.
Proof.
  unfold newline. cbn [app skip]. rewrite decide_True by (unfold is_space; auto).
  generalize (2 * d)%nat. intros n. induction n as [|n IH]; [done|].
  cbn [replicate app skip]. by rewrite decide_True by (unfold is_space; auto).
Qed.

(** What can follow a value: neither a digit nor anything that continues it. *)
Lemma skip_head b l : ¬ is_space b → skip (b :: l) = b :: l.
Proof. intros H. cbn [skip]. by rewrite decide_False. Qed.

(** A value starts with a byte that is neither a space nor a closing bracket. *)
Definition starts_value (b : byte) : Prop :=
  ¬ is_space b ∧ b ≠ x5d ∧ b ≠ x7d ∧ b ≠ x2c.

Lemma print_head d j : ∃ b l, print_json d j = b :: l ∧ starts_value b.
Proof.
  assert (Hn : ∀ b, is_digit b ∨ b = x2d → starts_value b).
  { intros b Hb. unfold starts_value, is_space. destruct Hb as [Hd | ->]; [|by_decide].
    split_and!; [intros Hs; destruct_or! Hs|..]; try intros ->; subst;
      (refine (bool_decide_unpack (¬ is_digit _) _ Hd); exact I). }
  destruct j as [|[]|z|s|l|l]; cbn [print_json].
  - do 2 eexists. split; [reflexivity|by_decide].
  - do 2 eexists. split; [reflexivity|by_decide].
  - do 2 eexists. split; [reflexivity|by_decide].
  - destruct (fmt_d_read z [] I) as [(b & l & Hb & Hd) _]. exists b, l. by auto.
  - do 2 eexists. split; [reflexivity|by_decide].
  - do 2 eexists. split; [reflexivity|by_decide].
  - do 2 eexists. split; [reflexivity|by_decide].
Qed.

(** Parsing looks through the spaces in front of a value. *)
Lemma parse_value_skip n l : parse_value n (skip l) = parse_value n l.
Proof.
  assert (Hs : skip (skip l) = skip l).
  { induction l as [|b l IH]; [done|]. cbn [skip].
    destruct (decide (is_space b)) as [|Hb]; [done|]. by apply skip_head. }
  destruct n as [|n]; [done|]. cbn [parse_value]. by rewrite Hs.
Qed.

Lemma parse_value_newline n d l : parse_value n (newline d ++ l) = parse_value n l.
Proof. rewrite <- parse_value_skip, skip_newline. apply parse_value_skip. Qed.

Lemma no_digit_newline d l : no_digit (newline d ++ l).
Proof. by_decide. Qed.

(** Printing at some depth, then parsing, with what the fuel must be. *)
Definition reads_back (j : json) : Prop := ∀ d n rest,
  (json_size j ≤ n)%nat → no_digit rest →
  parse_value n (print_json d j ++ rest) = Some (json_clean j, rest).

Lemma join_bytes_cons sep p q parts :
  join_bytes sep (p :: q :: parts) = p ++ sep :: join_bytes sep (q :: parts).
Proof. reflexivity. Qed.

Lemma block_cons {A} (f : A → list byte) d x l :
  block d (f <$> x :: l) = join_bytes x2c ((λ p, newline (S d) ++ p) <$> (f <$> x :: l)) ++ newline d.
Proof. reflexivity. Qed.

Lemma parse_elements_print d n x l rest :
  Forall reads_back (x :: l) → (sum_list_with (λ x, S (json_size x)) (x :: l) ≤ n)%nat →
  parse_elements n (block d (print_json (S d) <$> x :: l) ++ x5d :: rest)
  = Some (json_clean <$> x :: l, rest).
Proof.
  rewrite block_cons, <- app_assoc.
  revert n x. induction l as [|y l IH]; intros n x Hall Hn;
    apply Forall_cons in Hall as [Hx Hall]; (destruct n as [|n]; [simpl in Hn; lia|]).
  - rewrite !fmap_cons. cbn [join_bytes parse_elements fmap list_fmap]. rewrite <- app_assoc, parse_value_newline.
    cbn [sum_list_with] in Hn. rewrite Hx; [|lia|apply no_digit_newline]. cbn [mbind option_bind].
    rewrite skip_newline, skip_head by by_decide. done.
  - rewrite !fmap_cons, join_bytes_cons, <- !fmap_cons. cbn [parse_elements].
    rewrite <- !app_assoc, parse_value_newline. cbn [sum_list_with] in Hn.
    rewrite Hx; [|lia|by_decide]. cbn [mbind option_bind].
    cbn [app]. rewrite skip_head by by_decide. rewrite decide_True by done.
    rewrite IH; [done|done|]. cbn [sum_list_with]. lia.
Qed.

Lemma parse_value_space n l : parse_value n (x20 :: l) = parse_value n l.
Proof. rewrite <- parse_value_skip. apply (parse_value_skip n l). Qed.

(** One member, up to what follows it. *)
Lemma parse_member d n k v c rest :
  reads_back v → (json_size v ≤ n)%nat → no_digit (c :: rest) →
  parse_members (S n) (newline d ++ quote k ++ x3a :: x20 :: print_json d v ++ c :: rest)
  = match skip (c :: rest) with
    | c' :: r3 =>
        if decide (c' = x2c) then '(ms, r4) ← parse_members n r3; Some ((to_valid k, json_clean v) :: ms, r4)
        else if decide (c' = x7d) then Some ([(to_valid k, json_clean v)], r3)
        else None
    | [] => None
    end.
Proof.
  intros Hv Hn Hc. cbn [parse_members]. rewrite skip_newline. unfold quote. cbn [app].
  rewrite skip_head by by_decide. rewrite decide_True by done. rewrite <- app_assoc. cbn [app].
  rewrite unquote_quote. cbn [mbind option_bind]. rewrite skip_head by by_decide.
  rewrite decide_True by done. rewrite parse_value_space, Hv by done. reflexivity.
Qed.

Lemma parse_members_print d n kv l rest :
  Forall (λ kv, reads_back kv.2) (kv :: l) →
  (sum_list_with (λ '(_, x), S (json_size x)) (kv :: l) ≤ n)%nat →
  parse_members n
    (block d ((λ '(k, v), quote k ++ x3a :: x20 :: print_json (S d) v) <$> kv :: l) ++ x7d :: rest)
  = Some ((λ '(k, v), (to_valid k, json_clean v)) <$> kv :: l, rest).
Proof.
  rewrite block_cons, <- app_assoc.
  set (f := λ '(k, v), quote k ++ x3a :: x20 :: print_json (S d) v).
  revert n kv. induction l as [|kv' l IH]; intros n [k v] Hall Hn;
    apply Forall_cons in Hall as [Hv Hall]; (destruct n as [|n]; [simpl in Hn; lia|]);
    cbn [sum_list_with snd] in Hv, Hn.
  - rewrite !fmap_cons. cbn [join_bytes fmap list_fmap].
    change (f (k, v)) with (quote k ++ x3a :: x20 :: print_json (S d) v).
    rewrite <- !app_assoc. cbn [app].
    change (newline d ++ x7d :: rest) with (x0a :: replicate (2 * d) x20 ++ x7d :: rest).
    rewrite parse_member; [|done|lia|by_decide].
    change (x0a :: replicate (2 * d) x20 ++ x7d :: rest) with (newline d ++ x7d :: rest).
    rewrite skip_newline, skip_head by by_decide. done.
  - rewrite !fmap_cons, join_bytes_cons, <- !fmap_cons.
    change (f (k, v)) with (quote k ++ x3a :: x20 :: print_json (S d) v).
    rewrite <- !app_assoc. cbn [app].
    rewrite parse_member; [|done|lia|by_decide]. rewrite skip_head by by_decide.
    rewrite decide_True by done. rewrite IH; [done|done|]. cbn [sum_list_with]. lia.
Qed.

Lemma parse_print j : reads_back j.
Proof.
  induction j as [|b|z|s|l Hl|l Hl] using json_nested_ind; intros d n rest Hn Hrest;
    (destruct n as [|n]; [simpl in Hn; lia|]).
  - done.
  - by destruct b.
  - destruct (fmt_d_read z rest Hrest) as [(b & l & Hb & Hd) Hread].
    cbn [print_json json_clean]. rewrite Hb in Hread |- *. cbn [app parse_value] in *.
    assert (Hs : starts_value b ∧ b ≠ x22 ∧ b ≠ x5b ∧ b ≠ x7b ∧ b ≠ x6e ∧ b ≠ x74 ∧ b ≠ x66).
    { unfold is_digit in Hd. clear - Hd.
      destruct b; try (exfalso; destruct Hd as [[H1' H2']|?]; [|done]; vm_compute in H1', H2'; done);
        by_decide. }
    destruct Hs as ([Hs _] & ? & ? & ? & ? & ? & ?). rewrite skip_head by done.
    rewrite !decide_False by done. by rewrite Hread.
  - cbn [print_json json_clean]. unfold quote. cbn [app parse_value].
    rewrite skip_head by by_decide. rewrite decide_True by done.
    rewrite <- app_assoc. cbn [app]. by rewrite unquote_quote.
  - cbn [print_json json_clean app parse_value]. rewrite skip_head by by_decide.
    rewrite decide_False by done. rewrite decide_True by done.
    destruct l as [|x l]; [done|]. rewrite <- app_assoc. cbn [app].
    destruct (print_head (S d) x) as (b & r & Hb & Hs).
    assert (Hskip : ∃ r', skip (block d (print_json (S d) <$> x :: l) ++ x5d :: rest) = b :: r').
    { rewrite block_cons, fmap_cons, fmap_cons, Hb.
      destruct (print_json (S d) <$> l) as [|p ps]; eexists; cbn [fmap list_fmap join_bytes];
        rewrite <- !app_assoc, skip_newline; apply skip_head, Hs. }
    destruct Hskip as [r' ->]. rewrite decide_False by apply Hs.
    rewrite parse_elements_print; [done|done|]. cbn [json_size] in Hn. lia.
  - cbn [print_json json_clean app parse_value]. rewrite skip_head by by_decide.
    rewrite decide_False by done. rewrite decide_False by done. rewrite decide_True by done.
    destruct l as [|[k v] l]; [done|]. rewrite <- app_assoc. cbn [app].
    set (f := λ '(k, v), quote k ++ x3a :: x20 :: print_json (S d) v).
    assert (Hskip : ∃ r', skip (block d (f <$> (k, v) :: l) ++ x7d :: rest) = x22 :: r').
    { rewrite block_cons, fmap_cons, fmap_cons.
      destruct (f <$> l) as [|p ps]; eexists; cbn [fmap list_fmap join_bytes];
        rewrite <- !app_assoc, skip_newline; reflexivity. }
    destruct Hskip as [r' ->]. rewrite decide_False by done. subst f.
    rewrite parse_members_print; [done|done|]. cbn [json_size] in Hn. lia.
Qed.

Lemma length_join_block d parts :
  (sum_list_with (λ p, S (length p)) parts ≤ length (block d parts))%nat.
Proof.
  destruct parts as [|p parts]; [done|]. unfold block. rewrite length_app.
  set (g := λ p, newline (S d) ++ p).
  assert (Hg : ∀ p, (S (length p) ≤ length (g p))%nat).
  { intros q. unfold g. rewrite length_app. unfold newline. cbn [length]. lia. }
  enough (sum_list_with (λ p, S (length p)) (p :: parts) ≤ length (join_bytes x2c (g <$> p :: parts)))%nat
    by lia.
  clearbody g. revert p. induction parts as [|q parts IH]; intros p; specialize (Hg p).
  - cbn [sum_list_with fmap list_fmap join_bytes]. lia.
  - specialize (IH q). rewrite !fmap_cons, join_bytes_cons, <- fmap_cons, length_app.
    cbn [sum_list_with length] in *. lia.
Qed.

Lemma sum_list_with_le {A B} (f : A → nat) (g : B → nat) (h : A → B) l :
  Forall (λ x, f x ≤ g (h x))%nat l → (sum_list_with f l ≤ sum_list_with g (h <$> l))%nat.
Proof. induction 1; [done|]. rewrite fmap_cons. cbn [sum_list_with]. lia. Qed.

Lemma json_size_le j d : (json_size j ≤ length (print_json d j))%nat.
Proof.
  revert d. induction j as [|b|z|s|l Hl|l Hl] using json_nested_ind; intros d.
  1: destruct (print_head d JNull) as (? & ? & -> & _).
  2: destruct (print_head d (JBool b)) as (? & ? & -> & _).
  3: destruct (print_head d (JInt z)) as (? & ? & -> & _).
  4: destruct (print_head d (JStr s)) as (? & ? & -> & _).
  1-4: cbn [json_size length]; lia.
  - cbn [json_size print_json length]. rewrite length_app.
    pose proof (length_join_block d (print_json (S d) <$> l)).
    pose proof (sum_list_with_le (λ x, S (json_size x)) (λ p, S (length p)) (print_json (S d)) l) as Hs.
    ospecialize (Hs _); [eapply Forall_impl; [exact Hl|]; intros x Hx; specialize (Hx (S d)); lia|]. lia.
  - cbn [json_size print_json length]. rewrite length_app.
    set (f := λ '(k, v), quote k ++ x3a :: x20 :: print_json (S d) v).
    pose proof (length_join_block d (f <$> l)).
    pose proof (sum_list_with_le (λ '(_, x), S (json_size x)) (λ p, S (length p)) f l) as Hs.
    ospecialize (Hs _); [|lia]. eapply Forall_impl; [exact Hl|]. intros [k v] Hx.
    specialize (Hx (S d)). cbn [f snd] in *. rewrite length_app. cbn [length]. lia.
Qed.

(** Encoding then parsing gives the value back, its strings cleaned. *)
Lemma parse_Encode j : parse_json (Encode j) = Some (json_clean j).
Proof.
  unfold parse_json, Encode.
  rewrite parse_print; [|rewrite length_app; pose proof (json_size_le j 0); lia|by_decide].
  reflexivity.
Qed.
