(* ===== verification/Name2IntMain.v ===== *)
(** * The output of darwin-name2int (cmd/darwin-name2int/main.go: main, outputJSON)

    [main] after its flags: the rows, one of the three renderings, and the
    summary, as the text written on the standard output.  What a reader gets
    back from the JSON is the rows, and the table's columns are aligned. *)

From Stdlib Require Import ZArith Lia.
From Stdlib Require Import Strings.Byte.
From S2P Require Import Prelude Bytes Utf8 Kernel TableKernel Sysctl MibCache Registry.
From S2P Require Import KernelRegistry Name2Int Tabwriter Report Json.

Local Open Scope Z_scope.

(** ** JSON *)

(** The parsed flags. *)
Record Name2IntFlags := mkName2IntFlags {
  nf_csv : bool;
  nf_json : bool;
  nf_validate : bool;
}.

Definition text (s : string) : json := JStr (bytes_of_string s).

Section Output.
Context `{ErrorText} `{MapOrder} `{MapOrderZ}.

(** [omitempty]: no member for an empty string. *)
Definition omitempty (key value : string) : list (list byte * json) :=
  if decide (value = EmptyString) then [] else [(bytes_of_string key, text value)].

(** A [MetricMIB] by its field tags.  The slice of a row whose name did not
    resolve is nil, which is encoded as null; the others are not empty. *)
Definition row_json (r : MetricMIB) : json :=
  JObj ([(bytes_of_string "name", text (mm_Name r));
         (bytes_of_string "mib", match mm_MIB r with [] => JNull | mib => JArr (JInt <$> mib) end);
         (bytes_of_string "mib_depth", JInt (mm_MIBDepth r));
         (bytes_of_string "top_level", text (mm_TopLevel r));
         (bytes_of_string "xnu_match", text (mm_XNUMatch r));
         (bytes_of_string "validated", JBool (mm_Validated r))]
        ++ omitempty "valid_err" (text_of (mm_ValidErr r))
        ++ omitempty "resolve_err" (text_of (mm_ResolveErr r))).

(** No row at all is a nil slice. *)
Definition results_json (results : list MetricMIB) : json :=
  match results with [] => JNull | _ => JArr (row_json <$> results) end.

Definition outputJSON (results : list MetricMIB) : string :=
  string_of_bytes (Encode (results_json results)).

(** [main] from the flags on: what is written on the standard output. *)
Definition name2int_main {W} `{Kernel W} (f : Name2IntFlags) : M (CacheSt W) string :=
  results ← resolve_all (nf_validate f);
  let output :=
    if nf_json f then outputJSON results
    else if nf_csv f then unlines (outputCSV results)
    else Flush (unlines (outputTable results (nf_validate f))) in
  mret (output +:+ unlines (printSummary results (nf_validate f))).
End Output.

(** ** Reading the JSON back *)

(** A row as its reader has it: the texts of the errors, empty when there is
    none. *)
Record RowText := mkRowText {
  rt_Name : string;
  rt_MIB : list Z;
  rt_MIBDepth : Z;
  rt_TopLevel : string;
  rt_XNUMatch : string;
  rt_Validated : bool;
  rt_ValidErr : string;
  rt_ResolveErr : string;
}.

Definition field (key : string) (j : json) : option json :=
  match j with
  | JObj l => found ← list_find (λ kv : list byte * json, kv.1 = bytes_of_string key) l; Some found.2.2
  | _ => None
  end.

Definition as_text (j : json) : option string :=
  match j with JStr s => Some (string_of_bytes s) | _ => None end.
Definition as_int (j : json) : option Z := match j with JInt z => Some z | _ => None end.
Definition as_bool (j : json) : option bool := match j with JBool b => Some b | _ => None end.
Definition as_ints (j : json) : option (list Z) :=
  match j with
  | JNull => Some []
  | JArr l => foldr (λ x acc, z ← as_int x; zs ← acc; Some (z :: zs)) (Some []) l
  | _ => None
  end.

(** A member that may be left out. *)
Definition optional_text (key : string) (j : json) : option string :=
  match field key j with None => Some EmptyString | Some v => as_text v end.

Definition read_row (j : json) : option RowText :=
  name ← field "name" j ≫= as_text;
  mib ← field "mib" j ≫= as_ints;
  depth ← field "mib_depth" j ≫= as_int;
  top ← field "top_level" j ≫= as_text;
  xnu ← field "xnu_match" j ≫= as_text;
  validated ← field "validated" j ≫= as_bool;
  valid_err ← optional_text "valid_err" j;
  resolve_err ← optional_text "resolve_err" j;
  Some (mkRowText name mib depth top xnu validated valid_err resolve_err).

Definition read_rows (output : string) : option (list RowText) :=
  match parse_json (bytes_of_string output) with
  | Some JNull => Some []
  | Some (JArr l) => foldr (λ x acc, r ← read_row x; rs ← acc; Some (r :: rs)) (Some []) l
  | _ => None
  end.

(** The text a reader sees for a Go string. *)
Definition clean (s : string) : string := string_of_bytes (to_valid (bytes_of_string s)).

Section Reading.
Context `{ErrorText}.

Definition row_text (r : MetricMIB) : RowText :=
  mkRowText (clean (mm_Name r)) (mm_MIB r) (mm_MIBDepth r) (clean (mm_TopLevel r))
    (clean (mm_XNUMatch r)) (mm_Validated r) (clean (text_of (mm_ValidErr r)))
    (clean (text_of (mm_ResolveErr r))).

Lemma clean_empty : clean EmptyString = EmptyString.
Proof. reflexivity. Qed.

Lemma as_ints_fmap l : as_ints (JArr (json_clean <$> (JInt <$> l))) = Some l.
Proof. induction l as [|z l IH]; [done|]. cbn in *. by rewrite IH. Qed.

Lemma field_nil key : field key (json_clean (JObj [])) = None.
Proof. reflexivity. Qed.

Lemma field_hit key v l :
  to_valid (bytes_of_string key) = bytes_of_string key →
  field key (json_clean (JObj ((bytes_of_string key, v) :: l))) = Some (json_clean v).
Proof. intros Hk. cbn [json_clean fmap list_fmap field]. rewrite Hk. cbn [list_find]. by rewrite decide_True. Qed.

Lemma field_miss key k v l :
  to_valid k ≠ bytes_of_string key →
  field key (json_clean (JObj ((k, v) :: l))) = field key (json_clean (JObj l)).
Proof.
  intros Hk. cbn [json_clean fmap list_fmap field list_find fst]. rewrite decide_False by done.
  by destruct (list_find _ _) as [[i [k' v']]|].
Qed.

(** Look a literal key up in a literal object. *)
Local Ltac lookup_field :=
  repeat (rewrite field_miss by by_decide);
  first [rewrite field_hit by reflexivity | rewrite field_nil]; cbn [mbind option_bind].

(** The two members that are left out when empty are the last. *)
Lemma optional_members verr rerr :
  let j := json_clean (JObj (omitempty "valid_err" verr ++ omitempty "resolve_err" rerr)) in
  optional_text "valid_err" j = Some (clean verr) ∧ optional_text "resolve_err" j = Some (clean rerr).
Proof.
  cbv zeta. unfold optional_text, omitempty.
  destruct (decide (verr = EmptyString)) as [->|Hv]; destruct (decide (rerr = EmptyString)) as [->|Hr];
    cbn [app]; split; lookup_field; rewrite ?clean_empty; reflexivity.
Qed.

Lemma read_row_json r : read_row (json_clean (row_json r)) = Some (row_text r).
Proof.
  unfold row_json, row_text. cbn [app]. set (rest := omitempty _ _ ++ omitempty _ _).
  unfold read_row. do 6 lookup_field.
  destruct (optional_members (text_of (mm_ValidErr r)) (text_of (mm_ResolveErr r))) as [Hv Hr].
  fold rest in Hv, Hr. unfold optional_text in *.
  do 6 rewrite (field_miss "valid_err") by by_decide.
  do 6 rewrite (field_miss "resolve_err") by by_decide. rewrite Hv, Hr.
  assert (Hm : as_ints (json_clean match mm_MIB r with [] => JNull | m => JArr (JInt <$> m) end)
    = Some (mm_MIB r)).
  { destruct (mm_MIB r) as [|z mib]; [done|]. apply (as_ints_fmap (z :: mib)). }
  rewrite Hm. reflexivity.
Qed.

Lemma read_rows_json results :
  read_rows (string_of_bytes (Encode (results_json results))) = Some (row_text <$> results).
Proof.
  unfold read_rows. rewrite bytes_of_string_of_bytes, parse_Encode. unfold results_json.
  destruct results as [|r rows]; [done|]. cbn [json_clean]. revert r.
  assert (Hall : ∀ rs, foldr (λ x acc, r ← read_row x; rs ← acc; Some (r :: rs)) (Some [])
             (json_clean <$> (row_json <$> rs)) = Some (row_text <$> rs)).
  { induction rs as [|r rs IH]; [done|]. rewrite !fmap_cons. cbn [foldr].
    by rewrite IH, read_row_json. }
  intros r. apply (Hall (r :: rows)).
Qed.
End Reading.

(** ** The rows' own texts are printable *)

Lemma printable_plain s : printable s → cell_text s.
Proof.
  unfold printable, cell_text, bytes_of_string, String.list_byte_of_string.
  induction (String.list_ascii_of_string s) as [|a l IH]; [constructor|].
  cbn [List.map]. intros [Ha Hl]%Forall_cons. constructor; [|by apply IH].
  split; intros ->; revert Ha; by_decide.
Qed.

Lemma printable_formatMIB mib : printable (formatMIB mib).
Proof.
  unfold formatMIB. destruct (decide _); [by_decide|].
  apply printable_app; [by_decide|]. apply printable_app; [|by_decide].
  apply printable_concat; [by_decide|]. apply Forall_fmap, Forall_true. intros z. apply printable_fmt_d.
Qed.

Lemma printable_fmt_v_mib mib : printable (fmt_v_mib mib).
Proof.
  unfold fmt_v_mib. apply printable_app; [by_decide|]. apply printable_app; [|by_decide].
  apply printable_concat; [by_decide|]. apply Forall_fmap, Forall_true. intros z. apply printable_fmt_d.
Qed.

#[local] Hint Resolve printable_formatMIB printable_fmt_v_mib : text.
#[local] Hint Extern 5 (printable _) => by_decide : text.

Lemma printable_matchXNU name mib : printable (matchXNU name mib).
Proof.
  unfold matchXNU. repeat case_match; auto 8 with text.
Qed.

Lemma printable_top_level `{MapOrder} top : printable (top_level top).
Proof.
  assert (Hkeys : map_Forall (λ name _, printable name) knownTopLevel) by by_decide.
  unfold top_level. destruct (filter _ _) as [|name l] eqn:E; [auto 6 with text|].
  assert (Hin : name ∈ filter (λ name, knownTopLevel !! name = Some top) (range_keys knownTopLevel)).
  { rewrite E. left. }
  apply list_elem_of_filter in Hin as [Hl _]. by apply (Hkeys name top).
Qed.

(** ** The cells of the table *)

Section Table.
Context `{ErrorText}.

Definition row_cells (showValid : bool) (r : MetricMIB) : list string :=
  let mibStr := if decide (is_resolved r) then formatMIB (mm_MIB r)
                else "ERROR: " +:+ text_of (mm_ResolveErr r) in
  let xnu := if decide (mm_XNUMatch r = EmptyString) then "-" else mm_XNUMatch r in
  let validStr :=
    if decide (is_resolved r) then
      if mm_Validated r then "OK"
      else if decide (text_of (mm_ValidErr r) ≠ EmptyString) then text_of (mm_ValidErr r)
      else "-"
    else "-" in
  [mm_Name r; mibStr; fmt_d (mm_MIBDepth r); mm_TopLevel r; xnu]
    ++ (if showValid then [validStr] else []).

Definition table_rows (results : list MetricMIB) (showValid : bool) : list (list string) :=
  (["NAME"; "MIB"; "DEPTH"; "TOP"; "XNU"] ++ (if showValid then ["VALID"] else []))
  :: (["----"; "---"; "-----"; "---"; "---"] ++ (if showValid then ["-----"] else []))
  :: (row_cells showValid <$> results).

Lemma outputTable_rows results showValid :
  outputTable results showValid = String.concat tab <$> table_rows results showValid.
Proof.
  unfold outputTable, table_rows. rewrite !fmap_cons, <- list_fmap_compose.
  destruct showValid; cbn [app]; do 2 f_equal; apply list_fmap_ext; intros i r _;
    unfold compose, row_cells; by rewrite ?app_nil_r.
Qed.

Lemma table_rows_length results (showValid : bool) :
  Forall (λ row, length row = S (if showValid then 5 else 4)%nat) (table_rows results showValid).
Proof.
  unfold table_rows. repeat constructor; [by destruct showValid..|].
  apply Forall_fmap, Forall_true. intros r. by destruct showValid.
Qed.

(** The texts of a row that come from errors have no tab and no line break. *)
Definition plain_errors (r : MetricMIB) : Prop :=
  cell_text (text_of (mm_ValidErr r)) ∧ cell_text (text_of (mm_ResolveErr r)).

(** What the rest of a row is made of. *)
Definition printable_row (r : MetricMIB) : Prop :=
  printable (mm_Name r) ∧ printable (mm_TopLevel r) ∧ printable (mm_XNUMatch r).

Lemma plain_app s t : cell_text s → cell_text t → cell_text (s +:+ t).
Proof.
  unfold cell_text. induction s as [|a s IH]; [done|].
  change (String a s +:+ t) with (String a (s +:+ t)). cbn [String.list_ascii_of_string].
  rewrite !Forall_cons. naive_solver.
Qed.

Lemma table_rows_plain results showValid :
  Forall printable_row results → Forall plain_errors results →
  Forall plain_row (table_rows results showValid).
Proof.
  intros Hrows Herrs. unfold table_rows, plain_row.
  assert (Hlit : ∀ l, Forall printable l → Forall cell_text l).
  { intros l Hl. eapply Forall_impl; [exact Hl|exact printable_plain]. }
  constructor; [apply Hlit; destruct showValid; by_decide|].
  constructor; [apply Hlit; destruct showValid; by_decide|].
  apply Forall_fmap. rewrite Forall_forall in *. intros r Hr.
  destruct (Hrows r Hr) as (Hn & Ht & Hx). destruct (Herrs r Hr) as [Hv He].
  unfold compose, row_cells. apply Forall_app. split.
  - rewrite !Forall_cons. split_and!; try (apply printable_plain; by auto with text); [| |by constructor].
    + destruct (decide _); [apply printable_plain, printable_formatMIB|].
      apply plain_app; [apply printable_plain; by_decide|done].
    + destruct (decide _); apply printable_plain; [by_decide|done].
  - destruct showValid; [|constructor]. rewrite Forall_singleton.
    repeat case_match; try done; apply printable_plain; by_decide.
Qed.
End Table.

(** ** Theorems *)

Section Theorems.
Context {W : Type} `{SysctlSpec W} `{ErrorText} `{MapOrder} `{MapOrderZ}.

Lemma Known_names_printable : Forall (λ info, printable (info_Name info)) Known.
Proof. by_decide. Qed.

(** The rows of the table, whatever the kernel answers. *)
Lemma rows_printable validate rows :
  Forall2 (row_for validate)
    (info_Name <$> filter (λ info, info_Type info ≠ TypeComputed) Known) rows →
  Forall printable_row rows.
Proof.
  intros Hrows. rewrite Forall_forall. intros r Hr.
  apply list_elem_of_lookup in Hr as [i Hi].
  destruct (Forall2_lookup_r _ _ _ _ _ Hrows Hi) as (name & Hname & Hrow).
  apply list_elem_of_lookup_2, list_elem_of_fmap in Hname as (info & -> & Hinfo).
  apply list_elem_of_filter in Hinfo as [_ Hinfo].
  destruct Hrow as [Hn Hrow]. split.
  { rewrite Hn. exact (proj1 (Forall_forall _ _) Known_names_printable info Hinfo). }
  destruct (oid_of (info_Name info)).
  - destruct Hrow as (_ & _ & (top & _ & ->) & -> & _).
    split; [apply printable_top_level|apply printable_matchXNU].
  - destruct Hrow as (_ & _ & -> & -> & _). by split; by_decide.
Qed.

(** What a reader of the JSON has for a row: the texts of its errors with
    invalid UTF-8 replaced, and everything else as it is. *)
Definition visible_row (r : MetricMIB) : RowText :=
  mkRowText (mm_Name r) (mm_MIB r) (mm_MIBDepth r) (mm_TopLevel r) (mm_XNUMatch r)
    (mm_Validated r) (clean (text_of (mm_ValidErr r))) (clean (text_of (mm_ResolveErr r))).

Lemma clean_printable s : printable s → clean s = s.
Proof. intros Hs. unfold clean. rewrite (printable_valid s Hs). apply string_of_bytes_of_string. Qed.

Lemma row_text_visible r : printable_row r → row_text r = visible_row r.
Proof.
  intros (Hn & Ht & Hx). unfold row_text, visible_row.
  rewrite (clean_printable _ Hn), (clean_printable _ Ht), (clean_printable _ Hx). done.
Qed.

Lemma name2int_main_run f (w : W) :
  ∃ rows st', resolve_all (nf_validate f) (mkCacheSt w NewMIBCache) = (Ok rows, st') ∧
    Forall2 (row_for (nf_validate f))
      (info_Name <$> filter (λ info, info_Type info ≠ TypeComputed) Known) rows ∧
    name2int_main f (mkCacheSt w NewMIBCache)
    = (Ok ((if nf_json f then outputJSON rows
            else if nf_csv f then unlines (outputCSV rows)
            else Flush (unlines (outputTable rows (nf_validate f))))
           +:+ unlines (printSummary rows (nf_validate f))), st').
Proof.
  destruct (resolve_all_rows (nf_validate f) w) as (rows & st' & Hr & Hrows).
  exists rows, st'. split; [exact Hr|]. split; [exact Hrows|].
  unfold name2int_main. run_simpl. by rewrite Hr.
Qed.

(** C29: [darwin-name2int -json], on any kernel and with any order of map
    iteration: it makes a row for each of the 243 names and prints a JSON text,
    followed by the summary; a JSON reader gets exactly the rows back from that text: every name, MIB
    (null when the name did not resolve), depth, cross-reference and flag
    unchanged, an omitted error as the empty text, and the text of an error
    with at most its invalid UTF-8 replaced. *)
Theorem name2int_json_roundtrip f (w : W) (Hjson : nf_json f = true) :
  ∃ rows st' out,
    resolve_all (nf_validate f) (mkCacheSt w NewMIBCache) = (Ok rows, st') ∧
    name2int_main f (mkCacheSt w NewMIBCache)
    = (Ok (out +:+ unlines (printSummary rows (nf_validate f))), st') ∧
    length rows = 243%nat ∧ read_rows out = Some (visible_row <$> rows).
Proof.
  destruct (name2int_main_run f w) as (rows & st' & Hr & Hrows & Hmain). rewrite Hjson in Hmain.
  exists rows, st', (outputJSON rows). split; [exact Hr|]. split; [exact Hmain|]. split.
  { rewrite <- (Forall2_length _ _ _ Hrows). by vm_compute. }
  unfold outputJSON. rewrite read_rows_json. f_equal.
  apply list_fmap_ext. intros i r Hi. apply row_text_visible.
  exact (Forall_lookup_1 _ _ _ _ (rows_printable _ _ Hrows) Hi).
Qed.

(** C30: the table [darwin-name2int] prints by default is aligned: for rows
    whose error texts have no tab and no line break, each line of the output is
    the line's cells, every one starting at its column's offset, the sum of
    the widths of the columns before it, and each column is at least two wider
    than any of its cells. *)
Theorem name2int_table_aligned f (w : W) (Hjson : nf_json f = false) (Hcsv : nf_csv f = false) :
  ∃ rows st' out,
    resolve_all (nf_validate f) (mkCacheSt w NewMIBCache) = (Ok rows, st') ∧
    name2int_main f (mkCacheSt w NewMIBCache)
    = (Ok (out +:+ unlines (printSummary rows (nf_validate f))), st') ∧
    (Forall plain_errors rows →
     ∃ widths lines, out = unlines lines ∧
       Forall2 (λ cells line,
         (∀ j cell, cells !! j = Some cell →
            ∃ pre post, line = pre +:+ cell +:+ post ∧ rune_count pre = list_sum (take j widths)) ∧
         (∀ j width, widths !! j = Some width →
            rune_count (nth j cells EmptyString) + 2 ≤ width)%nat)
       (table_rows rows (nf_validate f)) lines).
Proof.
  destruct (name2int_main_run f w) as (rows & st' & Hr & Hrows & Hmain).
  rewrite Hjson, Hcsv in Hmain. do 3 eexists. split; [exact Hr|]. split; [exact Hmain|].
  intros Herrs. set (cells := table_rows rows (nf_validate f)).
  pose proof (table_rows_length rows (nf_validate f)) as Hlen. fold cells in Hlen.
  set (k := (if nf_validate f then 5 else 4)%nat) in *.
  exists (column_widths k cells), (write_line (column_widths k cells) <$> cells). split.
  { rewrite outputTable_rows. apply Flush_table; [subst k; destruct (nf_validate f); lia|done|done|].
    apply table_rows_plain; [by eapply rows_printable|done]. }
  assert (Hwide : ∀ row, row ∈ cells → ∀ j width, column_widths k cells !! j = Some width →
            (rune_count (nth j row EmptyString) + 2 ≤ width)%nat).
  { intros row Hrow j width Hj. apply list_lookup_fmap_Some in Hj as (j' & -> & Hj).
    apply lookup_seq in Hj as [-> _]. by apply (column_width_ge j cells row). }
  apply Forall2_fmap_r, Forall_Forall2_diag, Forall_forall. intros row Hrow.
  split; [|by apply Hwide]. intros j cell Hj. apply write_line_offset; [| |done].
  - rewrite (proj1 (Forall_forall _ _) Hlen row Hrow). unfold column_widths.
    by rewrite length_fmap, length_seq.
  - intros i wd Hi. specialize (Hwide row Hrow i wd Hi). lia.
Qed.
End Theorems.

(** ** Witnesses *)

Definition json_flags : Name2IntFlags := mkName2IntFlags false true false.
Definition table_flags : Name2IntFlags := mkName2IntFlags false false true.

Lemma name2int_json_roundtrip_witness :
  ∃ rows st' out,
    @name2int_main demo_text some_order some_orderZ nat demo_kernel json_flags
      (mkCacheSt 0%nat NewMIBCache)
    = (Ok (out +:+ unlines (@printSummary demo_text some_order some_orderZ rows false)), st') ∧
    length rows = 243%nat ∧ read_rows out = Some (@visible_row demo_text <$> rows).
Proof.
  destruct (@name2int_json_roundtrip nat demo_kernel demo_spec demo_text some_order some_orderZ
    json_flags 0%nat eq_refl) as (rows & st' & out & _ & Hmain & Hl & Hread).
  exists rows, st', out. split; [exact Hmain|]. split; [exact Hl|exact Hread].
Defined.

Lemma demo_plain_errors rows : Forall (@plain_errors demo_text) rows.
Proof.
  apply Forall_true. intros r.
  assert (Hp : ∀ e, cell_text (@text_of demo_text e)).
  { intros [e|]; [|constructor]. apply printable_plain. by_decide. }
  by split.
Qed.

Lemma name2int_table_aligned_witness :
  ∃ rows widths lines st',
    @name2int_main demo_text some_order some_orderZ nat demo_kernel table_flags
      (mkCacheSt 0%nat NewMIBCache)
    = (Ok (unlines lines +:+ unlines (@printSummary demo_text some_order some_orderZ rows true)), st') ∧
    Forall2 (λ cells line,
      (∀ j cell, cells !! j = Some cell →
         ∃ pre post, line = pre +:+ cell +:+ post ∧ rune_count pre = list_sum (take j widths)) ∧
      (∀ j width, widths !! j = Some width → rune_count (nth j cells EmptyString) + 2 ≤ width)%nat)
    (@table_rows demo_text rows true) lines.
Proof.
  destruct (@name2int_table_aligned nat demo_kernel demo_spec demo_text some_order some_orderZ
    table_flags 0%nat eq_refl eq_refl) as (rows & st' & out & _ & Hmain & Hal).
  destruct (Hal (demo_plain_errors rows)) as (widths & lines & -> & Hlines).
  exists rows, widths, lines, st'. split; [exact Hmain|exact Hlines].
Defined.

(** A resolved and an unresolved row, rendered both ways. *)
Definition demo_rows : list MetricMIB :=
  [mkMetricMIB "hw.ncpu" [6; 3] 2 "hw" "CTL_HW(6)+HW_(3)" false None None;
   mkMetricMIB "x" [] 0 EmptyString EmptyString false None (Some volatile)].

(** Written here with single quotes for the double ones. *)
Example json_computed :
  bytes_of_string (@outputJSON demo_text demo_rows) =
  (λ b, if decide (b = x27) then x22 else b) <$> bytes_of_string (unlines
    ["["; "  {"; "    'name': 'hw.ncpu',"; "    'mib': ["; "      6,"; "      3"; "    ],";
     "    'mib_depth': 2,"; "    'top_level': 'hw',"; "    'xnu_match': 'CTL_HW(6)+HW_(3)',";
     "    'validated': false"; "  },"; "  {"; "    'name': 'x',"; "    'mib': null,";
     "    'mib_depth': 0,"; "    'top_level': '',"; "    'xnu_match': '',";
     "    'validated': false,"; "    'resolve_err': 'error'"; "  }"; "]"]).
Proof. vm_compute. reflexivity. Qed.

Example table_computed :
  Flush (unlines (@outputTable demo_text demo_rows false)) =
  unlines
    ["NAME     MIB           DEPTH  TOP  XNU";
     "----     ---           -----  ---  ---";
     "hw.ncpu  {6,3}         2      hw   CTL_HW(6)+HW_(3)";
     "x        ERROR: error  0           -"].
Proof. vm_compute. reflexivity. Qed.
