(* ===== verification/Client.v ===== *)
(** * The command-line client (cmd/client/main.go)

    The client against gRPC: the four remote calls it makes are a class, and what
    the client relies on ([delivers]) is a law of it: a unary call ends with an
    error or with a response that the server's handler gave to that request.  The
    client's output is the lines it prints on the two standard streams, and its
    exit status. *)

From Stdlib Require Import ZArith Lia.
From Stdlib Require Import Strings.Byte.
From stdpp Require Import sorting.
From S2P Require Import Prelude Bytes GoTime Kernel TableKernel MibCache Registry.
From S2P Require Import KernelRegistry Classify Metrics FullRegistry Poller Server Name2Int.
From S2P Require Import Report Utf8.

Local Open Scope Z_scope.

(** ** Remote calls *)

Class SysctlClient (S : Type) := {
  rpc_ListCategories : M S (list CategoryInfo);
  rpc_ListKnownMetrics : string → M S KernelMetricRegistry;
  rpc_GetMetricsByCategory : string → M S (list Metric);
  rpc_GetMetrics : list string → M S (list Metric);
}.

(** A unary call of gRPC ends with an error, or with a response that the server,
    in some state of its run, gave to the request.  The server's registry does
    not change; [good] is what the calls keep of the state of the connection. *)
Record delivers {W} `{SysctlSpec W} `{Host W} {S} (client : SysctlClient S)
    (full : KernelMetricRegistry) (good : S → Prop) : Prop := {
  delivers_list s cat : good s →
    let '(r, s') := rpc_ListKnownMetrics cat s in
    good s' ∧ match r with
              | Ok reg => reg = ListKnownMetrics full cat
              | Err _ => True
              | Panic => False
              end;
  delivers_get s names : good s →
    let '(r, s') := rpc_GetMetrics names s in
    good s' ∧ match r with
              | Ok ms => ∃ st st' : ServerSt W, server_ok st ∧ GetMetrics names st = (Ok ms, st')
              | Err _ => True
              | Panic => False
              end;
}.

(** The server's handlers called directly, until [calls] calls have been made:
    after that every call is refused.  (For the examples.) *)
Definition direct_client {W} `{Kernel W} `{Host W} : SysctlClient (nat * ServerSt W) :=
  let call {A} (handler : M (ServerSt W) A) : M (nat * ServerSt W) A := λ s,
    match s.1 with
    | O => (Err (Errno 61), s)
    | S calls => let '(r, st') := handler s.2 in (r, (calls, st'))
    end in
  {|
    rpc_ListCategories := call (mret ListCategories);
    rpc_ListKnownMetrics := λ cat,
      call (gets (λ st, ListKnownMetrics (sv_fullRegistry (ss_server st)) cat));
    rpc_GetMetricsByCategory := λ cat, call (GetMetricsByCategory cat);
    rpc_GetMetrics := λ names, call (GetMetrics names);
  |}.

(** ** Formatting *)

(** [hex.EncodeToString]. *)
Definition EncodeToString (raw : list byte) : string :=
  foldr (λ b s, fmt_hex 2 (byte_to_Z b) +:+ s) EmptyString raw.

Section Client.
Context `{ErrorText} `{MapOrder}.

Definition printMetric (m : Metric) : string :=
  match m_Error m with
  | Some e => pad_right 50 (m_Name m) +:+ " ERROR: " +:+ error_text e
  | None =>
      match m_Value m with
      | Some (Metric_StringValue v) => pad_right 50 (m_Name m) +:+ " " +:+ v
      | Some (Metric_Uint64Value v) => pad_right 50 (m_Name m) +:+ " " +:+ fmt_d v
      | Some (Metric_Int64Value v) => pad_right 50 (m_Name m) +:+ " " +:+ fmt_d v
      | Some (Metric_Uint32Value v) => pad_right 50 (m_Name m) +:+ " " +:+ fmt_d v
      | Some (Metric_Int32Value v) => pad_right 50 (m_Name m) +:+ " " +:+ fmt_d v
      | Some (Metric_RawValue v) =>
          pad_right 50 (m_Name m) +:+ " [" +:+ fmt_d (Z.of_nat (length v)) +:+ " bytes] "
            +:+ EncodeToString v
      | Some (Metric_StructValue type_name fields) =>
          let keys := merge_sort String.le (range_keys fields) in
          let parts := (λ k, k +:+ "=" +:+ default EmptyString (fields !! k)) <$> keys in
          pad_right 50 (m_Name m) +:+ " {" +:+ type_name +:+ "} " +:+ String.concat " " parts
      | None => pad_right 50 (m_Name m) +:+ " <no value>"
      end
  end.

(** A line of [-all]: a blank line and a header where the category changes. *)
Inductive all_line :=
  | ABlank
  | AHeader (category : string)
  | AMetric (m : Metric).

Definition render (l : all_line) : string :=
  match l with
  | ABlank => EmptyString
  | AHeader cat => "=== " +:+ cat +:+ " ==="
  | AMetric m => printMetric m
  end.

Fixpoint all_lines (lastCat : string) (ms : list Metric) : list all_line :=
  match ms with
  | [] => []
  | m :: ms' =>
      if decide (m_Category m ≠ lastCat) then
        (if decide (lastCat ≠ EmptyString) then [ABlank] else [])
        ++ AHeader (m_Category m) :: AMetric m :: all_lines (m_Category m) ms'
      else AMetric m :: all_lines lastCat ms'
  end.

Definition list_line (m : KernelMetric) : string :=
  let recPattern :=
    match km_RecommendedAccessPattern m with
    | Some rec =>
        AccessPattern_String (ac_Pattern rec) +:+
        (match ac_Ttl rec with
         | Some d => "@" +:+ fmt_d (dur_Seconds d) +:+ "s"
         | None => EmptyString
         end)
    | None => EmptyString
    end in
  pad_right 50 (km_Name m) +:+ " " +:+ pad_right 8 (km_ValueType m) +:+ " "
    +:+ pad_right 12 recPattern +:+ " " +:+ km_Description m.

Definition category_line (c : CategoryInfo) : string :=
  pad_right 20 (ci_Name c) +:+ " " +:+ fmt_d (ci_MetricCount c) +:+ " metrics".

(** ** [main] *)

Record Flags := mkFlags {
  f_list : bool;
  f_all : bool;
  f_cat : string;
  f_cats : bool;
  f_args : list string;
}.

Record Output := mkOutput { o_stdout : list string; o_stderr : list string; o_exit : Z }.

Definition exit_ok (stdout stderr : list string) : Output := mkOutput stdout stderr 0.

Definition usage : string :=
  "usage: client [-list] [-all] [-cats] [-cat category] [-addr host:port] [metric-name ...]".

(** [log.Fatalf(what + ": %v", err)]. *)
Definition fatal (what : string) (err : goerror) : Output :=
  mkOutput [] [what +:+ ": " +:+ error_text err] 1.

Definition client_main {S} `{SysctlClient S} (f : Flags) : M S Output :=
  if f_cats f then
    try cats ← rpc_ListCategories catch err ⇒ mret (fatal "ListCategories" err);
    mret (exit_ok (category_line <$> cats) [])
  else if f_list f then
    try reg ← rpc_ListKnownMetrics (f_cat f) catch err ⇒ mret (fatal "ListKnownMetrics" err);
    mret (exit_ok (list_line <$> reg_Metrics reg)
      [EmptyString; fmt_d (Z.of_nat (length (reg_Metrics reg))) +:+ " metrics ("
         +:+ reg_OsRegistry reg +:+ " " +:+ reg_OsVersion reg +:+ ")"])
  else if decide (f_cat f ≠ EmptyString) then
    try ms ← rpc_GetMetricsByCategory (f_cat f)
    catch err ⇒ mret (fatal "GetMetricsByCategory" err);
    mret (exit_ok (printMetric <$> ms) [])
  else if f_all f then
    try reg ← rpc_ListKnownMetrics EmptyString catch err ⇒ mret (fatal "ListKnownMetrics" err);
    let names := km_Name <$> reg_Metrics reg in
    try ms ← rpc_GetMetrics names catch err ⇒ mret (fatal "GetMetrics" err);
    mret (exit_ok (render <$> all_lines EmptyString ms) [])
  else if decide (length (f_args f) = 0%nat) then mret (mkOutput [] [usage] 1)
  else
    try ms ← rpc_GetMetrics (f_args f) catch err ⇒ mret (fatal "GetMetrics" err);
    mret (exit_ok (printMetric <$> ms) []).
End Client.

(** ** Lemmas *)

(** The metrics in sections: the runs of neighbours of one category. *)
Fixpoint sections (ms : list Metric) : list (string * list Metric) :=
  match ms with
  | [] => []
  | m :: ms' =>
      match sections ms' with
      | (cat, g) :: rest =>
          if decide (cat = m_Category m) then (cat, m :: g) :: rest
          else (m_Category m, [m]) :: (cat, g) :: rest
      | [] => [(m_Category m, [m])]
      end
  end.

(** A section in print: its header, then a line for each of its metrics; and
    sections separated by blank lines. *)
Definition section_lines (sec : string * list Metric) : list all_line :=
  AHeader sec.1 :: (AMetric <$> sec.2).
Definition more_lines (secs : list (string * list Metric)) : list all_line :=
  concat ((λ sec, ABlank :: section_lines sec) <$> secs).
Definition sections_lines (secs : list (string * list Metric)) : list all_line :=
  match secs with
  | [] => []
  | sec :: rest => section_lines sec ++ more_lines rest
  end.

Definition section_ok (sec : string * list Metric) : Prop :=
  sec.2 ≠ [] ∧ Forall (λ m, m_Category m = sec.1) sec.2.

Lemma sections_concat ms : concat (sections ms).*2 = ms.
Proof.
  induction ms as [|m ms IH]; [done|]. cbn [sections].
  destruct (sections ms) as [|[cat g] rest]; simpl in *; [by rewrite <- IH|].
  destruct (decide _); simpl; by rewrite IH.
Qed.

Lemma sections_ok ms : Forall section_ok (sections ms).
Proof.
  induction ms as [|m ms IH]; [constructor|]. cbn [sections].
  destruct (sections ms) as [|[cat g] rest].
  { repeat constructor. done. }
  apply Forall_cons in IH as [[Hne Hg] Hrest]. simpl in Hne, Hg.
  destruct (decide (cat = m_Category m)) as [->|].
  - constructor; [|done]. split; [done|]. by constructor.
  - constructor; [split; [done|by repeat constructor]|]. constructor; [by split|done].
Qed.

(** A section bears the category of its metrics. *)
Lemma sections_named (P : string → Prop) secs :
  Forall section_ok secs → Forall (λ m, P (m_Category m)) (concat secs.*2) →
  Forall (λ sec, P sec.1) secs.
Proof.
  induction 1 as [|[cat g] rest [Hg Hc] _ IH]; [constructor|]. cbn [fmap list_fmap concat fst snd] in *.
  intros [Hp Hrest]%Forall_app. constructor; [|by apply IH]. cbn [fst].
  destruct g as [|m g]; [done|]. apply Forall_cons in Hp as [Hp _].
  by apply Forall_cons in Hc as [<- _].
Qed.

(** The loop of [-all] prints the sections. *)
Lemma all_lines_sections lastCat ms :
  Forall (λ m, m_Category m ≠ EmptyString) ms →
  all_lines lastCat ms =
    match sections ms with
    | [] => []
    | sec :: rest =>
        (if decide (sec.1 = lastCat) then AMetric <$> sec.2
         else (if decide (lastCat ≠ EmptyString) then [ABlank] else []) ++ section_lines sec)
        ++ more_lines rest
    end.
Proof.
  intros Hne. revert lastCat. induction Hne as [|m ms Hm _ IH]; intros lastCat; [done|].
  cbn [all_lines sections]. rewrite !(IH (m_Category m)). destruct (sections ms) as [|[cat g] rest].
  { cbn [fst snd]. destruct (decide (m_Category m ≠ lastCat)) as [Hd|Hd].
    - rewrite (decide_False (P := m_Category m = lastCat)) by done.
      by destruct (decide (lastCat ≠ EmptyString)).
    - apply dec_stable in Hd. by rewrite IH, (decide_True (P := m_Category m = lastCat)) by done. }
  cbn [fst snd]. destruct (decide (m_Category m ≠ lastCat)) as [Hd|Hd].
  - destruct (decide (cat = m_Category m)) as [->|Hc]; cbn [fst snd];
      rewrite (decide_False (P := m_Category m = lastCat)) by done;
      destruct (decide (lastCat ≠ EmptyString)); try done;
      by rewrite (decide_True (P := m_Category m ≠ EmptyString)) by done.
  - apply dec_stable in Hd. subst lastCat. rewrite (IH (m_Category m)). cbn [fst snd].
    destruct (decide (cat = m_Category m)) as [->|Hc]; cbn [fst snd];
      rewrite (decide_True (P := m_Category m = m_Category m)) by done; [done|].
    by rewrite (decide_True (P := m_Category m ≠ EmptyString)) by done.
Qed.

(** The places where the category changes. *)
Fixpoint category_runs (lastCat : string) (cats : list string) : list string :=
  match cats with
  | [] => []
  | cat :: cats' =>
      if decide (cat ≠ lastCat) then cat :: category_runs cat cats' else category_runs lastCat cats'
  end.

Lemma sections_runs lastCat ms :
  category_runs lastCat (m_Category <$> ms) =
    match (sections ms).*1 with
    | [] => []
    | cat :: cats => if decide (cat = lastCat) then cats else cat :: cats
    end.
Proof.
  revert lastCat. induction ms as [|m ms IH]; intros lastCat; [done|].
  rewrite fmap_cons. cbn [category_runs sections]. destruct (decide (m_Category m ≠ lastCat)) as [Hd|Hd].
  - rewrite IH. destruct (sections ms) as [|[cat g] rest]; cbn [fmap list_fmap fst].
    { by rewrite decide_False. }
    destruct (decide (cat = m_Category m)) as [->|Hc]; cbn [fmap list_fmap fst];
      by rewrite decide_False.
  - apply dec_stable in Hd. subst lastCat. rewrite IH.
    destruct (sections ms) as [|[cat g] rest]; cbn [fmap list_fmap fst]; [by rewrite decide_True|].
    destruct (decide (cat = m_Category m)) as [->|Hc]; cbn [fmap list_fmap fst];
      by rewrite decide_True.
Qed.

(** The table lists each category in one run. *)
Lemma Known_runs : category_runs EmptyString (info_Category <$> Known) = Categories.
Proof. vm_compute. reflexivity. Qed.

(** Sorting removes the order of iteration. *)
Lemma sorted_keys_unique {A} (o1 o2 : MapOrder) (m : gmap string A) :
  merge_sort String.le (@range_keys o1 A m) = merge_sort String.le (@range_keys o2 A m).
Proof.
  apply (StronglySorted_unique String.le).
  - apply StronglySorted_merge_sort; apply _.
  - apply StronglySorted_merge_sort; apply _.
  - rewrite !merge_sort_Permutation, (@range_keys_perm o1), (@range_keys_perm o2). done.
Qed.

Lemma registry_entry_known info : info ∈ Known → registry_entry (info_Name info) = Some info.
Proof. intros Hin. by apply registry_entry_Some. Qed.

(** A response for a list of table entries has their categories. *)
Lemma response_categories infos ms :
  (∀ info, info ∈ infos → info ∈ Known) →
  Forall2 metric_for (info_Name <$> infos) ms → m_Category <$> ms = info_Category <$> infos.
Proof.
  revert ms. induction infos as [|info infos IH]; intros ms Hin Hall.
  { by apply Forall2_nil_inv_l in Hall as ->. }
  rewrite fmap_cons in Hall. apply Forall2_cons_inv_l in Hall as (m & ms' & Hm & Hall & ->).
  rewrite !fmap_cons. destruct Hm as (_ & Hcat & _).
  rewrite registry_entry_known in Hcat by (apply Hin; left). rewrite Hcat. f_equal.
  apply IH; [|exact Hall]. intros i Hi. apply Hin. by right.
Qed.

(** ** Theorems *)

(** A metric prints as the same line whatever the order in which Go iterates
    over the fields of a struct value. *)
Theorem printMetric_deterministic `{ErrorText} (o1 o2 : MapOrder) m :
  @printMetric _ o1 m = @printMetric _ o2 m.
Proof.
  unfold printMetric. destruct (m_Error m); [done|].
  destruct (m_Value m) as [[]|]; try done. by rewrite (sorted_keys_unique o1 o2).
Qed.

Section Theorems.
Context {W : Type} `{SysctlSpec W} `{Host W} `{ErrorText} `{MapOrder}.

(** Known metrics, in the order of the table. *)
Lemma known_sections ms :
  Forall2 metric_for (info_Name <$> Known) ms →
  all_lines EmptyString ms = sections_lines (sections ms) ∧ (sections ms).*1 = Categories.
Proof.
  intros Hms. pose proof (response_categories Known ms (λ info Hin, Hin) Hms) as Hcats.
  assert (Hne : Forall (λ m, m_Category m ≠ EmptyString) ms).
  { apply (proj1 (Forall_fmap m_Category (λ cat, cat ≠ EmptyString) ms)). rewrite Hcats. by_decide. }
  pose proof (sections_runs EmptyString ms) as Hruns. rewrite Hcats, Known_runs in Hruns.
  rewrite all_lines_sections by done.
  assert (Hcat : Forall (λ sec, sec.1 ≠ EmptyString) (sections ms)).
  { apply (sections_named (λ cat, cat ≠ EmptyString)); [apply sections_ok|by rewrite sections_concat]. }
  destruct (sections ms) as [|sec rest]; [discriminate Hruns|].
  apply Forall_cons in Hcat as [Hcat _]. cbn [fmap list_fmap] in Hruns |- *.
  rewrite (decide_False (P := sec.1 = EmptyString)) in Hruns by done.
  rewrite (decide_False (P := sec.1 = EmptyString)) by done. split; [|by rewrite Hruns].
  by rewrite decide_False by (intros Hn; by apply Hn).
Qed.

(** C35: [client -all], over any transport whose successful calls return what
    the server's handlers answered: when a call fails the client prints nothing
    on standard output, the error on standard error, and exits with status 1;
    when both succeed it exits with status 0, and its standard output is one
    section for each of the 31 categories, in the table's order, separated by
    blank lines: the category's header, then a line for each of its metrics; the
    sections hold, in table order, one metric for each of the table's 250. *)
Theorem client_all_correct {S} (client : SysctlClient S) kernelRegistry good (s : S) args
    (Hrpc : delivers client (buildFullRegistry kernelRegistry) good) (Hgood : good s) :
  let run := client_main (mkFlags false true EmptyString false args) s in
  match rpc_ListKnownMetrics EmptyString s with
  | (Err e, s1) => run = (Ok (fatal "ListKnownMetrics" e), s1)
  | (Ok _, s1) =>
      match rpc_GetMetrics (info_Name <$> Known) s1 with
      | (Err e, s2) => run = (Ok (fatal "GetMetrics" e), s2)
      | (Ok ms, s2) =>
          ∃ secs, run = (Ok (exit_ok (render <$> sections_lines secs) []), s2) ∧
            secs.*1 = Categories ∧ Forall section_ok secs ∧
            Forall2 metric_for (info_Name <$> Known) (concat secs.*2) ∧ concat secs.*2 = ms
      | (Panic, _) => False
      end
  | (Panic, _) => False
  end.
Proof.
  unfold client_main. cbn [f_cats f_list f_cat f_all]. rewrite decide_False by (intros Hn; by apply Hn).
  cbv zeta. run_simpl. pose proof (delivers_list _ _ _ Hrpc s EmptyString Hgood) as Hlist.
  destruct (rpc_ListKnownMetrics EmptyString s) as [[reg|e|] s1]; [|done|by destruct Hlist].
  destruct Hlist as [Hgood1 ->]. unfold ListKnownMetrics. rewrite decide_True by done.
  rewrite full_names.
  pose proof (delivers_get _ _ _ Hrpc s1 (info_Name <$> Known) Hgood1) as Hget.
  destruct (rpc_GetMetrics _ s1) as [[ms|e|] s2]; [|done|by destruct Hget].
  destruct Hget as (_ & st & st' & Hok & Hrun).
  destruct (GetMetrics_run (info_Name <$> Known) st Hok) as (ms' & st'' & Hrun' & _ & _ & Hms & _).
  rewrite Hrun in Hrun'. injection Hrun' as <- <-.
  assert (Hall : Forall2 metric_for (info_Name <$> Known) ms).
  { eapply Forall2_impl; [exact Hms|]. by intros name m [? _]. }
  destruct (known_sections ms Hall) as [Hlines Hcats]. exists (sections ms).
  rewrite sections_concat, Hlines. split; [reflexivity|]. split; [exact Hcats|].
  split; [apply sections_ok|]. by split.
Qed.
End Theorems.

(** The client's exit status: with remote calls that return (a value or an
    error) it always finishes, with status 0, or with status 1 and nothing on
    standard output; without flags and arguments it prints its usage and calls
    nothing. *)
Theorem client_exit_status {S} `{SysctlClient S} `{ErrorText} `{MapOrder} (f : Flags) (s : S)
    (Hsafe : safe rpc_ListCategories ∧ (∀ c, safe (rpc_ListKnownMetrics c)) ∧
             (∀ c, safe (rpc_GetMetricsByCategory c)) ∧ (∀ ns, safe (rpc_GetMetrics ns))) :
  (∃ out s', client_main f s = (Ok out, s') ∧
     (o_exit out = 0 ∨ o_exit out = 1 ∧ o_stdout out = [])) ∧
  (f = mkFlags false false EmptyString false [] → client_main f s = (Ok (mkOutput [] [usage] 1), s)).
Proof.
  destruct Hsafe as (Hs1 & Hs2 & Hs3 & Hs4). split; [|by intros ->].
  unfold client_main. run_simpl. destruct (f_cats f); [|destruct (f_list f)].
  - specialize (Hs1 s). destruct (rpc_ListCategories s) as [[]]; [..|done]; eauto 10.
  - specialize (Hs2 (f_cat f) s). destruct (rpc_ListKnownMetrics _ s) as [[]]; [..|done]; eauto 10.
  - destruct (decide (f_cat f ≠ EmptyString)); [|destruct (f_all f)].
    + specialize (Hs3 (f_cat f) s). destruct (rpc_GetMetricsByCategory _ s) as [[]]; [..|done]; eauto 10.
    + specialize (Hs2 EmptyString s).
      destruct (rpc_ListKnownMetrics _ s) as [[reg|e|] s1]; [|eauto 10|done].
      specialize (Hs4 (km_Name <$> reg_Metrics reg) s1).
      destruct (rpc_GetMetrics _ s1) as [[]]; [..|done]; eauto 10.
    + destruct (decide (length (f_args f) = 0%nat)); [eauto 10|].
      specialize (Hs4 (f_args f) s). destruct (rpc_GetMetrics _ s) as [[]]; [..|done]; eauto 10.
Qed.

(** ** Witnesses on the concrete kernel *)

Lemma direct_delivers :
  @delivers nat demo_kernel demo_spec demo_host _ (@direct_client nat demo_kernel demo_host)
    (buildFullRegistry None)
    (λ s, @server_ok nat demo_kernel demo_spec s.2 ∧
          sv_fullRegistry (ss_server s.2) = buildFullRegistry None).
Proof.
  split; intros [[|n] st] arg [Hok Hfull]; cbn [rpc_ListKnownMetrics rpc_GetMetrics direct_client fst snd];
    [done| |done|].
  - run_simpl. cbn [snd] in *. by rewrite Hfull.
  - destruct (@GetMetrics_run nat demo_kernel demo_spec demo_host arg st Hok) as (ms & st' & Hrun & Hok' & Hsrv & _). cbn [snd] in *.
    rewrite Hrun. split; [|by exists st, st']. split; [exact Hok'|]. cbn [snd]. by rewrite Hsrv.
Qed.

(** Two calls succeed; and, where only one is let through, the second fails. *)
Lemma client_all_correct_witness :
  let main := @client_main demo_text some_order _ (@direct_client nat demo_kernel demo_host)
                (mkFlags false true EmptyString false []) in
  (∃ secs s', main (2%nat, demo_server)
    = (Ok (@exit_ok (@render demo_text some_order <$> sections_lines secs) []), s') ∧
    length secs = 31%nat) ∧
  ∃ s', main (1%nat, demo_server) = (Ok (@fatal demo_text "GetMetrics" (Errno 61)), s').
Proof.
  split.
  - pose proof (@client_all_correct nat demo_kernel demo_spec demo_host demo_text some_order _ _ None
      _ (2%nat, demo_server) [] direct_delivers (conj demo_server_ok eq_refl)) as Hall.
    destruct (@GetMetrics_run nat demo_kernel demo_spec demo_host (info_Name <$> Known) demo_server
      demo_server_ok) as (ms & st' & Hrun & _).
    cbv zeta in Hall.
    change (@rpc_ListKnownMetrics _ _ EmptyString (2%nat, demo_server))
      with (Ok (ListKnownMetrics (sv_fullRegistry (ss_server demo_server)) EmptyString),
            (1%nat, demo_server)) in Hall.
    cbv iota beta in Hall.
    change (@rpc_GetMetrics _ _ (info_Name <$> Known) (1%nat, demo_server))
      with (let '(r, st') := @GetMetrics nat demo_kernel demo_host (info_Name <$> Known) demo_server in
            (r, (0%nat, st'))) in Hall.
    rewrite Hrun in Hall. destruct Hall as (secs & Hmain & Hcats & _).
    exists secs, (0%nat, st'). split; [exact Hmain|].
    rewrite <- (length_fmap fst secs), Hcats. reflexivity.
  - exact (ex_intro _ _ (@client_all_correct nat demo_kernel demo_spec demo_host demo_text some_order
      _ _ None _ (1%nat, demo_server) [] direct_delivers (conj demo_server_ok eq_refl))).
Defined.

(** A client whose every call is refused. *)
Definition refusing_client : SysctlClient unit := {|
  rpc_ListCategories := raise (Errno 61);
  rpc_ListKnownMetrics := λ _, raise (Errno 61);
  rpc_GetMetricsByCategory := λ _, raise (Errno 61);
  rpc_GetMetrics := λ _, raise (Errno 61);
|}.

Lemma client_exit_status_witness :
  ∃ out s', @client_main demo_text some_order unit refusing_client
      (mkFlags false true EmptyString false []) tt = (Ok out, s') ∧
    (o_exit out = 0 ∨ o_exit out = 1 ∧ o_stdout out = []).
Proof.
  apply (@client_exit_status unit refusing_client demo_text some_order
    (mkFlags false true EmptyString false []) tt).
  split_and!; intros; discriminate.
Defined.
