(* ===== verification/Commands.v ===== *)
(** * The three commands from their argument vectors (cmd/client/main.go,
    cmd/darwin-name2int/main.go, cmd/server/main.go: the flags of [main])

    The flags each command defines, with their defaults, and the command run on
    an argument vector: flag parsing either ends the process or gives [main]
    its flags and the remaining arguments. *)

From Stdlib Require Import ZArith Lia.
From S2P Require Import Prelude GoTime Kernel TableKernel MibCache Registry KernelRegistry.
From S2P Require Import Metrics Poller Server Service Name2Int Flags Report Name2IntMain Client.

Local Open Scope Z_scope.

(** What a command ends in: [main] ran, or [flag.Parse] exited. *)
Inductive command_result (A : Type) :=
  | Ran (a : A)
  | Exited (status : Z) (message : option goerror).
Arguments Ran {A} a.
Arguments Exited {A} status message.

Definition run_command {S F A} (formal : list (string * flag_value F)) (defaults : F)
    (main : F → list string → M S A) (argv : list string) : M S (command_result A) :=
  match flag_Parse formal defaults argv with
  | Parsed f args => a ← main f args; mret (Ran a)
  | Help => mret (Exited 0 None)
  | Usage message => mret (Exited 2 (Some message))
  end.

(** ** client *)

Record ClientFlags := mkClientFlags {
  cf_addr : string;
  cf_list : bool;
  cf_all : bool;
  cf_cat : string;
  cf_cats : bool;
}.

Definition default_client_flags : ClientFlags :=
  mkClientFlags "localhost:50051" false false EmptyString false.

Definition client_formal : list (string * flag_value ClientFlags) :=
  [("addr", StringFlag (λ v f, mkClientFlags v (cf_list f) (cf_all f) (cf_cat f) (cf_cats f)));
   ("list", BoolFlag (λ v f, mkClientFlags (cf_addr f) v (cf_all f) (cf_cat f) (cf_cats f)));
   ("all", BoolFlag (λ v f, mkClientFlags (cf_addr f) (cf_list f) v (cf_cat f) (cf_cats f)));
   ("cat", StringFlag (λ v f, mkClientFlags (cf_addr f) (cf_list f) (cf_all f) v (cf_cats f)));
   ("cats", BoolFlag (λ v f, mkClientFlags (cf_addr f) (cf_list f) (cf_all f) (cf_cat f) v))].

Section ClientCommand.
Context {S : Type} (grpc_NewClient : string → SysctlClient S + goerror).
Context `{ErrorText} `{MapOrder}.

(** The flags as the rest of [main] reads them, with [flag.Args()]. *)
Definition client_flags (f : ClientFlags) (args : list string) : Flags :=
  mkFlags (cf_list f) (cf_all f) (cf_cat f) (cf_cats f) args.

(** [main]: a client that cannot be made is fatal. *)
Definition client_connect (f : ClientFlags) (args : list string) : M S Output :=
  match grpc_NewClient (cf_addr f) with
  | inl client => @client_main _ _ _ client (client_flags f args)
  | inr err => mret (fatal "connect" err)
  end.

Definition client_command : list string → M S (command_result Output) :=
  run_command client_formal default_client_flags client_connect.
End ClientCommand.

(** ** darwin-name2int *)

Definition default_name2int_flags : Name2IntFlags := mkName2IntFlags false false false.

Definition name2int_formal : list (string * flag_value Name2IntFlags) :=
  [("csv", BoolFlag (λ v f, mkName2IntFlags v (nf_json f) (nf_validate f)));
   ("json", BoolFlag (λ v f, mkName2IntFlags (nf_csv f) v (nf_validate f)));
   ("validate", BoolFlag (λ v f, mkName2IntFlags (nf_csv f) (nf_json f) v))].

(** Arguments after the flags are ignored. *)
Definition name2int_command {W} `{Kernel W} `{ErrorText} `{MapOrder} `{MapOrderZ} :
    list string → M (CacheSt W) (command_result string) :=
  run_command name2int_formal default_name2int_flags (λ f _args, name2int_main f).

(** ** server *)

(** The syntax of integers and durations ([strconv.ParseInt] with base 0 and
    [time.ParseDuration]). *)
Class FlagSyntax := {
  parse_int : string → Z + goerror;
  parse_duration : string → Z + goerror;
}.

(** [flag.Int], [flag.Duration]: a value the syntax rejects is an error. *)
Definition ParsedFlag {F} (parse : string → Z + goerror) (set : Z → F → F) : flag_value F :=
  ValueFlag (λ v f, match parse v with inl z => inl (set z f) | inr err => inr err end).

Definition server_formal `{FlagSyntax} : list (string * flag_value ServerFlags) :=
  [("port", ParsedFlag parse_int (λ v f, mkServerFlags v (sf_osVersion f) (sf_pollInterval f)));
   ("os-version", StringFlag (λ v f, mkServerFlags (sf_port f) v (sf_pollInterval f)));
   ("poll-interval", ParsedFlag parse_duration (λ v f, mkServerFlags (sf_port f) (sf_osVersion f) v))].

Definition server_command {W} `{Kernel W} `{Host W} `{MapOrder} `{RegistryFiles} `{Network}
    `{FlagSyntax} : list string → M (Proc W) (command_result (MainSt W)) :=
  run_command server_formal default_server_flags (λ f _args, server_main f).

(** ** Argument vectors that say everything *)

Definition bool_text (b : bool) : string := if b then "true" else "false".

Definition client_argv (f : ClientFlags) (args : list string) : list string :=
  [flag_arg "cats" (bool_text (cf_cats f)); flag_arg "cat" (cf_cat f);
   flag_arg "all" (bool_text (cf_all f)); flag_arg "list" (bool_text (cf_list f));
   flag_arg "addr" (cf_addr f); "--"] ++ args.

Definition name2int_argv (f : Name2IntFlags) (args : list string) : list string :=
  [flag_arg "csv" (bool_text (nf_csv f)); flag_arg "json" (bool_text (nf_json f));
   flag_arg "validate" (bool_text (nf_validate f)); "--"] ++ args.

Definition server_argv (port os_version poll_interval : string) (args : list string) : list string :=
  [flag_arg "port" port; flag_arg "os-version" os_version;
   flag_arg "poll-interval" poll_interval; "--"] ++ args.

(** One literal flag of a literal list. *)
Local Ltac parse_bool := erewrite flag_Parse_bool; [|by_decide|reflexivity].
Local Ltac parse_value_flag := erewrite flag_Parse_value; [|by_decide|reflexivity|].

(** C40: the flags of the three commands: for every choice of values, the
    argument vector that spells it out, with [-name=value] for each flag and
    the arguments after two dashes, is parsed back to those values and those
    arguments, whatever bytes the text values and the arguments contain (dashes,
    equal signs, the empty string); so the command runs [main] on exactly
    them.  For the server the port and the interval are those their texts stand
    for; a text that stands for none ends the process with status 2 and the
    state untouched. *)
Theorem command_lines_roundtrip `{FlagSyntax} port os_version poll_interval p d
    (Hport : parse_int port = inl p) (Hpoll : parse_duration poll_interval = inl d) :
  (∀ f args, flag_Parse client_formal default_client_flags (client_argv f args) = Parsed f args) ∧
  (∀ f args,
     flag_Parse name2int_formal default_name2int_flags (name2int_argv f args) = Parsed f args) ∧
  (∀ args, flag_Parse server_formal default_server_flags
     (server_argv port os_version poll_interval args)
   = Parsed (mkServerFlags p os_version d) args) ∧
  (∀ {S A} (main : ServerFlags → list string → M S A) (s : S) bad err args,
     parse_int bad = inr err →
     ∃ m, run_command server_formal default_server_flags main
            (server_argv bad os_version poll_interval args) s = (Ok (Exited 2 (Some m)), s)).
Proof.
  split_and!.
  - intros [addr li al cat cats] args. unfold client_argv, bool_text. cbn [app cf_addr cf_list cf_all cf_cat cf_cats].
    parse_bool. parse_value_flag; [|reflexivity]. parse_bool. parse_bool.
    parse_value_flag; [|reflexivity]. by rewrite flag_Parse_end.
  - intros [csv js va] args. unfold name2int_argv, bool_text. cbn [app nf_csv nf_json nf_validate].
    parse_bool. parse_bool. parse_bool. by rewrite flag_Parse_end.
  - intros args. unfold server_argv. cbn [app].
    parse_value_flag; [|cbv beta; by rewrite Hport]. parse_value_flag; [|reflexivity].
    parse_value_flag; [|cbv beta; by rewrite Hpoll]. by rewrite flag_Parse_end.
  - intros S A main s bad err args Hbad. unfold run_command, server_argv. cbn [app flag_Parse].
    rewrite classify_flag_arg by by_decide. cbn [find_flag]. eexists.
    change (find_flag server_formal "port") with
      (Some (ParsedFlag parse_int (λ v f, mkServerFlags v (sf_osVersion f) (sf_pollInterval f)))).
    unfold ParsedFlag. cbv iota. rewrite Hbad. reflexivity.
Qed.

(** Decimal ports and a table of two intervals. *)
Definition demo_syntax : FlagSyntax := {|
  parse_int := λ s, if decide (s = "8080") then inl 8080 else inr (Errorf "parse error" []);
  parse_duration := λ s, if decide (s = "1s") then inl Second else inr (Errorf "parse error" []);
|}.

Lemma command_lines_roundtrip_witness :
  flag_Parse client_formal default_client_flags
    (client_argv (mkClientFlags "-=" true false EmptyString false) ["-all"; "--"])
  = Parsed (mkClientFlags "-=" true false EmptyString false) ["-all"; "--"] ∧
  flag_Parse (@server_formal demo_syntax) default_server_flags (server_argv "8080" "25.0.0" "1s" [])
  = Parsed (mkServerFlags 8080 "25.0.0" Second) [].
Proof.
  destruct (@command_lines_roundtrip demo_syntax "8080" "25.0.0" "1s" 8080 Second eq_refl eq_refl)
    as (Hclient & _ & Hserver & _).
  split; [apply Hclient|apply Hserver].
Defined.

(** A separate value, an implied true, a word that ends the flags, and help. *)
Example flags_computed :
  flag_Parse client_formal default_client_flags ["-cat"; "hw.cpu"; "--list"; "hw.ncpu"; "-all"]
  = Parsed (mkClientFlags "localhost:50051" true false "hw.cpu" false) ["hw.ncpu"; "-all"] ∧
  flag_Parse client_formal default_client_flags ["-h"] = Help ∧
  flag_Parse client_formal default_client_flags ["-verbose"]
  = Usage (Errorf "flag provided but not defined: -%s" [AStr "verbose"]).
Proof. split_and!; vm_compute; reflexivity. Qed.
